(* ===== verification/_CoqProject ===== *)
-Q . S2P
Prelude.v
Text.v
Errors.v
CircuitBreaker.v
Reader.v
Evidence.v
Yenc.v
ReadBuffer.v
ByteCount.v
Framing.v
Handshake.v
ReaderControl.v
Prog.v
Dispatch.v
Stats.v
Pipeline.v
PipelineSys.v
PipelineLogic.v
PipelineInv.v
PipelineSafe.v
Connection.v
Gate.v
Slot.v
Pool.v
Registry.v
Visit.v
Contract.v
Router.v
Attempt.v
Article.v
Sweep.v
Post.v
Routing.v
Snapshot.v
Speedtest.v
Command.v
Main.v
