(* ===== verification/Prelude.v ===== *)
(** * A verification of nntppool

    nntppool is a Go client for NNTP servers: it keeps pools of connections to one or
    more providers, pipelines commands on each connection, decodes yEnc bodies while
    they arrive, and tries a request on one provider after the other until it is
    answered.  This development models its Go sources and proves what its callers and
    its parts rely on.

    ** The program and its model

    A call of the client goes through these parts, from the caller down.

    - The calls: [Body], [Head], [Stat] and their variants ([client.go]) are Article.v;
      [StatMany] ([stat.go]) is Sweep.v; posting ([post.go] and the posting part of
      [client.go]) is Post.v; [SpeedTest] with the NZB types ([speedtest.go],
      [nzb/nzb.go]) is Speedtest.v; of the tool around it ([cmd/speedtest/main.go])
      the options are Command.v, the flags and [main] Main.v; [Stats] is Snapshot.v.
    - The router ([nntp.go]): [doSendWithRetry], [raceCandidates] and
      [tryGroupResilient] are Pool.v, with the arithmetic of weights and of the first
      choice in Dispatch.v.  It chooses providers by quota (Stats.v), breaker
      (CircuitBreaker.v) and speed, races STAT probes, retries, and delivers one
      response.  [tryGroup], one attempt on one provider, is Attempt.v.
    - The providers ([nntp.go]): [NewClient], [startProviderGroup], [AddProvider],
      [RemoveProvider], [scheduleReconnect], [ResetProviderQuota], [Close] are
      Registry.v.  A provider has connection slots: [runConnSlot] is Slot.v, the gate
      they pass ([connGate]) is Gate.v.
    - A connection ([nntp.go]): dialling, greeting, AUTHINFO and the ping are
      Handshake.v; its two goroutines [Run] and [readerLoop] are Pipeline.v.
    - A response: the read buffer and the loop that feeds a decoder from it
      ([readBuffer.go]) are ReadBuffer.v; the decoder and the body's validation
      ([reader.go]) are Reader.v; deadlines and the drain of an abandoned body (the
      [control] closure of [readerLoop]) are ReaderControl.v.
    - What is said of it: errors and their classification ([errors.go]) are Errors.v;
      requests, responses and the evidence of an attempt are Evidence.v; counters,
      averages and quotas ([metrics.go]) are Stats.v.

    The remaining files hold what is needed to state and prove: this file (bytes, Go's
    integers, strings and number parsing, record update, counting), Text.v
    ([strings], [mime], [base64]), Prog.v (programs and their executions), Visit.v,
    Contract.v, Router.v and Routing.v (what one call on a provider does, the router's
    contract, that it keeps it, the theorems),
    PipelineSys.v, PipelineLogic.v, PipelineInv.v, PipelineSafe.v and Connection.v (the
    shared state of a connection, a logic for its goroutines, the invariant, that the
    goroutines follow the logic, the theorems), ByteCount.v, Framing.v and Yenc.v (the
    decoder on the wire).

    ** How it is modelled

    - Integers are [Z] with Go's wrap-around written out ([wrap64], [wrap32],
      [wrapU64]) where it can matter; [float64] is the standard library's executable
      IEEE 754 model.  Wire data is [list byte], names of providers are [string].
    - An [error] that may be nil is [option gerror]; [errors.Is] and [errors.As] walk
      the tree of causes.  A slice out of range is the outcome [Panicked].
    - Sequential code is functions with explicit state.  The connection is a script of
      what its reads will return, after which the peer has closed it or is silent: a read
      of a silent peer fails at its deadline, and without one it is the outcome [Blocked].
      Any script is covered.
    - The yEnc decoder is a parameter: any function of the slice and of its state.  What
      it says of the bytes it consumed is used as the code uses it, so a count that the
      slice does not have is [Panicked].
    - Code that meets other goroutines is a program (Prog.v): it asks the environment
      one question after the other, an execution is a trace of questions and answers,
      and every answer the environment could give is an execution.  Router, attempt,
      slot, posting, article calls and speed test are programs; the theorems are about
      all their executions.  The connection's two programs also run against an explicit
      shared state (PipelineSys.v), in every interleaving of their operations with
      those of callers, server and clock; gate, breaker, registry and bulk STAT are
      step relations.
    - Locks: an operation that runs under one mutex is one step.  Where the code has no
      lock its accesses are steps of their own: the lists of providers ([edit_step] of
      Registry.v) and the quota's counter, flag and deadline ([quota_call_step] of
      Stats.v).  The statistics that no decision depends on are one step an operation.

    ** The theorems

    - Requests: exactly one response is delivered, as the router's last action
      ([Routing.deliver_once]); "no such article", by the error the client makes of the response as well as by
      its code, is conclusive ([absence_conclusive], with
      [Visit.absence_451_confirmed] for 451, and the exception that
      [Routing.odd_success_reads_absent] shows to be real); a caller's
      writer is not used twice ([single_writer]); leases and the pool are settled at
      delivery ([pool_settled]); one provider gets at most four attempts
      that reach a connection ([Visit.attempts_bounded]; the refused ones are not
      bounded, [refusals_unbounded]); the error's kind is the stated aggregate of the
      attempts ([Errors.newTransportError_kind]); the first choice is fair
      ([Dispatch.dispatch_fair]).
    - Attempts: [Attempt.tryGroup_contract] shows that an attempt keeps the contract
      the router's theorems assume, and [reader_reply_contract] that a connection's
      replies are such, up to errors that the caller's writer, the network, the decoder
      or a context brings in ([writer_error_is_absence] shows what one can do).
    - Connections, of a provider's pool: every request a connection received is answered
      ([Connection.all_answered]), responses go to commands in their order
      ([responses_in_order]), in every reachable state there is a slot in use for every
      command in the pipeline ([pipeline_bounded], and [Registry.limits_respected] from
      a provider's configuration), what must not block does not
      ([internal_never_blocks]); the gate's counters ([Gate.gate_counts]) and the slots,
      which wait outside the gate ([Slot.slot_settles]).
    - Bytes: the feed loop ends, or waits for a silent peer, and loses nothing
      ([Framing.feedUntilDone_conserves]); under [readerLoop]'s control it takes exactly
      one response off the stream however it is segmented
      ([ReaderControl.pipelined_reply_framed]); a yEnc part is read back from what a poster prints
      ([Yenc.article_roundtrip]); an accepted body has the declared size and CRC
      ([Reader.delivered_body_verified]), and is what [Body] returns
      ([Article.body_delivered]); an abandoned body is bounded
      ([ReaderControl.abandoned_body_bounded]); the handshake follows the protocol
      ([Handshake.handshake_refines]) and ends unless the server falls silent
      ([handshake_ends], [silent_server_blocks]).
    - Providers: what [NewClient] accepts ([Registry.NewClient_accepts]), that the listed
      providers are valid and, while calls do not overlap, their names and identities
      distinct ([providers_distinct]; [reconnects_duplicate] when they do); the breaker's
      probes and window ([CircuitBreaker.breaker_probe_exclusive],
      [breaker_failure_window]); the quota as an exact account within a period
      ([Stats.quota_exact]; at its end [elapsed_period_unnoticed], [reset_races_usage],
      [checks_race]); and that the public statistics say what the
      pool does ([Snapshot.snapshot_faithful]).
    - Bulk, posting, tools: [Sweep.sweep_results], [sweep_bounded], [sweep_ends];
      [Post.post_once], [post_received], [headers_written], [headers_roundtrip];
      [Speedtest.speedtest_measures]; and the tool from its command line to its exit
      code ([Main.command_line_runs]).

    Each file ends with the witnesses of its theorems, evaluated on concrete inputs,
    and with the departures: theorems that show where the code does less than its
    comments or its callers expect ([Routing.lone_candidate_skips_backups],
    [Connection.standalone_request_lost], [Post.repeated_headers], and others).

    ** Bounds and fuel

    - [decode_lines] gets one unit of fuel more than the buffer has bytes, the feed loop
      one more than the script's reads and bytes; [Feed] and [feedUntilDoneControlled]
      are proved never to run out.  [fold_loop], [split_runes], [strip] and
      [duration_loop] get the length of their input and take at least one byte off it
      at each turn; [digits_aux] gets twenty digits, enough for an [int64].
    - The router's retry loop takes the fuel of its caller: [deliver_once] needs more
      than four plus the number of attempts that were refused for want of a fresh
      transport, the only retries the code does not bound; a run of them that does not
      end is not excluded.
    - [Run], [readerLoop], [runConnSlot] and the progress goroutine serve as long as
      requests come: their fuel bounds the length of the run looked at, and their
      theorems hold for every fuel, of every reachable state; those about the end of a
      goroutine are about runs that end.
    - Constants of the code (limits, timeouts, thresholds) have its values.

    ** Not modelled

    - The decoder and the encoder of rapidyenc, which are not part of the repository:
      parameters.  Nothing is assumed of the decoder but in [Yenc.article_roundtrip],
      that it decodes one whole part, and in [Attempt.reader_reply_contract], that its
      error is not the pool's own; of the encoder, in [Post.post_received], that it
      prints the dot-stuffed lines of a body.  Concrete functions satisfy these.
    - The network, TLS, the resolver, the HTTP client, the XML decoder and the file
      system: their answers are arguments or answers of the environment.
    - The [onMeta] callback, user agents, the texts of error messages that carry
      numbers, and memory: buffers are values, and what is recycled is modelled where
      the code passes it on (the read buffer of a slot).
    - The goroutine and the channel of a call that returns a channel: the model gives
      what the channel receives.  The tool's lines are their formats' arguments, not
      the text [fmt] makes of them.
    - The Go memory model: shared accesses are sequentially consistent. *)
From Stdlib Require Export ZArith Lia Bool.
From Stdlib.Init Require Export Byte.
From stdpp Require Export base list gmap strings numbers.
#[global] Open Scope Z_scope.

(** ** Bytes *)

(** A Go [[]byte] or wire string. *)
Abbreviation bytes := (list byte).

#[export] Instance byte_eq_dec : EqDecision byte := Byte.byte_eq_dec.

#[export] Instance byte_countable : Countable byte.
Proof.
  apply (inj_countable Byte.to_N Byte.of_N).
  intros b. apply Byte.of_to_N.
Defined.

(** The numeric value of a byte, as Go's [int(c)]. *)
Definition bval (b : byte) : Z := Z.of_N (Byte.to_N b).

(** A string constant of the source as bytes. *)
Definition bs (s : string) : bytes := String.list_byte_of_string s.

Definition zlen {A} (l : list A) : Z := Z.of_nat (length l).

(** ["\r\n"] *)
Definition crlf : bytes := [x0d; x0a].

(** ** Machine integers *)

(** Two's complement wrap-around of Go's [int64] (and [int] on a 64-bit target). *)
Definition wrap64 (z : Z) : Z := (z + 2 ^ 63) mod 2 ^ 64 - 2 ^ 63.
Definition wrap32 (z : Z) : Z := (z + 2 ^ 31) mod 2 ^ 32 - 2 ^ 31.
(** Wrap-around of Go's [uint64]. *)
Definition wrapU64 (z : Z) : Z := z mod 2 ^ 64.

Definition in_int64 (z : Z) : Prop := - 2 ^ 63 <= z < 2 ^ 63.
Definition max_int64 : Z := 2 ^ 63 - 1.

Definition GoSecond : Z := 1000000000.
Definition GoMillisecond : Z := 1000000.

(** ** The standard library's byte-slice helpers *)

(** [bytes.HasPrefix(s, p)] *)
Fixpoint has_prefix (p s : bytes) : bool :=
  match p, s with
  | [], _ => true
  | a :: p', b :: s' => bool_decide (a = b) && has_prefix p' s'
  | _ :: _, [] => false
  end.

(** [bytes.HasSuffix(s, p)] *)
Definition has_suffix (p s : bytes) : bool := has_prefix (rev p) (rev s).

(** [bytes.Index(s, sep)]; [None] is Go's [-1]. *)
Fixpoint index_of (sep s : bytes) : option nat :=
  if has_prefix sep s then Some O
  else match s with
       | [] => None
       | _ :: s' => S <$> index_of sep s'
       end.

(** [bytes.Contains] *)
Definition contains (sep s : bytes) : bool :=
  match index_of sep s with Some _ => true | None => false end.

(** [bytes.IndexAny(s, chars)] for an ASCII character set. *)
Fixpoint index_any (chars s : bytes) : option nat :=
  match s with
  | [] => None
  | b :: s' => if bool_decide (b ∈ chars) then Some O else S <$> index_any chars s'
  end.

(** [bytes.Cut(s, sep)] *)
Definition cut_at (sep s : bytes) : option (bytes * bytes) :=
  match index_of sep s with
  | Some i => Some (take i s, drop (i + length sep) s)
  | None => None
  end.

(** [bytes.TrimLeft(s, cutset)] for an ASCII cutset. *)
Fixpoint trim_left (cutset s : bytes) : bytes :=
  match s with
  | b :: s' => if bool_decide (b ∈ cutset) then trim_left cutset s' else s
  | [] => []
  end.

(** [bytes.TrimRight(s, cutset)] for an ASCII cutset. *)
Definition trim_right (cutset s : bytes) : bytes := rev (trim_left cutset (rev s)).

(** The slice expression [s[n:]]; [None] is Go's run-time panic. *)
Definition slice_from (n : Z) (s : bytes) : option bytes :=
  if (n <? 0) || (zlen s <? n) then None else Some (drop (Z.to_nat n) s).

(** ** [strconv] *)

(** The two failures of [strconv.ParseInt] and its siblings. *)
Inductive num_error := ErrSyntax | ErrRange.
#[export] Instance num_error_eq_dec : EqDecision num_error.
Proof. solve_decision. Defined.

Definition digit_val (b : byte) : option Z :=
  let v := bval b in
  if (48 <=? v) && (v <=? 57) then Some (v - 48) else None.

Definition hex_val (b : byte) : option Z :=
  let v := bval b in
  if (48 <=? v) && (v <=? 57) then Some (v - 48)
  else if (97 <=? v) && (v <=? 102) then Some (v - 87)
  else if (65 <=? v) && (v <=? 70) then Some (v - 55)
  else None.

(** The digit loop of [strconv.ParseUint(s, base, 64)] with accumulator [n]:
    the overflow tests come before the next character is looked at. *)
Fixpoint parse_uint_loop (dv : byte -> option Z) (base maxVal : Z) (s : bytes) (n : Z)
  : Z * option num_error :=
  match s with
  | [] => (n, None)
  | c :: s' =>
      match dv c with
      | None => (0, Some ErrSyntax)
      | Some d =>
          if (2 ^ 64 - 1) / base + 1 <=? n then (maxVal, Some ErrRange)
          else let n1 := n * base + d in
               if maxVal <? n1 then (maxVal, Some ErrRange)
               else parse_uint_loop dv base maxVal s' n1
      end
  end.

Definition parse_uint (dv : byte -> option Z) (base maxVal : Z) (s : bytes)
  : Z * option num_error :=
  match s with
  | [] => (0, Some ErrSyntax)
  | _ => parse_uint_loop dv base maxVal s 0
  end.

(** [strconv.ParseInt(s, 10, 64)] *)
Definition parse_int (s : bytes) : Z * option num_error :=
  match s with
  | [] => (0, Some ErrSyntax)
  | c :: s' =>
      let neg := bool_decide (c = x2d) in
      let body := if bool_decide (c = x2b) || neg then s' else s in
      match parse_uint digit_val 10 (2 ^ 64 - 1) body with
      | (_, Some ErrSyntax) => (0, Some ErrSyntax)
      | (un, e) =>
          if negb neg && (2 ^ 63 <=? un) then (2 ^ 63 - 1, Some ErrRange)
          else if neg && (2 ^ 63 <? un) then (- 2 ^ 63, Some ErrRange)
          else (if neg then - un else un, e)
      end
  end.

(** Decimal digits, most significant first ([strconv.FormatInt] for [n >= 0]). *)
Fixpoint digits_aux (fuel : nat) (n : Z) (acc : bytes) : bytes :=
  match fuel with
  | O => acc
  | S f =>
      let d := default x30 (Byte.of_N (Z.to_N (48 + n mod 10))) in
      if n <? 10 then d :: acc else digits_aux f (n / 10) (d :: acc)
  end.

Definition format_nat (n : Z) : bytes := digits_aux 20 n [].

(** ** The results of calls that can panic, block for ever or run out of fuel *)

Inductive outcome (A : Type) :=
| Done (a : A)
| Panicked
| Blocked
| OutOfFuel.
Arguments Done {A} a.
Arguments Panicked {A}.
Arguments Blocked {A}.
Arguments OutOfFuel {A}.

Definition outcome_bind {A B} (o : outcome A) (f : A -> outcome B) : outcome B :=
  match o with
  | Done a => f a
  | Panicked => Panicked
  | Blocked => Blocked
  | OutOfFuel => OutOfFuel
  end.

Declare Scope go_scope.
Delimit Scope go_scope with go.
Notation "'let*!' p ':=' c 'in' k" := (outcome_bind c (fun p => k))
  (at level 10, p pattern, c at level 100, k at level 200) : go_scope.
#[global] Open Scope go_scope.

(** ** Record update

    [r <| f := v |>] is the record [r] with field [f] replaced.  A record type
    takes part by an [Eta] instance that rebuilds it from its projections; the
    update function of a projection is found by abstracting that term over it. *)

Class Eta (R : Type) := eta_rec : R -> R.
Class Update {R T : Type} (proj : R -> T) := update_field : (T -> T) -> R -> R.
Arguments update_field {R T} proj {_} f !r /.

Ltac derive_update :=
  match goal with
  | |- @Update ?R ?T ?proj =>
      let inst := constr:(ltac:(typeclasses eauto) : Eta R) in
      let e := eval hnf in inst in
      match eval pattern proj in e with
      | ?F _ => let t := eval cbv beta in (fun (f : T -> T) => F (fun r => f (proj r))) in exact t
      end
  end.
#[export] Hint Extern 1 (Update _) => derive_update : typeclass_instances.

Notation "r <| f := v |>" := (update_field f (fun _ => v) r)
  (at level 1, left associativity, f constr at level 9, v constr at level 200,
   format "r  <| f  :=  v |>").

Notation "r <| f ::= g |>" := (update_field f g r)
  (at level 1, left associativity, f constr at level 9, g constr at level 200,
   format "r  <| f  ::=  g |>").

(** [sort.SearchInts(a, x)]: the smallest index [i] with [a[i] >= x], or
    [len(a)], found by binary search as [sort.Search] does it. *)
Fixpoint search_loop (fuel : nat) (a : list Z) (x : Z) (i j : nat) : nat :=
  match fuel with
  | O => i
  | S f =>
      if decide (i < j)%nat then
        let h := ((i + j) / 2)%nat in
        if x <=? nth h a 0 then search_loop f a x i h
        else search_loop f a x (S h) j
      else i
  end.

Definition search_ints (a : list Z) (x : Z) : nat :=
  search_loop (length a) a x 0 (length a).

(** [s[len(s)-1]] of a possibly empty slice. *)
Definition last_elem {A} (l : list A) : option A :=
  match rev l with x :: _ => Some x | [] => None end.

(** ** Lemmas on bytes and slices *)

Create HintDb nntp.

Lemma bval_range (b : byte) : 0 <= bval b < 256.
Proof.
  unfold bval. split; [apply N2Z.is_nonneg|].
  pose proof (Byte.to_N_bounded b). lia.
Qed.

Lemma zlen_nil {A} : zlen (@nil A) = 0.
Proof. reflexivity. Qed.

Lemma zlen_cons {A} (x : A) l : zlen (x :: l) = 1 + zlen l.
Proof. unfold zlen. simpl length. lia. Qed.

Lemma zlen_app {A} (l k : list A) : zlen (l ++ k) = zlen l + zlen k.
Proof. unfold zlen. rewrite length_app. lia. Qed.

Lemma zlen_nonneg {A} (l : list A) : 0 <= zlen l.
Proof. unfold zlen. lia. Qed.

#[export] Hint Resolve zlen_nonneg bval_range : nntp.

Ltac zlen_simp := repeat first [rewrite zlen_app | rewrite zlen_cons | rewrite zlen_nil | progress change (zlen crlf) with 2].

Lemma has_prefix_spec (p s : bytes) :
  has_prefix p s = true <-> exists t, s = p ++ t.
Proof.
  revert s; induction p as [|a p IH]; intros s; simpl.
  - split; [eauto|done].
  - destruct s as [|b s].
    + split; [done|]. intros [t Ht]; done.
    + rewrite andb_true_iff, bool_decide_eq_true, IH. split.
      * intros [-> [t ->]]. by exists t.
      * intros [t Ht]. simplify_eq. eauto.
Qed.

Lemma has_prefix_app (p t : bytes) : has_prefix p (p ++ t) = true.
Proof. apply has_prefix_spec; eauto. Qed.

Lemma has_prefix_extend (p s t : bytes) :
  has_prefix p s = true -> has_prefix p (s ++ t) = true.
Proof. rewrite !has_prefix_spec. intros [u ->]. exists (u ++ t). by rewrite app_assoc. Qed.

(** A prefix no longer than [s] is decided by [s] alone. *)
Lemma has_prefix_app_long (p s t : bytes) :
  (length p <= length s)%nat -> has_prefix p (s ++ t) = has_prefix p s.
Proof.
  revert s; induction p as [|a p IH]; intros [|b s] Hl; simpl in *; try done; try lia.
  rewrite IH by lia. done.
Qed.

Lemma index_of_unfold (sep s : bytes) :
  index_of sep s =
  if has_prefix sep s then Some O
  else match s with [] => None | _ :: s' => S <$> index_of sep s' end.
Proof. destruct s; reflexivity. Qed.

Lemma index_of_Some (sep s : bytes) (i : nat) :
  index_of sep s = Some i -> exists t, s = take i s ++ sep ++ t /\ (i + length sep <= length s)%nat.
Proof.
  revert i; induction s as [|b s IH]; intros i; rewrite index_of_unfold.
  - destruct (has_prefix sep []) eqn:E; [|done].
    apply has_prefix_spec in E as [t Ht]. intros [= <-].
    exists t. split; [done|]. destruct sep; [simpl; lia|done].
  - destruct (has_prefix sep (b :: s)) eqn:E.
    + apply has_prefix_spec in E as [t Ht]. intros [= <-]. exists t.
      split; [done|]. rewrite Ht, length_app. simpl. lia.
    + intros (j & (t & Ht & Hl)%IH & ->)%fmap_Some. exists t.
      simpl. split; [congruence|]. lia.
Qed.

(** The line separator: in a line without CR LF, the first CR LF is the one
    that ends it. *)
Lemma index_of_crlf_end (l b : bytes) :
  index_of crlf l = None -> index_of crlf (l ++ crlf ++ b) = Some (length l).
Proof.
  induction l as [|c l IH]; intros Hn; [done|].
  rewrite index_of_unfold in Hn.
  destruct (has_prefix crlf (c :: l)) eqn:E; [done|].
  destruct (index_of crlf l) eqn:El; [done|].
  rewrite <- app_comm_cons, index_of_unfold.
  assert (has_prefix crlf (c :: l ++ crlf ++ b) = false) as ->.
  { destruct l as [|d l].
    - simpl. rewrite andb_false_r. done.
    - rewrite app_comm_cons, has_prefix_app_long by (simpl; lia). done. }
  rewrite IH by done. done.
Qed.

Lemma cut_at_crlf (l b : bytes) :
  index_of crlf l = None -> cut_at crlf (l ++ crlf ++ b) = Some (l, b).
Proof.
  intros Hn. unfold cut_at. rewrite index_of_crlf_end by done.
  rewrite take_app_length. do 2 f_equal.
  rewrite app_assoc. apply drop_app_length'. rewrite length_app. done.
Qed.

Lemma cut_at_Some (sep s l r : bytes) :
  cut_at sep s = Some (l, r) -> s = l ++ sep ++ r.
Proof.
  unfold cut_at. destruct (index_of sep s) as [i|] eqn:E; [|done].
  intros [= <- <-]. destruct (index_of_Some _ _ _ E) as (t & Ht & Hl).
  rewrite Ht at 1. do 2 f_equal.
  rewrite Ht, app_assoc. symmetry. apply drop_app_length'.
  rewrite length_app, length_take. lia.
Qed.

Lemma cut_at_None (sep s : bytes) : cut_at sep s = None <-> index_of sep s = None.
Proof. unfold cut_at. by destruct (index_of sep s). Qed.

(** More input never moves a line end that is already there. *)
Lemma index_of_app (sep s t : bytes) (i : nat) :
  index_of sep s = Some i -> index_of sep (s ++ t) = Some i.
Proof.
  revert i; induction s as [|b s IH]; intros i; rewrite index_of_unfold.
  - destruct (has_prefix sep []) eqn:E; [|done]. intros [= <-].
    rewrite index_of_unfold. apply (has_prefix_extend _ _ t) in E. by rewrite E.
  - rewrite (index_of_unfold _ ((b :: s) ++ t)).
    destruct (has_prefix sep (b :: s)) eqn:E.
    + intros [= <-]. by rewrite (has_prefix_extend _ _ t E).
    + intros (j & Hj & ->)%fmap_Some.
      destruct (index_of_Some _ _ _ Hj) as (u & _ & Hl).
      rewrite has_prefix_app_long by (simpl; lia). rewrite E.
      simpl. by rewrite (IH _ Hj).
Qed.

Lemma cut_at_app (sep s t l r : bytes) :
  cut_at sep s = Some (l, r) -> cut_at sep (s ++ t) = Some (l, r ++ t).
Proof.
  intros H. pose proof (cut_at_Some _ _ _ _ H) as Hs. unfold cut_at in *.
  destruct (index_of sep s) as [i|] eqn:E; [|done].
  destruct (index_of_Some _ _ _ E) as (u & _ & Hl).
  rewrite (index_of_app _ _ t _ E). injection H as <- <-.
  rewrite take_app_le, drop_app_le by lia. done.
Qed.

Lemma last_elem_snoc {A} (l : list A) x : last_elem (l ++ [x]) = Some x.
Proof. unfold last_elem. by rewrite rev_app_distr. Qed.

Lemma last_elem_None {A} (l : list A) : last_elem l = None <-> l = [].
Proof.
  split; [|by intros ->]. destruct l as [|x l] using rev_ind; [done|]. by rewrite last_elem_snoc.
Qed.

Lemma last_elem_in {A} (l : list A) x : last_elem l = Some x -> x ∈ l.
Proof.
  destruct l as [|y l _] using rev_ind; [done|]. rewrite last_elem_snoc. intros [= ->].
  apply elem_of_app. right. by apply list_elem_of_singleton.
Qed.

Lemma slice_from_ok (n : Z) (s : bytes) :
  0 <= n <= zlen s -> slice_from n s = Some (drop (Z.to_nat n) s).
Proof. intros H. unfold slice_from. destruct (Z.ltb_spec n 0), (Z.ltb_spec (zlen s) n); try lia. done. Qed.

Lemma slice_from_Some (n : Z) (s t : bytes) :
  slice_from n s = Some t -> 0 <= n <= zlen s /\ t = drop (Z.to_nat n) s.
Proof.
  unfold slice_from. destruct (Z.ltb_spec n 0), (Z.ltb_spec (zlen s) n); try done. intros [= <-]. split; [lia|done].
Qed.

(** ** Decimal printing and parsing *)

Definition is_digit (b : byte) : Prop := 48 <= bval b <= 57.

Definition digits_value (ds : bytes) (m : Z) : Z :=
  fold_left (fun m c => m * 10 + (bval c - 48)) ds m.

Definition digit_byte (d : Z) : byte := default x30 (Byte.of_N (Z.to_N (48 + d))).

Lemma digit_byte_val d : 0 <= d < 10 -> bval (digit_byte d) = 48 + d.
Proof.
  intros H. assert (E : d ∈ seqZ 0 10) by (apply elem_of_seqZ; lia).
  assert (A : forallb (fun d => bval (digit_byte d) =? 48 + d) (seqZ 0 10) = true) by reflexivity.
  rewrite forallb_forall in A. apply Z.eqb_eq, (A d). by apply list_elem_of_In.
Qed.

Lemma digits_value_ge ds : forall m, Forall is_digit ds -> 0 <= m -> m <= digits_value ds m.
Proof.
  induction ds as [|c ds IH]; intros m Hd Hm; [simpl; lia|].
  apply Forall_cons_iff in Hd as [[Hc1 Hc2] Hd]. simpl. specialize (IH (m * 10 + (bval c - 48)) Hd). lia.
Qed.

Lemma digits_aux_spec f : forall n acc,
  0 <= n < 10 ^ Z.of_nat f -> (0 < f)%nat ->
  exists ds, digits_aux f n acc = ds ++ acc /\ Forall is_digit ds /\ ds <> [] /\
    forall m, 0 <= m -> digits_value ds m = m * 10 ^ zlen ds + n.
Proof.
  induction f as [|f IH]; intros n acc Hn Hf; [lia|].
  assert (Hd : 0 <= n mod 10 < 10) by (apply Z.mod_pos_bound; lia).
  pose proof (digit_byte_val _ Hd) as Hv.
  assert (Hdig : is_digit (digit_byte (n mod 10))) by (unfold is_digit; lia).
  cbn [digits_aux]. fold (digit_byte (n mod 10)). destruct (Z.ltb_spec n 10) as [Hs|Hs].
  - exists [digit_byte (n mod 10)]. split_and!; [done|by constructor|done|].
    intros m _. unfold digits_value. simpl fold_left. rewrite Hv, zlen_cons, zlen_nil.
    rewrite Z.mod_small by lia. change (10 ^ (1 + 0)) with 10. lia.
  - destruct (IH (n / 10) (digit_byte (n mod 10) :: acc)) as (ds & -> & Hds & _ & Hval).
    { rewrite Nat2Z.inj_succ, Z.pow_succ_r in Hn by lia.
      split; [apply Z.div_pos; lia|apply Z.div_lt_upper_bound; lia]. }
    { destruct f; [|lia]. simpl in Hn. lia. }
    exists (ds ++ [digit_byte (n mod 10)]). split_and!.
    + by rewrite <- app_assoc.
    + apply Forall_app. split; [done|by constructor].
    + by destruct ds.
    + intros m Hm. unfold digits_value. rewrite fold_left_app. fold (digits_value ds m).
      rewrite Hval by done. simpl fold_left. rewrite Hv, zlen_app. change (zlen [_]) with 1.
      rewrite Z.pow_add_r by (auto with nntp; lia). pose proof (Z.div_mod n 10). lia.
Qed.

Lemma parse_uint_digits ds : forall m maxVal,
  Forall is_digit ds -> 0 <= m -> maxVal < 2 ^ 64 -> digits_value ds m <= maxVal ->
  parse_uint_loop digit_val 10 maxVal ds m = (digits_value ds m, None).
Proof.
  induction ds as [|c ds IH]; intros m maxVal Hd Hm Hmax Hv; [done|].
  apply Forall_cons_iff in Hd as [[Hc1 Hc2] Hd]. cbn [parse_uint_loop]. unfold digit_val.
  rewrite !(proj2 (Z.leb_le _ _)) by lia. cbn [andb].
  change (digits_value (c :: ds) m) with (digits_value ds (m * 10 + (bval c - 48))) in *.
  pose proof (digits_value_ge ds (m * 10 + (bval c - 48)) Hd ltac:(lia)).
  change ((2 ^ 64 - 1) / 10 + 1) with 1844674407370955162.
  rewrite (proj2 (Z.leb_gt _ m)) by lia. rewrite (proj2 (Z.ltb_ge _ _)) by lia.
  by apply IH; [..|lia|lia|lia].
Qed.

Lemma format_nat_digits n :
  0 <= n < 2 ^ 63 -> Forall is_digit (format_nat n) /\ format_nat n <> [] /\
    digits_value (format_nat n) 0 = n.
Proof.
  intros H. destruct (digits_aux_spec 20 n []) as (ds & E & H1 & H2 & H3); [|lia|].
  { change (10 ^ Z.of_nat 20) with 100000000000000000000. lia. }
  unfold format_nat. rewrite E, app_nil_r. rewrite H3 by lia. auto with lia.
Qed.

(** [strconv.ParseInt] inverts [strconv.FormatInt]. *)
Lemma parse_int_format n : 0 <= n < 2 ^ 63 -> parse_int (format_nat n) = (n, None).
Proof.
  intros H. destruct (format_nat_digits n H) as (H1 & H2 & H3).
  unfold parse_int, parse_uint. destruct (format_nat n) as [|c s]; [done|].
  assert (bool_decide (c = x2b) = false /\ bool_decide (c = x2d) = false) as [-> ->].
  { apply Forall_cons_iff in H1 as [[Hc1 Hc2] _].
    split; apply bool_decide_eq_false_2; intros ->; by apply Hc1. }
  cbn [orb negb andb]. rewrite parse_uint_digits by first [done | lia]. rewrite H3.
  by rewrite (proj2 (Z.leb_gt _ _)) by lia.
Qed.

(** ** [sort.SearchInts] *)

Section SearchInts.
Context (a : list Z) (x : Z).
(** The slice is sorted in increasing order, as [sort.SearchInts] requires. *)
Hypothesis a_sorted : forall i j, (i <= j < length a)%nat -> nth i a 0 <= nth j a 0.

Lemma search_loop_spec fuel : forall i j,
  (j - i <= fuel)%nat -> (i <= j <= length a)%nat ->
  (forall k, (k < i)%nat -> nth k a 0 < x) -> (forall k, (j <= k < length a)%nat -> x <= nth k a 0) ->
  let r := search_loop fuel a x i j in
  (i <= r <= j)%nat /\ (forall k, (k < r)%nat -> nth k a 0 < x) /\
  (forall k, (r <= k < length a)%nat -> x <= nth k a 0).
Proof.
  induction fuel as [|fuel IH]; intros i j Hf Hij Hlo Hhi; cbn [search_loop]; cbv zeta in *.
  { replace i with j in * by lia. auto. }
  case_decide as Hlt; [|replace i with j in * by lia; auto].
  assert (Hh : (i <= (i + j) / 2 < j)%nat).
  { pose proof (Nat.div_mod_eq (i + j) 2). pose proof (Nat.mod_upper_bound (i + j) 2). lia. }
  set (h := ((i + j) / 2)%nat) in *. clearbody h.
  destruct (Z.leb_spec x (nth h a 0)) as [Hle|Hgt].
  - destruct (IH i h) as (H1 & H2 & H3); [lia|lia|done| |].
    { intros k Hk. pose proof (a_sorted h k). lia. }
    split; [lia|done].
  - destruct (IH (S h) j) as (H1 & H2 & H3); [lia|lia| |done|].
    { intros k Hk. pose proof (a_sorted k h). lia. }
    split; [lia|done].
Qed.

Lemma search_ints_spec :
  let r := search_ints a x in
  (r <= length a)%nat /\ (forall k, (k < r)%nat -> nth k a 0 < x) /\
  (forall k, (r <= k < length a)%nat -> x <= nth k a 0).
Proof.
  destruct (search_loop_spec (length a) 0 (length a)) as (H1 & H2 & H3); try lia.
  split; [unfold search_ints; lia|done].
Qed.
End SearchInts.

(** ** Counting *)

(** How many elements of a list have a property, and what an update does to it. *)
Section Count.
Context {A : Type}.
Implicit Types (b : A -> bool) (l : list A).

Definition count b l : Z := Z.of_nat (length (List.filter b l)).

Lemma count_update b l i p q : l !! i = Some p -> count b (<[i := q]> l) = count b l - Z.b2z (b p) + Z.b2z (b q).
Proof.
  revert i. unfold count. induction l as [|x l IH]; intros i Hi; [done|]. destruct i as [|i]; simpl in Hi |- *.
  - simplify_eq. destruct (b p), (b q); simpl; lia.
  - specialize (IH i Hi). destruct (b x); simpl length; rewrite ?Nat2Z.inj_succ; lia.
Qed.

Lemma count_snoc b l x : count b (l ++ [x]) = count b l + Z.b2z (b x).
Proof. unfold count. rewrite List.filter_app, length_app. simpl. destruct (b x); simpl; lia. Qed.

Lemma count_le b b' l : (forall p, b p = true -> b' p = true) -> 0 <= count b l <= count b' l.
Proof.
  unfold count. intros Hb. induction l as [|x l IH]; [done|]. simpl.
  destruct (b x) eqn:E; [rewrite (Hb x E); simpl length; lia|]. destruct (b' x); simpl length; lia.
Qed.

Lemma count_length b l : count b l <= Z.of_nat (length l).
Proof. unfold count. induction l as [|x l IH]; [done|]. simpl. destruct (b x); simpl length; lia. Qed.

Lemma count_none b l : (forall i p, l !! i = Some p -> b p = false) -> count b l = 0.
Proof.
  unfold count. induction l as [|x l IH]; intros H; [done|]. simpl. rewrite (H 0%nat x eq_refl). apply IH.
  intros i p Hi. by apply (H (S i)).
Qed.

(** A count is positive exactly when there is such an element. *)
Lemma count_some b l i p : l !! i = Some p -> b p = true -> 0 < count b l.
Proof.
  revert i. unfold count. induction l as [|x l IH]; intros i Hi Hp; [done|]. destruct i as [|i]; simpl in Hi |- *.
  - simplify_eq. rewrite Hp. simpl length. lia.
  - specialize (IH i Hi Hp). destruct (b x); simpl length; lia.
Qed.

Lemma count_pos b l : 0 < count b l -> exists i p, l !! i = Some p /\ b p = true.
Proof.
  unfold count. induction l as [|x l IH]; simpl; [done|]. destruct (b x) eqn:E; [intros _; by exists 0%nat, x|].
  intros (i & p & H1 & H2)%IH. by exists (S i), p.
Qed.
End Count.
