(* ===== verification/Text.v ===== *)
(** Text handling of the Go standard library that the article API uses
    ([strings.TrimSpace], [strings.Cut], [mime.BEncoding], [base64], [utf8]), with
    the decoder of RFC 2047 as its specification. *)
From S2P Require Import Prelude.

(** ** Byte sets *)

Definition is_ascii (b : byte) : bool := bval b <=? 127.
(** Space and tab. *)
Definition is_blank (b : byte) : bool := bool_decide (b = x20) || bool_decide (b = x09).
(** ["\r\n"] as a set. *)
Definition is_crlf (b : byte) : bool := bool_decide (b = x0d) || bool_decide (b = x0a).

Definition byte_of (z : Z) : byte := default x00 (Byte.of_N (Z.to_N z)).

Lemma byte_of_bval b : byte_of (bval b) = b.
Proof. unfold byte_of, bval. by rewrite N2Z.id, Byte.of_to_N. Qed.

Lemma byte_of_eq z b : z = bval b -> byte_of z = b.
Proof. intros ->. apply byte_of_bval. Qed.

(** A property of all bytes, by inspection. *)
Definition all_bytes : list byte := byte_of <$> seqZ 0 256.

Lemma in_all_bytes b : b ∈ all_bytes.
Proof.
  apply list_elem_of_fmap. exists (bval b). split; [by rewrite byte_of_bval|].
  apply elem_of_seqZ. pose proof (bval_range b). lia.
Qed.

Lemma byte_check (p : byte -> bool) : forallb p all_bytes = true -> forall b, p b = true.
Proof. intros H b. rewrite forallb_forall in H. apply H, list_elem_of_In, in_all_bytes. Qed.

(** ** Numbers *)

(** At least [width] digits. *)
Definition padded (width : nat) (n : Z) : bytes :=
  let ds := format_nat n in replicate (width - length ds) x30 ++ ds.

(** ** [strings.TrimSpace] *)

(** The encodings of the runes with Unicode's White_Space property. *)
Definition go_spaces : list bytes :=
  [[x09]; [x0a]; [x0b]; [x0c]; [x0d]; [x20]; [xc2; x85]; [xc2; xa0]; [xe1; x9a; x80]] ++
  ((fun z => [xe2; x80; byte_of z]) <$> seqZ 128 11) ++
  [[xe2; x80; xa8]; [xe2; x80; xa9]; [xe2; x80; xaf]; [xe2; x81; x9f]; [xe3; x80; x80]].

(** One of [ps] is taken off the front as long as there is one. *)
Fixpoint strip (ps : list bytes) (fuel : nat) (s : bytes) : bytes :=
  match fuel with
  | O => s
  | S fuel =>
      match List.find (fun p => has_prefix p s) ps with
      | Some p => strip ps fuel (drop (length p) s)
      | None => s
      end
  end.

Definition trim_space_left (s : bytes) : bytes := strip go_spaces (length s) s.
Definition trim_space_right (s : bytes) : bytes := rev (strip (map (@rev byte) go_spaces) (length s) (rev s)).
Definition TrimSpace (s : bytes) : bytes := trim_space_right (trim_space_left s).

(** ** [base64.StdEncoding] *)

Definition base64_alphabet : bytes := bs "ABCDEFGHIJKLMNOPQRSTUVWXYZabcdefghijklmnopqrstuvwxyz0123456789+/".

Definition b64_char (z : Z) : byte := nth (Z.to_nat z) base64_alphabet x00.
Definition b64_val (b : byte) : option Z :=
  Z.of_nat <$> (fst <$> list_find (fun c => c = b) base64_alphabet).

Fixpoint base64_encode (s : bytes) : bytes :=
  match s with
  | a :: b :: c :: s =>
      let '(a, b, c) := (bval a, bval b, bval c) in
      b64_char (a / 4) :: b64_char (a mod 4 * 16 + b / 16) :: b64_char (b mod 16 * 4 + c / 64) :: b64_char (c mod 64)
        :: base64_encode s
  | [a; b] =>
      let '(a, b) := (bval a, bval b) in
      [b64_char (a / 4); b64_char (a mod 4 * 16 + b / 16); b64_char (b mod 16 * 4); x3d]
  | [a] => [b64_char (bval a / 4); b64_char (bval a mod 4 * 16); x3d; x3d]
  | [] => []
  end.

(** What a reader makes of it. *)
Fixpoint base64_decode (s : bytes) : option bytes :=
  match s with
  | [] => Some []
  | c1 :: c2 :: c3 :: c4 :: s =>
      match b64_val c1, b64_val c2 with
      | Some v1, Some v2 =>
          let a := byte_of (v1 * 4 + v2 / 16) in
          match b64_val c3 with
          | None => if decide (c3 = x3d /\ c4 = x3d /\ s = []) then Some [a] else None
          | Some v3 =>
              let b := byte_of (v2 mod 16 * 16 + v3 / 4) in
              match b64_val c4 with
              | None => if decide (c4 = x3d /\ s = []) then Some [a; b] else None
              | Some v4 => (fun r => a :: b :: byte_of (v3 mod 4 * 64 + v4) :: r) <$> base64_decode s
              end
          end
      | _, _ => None
      end
  | _ => None
  end.

(** ** [utf8.DecodeRuneInString] *)

(** The width of the first rune; one for an invalid encoding. *)
Definition in_range (lo hi : Z) (b : byte) : bool := (lo <=? bval b) && (bval b <=? hi).
Definition continues : byte -> bool := in_range 128 191.

Definition rune_len (s : bytes) : nat :=
  match s with
  | b0 :: b1 :: s' =>
      let z := bval b0 in
      if in_range 194 223 b0 then if continues b1 then 2%nat else 1%nat
      else match s' with
      | b2 :: s'' =>
          if in_range 224 239 b0 then
            let lo := if z =? 224 then 160 else 128 in
            let hi := if z =? 237 then 159 else 191 in
            if in_range lo hi b1 && continues b2 then 3%nat else 1%nat
          else match s'' with
          | b3 :: _ =>
              if in_range 240 244 b0 then
                let lo := if z =? 240 then 144 else 128 in
                let hi := if z =? 244 then 143 else 191 in
                if in_range lo hi b1 && continues b2 && continues b3 then 4%nat else 1%nat
              else 1%nat
          | [] => 1%nat
          end
      | [] => 1%nat
      end
  | _ => 1%nat
  end.

Lemma rune_len_bounds s : s <> [] -> (1 <= rune_len s <= 4)%nat /\ (rune_len s <= length s)%nat.
Proof. intros Hs. destruct s as [|b0 [|b1 [|b2 [|b3 s]]]]; [done|..]; simpl; repeat case_match; simpl; lia. Qed.

(** ** [mime.BEncoding.Encode("utf-8", s)] *)

Definition maxContentLen : Z := 63.
Definition maxBase64Len : Z := maxContentLen / 4 * 3.

(** The pieces of a long text: whole runes, at most [maxBase64Len] bytes each;
    [cur] is the piece under construction. *)
Fixpoint split_runes (fuel : nat) (cur s : bytes) : list bytes :=
  match fuel with
  | O => [cur]
  | S fuel =>
      match s with
      | [] => [cur]
      | _ =>
          let n := rune_len s in
          if zlen cur + Z.of_nat n <=? maxBase64Len
          then split_runes fuel (cur ++ take n s) (drop n s)
          else cur :: split_runes fuel (take n s) (drop n s)
      end
  end.

Definition word_pieces (s : bytes) : list bytes :=
  if (zlen s + 2) / 3 * 4 <=? maxContentLen then [s] else split_runes (length s) [] s.

Definition open_word : bytes := bs "=?utf-8?b?".
Definition close_word : bytes := bs "?=".
Definition encoded_word (piece : bytes) : bytes := open_word ++ base64_encode piece ++ close_word.

Fixpoint join (sep : bytes) (l : list bytes) : bytes :=
  match l with
  | [] => []
  | [s] => s
  | s :: l => s ++ sep ++ join sep l
  end.

Definition encode_words (s : bytes) : bytes := join [x20] (encoded_word <$> word_pieces s).

(** RFC 2047: one encoded word and the rest; a sequence of them. *)
Definition decode_word (s : bytes) : option (bytes * bytes) :=
  if has_prefix open_word s then
    match cut_at close_word (drop (length open_word) s) with
    | Some (b, rest) => (fun w => (w, rest)) <$> base64_decode b
    | None => None
    end
  else None.

(** The words of a text: what blanks separate. *)
Definition flush (cur : bytes) : list bytes := match cur with [] => [] | _ => [cur] end.

Fixpoint words_from (cur s : bytes) : list bytes :=
  match s with
  | [] => flush cur
  | b :: s => if is_blank b then flush cur ++ words_from [] s else words_from (cur ++ [b]) s
  end.
Definition words (s : bytes) : list bytes := words_from [] s.

(** A text of encoded words: the blanks between them do not count. *)
Fixpoint decode_all (ws : list bytes) : option bytes :=
  match ws with
  | [] => Some []
  | w :: ws =>
      match decode_word w, decode_all ws with
      | Some (x, []), Some rest => Some (x ++ rest)
      | _, _ => None
      end
  end.
Definition decode_text (s : bytes) : option bytes := decode_all (words s).

(** ** Lemmas: base64 *)

Lemma b64_char_val z : 0 <= z < 64 -> b64_val (b64_char z) = Some z.
Proof.
  intros H. assert (E : z ∈ seqZ 0 64) by (apply elem_of_seqZ; lia).
  assert (A : forallb (fun z => bool_decide (b64_val (b64_char z) = Some z)) (seqZ 0 64) = true) by (vm_compute; reflexivity).
  rewrite forallb_forall in A. by eapply bool_decide_eq_true, A, list_elem_of_In.
Qed.

(** The characters of an encoding: no blanks, no line ends, no question mark. *)
Definition b64_safe (b : byte) : bool := is_ascii b && negb (is_blank b) && negb (is_crlf b) && negb (bool_decide (b = x3f)).

Lemma b64_char_safe z : 0 <= z < 64 -> b64_safe (b64_char z) = true.
Proof.
  intros H. assert (E : z ∈ seqZ 0 64) by (apply elem_of_seqZ; lia).
  assert (A : forallb (fun z => b64_safe (b64_char z)) (seqZ 0 64) = true) by (vm_compute; reflexivity).
  rewrite forallb_forall in A. by apply A, list_elem_of_In.
Qed.

(** Three bytes at a time. *)
Lemma triple_ind (P : bytes -> Prop) :
  P [] -> (forall a, P [a]) -> (forall a b, P [a; b]) -> (forall a b c s, P s -> P (a :: b :: c :: s)) -> forall s, P s.
Proof.
  intros H0 H1 H2 H3. fix IH 1. intros [|a [|b [|c s]]]; [exact H0|apply H1|apply H2|apply H3, IH].
Qed.

Ltac b64_bounds a := pose proof (bval_range a); Z.div_mod_to_equations; lia.

Lemma base64_encode_safe s : Forall (fun b => b64_safe b = true) (base64_encode s).
Proof.
  induction s as [|a|a b|a b c s IH] using triple_ind; simpl; repeat constructor; try (apply b64_char_safe; b64_bounds a);
    try exact IH; apply b64_char_safe; pose proof (bval_range b); try pose proof (bval_range a); try b64_bounds c;
    Z.div_mod_to_equations; lia.
Qed.

Lemma base64_roundtrip s : base64_decode (base64_encode s) = Some s.
Proof.
  induction s as [|a|a b|a b c s IH] using triple_ind; [done| | |]; cbn [base64_encode base64_decode].
  - pose proof (bval_range a). rewrite !b64_char_val by (Z.div_mod_to_equations; lia). change (b64_val x3d) with (@None Z). cbv iota beta zeta.
    rewrite decide_True by done. do 2 f_equal. apply byte_of_eq. Z.div_mod_to_equations. lia.
  - pose proof (bval_range a). pose proof (bval_range b). rewrite !b64_char_val by (Z.div_mod_to_equations; lia).
    change (b64_val x3d) with (@None Z). cbv iota beta zeta. rewrite decide_True by done. do 2 f_equal; [|f_equal].
    + apply byte_of_eq. Z.div_mod_to_equations. lia.
    + apply byte_of_eq. Z.div_mod_to_equations. lia.
  - pose proof (bval_range a). pose proof (bval_range b). pose proof (bval_range c).
    rewrite !b64_char_val by (Z.div_mod_to_equations; lia). rewrite IH. simpl. do 2 f_equal; [|f_equal; [|f_equal]].
    + apply byte_of_eq. Z.div_mod_to_equations. lia.
    + apply byte_of_eq. Z.div_mod_to_equations. lia.
    + apply byte_of_eq. Z.div_mod_to_equations. lia.
Qed.

Lemma base64_encode_length s : zlen (base64_encode s) = (zlen s + 2) / 3 * 4.
Proof.
  induction s as [|a|a b|a b c s IH] using triple_ind; try reflexivity. cbn [base64_encode]. zlen_simp. rewrite IH.
  replace (1 + (1 + (1 + zlen s)) + 2) with (zlen s + 2 + 1 * 3) by lia. rewrite Z.div_add by lia. lia.
Qed.

(** ** Lemmas: encoded words *)

(** A separator is first found where its first byte first occurs. *)
Lemma cut_at_fresh (c : byte) (sep a b : bytes) : c ∉ a -> cut_at (c :: sep) (a ++ (c :: sep) ++ b) = Some (a, b).
Proof.
  intros Hc. assert (Hi : index_of (c :: sep) (a ++ (c :: sep) ++ b) = Some (length a)).
  { induction a as [|x a IH].
    - rewrite index_of_unfold. simpl app. by rewrite app_comm_cons, has_prefix_app.
    - apply not_elem_of_cons in Hc as [Hx Hc]. rewrite index_of_unfold. rewrite <- app_comm_cons. cbn [has_prefix].
      rewrite bool_decide_false by done. cbn [andb]. by rewrite IH. }
  unfold cut_at. rewrite Hi, take_app_length. do 2 f_equal. rewrite app_assoc. apply drop_app_length'.
  by rewrite length_app.
Qed.

Lemma safe_not_question s : Forall (fun b => b64_safe b = true) s -> (x3f ∉ s).
Proof. intros H Hin. rewrite list.Forall_forall in H. by specialize (H _ Hin). Qed.

Lemma decode_encoded_word w rest : decode_word (encoded_word w ++ rest) = Some (w, rest).
Proof.
  unfold decode_word, encoded_word. rewrite <- !app_assoc, has_prefix_app, drop_app_length.
  change close_word with (x3f :: [x3d]). rewrite cut_at_fresh by apply safe_not_question, base64_encode_safe.
  by rewrite base64_roundtrip.
Qed.

Lemma split_runes_spec fuel : forall cur s, (length s <= fuel)%nat -> zlen cur <= maxBase64Len ->
  concat (split_runes fuel cur s) = cur ++ s /\ split_runes fuel cur s <> [] /\
  Forall (fun p => zlen p <= maxBase64Len) (split_runes fuel cur s).
Proof.
  induction fuel as [|fuel IH]; intros cur s Hl Hc; cbn [split_runes].
  - destruct s; [|simpl in Hl; lia]. simpl. split_and!; [done|done|by constructor].
  - destruct s as [|b s]; [simpl; split_and!; [done|done|by constructor]|].
    destruct (rune_len_bounds (b :: s)) as [Hr Hr']; [done|]. set (n := rune_len (b :: s)) in *. cbv zeta.
    assert (Hd : (length (drop n (b :: s)) <= fuel)%nat) by (rewrite length_drop; lia).
    assert (Ht : zlen (take n (b :: s)) = Z.of_nat n) by (unfold zlen; rewrite length_take; lia).
    destruct (Z.leb_spec (zlen cur + Z.of_nat n) maxBase64Len).
    + destruct (IH (cur ++ take n (b :: s)) (drop n (b :: s)) Hd) as (H1 & H2 & H3); [rewrite zlen_app; lia|].
      split_and!; [|done|done]. by rewrite H1, <- app_assoc, take_drop.
    + destruct (IH (take n (b :: s)) (drop n (b :: s)) Hd) as (H1 & H2 & H3); [change maxBase64Len with 45; lia|].
      split_and!; [|done|by constructor]. simpl. by rewrite H1, take_drop.
Qed.

Lemma word_pieces_spec s :
  concat (word_pieces s) = s /\ word_pieces s <> [] /\ Forall (fun p => zlen p <= maxBase64Len) (word_pieces s).
Proof.
  unfold word_pieces. destruct (Z.leb_spec ((zlen s + 2) / 3 * 4) maxContentLen) as [H|H].
  - simpl. rewrite app_nil_r. split_and!; [done|done|]. constructor; [|done]. change maxBase64Len with 45. change maxContentLen with 63 in H.
    Z.div_mod_to_equations. lia.
  - destruct (split_runes_spec (length s) [] s) as (H1 & H2 & H3); [done|done|]. by split_and!.
Qed.

(** *** Words *)

Lemma words_from_blank cur a c b : is_blank c = true -> words_from cur (a ++ c :: b) = words_from cur a ++ words_from [] b.
Proof.
  intros Hc. revert cur. induction a as [|x a IH]; intros cur; simpl; [by rewrite Hc|].
  destruct (is_blank x); [by rewrite IH, app_assoc|apply IH].
Qed.

Lemma words_blank_left w s : Forall (fun b => is_blank b = true) w -> words (w ++ s) = words s.
Proof. induction 1 as [|b w Hb _ IH]; [done|]. unfold words in *. simpl. by rewrite Hb. Qed.

(** Blanks separate words. *)
Lemma words_app a w b : w <> [] -> Forall (fun b => is_blank b = true) w -> words (a ++ w ++ b) = words a ++ words b.
Proof.
  intros Hw Hb. destruct w as [|c w]; [done|]. apply Forall_cons_iff in Hb as [Hc Hb]. unfold words. simpl.
  rewrite words_from_blank by done. f_equal. by apply words_blank_left.
Qed.

Lemma words_blank_right s w : Forall (fun b => is_blank b = true) w -> words (s ++ w) = words s.
Proof.
  intros Hb. destruct w as [|c w]; [by rewrite app_nil_r|]. rewrite <- (app_nil_r (c :: w)), words_app by done.
  simpl. apply app_nil_r.
Qed.

Lemma words_solid cur s : Forall (fun b => is_blank b = false) s -> words_from cur s = flush (cur ++ s).
Proof.
  intros H. revert cur. induction H as [|b s Hb _ IH]; intros cur; simpl; [by rewrite app_nil_r|].
  by rewrite Hb, IH, <- app_assoc.
Qed.

Lemma words_join ws : Forall (fun w => w <> [] /\ Forall (fun b => is_blank b = false) w) ws -> words (join [x20] ws) = ws.
Proof.
  induction 1 as [|w ws [Hn Hw] _ IH]; [done|]. destruct ws as [|v ws].
  - simpl. unfold words. rewrite words_solid by done. by destruct w.
  - change (join [x20] (w :: v :: ws)) with (w ++ [x20] ++ join [x20] (v :: ws)).
    rewrite words_app by (done || by repeat constructor). rewrite IH. unfold words. rewrite words_solid by done.
    by destruct w.
Qed.

(** A line is fit for a header when it has no line end. *)
Definition plain (s : bytes) : Prop := Forall (fun b => is_crlf b = false) s.

Lemma plain_app s t : plain (s ++ t) <-> plain s /\ plain t.
Proof. apply Forall_app. Qed.

Lemma encoded_word_shape w : zlen w <= maxBase64Len ->
  zlen (encoded_word w) <= 75 /\ Forall (fun b => is_ascii b && negb (is_crlf b) && negb (is_blank b) = true) (encoded_word w).
Proof.
  intros Hw. unfold encoded_word. split.
  - zlen_simp. rewrite base64_encode_length. change (zlen open_word) with 10. change (zlen close_word) with 2.
    change maxBase64Len with 45 in Hw. Z.div_mod_to_equations. lia.
  - rewrite !Forall_app. split_and!; [by repeat constructor| |by repeat constructor].
    eapply list.Forall_impl; [apply base64_encode_safe|]. intros b. unfold b64_safe. simpl.
    by destruct (is_ascii b), (is_blank b), (is_crlf b).
Qed.

Lemma join_Forall (P : byte -> Prop) sep l : Forall P sep -> Forall (Forall P) l -> Forall P (join sep l).
Proof.
  intros Hs. induction 1 as [|s l H1 _ IH]; [constructor|]. destruct l as [|t l]; [done|].
  change (join sep (s :: t :: l)) with (s ++ sep ++ join sep (t :: l)). rewrite !Forall_app. auto.
Qed.

Lemma encode_words_plain s : plain (encode_words s).
Proof.
  unfold encode_words, plain. apply join_Forall; [by repeat constructor|]. apply Forall_fmap.
  destruct (word_pieces_spec s) as (_ & _ & H). eapply list.Forall_impl; [exact H|]. intros p Hp. simpl.
  destruct (encoded_word_shape p Hp) as [_ Hs]. eapply list.Forall_impl; [exact Hs|]. intros b. simpl.
  by destruct (is_ascii b), (is_crlf b).
Qed.

Lemma encoded_word_solid w : encoded_word w <> [] /\ Forall (fun b => is_blank b = false) (encoded_word w).
Proof.
  split; [done|]. unfold encoded_word. rewrite !Forall_app. split_and!; [by repeat constructor| |by repeat constructor].
  eapply list.Forall_impl; [apply base64_encode_safe|]. intros b. unfold b64_safe. simpl. by destruct (is_ascii b), (is_blank b).
Qed.

Lemma words_encode s : words (encode_words s) = encoded_word <$> word_pieces s.
Proof. unfold encode_words. apply words_join, Forall_fmap, Forall_true. intros w. apply encoded_word_solid. Qed.

Lemma decode_all_pieces ps : decode_all (encoded_word <$> ps) = Some (concat ps).
Proof.
  induction ps as [|p ps IH]; [done|]. rewrite fmap_cons. cbn [decode_all]. rewrite IH.
  rewrite <- (app_nil_r (encoded_word p)), decode_encoded_word. done.
Qed.

(** A text is read back from its encoded words. *)
Lemma encode_words_roundtrip s : decode_text (encode_words s) = Some s.
Proof.
  unfold decode_text. rewrite words_encode, decode_all_pieces. f_equal. by destruct (word_pieces_spec s) as (-> & _).
Qed.

(** *** Trimming *)

(** Printable ASCII and blanks. *)
Definition is_printable (b : byte) : bool := in_range 32 126 b || is_blank b.
Definition printable (s : bytes) : Prop := Forall (fun b => is_printable b = true) s.

(** The spaces that can be met in printable text are blanks. *)
Definition blank_or_foreign (p : bytes) : bool :=
  match p with
  | [c] => is_blank c || negb (is_printable c)
  | c :: _ => negb (is_printable c)
  | [] => false
  end.

Lemma strip_printable ps fuel : forallb blank_or_foreign ps = true -> forall s, printable s ->
  exists l, s = l ++ strip ps fuel s /\ Forall (fun b => is_blank b = true) l.
Proof.
  intros Hps. induction fuel as [|fuel IH]; intros s Hs; [by exists []|]. cbn [strip].
  destruct (List.find _ ps) as [p|] eqn:E; [|by exists []]. apply find_some in E as [Hin [t ->]%has_prefix_spec].
  rewrite forallb_forall in Hps. specialize (Hps p Hin). apply Forall_app in Hs as [Hp Ht].
  rewrite drop_app_length. destruct (IH t Ht) as (l & Hl & Hb). exists (p ++ l). split; [by rewrite <- app_assoc, <- Hl|].
  apply Forall_app. split; [|done]. destruct p as [|c [|c' p]]; [done| |].
  - repeat constructor. apply Forall_cons_iff in Hp as [Hc _]. unfold blank_or_foreign in Hps. rewrite Hc in Hps.
    by rewrite orb_false_r in Hps.
  - apply Forall_cons_iff in Hp as [Hc _]. simpl in Hps. by rewrite Hc in Hps.
Qed.

Lemma strip_solid ps fuel s : forallb (fun p => match p with c :: _ => is_blank c || negb (is_printable c) | [] => false end) ps = true ->
  match s with [] => True | b :: _ => is_printable b = true /\ is_blank b = false end -> strip ps fuel s = s.
Proof.
  intros Hps Hs. destruct fuel as [|fuel]; [done|]. cbn [strip]. destruct (List.find _ ps) as [p|] eqn:E; [|done].
  apply find_some in E as [Hin [t ->]%has_prefix_spec]. rewrite forallb_forall in Hps. specialize (Hps p Hin).
  destruct p as [|c p]; [done|]. simpl in Hs. destruct Hs as [H1 H2]. by rewrite H1, H2 in Hps.
Qed.

(** [TrimSpace] takes blanks off both ends of printable text, *)
Lemma TrimSpace_printable s : printable s ->
  exists l r, s = l ++ TrimSpace s ++ r /\ Forall (fun b => is_blank b = true) l /\ Forall (fun b => is_blank b = true) r.
Proof.
  intros Hs. unfold TrimSpace, trim_space_left, trim_space_right.
  destruct (strip_printable go_spaces (length s) eq_refl s Hs) as (l & Hl & Hbl). set (t := strip go_spaces (length s) s) in *. clearbody t. subst s.
  assert (Ht : printable (rev t)).
  { apply Forall_rev. by apply Forall_app in Hs as [_ ?]. }
  destruct (strip_printable (map (@rev byte) go_spaces) (length t) eq_refl (rev t) Ht) as (r & Hr & Hbr).
  exists l, (rev r). split; [|split; [done|by apply Forall_rev]]. f_equal.
  rewrite <- rev_app_distr, <- Hr. by rewrite rev_involutive.
Qed.

Lemma words_TrimSpace s : printable s -> words (TrimSpace s) = words s.
Proof.
  intros Hs. destruct (TrimSpace_printable s Hs) as (l & r & Hs' & Hl & Hr). rewrite Hs' at 2.
  by rewrite words_blank_left, words_blank_right.
Qed.

(** and nothing off a text that neither starts nor ends with one. *)
Definition solid_start (s : bytes) : Prop := match s with [] => True | b :: _ => is_printable b = true /\ is_blank b = false end.

Lemma TrimSpace_ends s : solid_start s -> solid_start (rev s) -> TrimSpace s = s.
Proof.
  intros H1 H2. unfold TrimSpace, trim_space_left, trim_space_right. rewrite (strip_solid go_spaces) by done.
  by rewrite (strip_solid (map (@rev byte) go_spaces)), rev_involutive by done.
Qed.

Lemma TrimSpace_solid s : printable s -> Forall (fun b => is_blank b = false) s -> TrimSpace s = s.
Proof.
  intros Hp Hs. assert (Hh : forall s, printable s -> Forall (fun b => is_blank b = false) s -> solid_start s).
  { intros u Hu Hv. destruct u; [done|]. apply Forall_cons_iff in Hu as [? _], Hv as [? _]. done. }
  apply TrimSpace_ends; apply Hh; first [done|by apply Forall_rev].
Qed.

(** *** Digits *)

Lemma digits_aux_digits f : forall n acc, Forall is_digit acc -> Forall is_digit (digits_aux f n acc).
Proof.
  induction f as [|f IH]; intros n acc Ha; [done|]. cbn [digits_aux]. fold (digit_byte (n mod 10)).
  assert (Hd : is_digit (digit_byte (n mod 10))).
  { pose proof (Z.mod_pos_bound n 10 ltac:(lia)) as Hm. pose proof (digit_byte_val _ Hm). unfold is_digit. lia. }
  destruct (n <? 10); [by constructor|]. apply IH. by constructor.
Qed.

Lemma padded_digits k n : Forall is_digit (padded k n).
Proof.
  unfold padded. apply Forall_app. split; [by apply Forall_replicate|apply digits_aux_digits; constructor].
Qed.

(** Digits are digits. *)
Lemma digits_not c ds : Forall is_digit ds -> ~ is_digit c -> (c ∉ ds).
Proof. intros H Hc Hin. rewrite list.Forall_forall in H. by apply Hc, H. Qed.
