(* ===== verification/Errors.v ===== *)
(** Go error values and the transport's outcome classification ([errors.go]
    and the error tests at the top of [nntp.go]).

    An [error] that may be nil is [option gerror].  [errors.Is] and [errors.As]
    walk the Unwrap tree exactly as the standard library does: the value
    itself, its [Is] method, then its one or several causes in order. *)
From S2P Require Import Prelude.

(** ** Data *)

Inductive OutcomeKind :=
| OutcomeSuccess
| OutcomeHardArticleAbsence
| OutcomeTemporaryFailure
| OutcomeProviderUnavailable
| OutcomeCorruptBody
| OutcomeCancellation
| OutcomeTransportFailure
| OutcomeInconclusive.

#[export] Instance OutcomeKind_eq_dec : EqDecision OutcomeKind.
Proof. solve_decision. Defined.

Inductive Operation :=
| OperationUnknown | OperationBody | OperationStat
| OperationHead | OperationArticle | OperationPost.

#[export] Instance Operation_eq_dec : EqDecision Operation.
Proof. solve_decision. Defined.

Inductive BodyValidationStatus :=
| BodyValidationNotApplicable | BodyValidationNotRequested | BodyValidationValid
| BodyValidationInvalid | BodyValidationIncomplete.

#[export] Instance BodyValidationStatus_eq_dec : EqDecision BodyValidationStatus.
Proof. solve_decision. Defined.

(** The package-level [errors.New] values and the standard library's error
    variables the source compares with. *)
Inductive sentinel :=
| ErrCRCMismatch | ErrBodyCorrupt | ErrProtocolDesync | ErrQuotaExceeded
| ErrInvalidProviderConfiguration | ErrMaxConnections | ErrConnectionDied
| ErrCircuitBreakerOpen | errAbandonedBodyDrainLimit | errFreshTransportRequired
| errBackgroundStatWindowFull | errCrcNotfound
| ctxCanceled | ctxDeadlineExceeded
| ioEOF | ioErrUnexpectedEOF | ioErrClosedPipe | netErrClosed.

#[export] Instance sentinel_eq_dec : EqDecision sentinel.
Proof. solve_decision. Defined.

Inductive CircuitBreakerState :=
| CircuitBreakerDisabled | CircuitBreakerClosed | CircuitBreakerOpen | CircuitBreakerHalfOpen.

#[export] Instance CircuitBreakerState_eq_dec : EqDecision CircuitBreakerState.
Proof. solve_decision. Defined.

(** [AttemptEvidence], over the type of its cause. *)
Record AttemptEvidenceOf (E : Type) := mkAttemptEvidence {
  ae_ProviderID : string;
  ae_Operation : Operation;
  ae_Outcome : OutcomeKind;
  ae_ResponseCode : Z;
  ae_BodyValidation : BodyValidationStatus;
  ae_Cause : option E;
  ae_ProviderResponseTimeout : bool;
  ae_PoolQueueDuration : Z;
  ae_PipelineHeadWaitDuration : Z;
  ae_ResponseServiceDuration : Z
}.
Arguments mkAttemptEvidence {E}.
Arguments ae_ProviderID {E}.
Arguments ae_Operation {E}.
Arguments ae_Outcome {E}.
Arguments ae_ResponseCode {E}.
Arguments ae_BodyValidation {E}.
Arguments ae_Cause {E}.
Arguments ae_ProviderResponseTimeout {E}.
Arguments ae_PoolQueueDuration {E}.
Arguments ae_PipelineHeadWaitDuration {E}.
Arguments ae_ResponseServiceDuration {E}.

(** Non-nil error values.  [ENet timeout] is an error of the network stack that
    implements [net.Error]; [EOpaque] any other error without causes. *)
#[warnings="-register-all"] Inductive gerror :=
| ESentinel (s : sentinel)
| EOpaque (msg : string)
| EProto (code : Z) (msg : bytes)
| EGreeting (code : Z) (msg : bytes)
| ENet (timeout : bool)
| EAddr
| EBreaker (providerID : string) (state : CircuitBreakerState) (retryAt : Z)
| EWrap (prefix : string) (cause : gerror)
| EJoin (prefix : string) (first second : gerror)
| EClassified (cause category : gerror)
| ETransport (kind : OutcomeKind) (providerID : string) (code : Z)
             (attempts : list (AttemptEvidenceOf gerror)) (cause : option gerror).

Abbreviation AttemptEvidence := (AttemptEvidenceOf gerror).
Abbreviation error := (option gerror).

(** The targets of the source's [errors.Is] calls: a sentinel value or an
    [Error] pointer. *)
Inductive target :=
| TSentinel (s : sentinel)
| TProto (code : Z).

Definition ErrArticleNotFound : gerror := EProto 430 (bs "no such article").
Definition ErrPostingNotPermitted : gerror := EProto 440 (bs "posting not permitted").
Definition ErrPostingFailed : gerror := EProto 441 (bs "posting failed").
Definition ErrAuthRequired : gerror := EProto 480 (bs "authentication required").
Definition ErrAuthRejected : gerror := EProto 481 (bs "authentication rejected").
Definition ErrServiceUnavailable : gerror := EProto 502 (bs "service unavailable").

Definition IsArticleNotFound : target := TProto 430.
Definition IsAuthRequired : target := TProto 480.
Definition IsAuthRejected : target := TProto 481.
Definition IsServiceUnavailable : target := TProto 502.

(** ** [errors.Is] and [errors.As] *)

Definition errorCategory (code : Z) : Z :=
  if (code =? 423) || (code =? 430) then 430 else code.

(** The [Is] method of [Error]: semantic category equality with any [Error] target. *)
Definition proto_is (code : Z) (t : target) : bool :=
  match t with
  | TProto c => errorCategory code =? errorCategory c
  | TSentinel _ => false
  end.

(** The [Is] method of [greetingError]. *)
Definition greeting_is (code : Z) (t : target) : bool :=
  if (code =? 400) || (code =? 502) then
    match t with TSentinel ErrMaxConnections => true | _ => false end
  else if code =? 480 then proto_is 480 t
  else if code =? 481 then proto_is 481 t
  else false.

Fixpoint errors_is (e : gerror) (t : target) : bool :=
  match e with
  | ESentinel s => match t with TSentinel s' => bool_decide (s = s') | TProto _ => false end
  | EOpaque _ | ENet _ | EAddr => false
  | EProto code _ => proto_is code t
  | EGreeting code _ => greeting_is code t
  | EBreaker _ _ _ =>
      match t with TSentinel ErrCircuitBreakerOpen => true | _ => false end
  | EWrap _ c => errors_is c t
  | EJoin _ a b => errors_is a t || errors_is b t
  | EClassified a b => errors_is a t || errors_is b t
  | ETransport _ _ _ _ (Some c) => errors_is c t
  | ETransport _ _ _ _ None => false
  end.

(** [errors.Is] on a possibly nil error. *)
Definition Is (e : error) (t : target) : bool :=
  match e with Some x => errors_is x t | None => false end.

(** [errors.As(err, &net.Error)] with the found error's [Timeout()].
    [context.DeadlineExceeded] implements [net.Error] and times out; so does
    [net.ErrClosed], which does not time out; so does [net.AddrError]. *)
Fixpoint errors_as_net (e : gerror) : option bool :=
  match e with
  | ENet timeout => Some timeout
  | EAddr => Some false
  | ESentinel ctxDeadlineExceeded => Some true
  | ESentinel netErrClosed => Some false
  | ESentinel _ | EOpaque _ | EProto _ _ | EGreeting _ _ | EBreaker _ _ _ => None
  | EWrap _ c => errors_as_net c
  | EJoin _ a b | EClassified a b =>
      match errors_as_net a with Some x => Some x | None => errors_as_net b end
  | ETransport _ _ _ _ (Some c) => errors_as_net c
  | ETransport _ _ _ _ None => None
  end.

(** [errors.As] with an [Error] pointer: the code of the one found. *)
Fixpoint errors_as_proto (e : gerror) : option Z :=
  match e with
  | EProto code _ => Some code
  | ENet _ | EAddr | ESentinel _ | EOpaque _ | EGreeting _ _ | EBreaker _ _ _ => None
  | EWrap _ c => errors_as_proto c
  | EJoin _ a b | EClassified a b =>
      match errors_as_proto a with Some x => Some x | None => errors_as_proto b end
  | ETransport _ _ _ _ (Some c) => errors_as_proto c
  | ETransport _ _ _ _ None => None
  end.

(** [errors.As] with a [net.AddrError] pointer. *)
Fixpoint errors_as_addr (e : gerror) : bool :=
  match e with
  | EAddr => true
  | EProto _ _ | ENet _ | ESentinel _ | EOpaque _ | EGreeting _ _ | EBreaker _ _ _ => false
  | EWrap _ c => errors_as_addr c
  | EJoin _ a b | EClassified a b => errors_as_addr a || errors_as_addr b
  | ETransport _ _ _ _ (Some c) => errors_as_addr c
  | ETransport _ _ _ _ None => false
  end.

(** ** Classification *)

(** [withErrorClassification(cause, category)]; [t] is [category] as a target. *)
Definition withErrorClassification (cause : error) (category : gerror) (t : target) : error :=
  match cause with
  | None => None
  | Some c => if errors_is c t then Some c else Some (EClassified c category)
  end.

Definition byte_fold (c : byte) : Z :=
  let v := bval c in if (65 <=? v) && (v <=? 90) then v + 32 else v.

(** [bytes.EqualFold(s, w)] for an ASCII word [w] without the letter k (whose
    Unicode fold orbit holds a non-ASCII rune): the only other multi-byte
    spelling of an ASCII letter is U+017F (bytes C5 BF) for s. *)
Fixpoint equal_fold (s w : bytes) : bool :=
  match w, s with
  | [], [] => true
  | b :: w', a :: s' =>
      if byte_fold a =? byte_fold b then equal_fold s' w'
      else match s' with
           | a2 :: s'' =>
               (byte_fold b =? 115) && (bval a =? 197) && (bval a2 =? 191) && equal_fold s'' w'
           | [] => false
           end
  | _, _ => false
  end.

(** The command word: everything before the first blank, tab, CR or LF. *)
Fixpoint command_word (payload : bytes) : bytes :=
  match payload with
  | [] => []
  | c :: p =>
      if bool_decide (c ∈ [x20; x09; x0d; x0a]) then [] else c :: command_word p
  end.

Definition operationFromPayload (payload : bytes) : Operation :=
  let command := command_word payload in
  if equal_fold command (bs "BODY") then OperationBody
  else if equal_fold command (bs "STAT") then OperationStat
  else if equal_fold command (bs "HEAD") then OperationHead
  else if equal_fold command (bs "ARTICLE") then OperationArticle
  else if equal_fold command (bs "POST") then OperationPost
  else OperationUnknown.

Definition isArticleOperation (operation : Operation) : bool :=
  match operation with
  | OperationStat | OperationBody | OperationHead | OperationArticle => true
  | _ => false
  end.

Definition isCheapCommand (payload : bytes) : bool :=
  bool_decide (operationFromPayload payload = OperationStat).

Definition isBodyCommand (payload : bytes) : bool :=
  match operationFromPayload payload with
  | OperationBody | OperationArticle => true
  | _ => false
  end.

(** Codes NNTP reports success or continuation with. *)
Definition code_ok (code : Z) : bool := (200 <=? code) && (code <? 400).

Definition is_nil (e : error) : bool := match e with None => true | Some _ => false end.

Definition classifyOutcome (code : Z) (err : error) : OutcomeKind :=
  if is_nil err && code_ok code then OutcomeSuccess
  else if Is err (TSentinel ctxCanceled) || Is err (TSentinel ctxDeadlineExceeded)
  then OutcomeCancellation
  else if Is err (TSentinel ErrBodyCorrupt) || Is err (TSentinel ErrCRCMismatch)
  then OutcomeCorruptBody
  else if Is err (TSentinel ErrCircuitBreakerOpen) then OutcomeTemporaryFailure
  else if Is err IsServiceUnavailable || Is err IsAuthRequired || Is err IsAuthRejected ||
          Is err (TSentinel ErrQuotaExceeded) ||
          Is err (TSentinel ErrInvalidProviderConfiguration) ||
          Is err (TSentinel ErrMaxConnections) || (code =? 502)
  then OutcomeProviderUnavailable
  else if (code =? 423) || (code =? 430) || Is err IsArticleNotFound
  then OutcomeHardArticleAbsence
  else if code =? 451 then OutcomeTemporaryFailure
  else match err with
       | Some e => match errors_as_proto e with
                   | Some _ => OutcomeInconclusive
                   | None => OutcomeTransportFailure
                   end
       | None => OutcomeInconclusive
       end.

(** [toError]: the sentinel of a status code, nil for success codes. *)
Definition toError (code : Z) (status : bytes) : error :=
  if code_ok code then None
  else if (code =? 423) || (code =? 430) then Some ErrArticleNotFound
  else if code =? 440 then Some ErrPostingNotPermitted
  else if code =? 441 then Some ErrPostingFailed
  else if code =? 480 then Some ErrAuthRequired
  else if code =? 481 then Some ErrAuthRejected
  else if code =? 502 then Some ErrServiceUnavailable
  else Some (EProto code status).

Definition cloneAttempts (attempts : list AttemptEvidence) : list AttemptEvidence :=
  match attempts with [] => [] | _ => [] ++ attempts end.

(** The loop state of [newTransportError]: [kind], [haveKind], [mixed]. *)
Definition kind_step (acc : OutcomeKind * bool * bool) (attempt : AttemptEvidence)
  : OutcomeKind * bool * bool :=
  let '(kind, haveKind, mixed) := acc in
  if decide (ae_Outcome attempt = OutcomeSuccess) then acc
  else if decide (ae_Outcome attempt = OutcomeCancellation) then (OutcomeCancellation, true, false)
  else if decide (kind = OutcomeCancellation) then acc
  else if negb haveKind then (ae_Outcome attempt, true, mixed)
  else if decide (kind = ae_Outcome attempt) then acc
  else (OutcomeInconclusive, haveKind, true).

Definition aggregate_kind (attempts : list AttemptEvidence) : OutcomeKind * bool * bool :=
  fold_left kind_step attempts (OutcomeInconclusive, false, false).

(** The cause a mixed result keeps: that of the last attempt that neither
    succeeded nor reported absence and has one. *)
Definition mixed_cause (attempts : list AttemptEvidence) (cause : error) : error :=
  match List.find (fun a => bool_decide (ae_Outcome a <> OutcomeSuccess) &&
                            bool_decide (ae_Outcome a <> OutcomeHardArticleAbsence) &&
                            negb (is_nil (ae_Cause a))) (rev attempts) with
  | Some a => ae_Cause a
  | None => cause
  end.

(** The representative attempt of a uniform result: the last one of its kind. *)
Definition representative (kind : OutcomeKind) (attempts : list AttemptEvidence)
  : option AttemptEvidence :=
  List.find (fun a => bool_decide (ae_Outcome a = kind)) (rev attempts).

Definition newTransportError (attempts : list AttemptEvidence) (cause : error) : gerror :=
  let '(kind, _, mixed) := aggregate_kind attempts in
  let '(providerID, responseCode, cause) :=
    if mixed then (""%string, 0, mixed_cause attempts cause)
    else match representative kind attempts with
         | Some a => (ae_ProviderID a, ae_ResponseCode a,
                      match ae_Cause a with Some c => Some c | None => cause end)
         | None => (""%string, 0, cause)
         end in
  let cause :=
    if decide (kind = OutcomeHardArticleAbsence)
    then withErrorClassification cause ErrArticleNotFound IsArticleNotFound
    else cause in
  ETransport kind providerID responseCode (cloneAttempts attempts) cause.

(** [isConnectionDeathError] *)
Definition isConnectionDeathError (err : error) : bool :=
  match err with
  | None => false
  | Some e =>
      if errors_is e IsAuthRequired || errors_is e IsAuthRejected ||
         errors_is e (TSentinel ErrInvalidProviderConfiguration) then false
      else if errors_is e (TSentinel ErrConnectionDied) || errors_is e (TSentinel ioEOF) ||
              errors_is e (TSentinel ioErrUnexpectedEOF) || errors_is e (TSentinel ioErrClosedPipe) ||
              errors_is e (TSentinel netErrClosed) then true
      else match errors_as_net e with
           | Some timeout => negb timeout
           | None => false
           end
  end.

Definition classifyDialConfigurationError (err : error) : error :=
  match err with
  | None => None
  | Some e =>
      if errors_as_addr e
      then withErrorClassification err (ESentinel ErrInvalidProviderConfiguration)
                                   (TSentinel ErrInvalidProviderConfiguration)
      else err
  end.

Definition isBootstrapTransportError (err : error) : bool :=
  if Is err (TSentinel ctxCanceled) || Is err (TSentinel ctxDeadlineExceeded) ||
     Is err (TSentinel ioEOF) || Is err (TSentinel ioErrUnexpectedEOF) ||
     Is err (TSentinel ioErrClosedPipe) || Is err (TSentinel netErrClosed)
  then true
  else match err with
       | Some e => match errors_as_net e with Some _ => true | None => false end
       | None => false
       end.

Definition classifyTLSConfigurationError (err : error) : error :=
  if is_nil err || isBootstrapTransportError err then err
  else withErrorClassification err (ESentinel ErrInvalidProviderConfiguration)
                               (TSentinel ErrInvalidProviderConfiguration).

(** [authResponseError]: the stage message joined with the category of the
    server's status code. *)
Definition authResponseError (stage : string) (code : Z) (message : bytes) : error :=
  let cause := Some (EOpaque ("nntp auth: unexpected response to " ++ stage)) in
  let category := match toError code message with
                  | Some c => c
                  | None => EProto code message
                  end in
  withErrorClassification cause category (TProto (match category with EProto c _ => c | _ => code end)).

(** ** Specification of the aggregate outcome *)

(** The outcomes that count: success attempts are left out. *)
Definition failures_of (attempts : list AttemptEvidence) : list OutcomeKind :=
  List.filter (fun k => bool_decide (k <> OutcomeSuccess)) (ae_Outcome <$> attempts).

(** A cancellation decides the result; otherwise it is conclusive only when all
    failed attempts agree. *)
Definition aggregate_spec (attempts : list AttemptEvidence) : OutcomeKind :=
  let ks := failures_of attempts in
  if decide (OutcomeCancellation ∈ ks) then OutcomeCancellation
  else match ks with
       | [] => OutcomeInconclusive
       | k :: rest => if decide (Forall (eq k) rest) then k else OutcomeInconclusive
       end.

(** Evidence whose outcome is neither success nor absence carries a cause that
    does not match [ErrArticleNotFound]. *)
Definition coherent_attempt (a : AttemptEvidence) : Prop :=
  ae_Outcome a <> OutcomeSuccess -> ae_Outcome a <> OutcomeHardArticleAbsence ->
  exists c, ae_Cause a = Some c /\ errors_is c IsArticleNotFound = false.

Definition transport_kind (e : gerror) : OutcomeKind :=
  match e with ETransport k _ _ _ _ => k | _ => OutcomeInconclusive end.
Definition transport_attempts (e : gerror) : list AttemptEvidence :=
  match e with ETransport _ _ _ a _ => a | _ => [] end.

(** ** Lemmas *)

Lemma cloneAttempts_id attempts : cloneAttempts attempts = attempts.
Proof. by destruct attempts. Qed.

Lemma withErrorClassification_keeps cause category t u :
  Is cause u = true -> Is (withErrorClassification cause category t) u = true.
Proof.
  destruct cause as [c|]; simpl; [|done]. intros H.
  destruct (errors_is c t); simpl; [done|]. by rewrite H.
Qed.

Lemma withErrorClassification_category c category t :
  errors_is category t = true ->
  Is (withErrorClassification (Some c) category t) t = true.
Proof.
  intros H. simpl. destruct (errors_is c t) eqn:E; simpl; [done|]. by rewrite E, H.
Qed.

(** The loop of [newTransportError] computes, from any prefix, a state that
    describes the failures seen so far. *)
Definition kind_inv (ks : list OutcomeKind) (acc : OutcomeKind * bool * bool) : Prop :=
  let '(kind, haveKind, mixed) := acc in
  if decide (OutcomeCancellation ∈ ks)
  then kind = OutcomeCancellation /\ haveKind = true /\ mixed = false
  else match ks with
       | [] => kind = OutcomeInconclusive /\ haveKind = false /\ mixed = false
       | k :: rest =>
           haveKind = true /\
           if decide (Forall (eq k) rest) then kind = k /\ mixed = false
           else kind = OutcomeInconclusive /\ mixed = true
       end.

Lemma kind_step_inv ks acc a :
  kind_inv ks acc ->
  kind_inv (ks ++ List.filter (fun k => bool_decide (k <> OutcomeSuccess)) [ae_Outcome a])
           (kind_step acc a).
Proof.
  destruct acc as [[kind haveKind] mixed]. unfold kind_inv, kind_step.
  destruct (decide (ae_Outcome a = OutcomeSuccess)) as [Hs|Hs]; simpl.
  { rewrite bool_decide_eq_false_2 by tauto. by rewrite app_nil_r. }
  rewrite bool_decide_eq_true_2 by done. intros Hinv.
  destruct (decide (ae_Outcome a = OutcomeCancellation)) as [Hc|Hc].
  { rewrite decide_True; [done|]. rewrite Hc. set_solver. }
  destruct (decide (OutcomeCancellation ∈ ks)) as [Hin|Hin].
  { destruct Hinv as (-> & -> & ->). rewrite decide_True by done.
    rewrite decide_True; [done|set_solver]. }
  assert (Hn : OutcomeCancellation ∉ ks ++ [ae_Outcome a]) by set_solver.
  destruct ks as [|k rest]; simpl.
  { destruct Hinv as (-> & -> & ->). simpl in *. by rewrite decide_False. }
  assert (Hk : k <> OutcomeCancellation) by set_solver.
  destruct Hinv as [-> Hinv]. simpl.
  destruct (decide (Forall (eq k) rest)) as [Hf|Hf].
  - destruct Hinv as [-> ->]. rewrite (decide_False (P := k = _)) by done.
    destruct (decide (k = ae_Outcome a)) as [Heq|Hne]; rewrite decide_False by done; split; try done.
    + rewrite decide_True; [done|]. apply Forall_app; split; [done|by constructor].
    + rewrite decide_False; [done|]. rewrite Forall_app. intros [_ Hl]. by inversion Hl.
  - destruct Hinv as [-> ->]. rewrite (decide_False (P := OutcomeInconclusive = _)) by done.
    destruct (decide (OutcomeInconclusive = ae_Outcome a)); rewrite decide_False by done;
      (split; [done|]); rewrite decide_False; try done; rewrite Forall_app; tauto.
Qed.

Lemma aggregate_kind_inv attempts :
  kind_inv (failures_of attempts) (aggregate_kind attempts).
Proof.
  unfold aggregate_kind. induction attempts as [|a l IH] using rev_ind; [done|].
  rewrite fold_left_app. simpl.
  replace (failures_of (l ++ [a])) with
    (failures_of l ++ List.filter (fun k => bool_decide (k <> OutcomeSuccess)) [ae_Outcome a]).
  - by apply kind_step_inv.
  - unfold failures_of. rewrite fmap_app, List.filter_app. done.
Qed.

Lemma failures_of_elem k attempts :
  k ∈ failures_of attempts <-> k <> OutcomeSuccess /\ exists a, a ∈ attempts /\ ae_Outcome a = k.
Proof.
  unfold failures_of. rewrite list_elem_of_In, filter_In, bool_decide_eq_true, <- list_elem_of_In.
  rewrite list_elem_of_fmap. naive_solver.
Qed.

Lemma find_rev_Some {A} (f : A -> bool) (l : list A) :
  (exists x, x ∈ l /\ f x = true) -> exists x, List.find f (rev l) = Some x /\ x ∈ l /\ f x = true.
Proof.
  intros (x & Hx & Hf). destruct (List.find f (rev l)) as [y|] eqn:E.
  - apply find_some in E as [E1 E2]. exists y. rewrite list_elem_of_In.
    by rewrite <- in_rev in E1.
  - eapply find_none in E; [|apply in_rev; rewrite rev_involutive; by apply list_elem_of_In].
    congruence.
Qed.

(** A mixed result takes its cause from an attempt that is neither success nor
    absence. *)
Lemma mixed_cause_no_absence attempts cause :
  Forall coherent_attempt attempts ->
  (exists a, a ∈ attempts /\ ae_Outcome a <> OutcomeSuccess /\
             ae_Outcome a <> OutcomeHardArticleAbsence) ->
  exists c, mixed_cause attempts cause = Some c /\ errors_is c IsArticleNotFound = false.
Proof.
  intros Hco (a & Ha & Hs & Hh). unfold mixed_cause.
  rewrite list.Forall_forall in Hco.
  destruct (find_rev_Some (fun a => bool_decide (ae_Outcome a <> OutcomeSuccess) &&
               bool_decide (ae_Outcome a <> OutcomeHardArticleAbsence) &&
               negb (is_nil (ae_Cause a))) attempts) as (x & -> & Hx & Hf).
  - exists a. split; [done|]. destruct (Hco a Ha Hs Hh) as (c & Hc & _).
    rewrite !bool_decide_eq_true_2, Hc by done. done.
  - apply andb_true_iff in Hf as [[H1 H2]%andb_true_iff H3].
    apply bool_decide_eq_true in H1, H2. destruct (Hco x Hx H1 H2) as (c & Hc & Hn).
    rewrite Hc. eauto.
Qed.

(** The kind [newTransportError] computes, with [mixed], by its specification. *)
Lemma aggregate_kind_spec attempts :
  exists haveKind mixed,
    aggregate_kind attempts = (aggregate_spec attempts, haveKind, mixed) /\
    (mixed = true -> exists a, a ∈ attempts /\ ae_Outcome a <> OutcomeSuccess /\
                               ae_Outcome a <> OutcomeHardArticleAbsence) /\
    (mixed = false -> failures_of attempts <> [] ->
       exists a, a ∈ attempts /\ ae_Outcome a = aggregate_spec attempts).
Proof.
  pose proof (aggregate_kind_inv attempts) as H.
  destruct (aggregate_kind attempts) as [[kind have] mixed]. unfold kind_inv in H.
  unfold aggregate_spec. destruct (decide (OutcomeCancellation ∈ failures_of attempts)) as [Hc|Hc].
  { destruct H as (-> & -> & ->). exists true, false. split_and!; [done|done|].
    intros _ _. apply failures_of_elem in Hc as [_ ?]. done. }
  destruct (failures_of attempts) as [|k rest] eqn:E.
  { destruct H as (-> & -> & ->). by exists false, false. }
  assert (Hk : k ∈ failures_of attempts) by (rewrite E; set_solver).
  destruct H as [-> H]. destruct (decide (Forall (eq k) rest)) as [Hf|Hf].
  - destruct H as [-> ->]. exists true, false. split_and!; [done|done|].
    intros _ _. apply failures_of_elem in Hk as [_ ?]. done.
  - destruct H as [-> ->]. exists true, true. split_and!; [done| |done]. intros _.
    destruct (decide (k = OutcomeHardArticleAbsence)) as [->|Hne].
    + apply not_Forall_Exists in Hf; [|apply _]. apply list.Exists_exists in Hf as (k' & Hin & Hne).
      assert (Hk' : k' ∈ failures_of attempts) by (rewrite E; set_solver).
      apply failures_of_elem in Hk' as [Hs (a & Ha & <-)]. exists a. naive_solver.
    + apply failures_of_elem in Hk as [Hs (a & Ha & <-)]. exists a. done.
Qed.

Lemma aggregate_spec_absence attempts :
  failures_of attempts <> [] ->
  aggregate_spec attempts = OutcomeHardArticleAbsence <->
  Forall (fun a => ae_Outcome a = OutcomeSuccess \/ ae_Outcome a = OutcomeHardArticleAbsence) attempts.
Proof.
  intros Hne. unfold aggregate_spec. rewrite list.Forall_forall. split.
  - destruct (decide _) as [|Hc]; [done|]. destruct (failures_of attempts) as [|k rest] eqn:E; [done|].
    destruct (decide _) as [Hf|]; [|done]. intros -> a Ha.
    destruct (decide (ae_Outcome a = OutcomeSuccess)); [by left|right].
    assert (Hin : ae_Outcome a ∈ failures_of attempts) by (apply failures_of_elem; eauto).
    rewrite E in Hin. apply elem_of_cons in Hin as [|Hin]; [done|].
    rewrite list.Forall_forall in Hf. symmetry. by apply Hf.
  - intros H. assert (Hall : forall k, k ∈ failures_of attempts -> k = OutcomeHardArticleAbsence).
    { intros k [Hs (a & Ha & <-)]%failures_of_elem. destruct (H a Ha); done. }
    rewrite decide_False by (intros ?%Hall; done).
    destruct (failures_of attempts) as [|k rest]; [done|].
    rewrite decide_True; [apply Hall; set_solver|].
    apply list.Forall_forall. intros k' Hk'. rewrite (Hall k), (Hall k'); set_solver.
Qed.

(** ** Properties *)

(** The outcome class of a status code is decided by the sentinel [toError]
    gives it: 2xx and 3xx codes are success, 423 and 430 hard absence, 480, 481
    and 502 provider unavailability, 451 temporary, and every other code is
    inconclusive; no code is ever a transport failure, corruption or
    cancellation. *)
Theorem classifyOutcome_toError (code : Z) (status : bytes) :
  classifyOutcome code (toError code status) =
  if code_ok code then OutcomeSuccess
  else if (code =? 423) || (code =? 430) then OutcomeHardArticleAbsence
  else if (code =? 480) || (code =? 481) || (code =? 502) then OutcomeProviderUnavailable
  else if code =? 451 then OutcomeTemporaryFailure
  else OutcomeInconclusive.
Proof.
  unfold toError, classifyOutcome.
  destruct (code_ok code) eqn:Hok; simpl; [done|].
  destruct (Z.eqb_spec code 423) as [->|]; [done|].
  destruct (Z.eqb_spec code 430) as [->|]; [done|].
  destruct (Z.eqb_spec code 440) as [->|]; [done|].
  destruct (Z.eqb_spec code 441) as [->|]; [done|].
  destruct (Z.eqb_spec code 480) as [->|]; [done|].
  destruct (Z.eqb_spec code 481) as [->|]; [done|].
  destruct (Z.eqb_spec code 502) as [->|]; [done|]. simpl.
  unfold IsServiceUnavailable, IsAuthRequired, IsAuthRejected, IsArticleNotFound, proto_is.
  assert (errorCategory code = code) as ->.
  { unfold errorCategory. by rewrite (proj2 (Z.eqb_neq code 423)), (proj2 (Z.eqb_neq code 430)). }
  change (errorCategory 502) with 502. change (errorCategory 480) with 480.
  change (errorCategory 481) with 481. change (errorCategory 430) with 430.
  rewrite !(proj2 (Z.eqb_neq code _)) by done. simpl. by destruct (code =? 451).
Qed.

(** C36: The final error's kind is the specified aggregate of its attempts: any
    cancellation makes it a cancellation, agreement of all failed attempts makes
    it that outcome, everything else is inconclusive; and the attempts are kept
    in full and in order. *)
Theorem newTransportError_kind (attempts : list AttemptEvidence) (cause : error) :
  transport_kind (newTransportError attempts cause) = aggregate_spec attempts /\
  transport_attempts (newTransportError attempts cause) = attempts.
Proof.
  destruct (aggregate_kind_spec attempts) as (h & m & E & _ & _).
  unfold newTransportError. rewrite E.
  destruct m; [|destruct (representative _ _)]; simpl; by rewrite cloneAttempts_id.
Qed.

(** The final error matches [ErrArticleNotFound] exactly when every failed
    attempt reported hard absence: one provider's 430 never makes a mixed or
    cancelled result look like global absence, and uniform absence (a mapped 451
    included) always keeps the sentinel. *)
Theorem newTransportError_absence (attempts : list AttemptEvidence) (c : gerror) :
  Forall coherent_attempt attempts -> failures_of attempts <> [] ->
  errors_is (newTransportError attempts (Some c)) IsArticleNotFound = true <->
  Forall (fun a => ae_Outcome a = OutcomeSuccess \/ ae_Outcome a = OutcomeHardArticleAbsence) attempts.
Proof.
  intros Hco Hne. rewrite <- aggregate_spec_absence by done.
  destruct (aggregate_kind_spec attempts) as (h & m & E & Hmix & Huni).
  unfold newTransportError. rewrite E. destruct m.
  - destruct (mixed_cause_no_absence attempts (Some c) Hco (Hmix eq_refl)) as (c' & -> & Hn).
    destruct (decide (aggregate_spec attempts = OutcomeHardArticleAbsence)) as [Hh|Hh].
    + exfalso. apply aggregate_spec_absence in Hh; [|done]. rewrite list.Forall_forall in Hh.
      destruct (Hmix eq_refl) as (a & Ha & H1 & H2). destruct (Hh a Ha); done.
    + simpl. rewrite Hn. done.
  - destruct (Huni eq_refl Hne) as (a & Ha & Hk).
    destruct (find_rev_Some (fun x => bool_decide (ae_Outcome x = aggregate_spec attempts)) attempts)
      as (x & Hf & Hx & Hxk); [exists a; by rewrite bool_decide_eq_true|].
    unfold representative. rewrite Hf. apply bool_decide_eq_true in Hxk.
    destruct (decide (aggregate_spec attempts = OutcomeHardArticleAbsence)) as [Hh|Hh].
    + split; [done|intros _].
      destruct (ae_Cause x); apply withErrorClassification_category; done.
    + split; [|done]. assert (Hs : aggregate_spec attempts <> OutcomeSuccess).
      { destruct (failures_of attempts) as [|k r] eqn:Ef; [done|].
        unfold aggregate_spec. rewrite Ef. destruct (decide _); [done|].
        destruct (decide _); [|done].
        apply (failures_of_elem k attempts). rewrite Ef. set_solver. }
      rewrite list.Forall_forall in Hco.
      destruct (Hco x Hx) as (c' & -> & Hn); [congruence|congruence|]. simpl. congruence.
Qed.

Definition absent_attempt (id : string) (code : Z) : AttemptEvidence :=
  mkAttemptEvidence id OperationBody OutcomeHardArticleAbsence code BodyValidationNotApplicable
    (toError code []) false 0 0 0.
Definition died_attempt (id : string) : AttemptEvidence :=
  mkAttemptEvidence id OperationBody OutcomeTransportFailure 0 BodyValidationNotApplicable
    (Some (EWrap "p" (ESentinel ErrConnectionDied))) false 0 0 0.

Lemma newTransportError_absence_witness :
  errors_is (newTransportError [absent_attempt "a" 430; absent_attempt "b" 451] (Some (ESentinel ioEOF)))
            IsArticleNotFound = true /\
  errors_is (newTransportError [absent_attempt "a" 430; died_attempt "b"] (Some ErrArticleNotFound))
            IsArticleNotFound = false.
Proof.
  split.
  - apply (newTransportError_absence [absent_attempt "a" 430; absent_attempt "b" 451]).
    + repeat constructor; intros H1 H2; exfalso; by apply H2.
    + vm_compute. discriminate.
    + repeat constructor; right; reflexivity.
  - destruct (newTransportError_absence [absent_attempt "a" 430; died_attempt "b"] ErrArticleNotFound)
      as [H _].
    + repeat constructor; intros H1 H2; [exfalso; by apply H2|].
      eexists; split; reflexivity.
    + vm_compute. discriminate.
    + apply not_true_is_false. intros E. apply H in E.
      inversion E as [|? ? _ E2]. inversion E2 as [|? ? [E3|E3] _]; discriminate.
Defined.
