(* ===== verification/CircuitBreaker.v ===== *)
(** The per-provider circuit breaker ([circuit_breaker.go]).

    Times are nanoseconds since Go's zero time, so [time.Time{}] is 0; the
    clock readings an operation makes are its arguments, in the order of the
    [b.clock.Now()] calls.  Every operation runs under [b.mu], so an execution
    of the breaker is a sequence of operations: [breaker_step] is that
    interleaving, with the leases requests hold between acquire and complete. *)
From Stdlib Require Import Sorted.
From S2P Require Import Prelude Errors.

(** ** Data *)

Definition providerBreakerFailureThreshold : Z := 3.
Definition providerBreakerFailureWindow : Z := 30 * GoSecond.
Definition providerBreakerCooldowns : list Z :=
  [10 * GoSecond; 20 * GoSecond; 40 * GoSecond; 80 * GoSecond; 120 * GoSecond].

Record CircuitBreakerStats := mkBreakerStats {
  st_State : CircuitBreakerState;
  st_QualifyingFailures : Z;
  st_OpenUntil : Z;
  st_Cooldown : Z;
  st_ProbeInFlight : bool
}.

Inductive circuitBreakerCompletion :=
| circuitBreakerNeutral | circuitBreakerSuccess | circuitBreakerFailure.

#[export] Instance circuitBreakerCompletion_eq_dec : EqDecision circuitBreakerCompletion.
Proof. solve_decision. Defined.

(** A lease; [breaker] is the identity of the breaker that issued it (0 for the
    zero lease). *)
Record circuitBreakerLease := mkLease {
  lease_breaker : nat;
  lease_generation : Z;
  lease_enabled : bool;
  lease_probe : bool
}.

Definition zero_lease : circuitBreakerLease := mkLease 0 0 false false.

#[export] Instance circuitBreakerLease_eq_dec : EqDecision circuitBreakerLease.
Proof. solve_decision. Defined.

Record providerCircuitBreaker := mkBreaker {
  b_self : nat;
  b_enabled : bool;
  b_state : CircuitBreakerState;
  b_failures : list Z;
  b_cooldownIndex : nat;
  b_openUntil : Z;
  b_probeInFlight : bool;
  b_generation : Z
}.

(** ** Operations *)

Definition newProviderCircuitBreaker (self : nat) (enabled : bool) : providerCircuitBreaker :=
  mkBreaker self enabled
    (if enabled then CircuitBreakerClosed else CircuitBreakerDisabled) [] 0 0 false 0.

Definition cooldown_at (i : nat) : Z := nth i providerBreakerCooldowns 0.

Definition set_probe (b : providerCircuitBreaker) (p : bool) : providerCircuitBreaker :=
  mkBreaker (b_self b) (b_enabled b) (b_state b) (b_failures b) (b_cooldownIndex b)
            (b_openUntil b) p (b_generation b).
Definition set_failures (b : providerCircuitBreaker) (fs : list Z) : providerCircuitBreaker :=
  mkBreaker (b_self b) (b_enabled b) (b_state b) fs (b_cooldownIndex b)
            (b_openUntil b) (b_probeInFlight b) (b_generation b).
Definition set_cooldownIndex (b : providerCircuitBreaker) (i : nat) : providerCircuitBreaker :=
  mkBreaker (b_self b) (b_enabled b) (b_state b) (b_failures b) i
            (b_openUntil b) (b_probeInFlight b) (b_generation b).

(** [acquire]: the lease and, when the provider is not eligible, the error. *)
Definition acquire (b : providerCircuitBreaker) (providerID : string) (now : Z)
  : providerCircuitBreaker * circuitBreakerLease * error :=
  let lease := mkLease (b_self b) (b_generation b) (b_enabled b) false in
  if negb (b_enabled b) then (b, lease, None)
  else if decide (b_state b = CircuitBreakerClosed) then (b, lease, None)
  else
    if negb (now <? b_openUntil b) && negb (b_probeInFlight b) then
      (set_probe b true, mkLease (b_self b) (b_generation b) (b_enabled b) true, None)
    else
      let state := if negb (now <? b_openUntil b) then CircuitBreakerHalfOpen
                   else CircuitBreakerOpen in
      (b, zero_lease, Some (EBreaker providerID state (b_openUntil b))).

(** [openLocked]; [now] is its clock reading. *)
Definition openLocked (b : providerCircuitBreaker) (now : Z) : providerCircuitBreaker :=
  mkBreaker (b_self b) (b_enabled b) CircuitBreakerOpen [] (b_cooldownIndex b)
            (now + cooldown_at (b_cooldownIndex b)) false (wrapU64 (b_generation b + 1)).

Definition resetLocked (b : providerCircuitBreaker) : providerCircuitBreaker :=
  mkBreaker (b_self b) (b_enabled b) CircuitBreakerClosed [] 0 0 false
            (wrapU64 (b_generation b + 1)).

(** The loop of [pruneFailuresLocked]: drop the leading failures before [cutoff]. *)
Fixpoint drop_before (cutoff : Z) (fs : list Z) : list Z :=
  match fs with
  | f :: rest => if f <? cutoff then drop_before cutoff rest else fs
  | [] => []
  end.

Definition pruneFailuresLocked (b : providerCircuitBreaker) (now : Z) : providerCircuitBreaker :=
  set_failures b (drop_before (now - providerBreakerFailureWindow) (b_failures b)).

(** [complete]; [now] is the reading of the failure accounting, [now'] the later
    one [openLocked] makes. *)
Definition complete (b : providerCircuitBreaker) (lease : circuitBreakerLease)
    (completion : circuitBreakerCompletion) (now now' : Z) : providerCircuitBreaker :=
  if negb (lease_enabled lease) || negb (Nat.eqb (lease_breaker lease) (b_self b)) then b
  else if decide (completion = circuitBreakerSuccess) then resetLocked b
  else if negb (lease_generation lease =? b_generation b) then b
  else if lease_probe lease then
    if negb (b_probeInFlight b) then b
    else
      let b := set_probe b false in
      if decide (completion = circuitBreakerFailure) then
        let b := if (b_cooldownIndex b <? length providerBreakerCooldowns - 1)%nat
                 then set_cooldownIndex b (S (b_cooldownIndex b)) else b in
        openLocked b now'
      else b
  else if negb (bool_decide (completion = circuitBreakerFailure)) ||
          negb (bool_decide (b_state b = CircuitBreakerClosed)) then b
  else
    let b := pruneFailuresLocked b now in
    let b := set_failures b (b_failures b ++ [now]) in
    if providerBreakerFailureThreshold <=? zlen (b_failures b)
    then openLocked (set_cooldownIndex b 0) now'
    else b.

Definition breaker_snapshot (b : providerCircuitBreaker) (now : Z)
  : providerCircuitBreaker * CircuitBreakerStats :=
  if negb (b_enabled b) then (b, mkBreakerStats CircuitBreakerDisabled 0 0 0 false)
  else
    let '(b, state) :=
      if decide (b_state b = CircuitBreakerClosed) then (pruneFailuresLocked b now, b_state b)
      else if negb (now <? b_openUntil b) then (b, CircuitBreakerHalfOpen)
      else (b, b_state b) in
    (b, mkBreakerStats state (zlen (b_failures b)) (b_openUntil b)
          (if decide (b_state b = CircuitBreakerOpen) then cooldown_at (b_cooldownIndex b) else 0)
          (b_probeInFlight b)).

(** ** The breaker under concurrent requests *)

(** A breaker with the leases its requests hold. *)
Record breaker_sys := mkBreakerSys {
  sys_breaker : providerCircuitBreaker;
  sys_leases : list circuitBreakerLease
}.

Inductive breaker_step : breaker_sys -> breaker_sys -> Prop :=
| step_acquire b ls id now b' lease :
    acquire b id now = (b', lease, None) ->
    breaker_step (mkBreakerSys b ls) (mkBreakerSys b' (lease :: ls))
| step_suppressed b ls id now b' lease e :
    acquire b id now = (b', lease, Some e) ->
    breaker_step (mkBreakerSys b ls) (mkBreakerSys b' ls)
| step_complete b ls ls1 ls2 lease completion now now' :
    ls = ls1 ++ lease :: ls2 ->
    breaker_step (mkBreakerSys b ls)
                 (mkBreakerSys (complete b lease completion now now') (ls1 ++ ls2))
| step_snapshot b ls now :
    breaker_step (mkBreakerSys b ls) (mkBreakerSys (fst (breaker_snapshot b now)) ls).

(** States reachable in [n] operations. *)
Inductive breaker_reach (self : nat) (enabled : bool) : nat -> breaker_sys -> Prop :=
| reach_new : breaker_reach self enabled 0 (mkBreakerSys (newProviderCircuitBreaker self enabled) [])
| reach_step n s s' :
    breaker_reach self enabled n s -> breaker_step s s' -> breaker_reach self enabled (S n) s'.

(** A current half-open probe. *)
Definition is_current_probe (b : providerCircuitBreaker) (l : circuitBreakerLease) : bool :=
  lease_probe l && (lease_generation l =? b_generation b).

(** The representation invariant. *)
Definition breaker_inv (b : providerCircuitBreaker) : Prop :=
  if b_enabled b then
    match b_state b with
    | CircuitBreakerClosed =>
        zlen (b_failures b) < providerBreakerFailureThreshold /\
        b_cooldownIndex b = 0%nat /\ b_openUntil b = 0 /\ b_probeInFlight b = false
    | CircuitBreakerOpen =>
        b_failures b = [] /\ (b_cooldownIndex b < length providerBreakerCooldowns)%nat
    | _ => False
    end
  else b_state b = CircuitBreakerDisabled /\ b_failures b = [] /\ b_probeInFlight b = false.

(** The backoff a run of [k] failed probes reaches. *)
Definition backoff (k : nat) : Z := cooldown_at (Nat.min k 4).

(** A probe granted at [t] and reported failed at [t']. *)
Definition failed_probe (id : string) (b : providerCircuitBreaker) (t t' : Z)
  : providerCircuitBreaker :=
  let '(b1, lease, _) := acquire b id t in complete b1 lease circuitBreakerFailure t' t'.

(** Failed probes one after the other, each at the end of the cooldown. *)
Fixpoint failed_probes (id : string) (k : nat) (b : providerCircuitBreaker)
  : providerCircuitBreaker :=
  match k with
  | O => b
  | S k' => let b' := failed_probes id k' b in failed_probe id b' (b_openUntil b') (b_openUntil b')
  end.

(** ** Lemmas *)

Lemma drop_before_suffix cutoff fs : exists pre, fs = pre ++ drop_before cutoff fs.
Proof.
  induction fs as [|f fs [pre IH]]; simpl; [by exists []|].
  destruct (f <? cutoff); [exists (f :: pre); simpl; by f_equal|by exists []].
Qed.

Lemma drop_before_length cutoff fs : zlen (drop_before cutoff fs) <= zlen fs.
Proof.
  destruct (drop_before_suffix cutoff fs) as [pre H]. apply (f_equal zlen) in H.
  rewrite zlen_app in H. pose proof (zlen_nonneg pre). lia.
Qed.

(** On failures in time order the pruned list is the failures in the window. *)
Lemma drop_before_filter cutoff fs :
  StronglySorted Z.le fs -> drop_before cutoff fs = List.filter (fun f => cutoff <=? f) fs.
Proof.
  induction 1 as [|f fs Hs IH Hall]; simpl; [done|].
  destruct (Z.ltb_spec f cutoff), (Z.leb_spec cutoff f); try lia; [done|].
  f_equal. symmetry. apply forallb_filter_id, forallb_forall. intros x Hx.
  rewrite Forall_forall in Hall. specialize (Hall x Hx). lia.
Qed.

Lemma breaker_inv_new self enabled : breaker_inv (newProviderCircuitBreaker self enabled).
Proof. destruct enabled; by vm_compute. Qed.

Lemma breaker_inv_open b now :
  b_enabled b = true -> (b_cooldownIndex b < 5)%nat -> breaker_inv (openLocked b now).
Proof. unfold breaker_inv. simpl. intros -> H. done. Qed.

Lemma breaker_inv_reset b : b_enabled b = true -> breaker_inv (resetLocked b).
Proof. unfold breaker_inv. simpl. intros ->. done. Qed.

Lemma breaker_inv_prune b now : breaker_inv b -> breaker_inv (pruneFailuresLocked b now).
Proof.
  unfold breaker_inv, pruneFailuresLocked. simpl.
  destruct (b_enabled b); [destruct (b_state b); try done|].
  - intros (H & ?). split; [|done].
    pose proof (drop_before_length (now - providerBreakerFailureWindow) (b_failures b)). lia.
  - intros (-> & ?). done.
  - intros (-> & -> & ->). done.
Qed.

(** A lease fits the breaker that holds it. *)
Definition lease_ok (b : providerCircuitBreaker) (l : circuitBreakerLease) : Prop :=
  lease_enabled l = b_enabled b /\ lease_breaker l = b_self b /\
  lease_generation l <= b_generation b.

Lemma acquire_granted b id now b' lease :
  acquire b id now = (b', lease, None) ->
  lease_enabled lease = b_enabled b /\ lease_breaker lease = b_self b /\
  lease_generation lease = b_generation b /\
  ((b' = b /\ lease_probe lease = false /\
      (b_enabled b = false \/ b_state b = CircuitBreakerClosed)) \/
   (b' = set_probe b true /\ lease_probe lease = true /\ b_enabled b = true /\
      b_state b <> CircuitBreakerClosed /\ b_openUntil b <= now /\ b_probeInFlight b = false)).
Proof.
  unfold acquire. destruct (b_enabled b) eqn:He; simpl.
  2: { intros [= <- <-]. simpl. split_and!; auto. }
  destruct (decide _) as [Hc|Hc].
  { intros [= <- <-]. simpl. split_and!; auto. }
  destruct (Z.ltb_spec now (b_openUntil b)); simpl; [done|].
  destruct (b_probeInFlight b) eqn:Hp; simpl; [done|].
  intros [= <- <-]. simpl. split_and!; auto.
  right. split_and!; auto.
Qed.

Lemma acquire_refused b id now b' lease e :
  acquire b id now = (b', lease, Some e) -> b' = b.
Proof.
  unfold acquire. destruct (b_enabled b); simpl; [|done]. case_decide; [done|].
  destruct (negb _ && negb _); [done|]. by intros [= <- _ _].
Qed.

Lemma acquire_inv b id now : breaker_inv b -> breaker_inv (fst (fst (acquire b id now))).
Proof.
  intros H. destruct (acquire b id now) as [[b' l] [e|]] eqn:E; simpl.
  - by rewrite (acquire_refused _ _ _ _ _ _ E).
  - destruct (acquire_granted _ _ _ _ _ E) as (_ & _ & _ & [[-> _]|(-> & _ & He & Hc & _)]); [done|].
    unfold breaker_inv in *. simpl. rewrite He in *. by destruct (b_state b).
Qed.

(** Every branch of [complete] on a lease of the breaker. *)
Inductive complete_case (b : providerCircuitBreaker) (lease : circuitBreakerLease) (now now' : Z)
  : circuitBreakerCompletion -> providerCircuitBreaker -> Prop :=
| case_reset : complete_case b lease now now' circuitBreakerSuccess (resetLocked b)
| case_ignored c :
    lease_generation lease = b_generation b -> b_probeInFlight b = false \/ lease_probe lease = false ->
    complete_case b lease now now' c b
| case_stale c : lease_generation lease <> b_generation b -> complete_case b lease now now' c b
| case_probe_released : lease_generation lease = b_generation b -> lease_probe lease = true ->
    complete_case b lease now now' circuitBreakerNeutral (set_probe b false)
| case_probe_failed : lease_probe lease = true -> b_probeInFlight b = true ->
    lease_generation lease = b_generation b ->
    complete_case b lease now now' circuitBreakerFailure
      (openLocked (set_cooldownIndex (set_probe b false)
                     (Nat.min (S (b_cooldownIndex b)) (Nat.max 4 (b_cooldownIndex b)))) now')
| case_counted fs : b_state b = CircuitBreakerClosed -> zlen fs < providerBreakerFailureThreshold ->
    lease_generation lease = b_generation b -> lease_probe lease = false ->
    fs = drop_before (now - providerBreakerFailureWindow) (b_failures b) ++ [now] ->
    complete_case b lease now now' circuitBreakerFailure (set_failures b fs)
| case_tripped fs : b_state b = CircuitBreakerClosed -> providerBreakerFailureThreshold <= zlen fs ->
    lease_generation lease = b_generation b -> lease_probe lease = false ->
    fs = drop_before (now - providerBreakerFailureWindow) (b_failures b) ++ [now] ->
    complete_case b lease now now' circuitBreakerFailure
      (openLocked (set_cooldownIndex (set_failures b fs) 0) now').

Lemma complete_cases b lease c now now' :
  lease_enabled lease = true -> lease_breaker lease = b_self b ->
  complete_case b lease now now' c (complete b lease c now now').
Proof.
  intros He Hb. unfold complete. rewrite He, Hb, Nat.eqb_refl. simpl.
  destruct (decide (c = circuitBreakerSuccess)) as [->|Hs]; [constructor|].
  destruct (Z.eqb_spec (lease_generation lease) (b_generation b)) as [Hg|Hg]; simpl;
    [|by apply case_stale].
  destruct (lease_probe lease) eqn:Hp.
  - destruct (b_probeInFlight b) eqn:Hf; simpl; [|apply case_ignored; auto].
    destruct (decide (c = circuitBreakerFailure)) as [->|Hn].
    + replace (if (b_cooldownIndex b <? 4)%nat then _ else _) with
        (set_cooldownIndex (set_probe b false)
           (Nat.min (S (b_cooldownIndex b)) (Nat.max 4 (b_cooldownIndex b)))); [by constructor|].
      destruct (Nat.ltb_spec (b_cooldownIndex b) 4).
      * f_equal. lia.
      * replace (Nat.min _ _) with (b_cooldownIndex b) by lia. by destruct b.
    + destruct c; try done. by constructor.
  - destruct (bool_decide (c = circuitBreakerFailure)) eqn:Hc; simpl; [|apply case_ignored; auto].
    apply bool_decide_eq_true in Hc as ->.
    destruct (bool_decide (b_state b = CircuitBreakerClosed)) eqn:Hst; simpl;
      [|apply case_ignored; auto].
    apply bool_decide_eq_true in Hst.
    pose (fs := drop_before (now - providerBreakerFailureWindow) (b_failures b) ++ [now]).
    change (complete_case b lease now now' circuitBreakerFailure
      (if providerBreakerFailureThreshold <=? zlen fs
       then openLocked (set_cooldownIndex (set_failures b fs) 0) now' else set_failures b fs)).
    destruct (Z.leb_spec providerBreakerFailureThreshold (zlen fs)).
    + by eapply case_tripped.
    + by eapply case_counted.
Qed.

Lemma complete_disabled b lease c now now' :
  lease_enabled lease = false -> complete b lease c now now' = b.
Proof. intros H. unfold complete. by rewrite H. Qed.

Lemma complete_inv b lease c now now' :
  lease_enabled lease = b_enabled b -> lease_breaker lease = b_self b ->
  breaker_inv b -> breaker_inv (complete b lease c now now').
Proof.
  intros He Hb Hinv. destruct (b_enabled b) eqn:Hen; [|by rewrite complete_disabled].
  destruct (complete_cases b lease c now now' He Hb) as [|?|?| | |fs|fs]; try done;
    try (apply breaker_inv_reset; done); try (apply breaker_inv_open; simpl; [done|lia]).
  - unfold breaker_inv in *. simpl. rewrite Hen in *.
    destruct (b_state b); try done. by destruct Hinv as (? & ? & ? & _).
  - apply breaker_inv_open; [done|].
    change (Nat.min (S (b_cooldownIndex b)) (Nat.max 4 (b_cooldownIndex b)) < 5)%nat.
    assert (b_cooldownIndex b < 5)%nat; [|lia].
    unfold breaker_inv in Hinv. rewrite Hen in Hinv.
    destruct (b_state b); try done; simpl in Hinv; lia.
  - unfold breaker_inv in *. simpl. rewrite Hen, H in *.
    by destruct Hinv as (_ & ?).
Qed.

Lemma snapshot_same b now :
  fst (breaker_snapshot b now) = b \/ fst (breaker_snapshot b now) = pruneFailuresLocked b now.
Proof. unfold breaker_snapshot. repeat case_match; simplify_eq/=; auto. Qed.

Lemma breaker_step_facts s s' :
  breaker_step s s' ->
  breaker_inv (sys_breaker s) -> Forall (lease_ok (sys_breaker s)) (sys_leases s) ->
  0 <= b_generation (sys_breaker s) < 2 ^ 64 - 1 ->
  breaker_inv (sys_breaker s') /\ Forall (lease_ok (sys_breaker s')) (sys_leases s') /\
  b_generation (sys_breaker s) <= b_generation (sys_breaker s') <= b_generation (sys_breaker s) + 1.
Proof.
  assert (Hw : forall g, 0 <= g < 2 ^ 64 - 1 -> wrapU64 (g + 1) = g + 1).
  { intros g Hg. apply Z.mod_small. lia. }
  intros Hstep Hinv Hls Hg. destruct Hstep as [b ls id now b' lease E|b ls id now b' lease e E|
    b ls ls1 ls2 lease c now now' ->|b ls now]; simpl in *.
  - pose proof (acquire_inv b id now Hinv) as Hi. rewrite E in Hi. split; [done|].
    destruct (acquire_granted _ _ _ _ _ E) as (H1 & H2 & H3 & Hc).
    assert (b_generation b' = b_generation b /\ b_self b' = b_self b /\ b_enabled b' = b_enabled b)
      as (Eg & Es & Ee) by (destruct Hc as [(-> & _)|(-> & _)]; done).
    split; [|lia]. constructor.
    + unfold lease_ok. rewrite Eg, Es, Ee. split_and!; [done|done|lia].
    + eapply Forall_impl; [|exact Hls]. unfold lease_ok. by rewrite Eg, Es, Ee.
  - rewrite (acquire_refused _ _ _ _ _ _ E). split_and!; try done; lia.
  - apply Forall_app in Hls as [Hl1 [Hl Hl2]%Forall_cons_iff]. destruct Hl as (H1 & H2 & H3).
    split; [by apply complete_inv|].
    assert (b_self (complete b lease c now now') = b_self b /\
            b_enabled (complete b lease c now now') = b_enabled b /\
            b_generation b <= b_generation (complete b lease c now now') <= b_generation b + 1)
      as (Es & Ee & Eg).
    { destruct (b_enabled b) eqn:He; [|by rewrite complete_disabled; auto with lia].
      destruct (complete_cases b lease c now now' H1 H2); simpl; rewrite ?Hw by lia; auto with lia. }
    split; [|lia]. apply Forall_app. split;
      (eapply Forall_impl; [|eassumption]); unfold lease_ok; rewrite Es, Ee; intros ?; naive_solver lia.
  - destruct (snapshot_same b now) as [->| ->]; [by split_and!; auto with lia|].
    split; [by apply breaker_inv_prune|]. split; [|simpl; lia].
    eapply Forall_impl; [|exact Hls]. done.
Qed.

(** The number of outstanding probes of the current generation. *)
Definition probe_count (b : providerCircuitBreaker) (ls : list circuitBreakerLease) : nat :=
  length (List.filter (is_current_probe b) ls).

Definition probe_inv (s : breaker_sys) : Prop :=
  probe_count (sys_breaker s) (sys_leases s) =
  if b_probeInFlight (sys_breaker s) then 1%nat else 0%nat.

(** A new generation leaves no lease current. *)
Lemma probe_count_bump b b' ls :
  Forall (lease_ok b) ls -> b_generation b < b_generation b' -> probe_count b' ls = 0%nat.
Proof.
  intros Hls Hg. unfold probe_count. induction Hls as [|l ls (_ & _ & Hl) _ IH]; simpl; [done|].
  unfold is_current_probe at 1. destruct (Z.eqb_spec (lease_generation l) (b_generation b')); [lia|].
  by rewrite andb_false_r.
Qed.

Lemma probe_count_same b b' ls :
  b_generation b' = b_generation b -> probe_count b' ls = probe_count b ls.
Proof. intros H. unfold probe_count, is_current_probe. by rewrite H. Qed.

Lemma probe_count_cons b l ls :
  probe_count b (l :: ls) = ((if is_current_probe b l then 1 else 0) + probe_count b ls)%nat.
Proof. unfold probe_count. simpl. by destruct (is_current_probe b l). Qed.

Lemma probe_count_remove b ls1 l ls2 :
  probe_count b (ls1 ++ l :: ls2) =
  ((if is_current_probe b l then 1 else 0) + probe_count b (ls1 ++ ls2))%nat.
Proof.
  unfold probe_count. rewrite !List.filter_app, !length_app. simpl.
  destruct (is_current_probe b l); simpl; lia.
Qed.

Lemma complete_probe_inv b ls1 l ls2 c now now' :
  breaker_inv b -> Forall (lease_ok b) (ls1 ++ ls2) -> lease_enabled l = b_enabled b ->
  lease_breaker l = b_self b -> 0 <= b_generation b < 2 ^ 64 - 1 ->
  probe_inv (mkBreakerSys b (ls1 ++ l :: ls2)) ->
  probe_inv (mkBreakerSys (complete b l c now now') (ls1 ++ ls2)).
Proof.
  intros Hinv Hls He Hs Hg. unfold probe_inv. simpl. rewrite probe_count_remove. intros Hp.
  assert (Hw : wrapU64 (b_generation b + 1) = b_generation b + 1) by (apply Z.mod_small; lia).
  assert (Hbump : forall b', b_generation b' = b_generation b + 1 -> b_probeInFlight b' = false ->
            probe_count b' (ls1 ++ ls2) = if b_probeInFlight b' then 1%nat else 0%nat).
  { intros b' Hb' ->. apply (probe_count_bump b); [done|lia]. }
  destruct (b_enabled b) eqn:Hen.
  - destruct (complete_cases b l c now now' He Hs) as [|? Hgen Hor|? Hgen|Hgen Hprobe|Hprobe Hfl Hgen|fs Hst|fs Hst].
    + by apply Hbump.
    + unfold is_current_probe in Hp. rewrite Hgen, Z.eqb_refl, andb_true_r in Hp.
      destruct Hor as [Hf|Hf]; rewrite Hf in *; [|done].
      destruct (lease_probe l); simpl in *; lia.
    + unfold is_current_probe in Hp. rewrite (proj2 (Z.eqb_neq _ _)), andb_false_r in Hp by done. done.
    + unfold is_current_probe in Hp. rewrite Hgen, Z.eqb_refl, Hprobe in Hp. simpl in *.
      rewrite (probe_count_same b) by done. destruct (b_probeInFlight b); lia.
    + by apply Hbump.
    + rewrite (probe_count_same b) by done. simpl.
      unfold breaker_inv in Hinv. rewrite Hen, Hst in Hinv. destruct Hinv as (_ & _ & _ & Hf).
      rewrite Hf in *. destruct (is_current_probe b l); lia.
    + by apply Hbump.
  - rewrite complete_disabled by done. unfold breaker_inv in Hinv. rewrite Hen in Hinv.
    destruct Hinv as (_ & _ & Hf). rewrite Hf in *. destruct (is_current_probe b l); lia.
Qed.

Lemma breaker_step_probe s s' :
  breaker_step s s' -> breaker_inv (sys_breaker s) ->
  Forall (lease_ok (sys_breaker s)) (sys_leases s) ->
  0 <= b_generation (sys_breaker s) < 2 ^ 64 - 1 ->
  probe_inv s -> probe_inv s'.
Proof.
  intros Hstep Hinv Hls Hg Hp. destruct Hstep as [b ls id now b' lease E|b ls id now b' lease e E|
    b ls ls1 ls2 lease c now now' ->|b ls now]; simpl in *.
  - destruct (acquire_granted _ _ _ _ _ E) as (_ & _ & H3 & Hc).
    unfold probe_inv in *. simpl in *. rewrite probe_count_cons. unfold is_current_probe.
    destruct Hc as [(-> & -> & _)|(-> & -> & _ & _ & _ & Hf)]; simpl; [done|].
    rewrite H3, Z.eqb_refl. rewrite (probe_count_same b) by done. rewrite Hp, Hf. done.
  - by rewrite (acquire_refused _ _ _ _ _ _ E).
  - apply Forall_app in Hls as [Hl1 [(H1 & H2 & H3) Hl2]%Forall_cons_iff].
    apply complete_probe_inv; auto. by apply Forall_app.
  - by destruct (snapshot_same b now) as [->| ->].
Qed.

Lemma breaker_reach_facts self enabled n s :
  breaker_reach self enabled n s -> Z.of_nat n < 2 ^ 64 ->
  breaker_inv (sys_breaker s) /\ Forall (lease_ok (sys_breaker s)) (sys_leases s) /\
  0 <= b_generation (sys_breaker s) <= Z.of_nat n /\ probe_inv s.
Proof.
  induction 1 as [|n s s' Hr IH Hstep]; intros Hn.
  - split; [apply breaker_inv_new|]. by split_and!; simpl.
  - destruct IH as (Hi & Hl & Hg & Hp); [lia|].
    pose proof (breaker_step_facts _ _ Hstep Hi Hl ltac:(lia)) as (? & ? & ?).
    pose proof (breaker_step_probe _ _ Hstep Hi Hl ltac:(lia) Hp). split_and!; auto; lia.
Qed.

Lemma failed_probe_eq id b t t' :
  b_enabled b = true -> b_state b = CircuitBreakerOpen -> b_probeInFlight b = false ->
  b_openUntil b <= t ->
  failed_probe id b t t' =
  openLocked (set_cooldownIndex b (Nat.min (S (b_cooldownIndex b)) (Nat.max 4 (b_cooldownIndex b)))) t'.
Proof.
  intros He Hst Hp Ht. unfold failed_probe, acquire. rewrite He, Hst, Hp.
  destruct (Z.ltb_spec t (b_openUntil b)); [lia|].
  rewrite decide_False by done. cbn [negb andb].
  pose proof (complete_cases (set_probe b true) (mkLease (b_self b) (b_generation b) true true)
                circuitBreakerFailure t' t' eq_refl eq_refl) as H0.
  inversion H0 as [|? _ [Hf|Hf]|? Hg| | |? Hc|? Hc]; try done; simpl in *; congruence.
Qed.

(** ** Properties *)

(** However requests interleave, the breaker stays well formed: closed
    means fewer than three counted failures, no deadline and no probe; open
    means no counted failures and a cooldown inside the table; disabled never
    leaves its initial state. *)
Theorem breaker_reach_inv (self : nat) (enabled : bool) (n : nat) (s : breaker_sys) :
  breaker_reach self enabled n s -> Z.of_nat n < 2 ^ 64 -> breaker_inv (sys_breaker s).
Proof. intros H Hn. by destruct (breaker_reach_facts _ _ _ _ H Hn). Qed.

(** Three failures at times 1, 2 and 3 and the sequence of states they lead to. *)
Definition trip_lease : circuitBreakerLease := mkLease 1 0 true false.
Definition tripped_breaker : providerCircuitBreaker :=
  mkBreaker 1 true CircuitBreakerOpen [] 0 (3 + 10 * GoSecond) false 1.

Lemma trip_reach : breaker_reach 1 true 6 (mkBreakerSys tripped_breaker []).
Proof.
  pose (b0 := newProviderCircuitBreaker 1 true).
  pose (b1 := complete b0 trip_lease circuitBreakerFailure 1 1).
  pose (b2 := complete b1 trip_lease circuitBreakerFailure 2 2).
  assert (Ha : forall b ls n, breaker_reach 1 true n (mkBreakerSys b ls) ->
     acquire b "p" 0 = (b, trip_lease, None) ->
     breaker_reach 1 true (S n) (mkBreakerSys b (trip_lease :: ls))).
  { intros b ls n H E. eapply reach_step; [exact H|]. by eapply step_acquire. }
  assert (Hc : forall b n t, breaker_reach 1 true n (mkBreakerSys b [trip_lease]) ->
     breaker_reach 1 true (S n) (mkBreakerSys (complete b trip_lease circuitBreakerFailure t t) [])).
  { intros b n t H. eapply reach_step; [exact H|].
    by eapply (step_complete b [trip_lease] [] [] trip_lease). }
  apply (Hc b2 5%nat 3), Ha; [|reflexivity].
  apply (Hc b1 3%nat 2), Ha; [|reflexivity].
  apply (Hc b0 1%nat 1), Ha; [|reflexivity]. apply reach_new.
Qed.

Lemma breaker_reach_inv_witness : breaker_inv tripped_breaker.
Proof. apply (breaker_reach_inv 1 true 6 (mkBreakerSys tripped_breaker []) trip_reach). reflexivity. Defined.

(** C31: Half-open probes are exclusive: in any interleaving of acquires,
    completions and snapshots the outstanding probes of the current generation
    are at most one, the flag tells whether there is one, and a probe is granted
    only when none is outstanding and the cooldown has passed. *)
Theorem breaker_probe_exclusive (self : nat) (enabled : bool) (n : nat) (s : breaker_sys)
    (id : string) (now : Z) (b' : providerCircuitBreaker) (lease : circuitBreakerLease) :
  breaker_reach self enabled n s -> Z.of_nat n < 2 ^ 64 ->
  acquire (sys_breaker s) id now = (b', lease, None) ->
  (probe_count (sys_breaker s) (sys_leases s) <= 1)%nat /\
  (lease_probe lease = true ->
   probe_count (sys_breaker s) (sys_leases s) = 0%nat /\ b_openUntil (sys_breaker s) <= now).
Proof.
  intros H Hn E. destruct (breaker_reach_facts _ _ _ _ H Hn) as (_ & _ & _ & Hp).
  unfold probe_inv in Hp. split; [destruct (b_probeInFlight _); lia|].
  intros Hl. destruct (acquire_granted _ _ _ _ _ E) as (_ & _ & _ & [(_ & ? & _)|(_ & _ & _ & _ & Ho & Hf)]);
    [congruence|]. by rewrite Hf in Hp.
Qed.

Lemma breaker_probe_exclusive_witness :
  acquire tripped_breaker "p" (3 + 10 * GoSecond) =
    (set_probe tripped_breaker true, mkLease 1 1 true true, None) /\
  probe_count tripped_breaker [] = 0%nat.
Proof.
  assert (E : acquire tripped_breaker "p" (3 + 10 * GoSecond) =
    (set_probe tripped_breaker true, mkLease 1 1 true true, None)) by reflexivity.
  split; [exact E|].
  apply (breaker_probe_exclusive 1 true 6 (mkBreakerSys tripped_breaker []) "p" _ _ _ trip_reach
           eq_refl E). reflexivity.
Defined.

(** C32: The failure window: on a closed breaker with failures in time order, a
    failure at [now] opens it exactly when at least two recorded failures are
    not older than thirty seconds, and then for the first cooldown; otherwise
    the breaker stays closed and records exactly the failures of the window. *)
Theorem breaker_failure_window (b : providerCircuitBreaker) (lease : circuitBreakerLease) (now now' : Z) :
  b_state b = CircuitBreakerClosed -> StronglySorted Z.le (b_failures b) ->
  lease_enabled lease = true -> lease_breaker lease = b_self b -> lease_probe lease = false ->
  lease_generation lease = b_generation b ->
  let recent := List.filter (fun f => now - 30 * GoSecond <=? f) (b_failures b) in
  let b' := complete b lease circuitBreakerFailure now now' in
  (b_state b' = CircuitBreakerOpen <-> 2 <= zlen recent) /\
  (2 <= zlen recent -> b_openUntil b' = now' + 10 * GoSecond /\ b_failures b' = []) /\
  (zlen recent < 2 -> b_state b' = CircuitBreakerClosed /\ b_failures b' = recent ++ [now]).
Proof.
  intros Hst Hsort He Hs Hp Hg recent b'.
  assert (Hrec : drop_before (now - providerBreakerFailureWindow) (b_failures b) = recent)
    by (by apply drop_before_filter).
  subst b'. unfold complete. rewrite He, Hs, Nat.eqb_refl, Hg, Z.eqb_refl, Hp, Hst. simpl.
  rewrite Hrec, zlen_app. change (zlen [now]) with 1. unfold providerBreakerFailureThreshold.
  destruct (Z.leb_spec 3 (zlen recent + 1)); simpl.
  - split; [split; [lia|done]|]. split; [done|lia].
  - rewrite Hst. split; [split; [done|lia]|]. split; [lia|done].
Qed.

Definition closed_with (fs : list Z) : providerCircuitBreaker :=
  mkBreaker 1 true CircuitBreakerClosed fs 0 0 false 7.

Lemma closed_with_sorted : StronglySorted Z.le (b_failures (closed_with [10 * GoSecond; 15 * GoSecond])).
Proof. repeat constructor; vm_compute; discriminate. Qed.

Lemma breaker_failure_window_witness :
  b_state (complete (closed_with [10 * GoSecond; 15 * GoSecond]) (mkLease 1 7 true false)
             circuitBreakerFailure (20 * GoSecond) (20 * GoSecond)) = CircuitBreakerOpen /\
  b_state (complete (closed_with [10 * GoSecond; 15 * GoSecond]) (mkLease 1 7 true false)
             circuitBreakerFailure (41 * GoSecond) (41 * GoSecond)) = CircuitBreakerClosed.
Proof.
  pose proof (fun t => breaker_failure_window (closed_with [10 * GoSecond; 15 * GoSecond])
    (mkLease 1 7 true false) t t eq_refl closed_with_sorted eq_refl eq_refl eq_refl eq_refl) as H.
  split.
  - apply (proj1 (H (20 * GoSecond))). vm_compute. discriminate.
  - apply (proj2 (proj2 (H (41 * GoSecond)))). reflexivity.
Defined.

(** The cooldown backoff: after [k] consecutive failed half-open probes the
    breaker is open with a cooldown of 10, 20, 40, 80 and then always 120
    seconds, counted from the last probe's failure. *)
Theorem breaker_backoff (id : string) (b : providerCircuitBreaker) (k : nat) :
  b_enabled b = true -> b_state b = CircuitBreakerOpen -> b_cooldownIndex b = 0%nat ->
  b_probeInFlight b = false ->
  let b' := failed_probes id k b in
  b_state b' = CircuitBreakerOpen /\ b_probeInFlight b' = false /\ b_enabled b' = true /\
  cooldown_at (b_cooldownIndex b') = backoff k /\
  b_openUntil b' = b_openUntil b + foldr Z.add 0 (backoff <$> seq 1 k).
Proof.
  intros He Hst Hci Hp.
  enough (Hgen : let b' := failed_probes id k b in
    b_state b' = CircuitBreakerOpen /\ b_probeInFlight b' = false /\ b_enabled b' = true /\
    b_cooldownIndex b' = Nat.min k 4 /\
    b_openUntil b' = b_openUntil b + foldr Z.add 0 (backoff <$> seq 1 k)).
  { simpl in *. destruct Hgen as (? & ? & ? & Hi & ?). unfold backoff. rewrite Hi. done. }
  induction k as [|k IH].
  - simpl. rewrite Hci. split_and!; try done. lia.
  - cbv zeta in *.
    assert (Hsum : foldr Z.add 0 (backoff <$> seq 1 (S k)) =
                   foldr Z.add 0 (backoff <$> seq 1 k) + backoff (S k)).
    { assert (Hfold : forall l x, foldr Z.add x l = foldr Z.add 0 l + x).
      { induction l as [|y l IHl]; intros x; simpl; [lia|]. rewrite IHl. lia. }
      rewrite seq_S, fmap_app, foldr_app, Hfold. simpl. lia. }
    rewrite Hsum. clear Hsum. simpl failed_probes. set (c := failed_probes id k b) in *.
    destruct IH as (H1 & H2 & H3 & H4 & H5).
    rewrite failed_probe_eq by (done || lia). cbn [openLocked set_cooldownIndex b_state
      b_probeInFlight b_enabled b_cooldownIndex b_openUntil]. rewrite H4, H5.
    replace (Nat.min (S (Nat.min k 4)) (Nat.max 4 (Nat.min k 4))) with (Nat.min (S k) 4) by lia.
    split_and!; try done. unfold backoff. lia.
Qed.

Lemma breaker_backoff_witness :
  b_openUntil (failed_probes "p" 6 (mkBreaker 1 true CircuitBreakerOpen [] 0 (10 * GoSecond) false 1)) =
  (10 + 20 + 40 + 80 + 120 + 120 + 120) * GoSecond.
Proof.
  pose proof (breaker_backoff "p" (mkBreaker 1 true CircuitBreakerOpen [] 0 (10 * GoSecond) false 1) 6
    eq_refl eq_refl eq_refl eq_refl) as (_ & _ & _ & _ & H).
  exact H.
Defined.

(** Eligibility and recovery: a request is admitted exactly when the breaker
    is disabled, closed, or past its cooldown with no probe in flight; and a
    success reported on any lease of an enabled breaker closes it completely,
    so the next request is admitted without a probe. *)
Theorem breaker_eligibility (b : providerCircuitBreaker) (id : string) (now : Z)
    (lease : circuitBreakerLease) (t t' : Z) :
  ((snd (acquire b id now) = None) <->
   (b_enabled b = false \/ b_state b = CircuitBreakerClosed \/
    (b_openUntil b <= now /\ b_probeInFlight b = false))) /\
  (lease_enabled lease = true -> lease_breaker lease = b_self b ->
   let b' := complete b lease circuitBreakerSuccess t t' in
   b_state b' = CircuitBreakerClosed /\ b_failures b' = [] /\ b_probeInFlight b' = false /\
   snd (acquire b' id now) = None /\ lease_probe (snd (fst (acquire b' id now))) = false).
Proof.
  split.
  - unfold acquire. destruct (b_enabled b); simpl; [|tauto].
    destruct (decide (b_state b = CircuitBreakerClosed)); simpl; [tauto|].
    destruct (Z.ltb_spec now (b_openUntil b)); simpl.
    + split; [done|]. intros [?|[?|[? _]]]; [done|done|lia].
    + destruct (b_probeInFlight b); simpl; [|tauto]. naive_solver.
  - intros He Hs. unfold complete. rewrite He, Hs, Nat.eqb_refl. simpl.
    split_and!; try done; unfold acquire; simpl; by destruct (b_enabled b).
Qed.
