(* ===== verification/Reader.v ===== *)
(** The NNTP response decoder ([reader.go]).

    [NNTPResponse] is the decoder's whole state; [Feed] is one call on the bytes
    the read buffer holds.  rapidyenc's decoder is not part of the repository:
    it is the parameter [decodeFn], which, like the Go function, decodes in
    place, so a call also yields the new content of the slice.  The writer of
    decoded bytes is a parameter too, over an abstract writer state.  A slice
    expression out of range is the outcome [Panicked]. *)
From S2P Require Import Prelude Errors.

(** ** Data *)

Record YEncMeta := mkYEncMeta {
  ym_FileName : bytes;
  ym_FileSize : Z;
  ym_Part : Z;
  ym_PartBegin : Z;
  ym_PartSize : Z;
  ym_Total : Z
}.

#[export] Instance eta_YEncMeta : Eta YEncMeta := fun m =>
  mkYEncMeta (ym_FileName m) (ym_FileSize m) (ym_Part m) (ym_PartBegin m) (ym_PartSize m) (ym_Total m).

(** [rapidyenc.Format], [rapidyenc.End] and [rapidyenc.State]; the source names
    two of the decoder states. *)
Inductive Format := FormatUnknown | FormatYenc | FormatUU.
#[export] Instance Format_eq_dec : EqDecision Format.
Proof. solve_decision. Defined.

Inductive End_ := EndNone | EndControl | EndArticle.

Inductive YState := StateCRLF | StateCRLFEQ | StateOther (n : nat).
#[export] Instance YState_eq_dec : EqDecision YState.
Proof. solve_decision. Defined.

(** The decoder state.  [onMeta] tells whether a callback is still registered;
    the calls made are recorded, oldest first, in [metaCalls]. *)
Record NNTPResponse := mkNNTPResponse {
  BytesDecoded : Z;
  BytesConsumed : Z;
  Lines : list bytes;
  Format_ : Format;
  YEnc : YEncMeta;
  EndSize : Z;
  ExpectedCRC : Z;
  Message : bytes;
  State : YState;
  StatusCode : Z;
  CRC : Z;
  eof : bool;
  body : bool;
  hasPart : bool;
  hasBegin : bool;
  hasEnd : bool;
  hasCrc : bool;
  hasPartCRC : bool;
  hasFileCRC : bool;
  hasEmptyline : bool;
  partCRC : Z;
  fileCRC : Z;
  onMeta : bool;
  metaCalls : list YEncMeta;
  headerErr : error;
  strictDecodeErrors : bool
}.

#[export] Instance eta_NNTPResponse : Eta NNTPResponse := fun r =>
  mkNNTPResponse (BytesDecoded r) (BytesConsumed r) (Lines r) (Format_ r) (YEnc r) (EndSize r)
    (ExpectedCRC r) (Message r) (State r) (StatusCode r) (CRC r) (eof r) (body r) (hasPart r)
    (hasBegin r) (hasEnd r) (hasCrc r) (hasPartCRC r) (hasFileCRC r) (hasEmptyline r)
    (partCRC r) (fileCRC r) (onMeta r) (metaCalls r) (headerErr r) (strictDecodeErrors r).

(** The zero value, with the two fields [readerLoop] may set. *)
Definition newNNTPResponse (withMeta strict : bool) : NNTPResponse :=
  mkNNTPResponse 0 0 [] FormatUnknown (mkYEncMeta [] 0 0 0 0 0) 0 0 [] StateCRLF 0 0
    false false false false false false false false false 0 0 withMeta [] None strict.

Definition nntpBody : Z := 222.
Definition nntpArtiicle : Z := 220.
Definition nntpHead : Z := 221.
Definition nntpCapabilities : Z := 101.

(** ** Small helpers *)

Definition isMultiline (code : Z) : bool :=
  (code =? nntpBody) || (code =? nntpArtiicle) || (code =? nntpHead) || (code =? nntpCapabilities).

Definition allInASCIIRange (b : bytes) (lo hi : Z) : bool :=
  forallb (fun c => negb ((bval c <? lo) || (hi <? bval c))) b.

Definition onlySpaceOrBacktick (b : bytes) : bool :=
  forallb (fun c => negb (negb (bval c =? 32) && negb (bval c =? 96))) b.

Definition decodeUUCharWorkaround (c : byte) : Z :=
  Z.quot (Z.land (bval c - 32) 63 * 4 + 5) 3.

(** [(c - ' ') & 0x3F] on bytes: the subtraction wraps modulo 256. *)
Definition decodeUUChar (c : byte) : Z :=
  if bval c =? 96 then 0 else Z.land ((bval c - 32) mod 256) 63.

(** [strconv.Atoi] of a status code. *)
Definition atoi (s : bytes) : Z * option num_error := parse_int s.

(** [extractString], [extractInt], [extractCRC]: the value of a header field. *)
Definition extractString (data substr : bytes) : bytes * error :=
  match index_of substr data with
  | None => ([], Some (EOpaque "substr not found"))
  | Some start =>
      let data := drop (start + length substr) data in
      match index_any [x00; x0d; x0a] data with
      | Some e => (take e data, None)
      | None => (data, None)
      end
  end.

Definition lift_num (v : Z * option num_error) : Z * error :=
  match v with
  | (n, None) => (n, None)
  | (n, Some _) => (n, Some (EOpaque "strconv: parsing"))
  end.

Definition extractInt (data substr : bytes) : Z * error :=
  match index_of substr data with
  | None => (0, Some (EOpaque "substr not found"))
  | Some start =>
      let data := drop (start + length substr) data in
      match index_any [x00; x20; x0d; x0a] data with
      | Some e => lift_num (parse_int (take e data))
      | None => lift_num (parse_int data)
      end
  end.

Definition extractCRC (data substr : bytes) : Z * error :=
  match index_of substr data with
  | None => (0, Some (ESentinel errCrcNotfound))
  | Some start =>
      let data := drop (start + length substr) data in
      let data := match index_any [x00; x20; x0d; x0a] data with
                  | Some e => take e data
                  | None => data
                  end in
      if negb (zlen data =? 8)
      then (0, Some (EOpaque "CRC must contain exactly 8 hexadecimal digits"))
      else match parse_uint hex_val 16 (2 ^ 32 - 1) data with
           | (parsed, None) => (parsed mod 2 ^ 32, None)
           | (parsed, Some _) => (parsed mod 2 ^ 32, Some (EOpaque "strconv.ParseUint"))
           end
  end.

(** [crc32.Update(crc, crc32.IEEETable, p)]: the reflected polynomial
    0xedb88320, one byte at a time. *)
Definition crc_shift (c : Z) : Z :=
  if Z.testbit c 0 then Z.lxor (Z.shiftr c 1) 3988292384 else Z.shiftr c 1.

Definition crc_byte (c : Z) (v : byte) : Z :=
  let t := Z.land (Z.lxor c (bval v)) 255 in
  Z.lxor (Nat.iter 8 crc_shift t) (Z.shiftr c 8).

Definition crc32_update (crc : Z) (p : bytes) : Z :=
  Z.lxor (fold_left crc_byte p (Z.lxor crc (2 ^ 32 - 1))) (2 ^ 32 - 1).

(** ** yEnc headers and validation *)

Definition fire_meta (r : NNTPResponse) : NNTPResponse :=
  if onMeta r
  then r <| metaCalls := metaCalls r ++ [YEnc r] |> <| onMeta := false |>
  else r.

Definition set_headerErr (r : NNTPResponse) (msg : string) : NNTPResponse :=
  r <| headerErr := Some (EOpaque msg) |>.

Definition process_ybegin (r : NNTPResponse) (line : bytes) : NNTPResponse :=
  let r := r <| hasBegin := true |> in
  let line := drop (length (bs "=ybegin")) line in
  let '(fileSize, err) := extractInt line (bs " size=") in
  let r := r <| YEnc ::= fun y => y <| ym_FileSize := fileSize |> |> in
  let r := if is_nil err then r else set_headerErr r "invalid =ybegin size" in
  let '(fileName, err) := extractString line (bs " name=") in
  let r := r <| YEnc ::= fun y => y <| ym_FileName := fileName |> |> in
  let r := if is_nil err then r else set_headerErr r "invalid =ybegin name" in
  let '(part, err) := extractInt line (bs " part=") in
  let r := r <| YEnc ::= fun y => y <| ym_Part := part |> |> in
  let r :=
    if is_nil err then r
    else
      let r := if contains (bs " part=") line then set_headerErr r "invalid =ybegin part" else r in
      let r := r <| body := true |> in
      let r := r <| YEnc ::= fun y => y <| ym_PartSize := ym_FileSize y |> |> in
      fire_meta r in
  let '(total, err) := extractInt line (bs " total=") in
  let r := r <| YEnc ::= fun y => y <| ym_Total := total |> |> in
  if negb (is_nil err) && contains (bs " total=") line
  then set_headerErr r "invalid =ybegin total" else r.

Definition process_ypart (r : NNTPResponse) (line : bytes) : NNTPResponse :=
  let r := r <| hasPart := true |> <| body := true |> in
  let line := drop (length (bs "=ypart")) line in
  let '(begin, err) := extractInt line (bs " begin=") in
  let r := if negb (is_nil err) || (begin <=? 0)
           then set_headerErr r "invalid =ypart begin"
           else r <| YEnc ::= fun y => y <| ym_PartBegin := begin - 1 |> |> in
  let '(e, endErr) := extractInt line (bs " end=") in
  let r := if is_nil endErr && (begin <=? e) && (0 <? begin)
           then r <| YEnc ::= fun y => y <| ym_PartSize := wrap64 (e - ym_PartBegin y) |> |>
           else set_headerErr r "invalid =ypart end" in
  fire_meta r.

Definition process_yend (r : NNTPResponse) (line : bytes) : NNTPResponse :=
  let r := r <| hasEnd := true |> in
  let line := drop (length (bs "=yend")) line in
  let r :=
    if contains (bs " pcrc32=") line then
      let '(crc, crcErr) := extractCRC line (bs " pcrc32=") in
      if is_nil crcErr then r <| partCRC := crc |> <| hasPartCRC := true |>
      else set_headerErr r "invalid =yend pcrc32"
    else r in
  let r :=
    if contains (bs " crc32=") line then
      let '(crc, crcErr) := extractCRC line (bs " crc32=") in
      if is_nil crcErr then r <| fileCRC := crc |> <| hasFileCRC := true |>
      else set_headerErr r "invalid =yend crc32"
    else r in
  let r :=
    if hasPartCRC r then r <| ExpectedCRC := partCRC r |> <| hasCrc := true |>
    else if hasFileCRC r then r <| ExpectedCRC := fileCRC r |> <| hasCrc := true |>
    else r in
  let '(endSize, err) := extractInt line (bs " size=") in
  let r := r <| EndSize := endSize |> in
  if is_nil err then r else set_headerErr r "invalid =yend size".

Definition processYencHeader (r : NNTPResponse) (line : bytes) : NNTPResponse :=
  if has_prefix (bs "=ybegin ") line then process_ybegin r line
  else if has_prefix (bs "=ypart ") line then process_ypart r line
  else if has_prefix (bs "=yend ") line then process_yend r line
  else r.

Definition corrupt (msg : string) : error := Some (EWrap msg (ESentinel ErrBodyCorrupt)).
Definition crc_mismatch : error :=
  Some (EJoin "" (ESentinel ErrBodyCorrupt) (ESentinel ErrCRCMismatch)).

(** The size checks of [validateBody]; [None] when they pass. *)
Definition validate_sizes (r : NNTPResponse) : error :=
  let y := YEnc r in
  if 0 <? ym_Part y then
    if negb (hasPart r) then corrupt "multipart body missing =ypart"
    else if (ym_Total y <=? 0) || (ym_Total y <? ym_Part y) then corrupt "part exceeds total"
    else
      let partEnd := wrap64 (ym_PartBegin y + ym_PartSize y) in
      if negb (ym_PartSize y =? BytesDecoded r) || (ym_FileSize y <? partEnd) ||
         ((ym_Part y =? ym_Total y) && negb (partEnd =? ym_FileSize y)) ||
         ((ym_Part y <? ym_Total y) && (ym_FileSize y <=? partEnd))
      then corrupt "incoherent multipart size" else None
  else if negb (ym_FileSize y =? BytesDecoded r)
  then corrupt "decoded size does not match file size" else None.

(** [validateBody]: the error and the decoder with its final CRC fields. *)
Definition validateBody (r : NNTPResponse) : error * NNTPResponse :=
  let y := YEnc r in
  if negb (StatusCode r =? nntpBody) then (None, r)
  else if negb (bool_decide (Format_ r = FormatYenc)) || negb (hasBegin r)
  then (corrupt "missing valid =ybegin", r)
  else if negb (is_nil (headerErr r)) then (corrupt "header", r)
  else if negb (hasEnd r) then (corrupt "missing =yend", r)
  else if (ym_FileSize y <? 0) || (ym_PartSize y <? 0) || (ym_PartBegin y <? 0)
  then (corrupt "negative yEnc metadata", r)
  else if bool_decide (ym_FileName y = []) then (corrupt "missing yEnc name", r)
  else if hasPart r && (ym_Part y <=? 0) then (corrupt "=ypart without valid part number", r)
  else match validate_sizes r with
  | Some e => (Some e, r)
  | None =>
      if negb (EndSize r =? BytesDecoded r) then (corrupt "trailer size", r)
      else
        let completeFile := negb (hasPart r) ||
          ((ym_PartBegin y =? 0) && (ym_PartSize y =? ym_FileSize y)) in
        if hasPartCRC r && negb (CRC r =? partCRC r) then (crc_mismatch, r)
        else if hasFileCRC r && completeFile && negb (CRC r =? fileCRC r) then (crc_mismatch, r)
        else
          let r := r <| hasCrc := false |> <| ExpectedCRC := 0 |> in
          (None,
           if hasPartCRC r then r <| hasCrc := true |> <| ExpectedCRC := partCRC r |>
           else if hasFileCRC r && completeFile
                then r <| hasCrc := true |> <| ExpectedCRC := fileCRC r |>
                else r)
  end.

(** ** Format detection *)

(** The two length readings of a UU line's first byte, in the order tried. *)
Definition uu_line (line : bytes) (length_ : Z) : bool :=
  if (zlen line <? length_) || (length_ <=? 0) then false
  else allInASCIIRange (drop 1 (take (Z.to_nat length_) line)) 32 96 &&
       onlySpaceOrBacktick (drop (Z.to_nat length_) line).

Definition detectFormat (r : NNTPResponse) (line : bytes) : NNTPResponse :=
  if negb (StatusCode r =? nntpBody) && negb (StatusCode r =? nntpArtiicle) then r
  else match line with
  | [] => r <| hasEmptyline := true |>
  | first0 :: _ =>
      if has_prefix (bs "=ybegin ") line then r <| Format_ := FormatYenc |>
      else if ((zlen line =? 60) || (zlen line =? 61)) && bool_decide (first0 = x4d)
      then r <| Format_ := FormatUU |>
      else if has_prefix (bs "begin ") line then
        let line := trim_left [x20] (drop 6 line) in
        match line with
        | x20 :: perms =>
            if forallb (fun c => negb ((bval c <? 48) || (55 <? bval c))) perms
            then r <| Format_ := FormatUU |> else r
        | _ => r
        end
      else
        let line := if has_prefix (bs "..") line then drop 1 line else line in
        if zlen line <=? 1 then r
        else if negb (StatusCode r =? nntpBody) &&
                (negb (StatusCode r =? nntpArtiicle) || negb (hasEmptyline r)) then r
        else match line with
        | [] => r
        | first :: _ =>
            if uu_line line (decodeUUCharWorkaround first) || uu_line line (decodeUUChar first)
            then r <| Format_ := FormatUU |> <| body := true |>
            else r
        end
  end.

(** ** Decoding *)

(** One call of rapidyenc's incremental decoder on a slice: the slice's new
    content, bytes produced and consumed, how it ended, the new state. *)
Record yenc_result := mkYencResult {
  yr_buf : bytes;
  yr_produced : Z;
  yr_consumed : Z;
  yr_end : End_;
  yr_state : YState;
  yr_err : error
}.

(** The slice [buf] after a call has put [mem] at its front: it keeps its length. *)
Definition overwrite (mem buf : bytes) : bytes := take (length buf) (mem ++ drop (length mem) buf).

Section Decode.
Context {W : Type} (write : W -> bytes -> W * error).
Context (decodeFn : bytes -> YState -> yenc_result).

(** The part of [decodeYenc] after the decoder's error has been dealt with; [buf] is
    the slice as the decoder left it.  The counts are what the decoder says: one that
    [buf] does not have is a slice out of range. *)
Definition decodeYenc_finish (r : NNTPResponse) (d : yenc_result) (buf : bytes) (out : W)
  : outcome (Z * error * NNTPResponse * W * bytes) :=
  let n := yr_consumed d in
  let*! res :=
    if 0 <? yr_produced d then
      if zlen buf <? yr_produced d then Panicked
      else
        let payload := take (Z.to_nat (yr_produced d)) buf in
        let r := r <| CRC := crc32_update (CRC r) payload |>
                   <| BytesDecoded := BytesDecoded r + yr_produced d |> in
        let '(out, werr) := write out payload in Done (r, out, werr)
    else Done (r, out, None) in
  let '(r, out, werr) := res in
  Done match werr with
  | Some _ => (0, werr, r, out, buf)
  | None =>
      match yr_end d with
      | EndNone =>
          if decide (State r = StateCRLFEQ)
          then (n - 1, None, r <| State := StateCRLF |>, out, buf)
          else (n, None, r, out, buf)
      | EndControl => (n - 2, None, r <| body := false |>, out, buf)
      | EndArticle => (n - 3, None, r <| body := false |>, out, buf)
      end
  end.

(** [decodeYenc]: count, error, decoder, writer, new content of [buf]. *)
Definition decodeYenc (r : NNTPResponse) (buf : bytes) (out : W)
  : outcome (Z * error * NNTPResponse * W * bytes) :=
  match buf with
  | [] => Done (0, None, r, out, buf)
  | _ =>
      let d := decodeFn buf (State r) in
      let buf := overwrite (yr_buf d) buf in
      let r := r <| State := yr_state d |> in
      match yr_err d with
      | Some e =>
          if strictDecodeErrors r
          then Done (0, Some (EJoin "yEnc decode" (ESentinel ErrBodyCorrupt) e), r, out, buf)
          else decodeYenc_finish r d buf out
      | None => decodeYenc_finish r d buf out
      end
  end.

(** What [decode] returns, with the new content of the whole input slice. *)
Record dec_result := mkDec {
  d_read : Z;
  d_err : error;
  d_resp : NNTPResponse;
  d_out : W;
  d_mem : bytes
}.

(** The status-line part of the loop body: [None] continues with the format
    switch, [Some] ends the iteration ([true] leaves the loop). *)
Definition status_line (r : NNTPResponse) (line : bytes)
  : option (NNTPResponse * error * bool) :=
  if decide (Format_ r = FormatUnknown) then
    if (StatusCode r =? 0) && (3 <=? zlen line) then
      let '(code, e) := atoi (take 3 line) in
      let r := r <| Message := line |> <| StatusCode := code |> in
      match e with
      | Some _ => Some (r, Some (ESentinel ErrProtocolDesync), true)
      | None => if isMultiline code then Some (r, None, false)
                else Some (r <| eof := true |>, None, true)
      end
    else None
  else None.

(** The line loop of [decode]; [pre] is the processed prefix of the slice. *)
Fixpoint decode_lines (fuel : nat) (r : NNTPResponse) (pre buf : bytes) (out : W) (read : Z)
  : outcome dec_result :=
  match fuel with
  | O => OutOfFuel
  | S fuel =>
      match cut_at crlf buf with
      | None => Done (mkDec read None r out (pre ++ buf))
      | Some (line, buf) =>
          let read := read + (zlen line + 2) in
          let pre := pre ++ line ++ crlf in
          if bool_decide (line = [x2e])
          then Done (mkDec read None (r <| eof := true |>) out (pre ++ buf))
          else
            match status_line r line with
            | Some (r, e, true) => Done (mkDec read e r out (pre ++ buf))
            | Some (r, _, false) => decode_lines fuel r pre buf out read
            | None =>
                let r := if decide (Format_ r = FormatUnknown) then detectFormat r line else r in
                match Format_ r with
                | FormatUnknown =>
                    decode_lines fuel (r <| Lines := Lines r ++ [line] |>) pre buf out read
                | FormatUU => decode_lines fuel r pre buf out read
                | FormatYenc =>
                    let r := processYencHeader r line in
                    if body r then
                      let*! res := decodeYenc r buf out in
                      let '(n, err, r, out, buf) := res in
                      let read := read + n in
                      match slice_from n buf with
                      | None => Panicked
                      | Some rest =>
                          if negb (is_nil err) || body r
                          then Done (mkDec read err r out (pre ++ buf))
                          else decode_lines fuel r (pre ++ take (Z.to_nat n) buf) rest out read
                      end
                    else decode_lines fuel r pre buf out read
                end
            end
      end
  end.

(** [decode]; one loop iteration consumes at least a CR LF, so the length of
    the input bounds the iterations. *)
Definition decode (r : NNTPResponse) (buf : bytes) (out : W) : outcome dec_result :=
  if body r && bool_decide (Format_ r = FormatYenc) then
    let*! res := decodeYenc r buf out in
    let '(n, err, r, out, buf) := res in
    match err with
    | Some _ => Done (mkDec n err r out buf)
    | None =>
        match slice_from n buf with
        | None => Panicked
        | Some rest =>
            if body r then Done (mkDec n None r out buf)
            else decode_lines (S (length buf)) r (take (Z.to_nat n) buf) rest out n
        end
    end
  else if negb (body r) then decode_lines (S (length buf)) r [] buf out 0
  else Done (mkDec 0 None r out buf).

(** [Feed]: bytes consumed, done, error, and the new decoder, writer and slice. *)
Definition Feed (r : NNTPResponse) (buf : bytes) (out : W)
  : outcome (Z * bool * error * NNTPResponse * W * bytes) :=
  let*! d := decode r buf out in
  let r := (d_resp d) <| BytesConsumed := BytesConsumed (d_resp d) + d_read d |> in
  Done (d_read d, is_nil (d_err d) && eof r, d_err d, r, d_out d, d_mem d).
End Decode.
Arguments mkDec {W}.
Arguments d_read {W}.
Arguments d_err {W}.
Arguments d_resp {W}.
Arguments d_out {W}.
Arguments d_mem {W}.

(** ** Concrete collaborators for the witnesses *)

(** A writer that keeps everything. *)
Definition buffer_write (w p : bytes) : bytes * error := (w ++ p, None).

(** A decoder for bodies whose bytes are not escaped, end at the first "=y" or
    at the terminator, and whose line ends are dropped from the output. *)
Fixpoint plain_scan (buf : bytes) (n : Z) : bytes * Z * End_ :=
  match buf with
  | [] => ([], n, EndNone)
  | c :: buf' =>
      if has_prefix (crlf ++ bs "=y") buf then ([], n + 4, EndControl)
      else if has_prefix (crlf ++ bs "." ++ crlf) buf then ([], n + 5, EndArticle)
      else let '(o, m, e) := plain_scan buf' (n + 1) in
           (if bool_decide (c = x0d) || bool_decide (c = x0a) then o else c :: o, m, e)
  end.

Definition plain_decode (buf : bytes) (st : YState) : yenc_result :=
  let '(o, m, e) := plain_scan buf 0 in
  mkYencResult (o ++ drop (length o) buf) (zlen o) m e StateCRLF None.

(** How far the caller backs up from what the decoder consumed. *)
Definition yr_backup (d : yenc_result) : Z :=
  match yr_end d with
  | EndNone => if decide (yr_state d = StateCRLFEQ) then 1 else 0
  | EndControl => 2
  | EndArticle => 3
  end.

(** An answer the callers cannot use: counts beyond the slice, or an end whose bytes
    were not all consumed by this call. *)
Definition overrun (buf : bytes) (d : yenc_result) : Prop :=
  zlen buf < yr_produced d \/ zlen buf < yr_consumed d \/ yr_consumed d < yr_backup d.

(** ** Lemmas *)

Lemma overwrite_length mem buf : length (overwrite mem buf) = length buf.
Proof. unfold overwrite. rewrite length_take, length_app, length_drop. lia. Qed.

Lemma overwrite_same mem buf : length mem = length buf -> overwrite mem buf = mem.
Proof. intros H. unfold overwrite. by rewrite drop_ge, app_nil_r, <- H, firstn_all by lia. Qed.

Section DecodeFacts.
Context {W : Type} (write : W -> bytes -> W * error).
Context (decodeFn : bytes -> YState -> yenc_result).

(** Some call of the decoder gives an answer its callers cannot use. *)
Definition overruns : Prop := exists buf st, overrun buf (decodeFn buf st).

Lemma decodeYenc_finish_bounds r d buf out :
  match decodeYenc_finish write r d buf out with
  | Done (n, err, _, _, buf') => buf' = buf /\ (err <> None -> n = 0) /\
      (err = None -> State r = yr_state d -> n = yr_consumed d - yr_backup d)
  | Panicked => zlen buf < yr_produced d
  | _ => False
  end.
Proof.
  unfold decodeYenc_finish, yr_backup. cbv zeta.
  destruct (0 <? yr_produced d); [destruct (Z.ltb_spec (zlen buf) (yr_produced d)); [done|]|].
  - destruct (write out _) as [out' [e|]]; cbn [outcome_bind]; [done|].
    destruct (yr_end d); simpl; [case_decide as Hs|..]; split_and!; try done; intros _ E; simpl in *; rewrite E in *; case_decide; done || lia.
  - cbn [outcome_bind]. destruct (yr_end d); simpl; [case_decide as Hs|..]; split_and!; try done; intros _ E; simpl in *; rewrite E in *; case_decide; done || lia.
Qed.

Lemma decodeYenc_bounds r buf out :
  match decodeYenc write decodeFn r buf out with
  | Done (n, err, _, _, buf') => length buf' = length buf /\ (err <> None -> n = 0) /\
      (slice_from n buf' = None -> overruns)
  | Panicked => overruns
  | _ => False
  end.
Proof.
  unfold decodeYenc. destruct buf as [|c buf]; [by split_and!|].
  cbv zeta. set (d := decodeFn (c :: buf) (State r)). set (r' := r <| State := yr_state d |>).
  assert (Hz : zlen (overwrite (yr_buf d) (c :: buf)) = zlen (c :: buf)) by (unfold zlen; by rewrite overwrite_length).
  assert (Hfin : match decodeYenc_finish write r' d (overwrite (yr_buf d) (c :: buf)) out with
    | Done (n, err, _, _, buf') => length buf' = length (c :: buf) /\ (err <> None -> n = 0) /\
        (slice_from n buf' = None -> overruns)
    | Panicked => overruns
    | _ => False end).
  { pose proof (decodeYenc_finish_bounds r' d (overwrite (yr_buf d) (c :: buf)) out) as B.
    destruct (decodeYenc_finish write r' d _ out) as [[[[[n err] r2] out2] buf2]| | |]; try done.
    - destruct B as (-> & He & Hn). split; [apply overwrite_length|]. split; [done|]. unfold slice_from. rewrite Hz.
      intros Hs. exists (c :: buf), (State r). fold d. unfold overrun. destruct err as [e|].
      + rewrite He in Hs by done. pose proof (zlen_nonneg (c :: buf)).
        by rewrite (proj2 (Z.ltb_ge _ _)), (proj2 (Z.ltb_ge _ _)) in Hs by lia.
      + specialize (Hn eq_refl eq_refl). assert (Hb : 0 <= yr_backup d) by (unfold yr_backup; destruct (yr_end d); try case_decide; lia).
        destruct (Z.ltb_spec n 0); [right; right; lia|]. destruct (Z.ltb_spec (zlen (c :: buf)) n); [right; left; lia|done].
    - exists (c :: buf), (State r). fold d. left. by rewrite <- Hz. }
  destruct (yr_err d); [destruct (strictDecodeErrors _)|]; try exact Hfin.
  split; [apply overwrite_length|]. split; [done|]. unfold slice_from. pose proof (zlen_nonneg (c :: buf)).
  rewrite Hz. by rewrite (proj2 (Z.ltb_ge _ _)), (proj2 (Z.ltb_ge _ _)) by lia.
Qed.

(** The loop never runs out of the fuel [decode] gives it and slices out of range only
    after an overrun; it consumes part of its input and keeps the slice's length. *)
Lemma decode_lines_bounds fuel : forall r pre buf out read,
  (length buf < fuel)%nat ->
  match decode_lines write decodeFn fuel r pre buf out read with
  | Done d => read <= d_read d <= read + zlen buf /\ length (d_mem d) = (length pre + length buf)%nat
  | Panicked => overruns
  | _ => False
  end.
Proof.
  induction fuel as [|fuel IH]; intros r pre buf out read Hf; [lia|]. cbn [decode_lines].
  destruct (cut_at crlf buf) as [[line rest]|] eqn:Hcut.
  2: { simpl. rewrite length_app. pose proof (zlen_nonneg buf). lia. }
  apply cut_at_Some in Hcut as ->.
  rewrite !length_app in Hf. simpl in Hf.
  assert (Hz : zlen (line ++ crlf ++ rest) = zlen line + 2 + zlen rest).
  { rewrite !zlen_app. change (zlen crlf) with 2. lia. }
  assert (Hm : (length pre + length (line ++ crlf ++ rest) =
                length (pre ++ line ++ crlf) + length rest)%nat) by (rewrite !length_app; lia).
  pose proof (zlen_nonneg rest). pose proof (zlen_nonneg line). rewrite Hz, Hm.
  pose (good o := match o with
    | Done d => read <= d_read d <= read + (zlen line + 2 + zlen rest) /\
        length (@d_mem W d) = (length (pre ++ line ++ crlf) + length rest)%nat
    | Panicked => overruns | _ => False end).
  assert (Hstop : forall e r', good (Done (mkDec (read + (zlen line + 2)) e r' out ((pre ++ line ++ crlf) ++ rest)))).
  { intros e r'. simpl. rewrite (length_app _ rest). lia. }
  assert (Hgo : forall r' pre' buf' out' n, length pre' = length (pre ++ line ++ crlf) ->
            length buf' = length rest -> 0 <= n <= zlen rest ->
            good (decode_lines write decodeFn fuel r' (pre' ++ take (Z.to_nat n) buf')
              (drop (Z.to_nat n) buf') out' (read + (zlen line + 2) + n))).
  { intros r' pre' buf' out' n Hp Hb Hn.
    pose proof (IH r' (pre' ++ take (Z.to_nat n) buf') (drop (Z.to_nat n) buf') out'
                (read + (zlen line + 2) + n)) as G. unfold good.
    destruct (decode_lines _ _ _ _ _ _ _ _) as [d| | |]; try (apply G; rewrite length_drop, Hb; lia).
    destruct G as [Hd Hm']; [rewrite length_drop, Hb; lia|]. unfold zlen in *.
    rewrite length_app, length_take, length_drop, Hb in Hm'.
    rewrite length_drop, Hb in Hd. split; lia. }
  assert (Hgo0 : forall r', good (decode_lines write decodeFn fuel r' (pre ++ line ++ crlf) rest out
            (read + (zlen line + 2)))).
  { intros r'. pose proof (Hgo r' (pre ++ line ++ crlf) rest out 0) as G.
    simpl in G. rewrite take_0, app_nil_r, drop_0, Z.add_0_r in G. apply G; lia. }
  case_bool_decide; [apply Hstop|].
  destruct (status_line r line) as [[[r' e] [|]]|]; [apply Hstop|apply Hgo0|].
  set (r1 := if decide _ then _ else _). destruct (Format_ r1); [apply Hgo0| |apply Hgo0].
  destruct (body (processYencHeader r1 line)); [|apply Hgo0].
  pose proof (decodeYenc_bounds (processYencHeader r1 line) rest out) as B.
  destruct (decodeYenc write decodeFn _ rest out) as [[[[[n err] r'] out'] buf']| | |]; try done.
  cbn [outcome_bind]. destruct B as (Hb & He & Hn).
  destruct (slice_from n buf') as [rest'|] eqn:Hs; [|by apply Hn].
  apply slice_from_Some in Hs as [Hn' ->]. unfold zlen in Hn'. rewrite Hb in Hn'.
  destruct (negb (is_nil err) || body r').
  - simpl. rewrite (length_app _ buf'). unfold zlen. lia.
  - by apply Hgo.
Qed.

Lemma decode_bounds r buf out :
  match decode write decodeFn r buf out with
  | Done d => 0 <= d_read d <= zlen buf /\ length (d_mem d) = length buf
  | Panicked => overruns
  | _ => False
  end.
Proof.
  pose proof (zlen_nonneg buf). unfold decode. destruct (body r && _) eqn:Hb.
  - pose proof (decodeYenc_bounds r buf out) as B.
    destruct (decodeYenc write decodeFn r buf out) as [[[[[n err] r'] out'] buf']| | |]; try done.
    cbn [outcome_bind]. destruct B as (Hl & He & Hn). destruct err; [rewrite He by done; simpl; lia|].
    destruct (slice_from n buf') as [rest|] eqn:Hs; [|by apply Hn].
    apply slice_from_Some in Hs as [Hn' ->]. unfold zlen in *. rewrite Hl in Hn'.
    destruct (body r'); [simpl; lia|].
    pose proof (decode_lines_bounds (S (length buf')) r' (take (Z.to_nat n) buf') (drop (Z.to_nat n) buf')
                out' n) as G.
    destruct (decode_lines _ _ _ _ _ _ _ _) as [d| | |]; try (apply G; rewrite length_drop; lia).
    destruct G as [Hr Hm]; [rewrite length_drop; lia|]. unfold zlen in *. rewrite length_drop in Hr.
    rewrite length_take, length_drop in Hm. split; lia.
  - destruct (negb (body r)); [|simpl; lia].
    pose proof (decode_lines_bounds (S (length buf)) r [] buf out 0) as G.
    destruct (decode_lines _ _ _ _ _ _ _ _) as [d| | |]; apply G; lia.
Qed.
End DecodeFacts.

(** Splits the conditions of the header parsers without recording them. *)
Ltac header_cases :=
  repeat match goal with
  | |- context [let '(_, _) := ?x in _] => destruct x
  | |- context [if ?b then _ else _] => destruct b
  end.

Lemma process_ybegin_format r line : Format_ (process_ybegin r line) = Format_ r.
Proof. unfold process_ybegin, set_headerErr, fire_meta. cbv zeta. header_cases; reflexivity. Qed.
Lemma process_ypart_format r line : Format_ (process_ypart r line) = Format_ r.
Proof. unfold process_ypart, set_headerErr, fire_meta. cbv zeta. header_cases; reflexivity. Qed.
Lemma process_yend_format r line : Format_ (process_yend r line) = Format_ r.
Proof. unfold process_yend, set_headerErr. cbv zeta. header_cases; reflexivity. Qed.

Lemma processYencHeader_format r line : Format_ (processYencHeader r line) = Format_ r.
Proof.
  unfold processYencHeader.
  repeat (destruct (has_prefix _ _);
    [first [apply process_ybegin_format|apply process_ypart_format|apply process_yend_format]|]).
  done.
Qed.

(** A predicate on decoder and writer that every step of the loop keeps is kept
    by the whole call. *)
Section Preserve.
Context {W : Type} (write : W -> bytes -> W * error).
Context (decodeFn : bytes -> YState -> yenc_result).
Context (P : NNTPResponse -> W -> Prop).
Hypothesis P_status : forall r line out r' e s,
  status_line r line = Some (r', e, s) -> P r out -> P r' out.
Hypothesis P_detect : forall r line out,
  Format_ r = FormatUnknown -> P r out -> P (detectFormat r line) out.
Hypothesis P_line : forall r l out, Format_ r = FormatUnknown -> P r out -> P (r <| Lines := l |>) out.
Hypothesis P_eof : forall r out, P r out -> P (r <| eof := true |>) out.
Hypothesis P_header : forall r line out,
  Format_ r = FormatYenc -> P r out -> P (processYencHeader r line) out.
Hypothesis P_yenc : forall r buf out, Format_ r = FormatYenc -> P r out ->
  match decodeYenc write decodeFn r buf out with Done (_, _, r', out', _) => P r' out' | _ => True end.

Lemma decode_lines_preserves fuel : forall r pre buf out read d,
  decode_lines write decodeFn fuel r pre buf out read = Done d -> P r out -> P (d_resp d) (d_out d).
Proof.
  induction fuel as [|fuel IH]; intros r pre buf out read d; simpl; [done|]. intros H HP.
  destruct (cut_at crlf buf) as [[line rest]|]; [|by simplify_eq/=].
  case_bool_decide; [simplify_eq/=; auto|].
  destruct (status_line r line) as [[[r1 e] [|]]|] eqn:Hst.
  { simplify_eq/=. eauto. }
  { eapply IH; eauto. }
  set (r1 := if decide _ then _ else _) in *.
  assert (HP1 : P r1 out) by (unfold r1; case_decide; auto).
  destruct (Format_ r1) eqn:Hf; [eapply IH; eauto| |eapply IH; eauto].
  pose proof (P_header r1 line out Hf HP1) as HP2. rewrite <- (processYencHeader_format r1 line) in Hf.
  set (r2 := processYencHeader r1 line) in *.
  destruct (body r2); [|eapply IH; eauto].
  pose proof (P_yenc r2 rest out Hf HP2) as HP3.
  destruct (decodeYenc write decodeFn r2 rest out) as [[[[[n err] r3] out3] buf3]| | |]; try done.
  cbn [outcome_bind] in H. destruct (slice_from n buf3); [|done].
  destruct (negb (is_nil err) || body r3); [by simplify_eq/=|eapply IH; eauto].
Qed.

Lemma decode_preserves r buf out d :
  decode write decodeFn r buf out = Done d -> P r out -> P (d_resp d) (d_out d).
Proof.
  unfold decode. intros H HP. destruct (body r && _) eqn:Hb.
  - apply andb_true_iff in Hb as [_ Hf%bool_decide_eq_true].
    pose proof (P_yenc r buf out Hf HP) as HP1.
    destruct (decodeYenc write decodeFn r buf out) as [[[[[n err] r1] out1] buf1]| | |]; try done.
    cbn [outcome_bind] in H. destruct err; [by simplify_eq/=|]. destruct (slice_from n buf1); [|done].
    destruct (body r1); [by simplify_eq/=|]. by eapply decode_lines_preserves.
  - destruct (negb (body r)); [by eapply decode_lines_preserves|by simplify_eq/=].
Qed.
End Preserve.

(** *** CRC and byte count *)

Lemma crc32_update_app c a b : crc32_update (crc32_update c a) b = crc32_update c (a ++ b).
Proof.
  unfold crc32_update. rewrite fold_left_app, Z.lxor_assoc, Z.lxor_nilpotent, Z.lxor_0_r. done.
Qed.

Lemma crc32_update_nil c : crc32_update c [] = c.
Proof. unfold crc32_update. simpl. by rewrite Z.lxor_assoc, Z.lxor_nilpotent, Z.lxor_0_r. Qed.

(** The fields that describe the decoded bytes are touched by the decoder only. *)
Definition same_counts (r r' : NNTPResponse) : Prop :=
  CRC r' = CRC r /\ BytesDecoded r' = BytesDecoded r.

Lemma fire_meta_counts r : same_counts r (fire_meta r).
Proof. unfold fire_meta. by destruct (onMeta r). Qed.

Lemma process_ybegin_counts r line : same_counts r (process_ybegin r line).
Proof. unfold process_ybegin, set_headerErr, fire_meta. cbv zeta. header_cases; split; reflexivity. Qed.

Lemma process_ypart_counts r line : same_counts r (process_ypart r line).
Proof. unfold process_ypart, set_headerErr, fire_meta. cbv zeta. header_cases; split; reflexivity. Qed.

Lemma process_yend_counts r line : same_counts r (process_yend r line).
Proof. unfold process_yend, set_headerErr. cbv zeta. header_cases; split; reflexivity. Qed.

Lemma processYencHeader_counts r line : same_counts r (processYencHeader r line).
Proof.
  unfold processYencHeader.
  destruct (has_prefix _ _); [apply process_ybegin_counts|].
  destruct (has_prefix _ _); [apply process_ypart_counts|].
  destruct (has_prefix _ _); [apply process_yend_counts|done].
Qed.

Lemma detectFormat_counts r line : same_counts r (detectFormat r line).
Proof. unfold detectFormat. repeat (case_match; try done). Qed.

Lemma status_line_counts r line r' e s : status_line r line = Some (r', e, s) -> same_counts r r'.
Proof. unfold status_line. repeat (case_match; try done); intros; by simplify_eq/=. Qed.

Section Accounting.
Context (decodeFn : bytes -> YState -> yenc_result).
(** A writer that keeps what it is given and may report any error. *)
Context (write : bytes -> bytes -> bytes * error).
Hypothesis write_keeps : forall w p, fst (write w p) = w ++ p.

Definition counts_output (r : NNTPResponse) (out : bytes) : Prop :=
  CRC r = crc32_update 0 out /\ BytesDecoded r = zlen out.

Lemma counts_output_same r r' out :
  same_counts r r' -> counts_output r out -> counts_output r' out.
Proof. unfold counts_output. by intros [-> ->]. Qed.

Lemma decodeYenc_counts r buf out :
  counts_output r out ->
  match decodeYenc write decodeFn r buf out with Done (_, _, r', out', _) => counts_output r' out' | _ => True end.
Proof.
  intros HP. unfold decodeYenc. destruct buf as [|c buf]; [done|]. cbv zeta.
  set (d := decodeFn (c :: buf) (State r)). set (mem := overwrite (yr_buf d) (c :: buf)).
  assert (Hfin : match decodeYenc_finish write (r <| State := yr_state d |>) d mem out with
                 | Done (_, _, r', out', _) => counts_output r' out' | _ => True end).
  { unfold decodeYenc_finish. destruct (Z.ltb_spec 0 (yr_produced d)) as [Hpos|_]; cbn [outcome_bind].
    - destruct (Z.ltb_spec (zlen mem) (yr_produced d)) as [|Hl]; [done|].
      pose proof (write_keeps out (take (Z.to_nat (yr_produced d)) mem)) as Hw.
      destruct (write out _) as [out' e]. simpl in Hw. subst out'. cbn [outcome_bind].
      assert (HQ : counts_output
        ((r <| State := yr_state d |>)
           <| CRC := crc32_update (CRC r) (take (Z.to_nat (yr_produced d)) mem) |>
           <| BytesDecoded := BytesDecoded r + yr_produced d |>)
        (out ++ take (Z.to_nat (yr_produced d)) mem)).
      { destruct HP as [H1 H2]. split; simpl.
        - by rewrite H1, crc32_update_app.
        - rewrite H2, zlen_app. unfold zlen in *. rewrite length_take. lia. }
      destruct e; [exact HQ|]. destruct (yr_end d); [case_decide|..]; exact HQ.
    - destruct (yr_end d); [case_decide|..]; exact HP. }
  destruct (yr_err d); [destruct (strictDecodeErrors _)|]; try exact Hfin. exact HP.
Qed.

Lemma decode_counts r buf out d :
  decode write decodeFn r buf out = Done d -> counts_output r out ->
  counts_output (d_resp d) (d_out d).
Proof.
  apply (decode_preserves write decodeFn counts_output).
  - intros r0 line w r' e s H. apply counts_output_same. by eapply status_line_counts.
  - intros r0 line w _. apply counts_output_same, detectFormat_counts.
  - done.
  - done.
  - intros r0 line w _. apply counts_output_same, processYencHeader_counts.
  - intros r0 b w _. by apply decodeYenc_counts.
Qed.
End Accounting.

(** *** The witnesses' decoder never overruns *)

Lemma plain_scan_bounds buf : forall n,
  match plain_scan buf n with
  | (o, m, e) => n <= m <= n + zlen buf /\ zlen o <= zlen buf /\
      match e with EndNone => True | EndControl => n + 2 <= m | EndArticle => n + 3 <= m end
  end.
Proof.
  induction buf as [|c buf IH]; intros n; [unfold zlen; simpl; lia|].
  cbn [plain_scan]. pose proof (zlen_nonneg buf).
  destruct (has_prefix (crlf ++ bs "=y") _) eqn:E1.
  { apply has_prefix_spec in E1 as [t ->]. zlen_simp. change (zlen (bs "=y")) with 2.
    pose proof (zlen_nonneg t). lia. }
  destruct (has_prefix (crlf ++ bs "." ++ crlf) _) eqn:E2.
  { apply has_prefix_spec in E2 as [t ->]. zlen_simp. change (zlen (bs ".")) with 1.
    pose proof (zlen_nonneg t). lia. }
  specialize (IH (n + 1)). destruct (plain_scan buf (n + 1)) as [[o m] e].
  destruct (_ || _); rewrite !zlen_cons; destruct e; lia.
Qed.

Lemma plain_never_overruns : ~ overruns plain_decode.
Proof.
  intros (buf & st & H). unfold overrun, plain_decode, yr_backup in H. pose proof (plain_scan_bounds buf 0) as B.
  destruct (plain_scan buf 0) as [[o m] e]. simpl in H. destruct B as (H1 & H2 & H3).
  destruct e; simpl in *; lia.
Qed.

(** Any number of [Feed] calls. *)
Inductive fed {W} (write : W -> bytes -> W * error) (decodeFn : bytes -> YState -> yenc_result) :
    NNTPResponse -> W -> NNTPResponse -> W -> Prop :=
| fed_nil r out : fed write decodeFn r out r out
| fed_step r out buf n dn e r1 out1 mem r2 out2 :
    Feed write decodeFn r buf out = Done (n, dn, e, r1, out1, mem) ->
    fed write decodeFn r1 out1 r2 out2 -> fed write decodeFn r out r2 out2.

(** [Feed] on a list of read buffers, each consumed entirely or dropped. *)
Fixpoint feed_all {W} (write : W -> bytes -> W * error) (decodeFn : bytes -> YState -> yenc_result)
    (reads : list bytes) (r : NNTPResponse) (out : W) : outcome (NNTPResponse * W) :=
  match reads with
  | [] => Done (r, out)
  | buf :: reads =>
      let*! res := Feed write decodeFn r buf out in
      let '(_, _, _, r, out, _) := res in feed_all write decodeFn reads r out
  end.

Lemma feed_all_fed {W} (write : W -> bytes -> W * error) decodeFn reads : forall r out r' out',
  feed_all write decodeFn reads r out = Done (r', out') -> fed write decodeFn r out r' out'.
Proof.
  induction reads as [|buf reads IH]; intros r out r' out' H; simpl in H; [simplify_eq; constructor|].
  destruct (Feed write decodeFn r buf out) as [[[[[[n dn] e] r1] out1] mem]| | |] eqn:HF; try done.
  simpl in H. econstructor; [exact HF|]. by apply IH.
Qed.

Lemma fed_counts (decodeFn : bytes -> YState -> yenc_result) write r out r' out' :
  (forall w p, fst (write w p) = w ++ p) ->
  fed write decodeFn r out r' out' -> counts_output r out -> counts_output r' out'.
Proof.
  intros Hw H. induction H as [|r out buf n dn e r1 out1 mem r2 out2 HF _ IH]; [done|].
  intros Hc. apply IH. unfold Feed in HF.
  destruct (decode write decodeFn r buf out) as [d| | |] eqn:Hd; try done. simpl in HF. simplify_eq.
  by apply (decode_counts decodeFn write Hw r buf out d Hd).
Qed.

(** *** Line framing *)

Lemma index_of_skip (c : byte) (sep a b : bytes) :
  c ∉ a -> index_of (c :: sep) (a ++ b) = (fun i => (length a + i)%nat) <$> index_of (c :: sep) b.
Proof.
  induction a as [|x a IH]; intros Hn.
  - simpl. destruct (index_of (c :: sep) b); done.
  - apply not_elem_of_cons in Hn as [Hx Hn]. rewrite <- app_comm_cons, index_of_unfold.
    simpl has_prefix. rewrite bool_decide_eq_false_2 by done. simpl.
    rewrite IH by done. destruct (index_of (c :: sep) b); done.
Qed.

(** The text lines of a multi-line block, each with its line end. *)
Definition wire_lines (lines : list bytes) : bytes := concat ((fun l => l ++ crlf) <$> lines).

Definition status_text (code : Z) (msg : bytes) : bytes := format_nat code ++ x20 :: msg.

(** What a server sends: a status line and, for multi-line codes, the lines and
    the terminating dot. *)
Definition wire_response (code : Z) (msg : bytes) (lines : list bytes) : bytes :=
  status_text code msg ++ crlf ++
  (if isMultiline code then wire_lines lines ++ bs "." ++ crlf else []).

Definition text_line (l : bytes) : Prop := index_of crlf l = None /\ l <> bs ".".

Lemma wire_lines_cons l ls : wire_lines (l :: ls) = l ++ crlf ++ wire_lines ls.
Proof. unfold wire_lines. simpl. by rewrite <- app_assoc. Qed.

Lemma wire_lines_length ls : (length ls <= length (wire_lines ls))%nat.
Proof.
  induction ls as [|l ls IH]; [simpl; lia|]. rewrite wire_lines_cons, !length_app. simpl. lia.
Qed.

(** Three-digit codes print as three digits that parse back. *)
Lemma status_code_digits (code : Z) :
  100 <= code < 1000 ->
  length (format_nat code) = 3%nat /\ atoi (format_nat code) = (code, None) /\ x0d ∉ format_nat code.
Proof.
  intros H.
  assert (Hall : forallb (fun c => bool_decide (length (format_nat c) = 3%nat) &&
            bool_decide (parse_int (format_nat c) = (c, None)) &&
            negb (bool_decide (x0d ∈ format_nat c))) (seqZ 100 900) = true) by (vm_compute; done).
  rewrite forallb_forall in Hall. specialize (Hall code).
  rewrite <- list_elem_of_In, elem_of_seqZ in Hall.
  specialize (Hall ltac:(lia)). apply andb_true_iff in Hall as [[H1 H2]%andb_true_iff H3].
  apply bool_decide_eq_true in H1, H2. apply negb_true_iff, bool_decide_eq_false in H3. done.
Qed.

Section Framing.
Context {W : Type} (write : W -> bytes -> W * error).
Context (decodeFn : bytes -> YState -> yenc_result).

Lemma status_text_facts code msg :
  100 <= code < 1000 -> index_of crlf msg = None ->
  index_of crlf (status_text code msg) = None /\ status_text code msg <> [x2e] /\
  3 <= zlen (status_text code msg) /\ take 3 (status_text code msg) = format_nat code.
Proof.
  intros Hc Hm. destruct (status_code_digits code Hc) as (Hl & _ & Hr). unfold status_text.
  split_and!.
  - unfold crlf. rewrite index_of_skip by done. change (x20 :: msg) with ([x20] ++ msg).
    rewrite index_of_skip by set_solver. fold crlf. by rewrite Hm.
  - intros E. apply (f_equal length) in E. rewrite length_app, Hl in E. simpl in E. lia.
  - unfold zlen. rewrite length_app, Hl. simpl. lia.
  - rewrite <- Hl. apply take_app_length.
Qed.

Lemma decode_lines_status fuel withMeta strict code msg rest pre out :
  100 <= code < 1000 -> index_of crlf msg = None ->
  let r := (newNNTPResponse withMeta strict) <| Message := status_text code msg |> <| StatusCode := code |> in
  let n := zlen (status_text code msg) + 2 in
  decode_lines write decodeFn (S fuel) (newNNTPResponse withMeta strict) pre
    (status_text code msg ++ crlf ++ rest) out 0 =
  if isMultiline code
  then decode_lines write decodeFn fuel r (pre ++ status_text code msg ++ crlf) rest out n
  else Done (mkDec n None (r <| eof := true |>) out ((pre ++ status_text code msg ++ crlf) ++ rest)).
Proof.
  intros Hc Hm. destruct (status_text_facts code msg Hc Hm) as (H1 & H2 & H3 & H4).
  destruct (status_code_digits code Hc) as (_ & Ha & _). cbv zeta. cbn [decode_lines].
  rewrite cut_at_crlf by done. rewrite bool_decide_eq_false_2 by done.
  unfold status_line. simpl. rewrite (proj2 (Z.leb_le _ _)) by done. rewrite H4, Ha.
  by destruct (isMultiline code).
Qed.

(** Text lines outside article bodies are collected unchanged. *)
Lemma decode_lines_text lines : forall fuel r pre rest out read,
  Forall text_line lines -> (length lines < fuel)%nat ->
  Format_ r = FormatUnknown -> StatusCode r <> 0 ->
  StatusCode r <> nntpBody -> StatusCode r <> nntpArtiicle ->
  decode_lines write decodeFn fuel r pre (wire_lines lines ++ bs "." ++ crlf ++ rest) out read =
  Done (mkDec (read + zlen (wire_lines lines) + 3) None
          (r <| Lines := Lines r ++ lines |> <| eof := true |>) out
          (pre ++ wire_lines lines ++ bs "." ++ crlf ++ rest)).
Proof.
  induction lines as [|l lines IH]; intros fuel r pre rest out read Hl Hf Hfmt H0 Hb Ha;
    (destruct fuel as [|fuel]; [simpl in Hf; lia|]); cbn [decode_lines].
  - unfold wire_lines. simpl fmap. simpl concat. rewrite app_nil_l, (cut_at_crlf (bs ".") rest) by done.
    rewrite bool_decide_eq_true_2 by done. rewrite zlen_nil. do 2 f_equal.
    + change (zlen (bs ".")) with 1. lia.
    + destruct r. simpl. by rewrite app_nil_r.
    + by rewrite <- !app_assoc.
  - apply Forall_cons_iff in Hl as [[Hn Hd] Hl].
    rewrite wire_lines_cons, <- !app_assoc, cut_at_crlf by done.
    rewrite bool_decide_eq_false_2 by done.
    unfold status_line. rewrite !decide_True by done. rewrite (proj2 (Z.eqb_neq _ _)) by done.
    cbn [andb]. unfold detectFormat.
    rewrite !(proj2 (Z.eqb_neq (StatusCode r) _)) by done. cbn [negb andb]. rewrite Hfmt.
    rewrite IH; try done; [|simpl in Hf; lia]. do 2 f_equal.
    + rewrite !zlen_app. change (zlen crlf) with 2. lia.
    + destruct r. simpl. by rewrite <- app_assoc.
    + by rewrite <- !app_assoc.
Qed.
End Framing.

(** The decoder after a response outside BODY and ARTICLE. *)
Definition response_decoder (withMeta strict : bool) (code : Z) (msg : bytes) (lines : list bytes)
  : NNTPResponse :=
  (newNNTPResponse withMeta strict) <| Message := status_text code msg |> <| StatusCode := code |>
    <| Lines := lines |> <| eof := true |>.

Lemma decode_wire {W} (write : W -> bytes -> W * error) decodeFn withMeta strict code msg lines rest out :
  100 <= code < 1000 -> code <> nntpBody -> code <> nntpArtiicle ->
  index_of crlf msg = None -> Forall text_line lines -> (isMultiline code = false -> lines = []) ->
  decode write decodeFn (newNNTPResponse withMeta strict) (wire_response code msg lines ++ rest) out =
  Done (mkDec (zlen (wire_response code msg lines)) None (response_decoder withMeta strict code msg lines)
          out (wire_response code msg lines ++ rest)).
Proof.
  intros Hc Hb Ha Hm Hl Hsingle. unfold decode, wire_response.
  change (body (newNNTPResponse withMeta strict)) with false. cbn [andb negb].
  rewrite <- !app_assoc. rewrite decode_lines_status by done. simpl app at 1.
  destruct (isMultiline code) eqn:Hmulti.
  - rewrite <- !app_assoc. rewrite decode_lines_text; simpl; try done; try lia.
    + match goal with |- Done (mkDec ?n _ _ _ _) = Done (mkDec ?n' _ _ _ _) =>
        replace n with n' by (zlen_simp; lia) end.
      by rewrite <- ?app_assoc.
    + rewrite length_app; simpl; rewrite length_app. pose proof (wire_lines_length lines). lia.
  - rewrite (Hsingle eq_refl).
    match goal with |- Done (mkDec ?n _ _ _ _) = Done (mkDec ?n' _ _ _ _) =>
      replace n with n' by (zlen_simp; lia) end.
    by rewrite <- ?app_assoc.
Qed.

(** *** Reading in pieces *)

Section Chunks.
Context {W : Type} (write : W -> bytes -> W * error).
Context (decodeFn : bytes -> YState -> yenc_result).

Lemma decode_lines_fuel f1 : forall f2 r pre buf out read,
  (length buf < f1)%nat -> (length buf < f2)%nat ->
  decode_lines write decodeFn f1 r pre buf out read = decode_lines write decodeFn f2 r pre buf out read.
Proof.
  induction f1 as [|f1 IH]; intros f2 r pre buf out read H1 H2; [lia|].
  destruct f2 as [|f2]; [lia|]. cbn [decode_lines].
  destruct (cut_at crlf buf) as [[line rest]|] eqn:Hcut; [|done].
  apply cut_at_Some in Hcut as ->. rewrite !length_app in H1, H2. simpl in H1, H2.
  case_bool_decide; [done|].
  destruct (status_line r line) as [[[r' e] [|]]|]; [done|apply IH; lia|].
  set (r1 := if decide _ then _ else _). destruct (Format_ r1); [apply IH; lia| |apply IH; lia].
  destruct (body _); [|apply IH; lia].
  pose proof (decodeYenc_bounds write decodeFn (processYencHeader r1 line) rest out) as B.
  destruct (decodeYenc write decodeFn _ rest out) as [[[[[n err] r'] out'] buf']| | |]; try done.
  cbn [outcome_bind]. destruct B as (Hb & _). destruct (slice_from n buf') as [rest'|] eqn:Hs; [|done].
  apply slice_from_Some in Hs as [_ ->].
  destruct (_ || _); [done|]. apply IH; rewrite length_drop; lia.
Qed.

Lemma decodeYenc_format r buf out :
  Format_ r = FormatYenc ->
  match decodeYenc write decodeFn r buf out with Done (_, _, r', _, _) => Format_ r' = FormatYenc | _ => True end.
Proof.
  intros H. unfold decodeYenc. destruct buf as [|c buf]; [done|]. cbv zeta.
  set (d := decodeFn (c :: buf) (State r)).
  assert (Hfin : match decodeYenc_finish write (r <| State := yr_state d |>) d (overwrite (yr_buf d) (c :: buf)) out with
                 | Done (_, _, r', _, _) => Format_ r' = FormatYenc | _ => True end).
  { unfold decodeYenc_finish. destruct (0 <? yr_produced d); cbn [outcome_bind].
    - destruct (_ <? _); [done|]. destruct (write out _) as [out' [e|]]; [done|]. cbn [outcome_bind]. by destruct (yr_end d); [case_decide|..].
    - by destruct (yr_end d); [case_decide|..]. }
  destruct (yr_err d); [by destruct (strictDecodeErrors _)|exact Hfin].
Qed.

(** yEnc is final: once recognised, the format never changes again. *)
Lemma decode_lines_yenc fuel r pre buf out read d :
  decode_lines write decodeFn fuel r pre buf out read = Done d ->
  Format_ r = FormatYenc -> Format_ (d_resp d) = FormatYenc.
Proof.
  apply (decode_lines_preserves write decodeFn (fun r _ => Format_ r = FormatYenc)); try done.
  - intros r0 line _ r' e s. unfold status_line. destruct (decide _); [congruence|done].
  - congruence.
  - intros r0 line _ H _. by rewrite processYencHeader_format.
  - intros r0 b w H _. pose proof (decodeYenc_format r0 b w H).
    by destruct (decodeYenc write decodeFn r0 b w) as [[[[[? ?] ?] ?] ?]| | |].
Qed.

Lemma status_line_stop r line r' : status_line r line = Some (r', None, true) -> eof r' = true.
Proof.
  unfold status_line. destruct (decide _); [|done]. destruct (_ && _); [|done].
  destruct (atoi _) as [code [ne|]]; [done|]. destruct (isMultiline code); [done|]. by intros [= <-].
Qed.

Lemma decode_lines_split f1 : forall r pre a out read d b f2 f3,
  decode_lines write decodeFn f1 r pre a out read = Done d ->
  d_err d = None -> eof (d_resp d) = false -> Format_ (d_resp d) <> FormatYenc ->
  let k := Z.to_nat (d_read d - read) in
  (length a < f1)%nat -> (length (a ++ b) < f2)%nat -> (length (drop k a ++ b) < f3)%nat ->
  decode_lines write decodeFn f2 r pre (a ++ b) out read =
  decode_lines write decodeFn f3 (d_resp d) (pre ++ take k a) (drop k a ++ b) (d_out d) (d_read d).
Proof.
  induction f1 as [|f1 IH]; intros r pre a out read d b f2 f3 Hd He Heof Hfmt k H1 H2 H3; [lia|].
  subst k. cbn [decode_lines] in Hd. destruct (cut_at crlf a) as [[line rest]|] eqn:Hcut.
  2: { simplify_eq. cbn [d_read d_resp d_out] in *. rewrite Z.sub_diag, take_0, app_nil_r in *.
       by apply decode_lines_fuel. }
  assert (Ha : a = line ++ crlf ++ rest) by (by apply cut_at_Some in Hcut).
  assert (Hla : length a = (length line + 2 + length rest)%nat).
  { rewrite Ha, !length_app. simpl. lia. }
  destruct f2 as [|f2]; [lia|]. cbn [decode_lines]. rewrite (cut_at_app _ _ b _ _ Hcut).
  case_bool_decide; [simplify_eq; done|].
  assert (Hgo : forall r1, decode_lines write decodeFn f1 r1 (pre ++ line ++ crlf) rest out
                   (read + (zlen line + 2)) = Done d ->
     decode_lines write decodeFn f2 r1 (pre ++ line ++ crlf) (rest ++ b) out (read + (zlen line + 2)) =
     decode_lines write decodeFn f3 (d_resp d) (pre ++ take (Z.to_nat (d_read d - read)) a)
       (drop (Z.to_nat (d_read d - read)) a ++ b) (d_out d) (d_read d)).
  { intros r1 Hr1.
    pose proof (decode_lines_bounds write decodeFn f1 r1 (pre ++ line ++ crlf) rest out
                (read + (zlen line + 2)) ltac:(lia)) as Hrd.
    rewrite Hr1 in Hrd. destruct Hrd as [Hrd _]. unfold zlen in Hrd.
    set (k := Z.to_nat (d_read d - (read + (zlen line + 2)))).
    assert (Hk : Z.to_nat (d_read d - read) = (length (line ++ crlf) + k)%nat).
    { subst k. rewrite length_app. unfold zlen. simpl. lia. }
    assert (Htk : take (length (line ++ crlf) + k) a = line ++ crlf ++ take k rest).
    { rewrite Ha, app_assoc, take_app_add. by rewrite <- app_assoc. }
    assert (Hdk : drop (length (line ++ crlf) + k) a = drop k rest).
    { by rewrite Ha, app_assoc, drop_app_add. }
    rewrite Hk in *. rewrite Htk. rewrite Hdk in *.
    replace (pre ++ line ++ crlf ++ take k rest) with ((pre ++ line ++ crlf) ++ take k rest)
      by (by rewrite <- !app_assoc).
    apply IH; try done; [lia|]. rewrite !length_app in *. lia. }
  destruct (status_line r line) as [[[r' e] [|]]|] eqn:Hst.
  - simplify_eq. simpl in *. subst e. apply status_line_stop in Hst. congruence.
  - by apply Hgo.
  - set (r1 := if decide _ then _ else _) in *. destruct (Format_ r1) eqn:Hf; [by apply Hgo| |by apply Hgo].
    exfalso. apply Hfmt. clear Hgo.
    assert (Hf2 : Format_ (processYencHeader r1 line) = FormatYenc) by (by rewrite processYencHeader_format).
    destruct (body (processYencHeader r1 line)); [|by eapply decode_lines_yenc].
    pose proof (decodeYenc_format (processYencHeader r1 line) rest out Hf2) as Hf3.
    destruct (decodeYenc write decodeFn _ rest out) as [[[[[n err] r'] out'] buf']| | |]; try done.
    cbn [outcome_bind] in Hd. destruct (slice_from n buf'); [|done].
    destruct (_ || _); [by simplify_eq|by eapply decode_lines_yenc].
Qed.
End Chunks.

Section Shift.
Context {W : Type} (write : W -> bytes -> W * error).
Context (decodeFn : bytes -> YState -> yenc_result).

Definition shift_dec (m : Z) (p : bytes) (o : outcome (@dec_result W)) : outcome dec_result :=
  let*! d := o in Done (mkDec (m + d_read d) (d_err d) (d_resp d) (d_out d) (p ++ d_mem d)).

(** The loop's offset and processed prefix are only bookkeeping. *)
Lemma decode_lines_shift fuel : forall r pre buf out read m p,
  decode_lines write decodeFn fuel r (p ++ pre) buf out (m + read) =
  shift_dec m p (decode_lines write decodeFn fuel r pre buf out read).
Proof.
  induction fuel as [|fuel IH]; intros r pre buf out read m p; [done|]. cbn [decode_lines].
  assert (Hstop : forall n e r' w q, Done (mkDec (m + n) e r' w (p ++ q)) =
            shift_dec m p (Done (mkDec n e r' w q))) by done.
  destruct (cut_at crlf buf) as [[line rest]|]; [|by rewrite <- Hstop, app_assoc].
  rewrite <- Z.add_assoc, <- !app_assoc.
  case_bool_decide; [by rewrite <- Hstop, <- ?app_assoc|].
  destruct (status_line r line) as [[[r' e] [|]]|];
    [by rewrite <- Hstop, <- ?app_assoc|apply IH|].
  set (r1 := if decide _ then _ else _). destruct (Format_ r1); [apply IH| |apply IH].
  destruct (body _); [|apply IH].
  destruct (decodeYenc write decodeFn _ rest out) as [[[[[n err] r'] out'] buf']| | |]; try done. cbn [outcome_bind].
  destruct (slice_from n buf'); [|done]. rewrite <- Z.add_assoc.
  destruct (_ || _); [by rewrite <- Hstop, <- ?app_assoc|].
  rewrite <- (app_assoc p). apply IH.
Qed.
End Shift.

(** *** Validation *)

(** What an accepted BODY satisfies. *)
Definition body_accepted (r : NNTPResponse) : Prop :=
  let y := YEnc r in
  Format_ r = FormatYenc /\ hasBegin r = true /\ hasEnd r = true /\ headerErr r = None /\
  0 <= ym_FileSize y /\ 0 <= ym_PartSize y /\ 0 <= ym_PartBegin y /\ ym_FileName y <> [] /\
  EndSize r = BytesDecoded r /\
  (if 0 <? ym_Part y then
     hasPart r = true /\ ym_Part y <= ym_Total y /\ ym_PartSize y = BytesDecoded r /\
     let partEnd := wrap64 (ym_PartBegin y + ym_PartSize y) in
     if ym_Part y =? ym_Total y then partEnd = ym_FileSize y else partEnd < ym_FileSize y
   else hasPart r = false /\ ym_FileSize y = BytesDecoded r) /\
  (hasPartCRC r = true -> CRC r = partCRC r) /\
  (hasFileCRC r = true ->
   (hasPart r = false \/ (ym_PartBegin y = 0 /\ ym_PartSize y = ym_FileSize y)) ->
   CRC r = fileCRC r).

Lemma corrupt_not_nil msg : corrupt msg <> None.
Proof. done. Qed.

Lemma validate_sizes_iff r :
  validate_sizes r = None <->
  let y := YEnc r in
  if 0 <? ym_Part y then
     hasPart r = true /\ ym_Part y <= ym_Total y /\ ym_PartSize y = BytesDecoded r /\
     let partEnd := wrap64 (ym_PartBegin y + ym_PartSize y) in
     if ym_Part y =? ym_Total y then partEnd = ym_FileSize y else partEnd < ym_FileSize y
  else ym_FileSize y = BytesDecoded r.
Proof.
  unfold validate_sizes. cbv zeta. destruct (Z.ltb_spec 0 (ym_Part (YEnc r))).
  - destruct (hasPart r); simpl; [|by split; [|intros (? & _)]].
    destruct (Z.leb_spec (ym_Total (YEnc r)) 0), (Z.ltb_spec (ym_Total (YEnc r)) (ym_Part (YEnc r)));
      simpl; try (split; [done|]; intros (_ & ? & _); lia).
    set (pe := wrap64 _).
    destruct (Z.eqb_spec (ym_PartSize (YEnc r)) (BytesDecoded r)),
      (Z.ltb_spec (ym_FileSize (YEnc r)) pe), (Z.eqb_spec (ym_Part (YEnc r)) (ym_Total (YEnc r))),
      (Z.eqb_spec pe (ym_FileSize (YEnc r))), (Z.ltb_spec (ym_Part (YEnc r)) (ym_Total (YEnc r))),
      (Z.leb_spec (ym_FileSize (YEnc r)) pe); simpl;
      (split; [try done; intros _; split_and!; done || lia|intros (_ & ? & ? & ?); try done; lia]).
  - destruct (Z.eqb_spec (ym_FileSize (YEnc r)) (BytesDecoded r)); done.
Qed.

(** Whether the trailer's [crc32] covers this body. *)
Definition complete_file (r : NNTPResponse) : bool :=
  negb (hasPart r) ||
  ((ym_PartBegin (YEnc r) =? 0) && (ym_PartSize (YEnc r) =? ym_FileSize (YEnc r))).

Lemma complete_file_spec r :
  complete_file r = true <->
  hasPart r = false \/ (ym_PartBegin (YEnc r) = 0 /\ ym_PartSize (YEnc r) = ym_FileSize (YEnc r)).
Proof.
  unfold complete_file. rewrite orb_true_iff, negb_true_iff, andb_true_iff, !Z.eqb_eq. done.
Qed.

Lemma validateBody_iff r :
  StatusCode r = nntpBody -> fst (validateBody r) = None <-> body_accepted r.
Proof.
  intros Hs. unfold validateBody, body_accepted. cbv zeta. rewrite Hs, Z.eqb_refl. simpl negb. cbv iota.
  fold (complete_file r). rewrite <- complete_file_spec.
  pose proof (validate_sizes_iff r) as Hv. cbv zeta in Hv.
  destruct (decide (Format_ r = FormatYenc)) as [Hf|Hf];
    [rewrite bool_decide_eq_true_2 by done|rewrite bool_decide_eq_false_2 by done; simpl; naive_solver].
  destruct (hasBegin r); [|simpl; naive_solver].
  destruct (headerErr r); [simpl; naive_solver|].
  destruct (hasEnd r); [|simpl; naive_solver]. simpl.
  destruct (Z.ltb_spec (ym_FileSize (YEnc r)) 0); [simpl; split; [done|lia]|].
  destruct (Z.ltb_spec (ym_PartSize (YEnc r)) 0); [simpl; split; [done|lia]|].
  destruct (Z.ltb_spec (ym_PartBegin (YEnc r)) 0); [simpl; split; [done|lia]|]. simpl.
  case_bool_decide; [simpl; naive_solver|].
  destruct (Z.leb_spec (ym_Part (YEnc r)) 0), (Z.ltb_spec 0 (ym_Part (YEnc r))); try lia.
  - destruct (hasPart r); simpl; [naive_solver|].
    destruct (validate_sizes r); [naive_solver|].
    destruct (Z.eqb_spec (EndSize r) (BytesDecoded r)); [|simpl; naive_solver].
    destruct (Z.eqb_spec (CRC r) (partCRC r)), (Z.eqb_spec (CRC r) (fileCRC r)),
      (hasPartCRC r), (hasFileCRC r), (complete_file r); simpl; naive_solver.
  - rewrite andb_false_r.
    destruct (validate_sizes r); [naive_solver|].
    destruct (Z.eqb_spec (EndSize r) (BytesDecoded r)); [|simpl; naive_solver].
    destruct (Z.eqb_spec (CRC r) (partCRC r)), (Z.eqb_spec (CRC r) (fileCRC r)),
      (hasPartCRC r), (hasFileCRC r), (complete_file r); simpl; naive_solver.
Qed.

(** The CRC an accepted body reports as verified is the decoded one. *)
Lemma validateBody_crc r :
  StatusCode r = nntpBody -> fst (validateBody r) = None ->
  hasCrc (snd (validateBody r)) = true -> ExpectedCRC (snd (validateBody r)) = CRC r.
Proof.
  intros Hs Hv. pose proof (proj1 (validateBody_iff r Hs) Hv) as Ha.
  destruct Ha as (_ & _ & _ & _ & _ & _ & _ & _ & _ & _ & Hp & Hf).
  rewrite <- complete_file_spec in Hf.
  destruct (validateBody r) as [err r'] eqn:E. simpl in Hv. subst err. simpl.
  unfold validateBody in E. cbv zeta in E. fold (complete_file r) in E.
  rewrite Hs, Z.eqb_refl in E. cbn [negb] in E.
  repeat match type of E with
  | (if ?c then _ else _) = _ => destruct c eqn:?; [by simplify_eq|]
  | match ?c with Some _ => _ | None => _ end = _ => destruct c eqn:?; [by simplify_eq|]
  end.
  simplify_eq.
  change (hasPartCRC (r <| hasCrc := false |> <| ExpectedCRC := 0 |>)) with (hasPartCRC r).
  change (hasFileCRC (r <| hasCrc := false |> <| ExpectedCRC := 0 |>)) with (hasFileCRC r).
  destruct (hasPartCRC r); [intros _; symmetry; by apply Hp|].
  destruct (hasFileCRC r); [|done]. destruct (complete_file r); [|done].
  intros _. symmetry. by apply Hf.
Qed.

(** ** Properties *)

(** On every input, in every state and with any yEnc decoder, [Feed] returns and has
    consumed a part of the slice it was given, which keeps its length; or it slices out
    of range, which takes an answer of the decoder that its callers cannot use. *)
Theorem Feed_bounds {W} (write : W -> bytes -> W * error)
    (decodeFn : bytes -> YState -> yenc_result) (r : NNTPResponse) (buf : bytes) (out : W) :
  match Feed write decodeFn r buf out with
  | Done (n, _, _, _, _, mem) => 0 <= n <= zlen buf /\ length mem = length buf
  | Panicked => overruns decodeFn
  | _ => False
  end.
Proof.
  unfold Feed. pose proof (decode_bounds write decodeFn r buf out) as B.
  by destruct (decode write decodeFn r buf out).
Qed.

(** C27: what [validateBody] lets through is intact: however a BODY response was
    cut into reads and whatever it contained, if the body is accepted then the
    bytes handed to the writer have the size the trailer declares, and the CRC
    of exactly those bytes is the part CRC, and the file CRC when the part is
    the whole file. *)
Theorem delivered_body_verified (decodeFn : bytes -> YState -> yenc_result)
    (write : bytes -> bytes -> bytes * error) (withMeta strict : bool)
    (r : NNTPResponse) (out : bytes) :
  (forall w p, fst (write w p) = w ++ p) ->
  fed write decodeFn (newNNTPResponse withMeta strict) [] r out ->
  StatusCode r = nntpBody -> fst (validateBody r) = None ->
  zlen out = EndSize r /\
  zlen out = (if 0 <? ym_Part (YEnc r) then ym_PartSize (YEnc r) else ym_FileSize (YEnc r)) /\
  (hasPartCRC r = true -> crc32_update 0 out = partCRC r) /\
  (hasFileCRC r = true -> complete_file r = true -> crc32_update 0 out = fileCRC r) /\
  (hasCrc (snd (validateBody r)) = true -> ExpectedCRC (snd (validateBody r)) = crc32_update 0 out).
Proof.
  intros Hw Hfed Hs Hv. apply fed_counts in Hfed as [H1 H2]; [|done..].
  pose proof (validateBody_crc r Hs Hv) as Hcrc. rewrite H1 in Hcrc.
  apply validateBody_iff in Hv; [|done].
  destruct Hv as (_ & _ & _ & _ & _ & _ & _ & _ & He & Hsz & Hp & Hf).
  rewrite <- complete_file_spec in Hf. rewrite <- H1, <- H2 in *.
  split_and!; try done. destruct (0 <? ym_Part (YEnc r)); [|by symmetry; apply Hsz].
  destruct Hsz as (_ & _ & Hsz & _). done.
Qed.

Lemma delivered_body_verified_witness :
  let reads := [bs "222 body" ++ crlf ++ bs "=ybegin line=128 size=3 name=a" ++ crlf ++ bs "abc";
                crlf ++ bs "=yend size=3 crc32=352441c2" ++ crlf ++ bs "." ++ crlf] in
  exists r, feed_all buffer_write plain_decode reads (newNNTPResponse false true) [] = Done (r, bs "abc") /\
    hasFileCRC r = true /\ complete_file r = true /\ crc32_update 0 (bs "abc") = fileCRC r.
Proof.
  intros reads.
  set (r := match feed_all buffer_write plain_decode reads (newNNTPResponse false true) [] with
     | Done (r, _) => r | _ => newNNTPResponse false true end).
  exists r.
  assert (Hr : feed_all buffer_write plain_decode reads (newNNTPResponse false true) [] =
               Done (r, bs "abc")) by (vm_compute; reflexivity).
  assert (H1 : hasFileCRC r = true) by (vm_compute; reflexivity).
  assert (H2 : complete_file r = true) by (vm_compute; reflexivity).
  assert (H3 : StatusCode r = nntpBody) by (vm_compute; reflexivity).
  assert (H4 : fst (validateBody r) = None) by (vm_compute; reflexivity).
  clearbody r.
  destruct (delivered_body_verified plain_decode buffer_write false true r (bs "abc")
    (fun w p => eq_refl) (feed_all_fed _ _ _ _ _ _ _ Hr) H3 H4)
    as (_ & _ & _ & H5 & _).
  split_and!; auto.
Defined.

(** Response framing round trip: from a fresh decoder, the wire form of any
    response outside BODY and ARTICLE is consumed exactly to its end whatever
    follows it in the buffer, is reported complete, and yields the code, the
    status line and the lines it was written from. *)
Theorem Feed_roundtrip {W} (write : W -> bytes -> W * error)
    (decodeFn : bytes -> YState -> yenc_result) (withMeta strict : bool)
    (code : Z) (msg : bytes) (lines : list bytes) (rest : bytes) (out : W) :
  100 <= code < 1000 -> code <> nntpBody -> code <> nntpArtiicle ->
  index_of crlf msg = None -> Forall text_line lines ->
  (isMultiline code = false -> lines = []) ->
  exists r', Feed write decodeFn (newNNTPResponse withMeta strict)
               (wire_response code msg lines ++ rest) out =
             Done (zlen (wire_response code msg lines), true, None, r', out,
                   wire_response code msg lines ++ rest) /\
    StatusCode r' = code /\ Message r' = status_text code msg /\ Lines r' = lines.
Proof.
  intros Hc Hb Ha Hm Hl Hsingle. unfold Feed.
  rewrite decode_wire by done. cbn [outcome_bind]. eexists. split; [reflexivity|]. by split_and!.
Qed.

Lemma Feed_roundtrip_witness :
  exists r', Feed buffer_write plain_decode (newNNTPResponse false false)
    (bs "221 head" ++ crlf ++ bs "Subject: x" ++ crlf ++ bs "." ++ crlf ++ bs "223 next") [] =
    Done (25, true, None, r', [], bs "221 head" ++ crlf ++ bs "Subject: x" ++ crlf ++ bs "." ++ crlf ++ bs "223 next")
    /\ StatusCode r' = 221 /\ Message r' = bs "221 head" /\ Lines r' = [bs "Subject: x"].
Proof.
  apply (Feed_roundtrip buffer_write plain_decode false false 221 (bs "head") [bs "Subject: x"]
           (bs "223 next") []); try discriminate; try reflexivity.
  - split; [discriminate|reflexivity].
  - repeat constructor; discriminate.
Defined.

(** Reading in pieces: when a read ended inside a response that has not
    entered a yEnc body, decoding the unconsumed tail together with the next
    bytes gives exactly what decoding everything at once would have given. *)
Theorem decode_chunks {W} (write : W -> bytes -> W * error)
    (decodeFn : bytes -> YState -> yenc_result) (r : NNTPResponse) (a b : bytes) (out : W)
    (d1 : dec_result) :
  body r = false ->
  decode write decodeFn r a out = Done d1 -> d_err d1 = None -> eof (d_resp d1) = false ->
  body (d_resp d1) = false -> Format_ (d_resp d1) <> FormatYenc ->
  let k := Z.to_nat (d_read d1) in
  decode write decodeFn r (a ++ b) out =
  shift_dec (d_read d1) (take k a)
    (decode write decodeFn (d_resp d1) (drop k a ++ b) (d_out d1)).
Proof.
  intros Hb Hd He Heof Hb1 Hfmt k. unfold decode in *. rewrite Hb in *. rewrite Hb1. cbn [andb negb] in *.
  rewrite (decode_lines_split write decodeFn (S (length a)) r [] a out 0 d1 b
             _ (S (length (drop k a ++ b)))); try done; try lia; rewrite Z.sub_0_r; fold k; [|lia].
  rewrite <- decode_lines_shift, Z.add_0_r, app_nil_r. done.
Qed.

Lemma decode_chunks_witness :
  let a := bs "221 hea" in
  let b := bs "d" ++ crlf ++ bs "X: y" ++ crlf ++ bs "." ++ crlf in
  exists d1, decode buffer_write plain_decode (newNNTPResponse false false) a [] = Done d1 /\
    decode buffer_write plain_decode (newNNTPResponse false false) (a ++ b) [] =
    shift_dec (d_read d1) (take (Z.to_nat (d_read d1)) a)
      (decode buffer_write plain_decode (d_resp d1) (drop (Z.to_nat (d_read d1)) a ++ b) (d_out d1)).
Proof.
  eexists. split; [vm_compute; reflexivity|].
  apply (decode_chunks buffer_write plain_decode (newNNTPResponse false false)); try reflexivity.
  discriminate.
Defined.

(** ** What the model shows about corner cases *)

(** The end of an article is taken to be three bytes of the slice at hand.  An answer
    that found it with fewer, because its first bytes came with an earlier read, makes
    the count negative, and the slice expression panics. *)
Theorem split_end_panics {W} (write : W -> bytes -> W * error) decodeFn r buf (out : W) :
  body r = true -> Format_ r = FormatYenc -> buf <> [] ->
  let d := decodeFn buf (State r) in
  yr_err d = None -> yr_produced d = 0 -> yr_end d = EndArticle -> yr_consumed d < 3 ->
  Feed write decodeFn r buf out = Panicked.
Proof.
  intros Hb Hf Hn d He Hp Hend Hc. unfold Feed, decode. rewrite Hb, Hf. cbn [andb]. rewrite bool_decide_eq_true_2 by done.
  unfold decodeYenc. destruct buf as [|c buf]; [done|]. fold d. cbv zeta. rewrite He. unfold decodeYenc_finish. cbv zeta.
  rewrite Hp, Hend. cbn [Z.ltb Z.compare outcome_bind]. unfold slice_from. by rewrite (proj2 (Z.ltb_lt _ 0)) by lia.
Qed.

(** A decoder that goes on across its calls, for the example: its states stand for the
    characters seen last, numbered as [StateOther] where the code does not name them. *)
Definition carried (st : YState) : bytes :=
  match st with
  | StateCRLF => crlf
  | StateCRLFEQ => crlf ++ bs "="
  | StateOther 0 => crlf ++ bs "."
  | StateOther 1 => crlf ++ bs "." ++ [x0d]
  | StateOther 2 => [x0d]
  | StateOther _ => []
  end.

Definition state_after (s : bytes) : YState :=
  let ends st := has_prefix (rev (carried st)) (rev s) in
  default (StateOther 3) (List.find ends [StateOther 1; StateOther 0; StateCRLFEQ; StateCRLF; StateOther 2]).

Definition is_eol (c : byte) : bool := bool_decide (c = x0d) || bool_decide (c = x0a).

Definition carrying_decode (buf : bytes) (st : YState) : yenc_result :=
  let '(o, m, e) := plain_scan (carried st ++ buf) 0 in
  let o := drop (length (List.filter (fun c => negb (is_eol c)) (carried st))) o in
  mkYencResult o (zlen o) (m - zlen (carried st)) e (state_after (carried st ++ buf)) None.

(** A body without a trailer whose end is cut by a read, after its dot. *)
Example split_end_reached :
  feed_all buffer_write carrying_decode
    [bs "222 b" ++ crlf ++ bs "=ybegin line=128 size=3 name=a" ++ crlf ++ bs "abc" ++ crlf ++ bs "."; crlf]
    (newNNTPResponse false true) [] = Panicked /\
  match feed_all buffer_write carrying_decode
    [bs "222 b" ++ crlf ++ bs "=ybegin line=128 size=3 name=a" ++ crlf ++ bs "abc" ++ crlf; bs "." ++ crlf]
    (newNNTPResponse false true) [] with
  | Done (r, out) => eof r = true /\ out = bs "abc"
  | _ => False
  end.
Proof. by vm_compute. Qed.

(** Once a UU body has been detected, [Feed] consumes nothing any more. *)
Theorem uu_body_stalls {W} (write : W -> bytes -> W * error)
    (decodeFn : bytes -> YState -> yenc_result) (r : NNTPResponse) (buf : bytes) (out : W) :
  body r = true -> Format_ r = FormatUU -> eof r = false ->
  exists r', Feed write decodeFn r buf out = Done (0, false, None, r', out, buf) /\
    body r' = true /\ Format_ r' = FormatUU /\ eof r' = false.
Proof.
  intros Hb Hf He. unfold Feed, decode. rewrite Hb, Hf. simpl. rewrite He. eexists.
  split; [reflexivity|]. done.
Qed.

(** ... and a BODY whose first line looks like UU gets there. *)
Example uu_body_reached :
  let o := Feed buffer_write plain_decode (newNNTPResponse false false)
             (bs "222 body" ++ crlf ++ bs "#0V%T" ++ crlf ++ bs "`" ++ crlf ++ bs "." ++ crlf) [] in
  match o with
  | Done (_, dn, _, r, _, _) => dn = true /\ body r = true /\ Format_ r = FormatUU
  | _ => False
  end.
Proof. vm_compute. auto. Qed.

Lemma trim_left_head c s t : trim_left [c] s <> c :: t.
Proof.
  induction s as [|b s IH]; simpl; [done|]. case_bool_decide as H; [done|].
  intros [= -> ->]. apply H, list_elem_of_here.
Qed.

(** The [begin] line of a UU file is never recognised: after trimming the
    spaces the code looks for a space. *)
Theorem begin_line_ignored (r : NNTPResponse) (rest : bytes) :
  detectFormat r (bs "begin " ++ rest) = r.
Proof.
  unfold detectFormat. destruct (_ && _); [done|].
  change (bs "begin " ++ rest) with (x62 :: bs "egin " ++ rest). cbv iota zeta.
  change (has_prefix (bs "=ybegin ") _) with false. cbv iota.
  rewrite (bool_decide_eq_false_2 (x62 = x4d)) by done. rewrite andb_false_r.
  change (has_prefix (bs "begin ") _) with true. cbv iota.
  change (drop 6 (x62 :: bs "egin " ++ rest)) with rest.
  pose proof (trim_left_head x20 rest) as Ht. destruct (trim_left [x20] rest) as [|[] t]; try done.
  by destruct (Ht t).
Qed.

(** The answer to [HELP] (100) is multi-line in the protocol, not here: the
    decoder stops after its status line and leaves the text in the stream. *)
Example help_text_left_over :
  match Feed buffer_write plain_decode (newNNTPResponse false false)
          (bs "100 help text follows" ++ crlf ++ bs "LIST" ++ crlf ++ bs "." ++ crlf) [] with
  | Done (n, dn, e, r, _, _) => n = 23 /\ dn = true /\ e = None /\ StatusCode r = 100
  | _ => False
  end.
Proof. vm_compute. auto. Qed.

(** [partEnd] wraps: crafted headers pass the size checks with a part that lies
    outside the file. *)
Example wrapped_part_accepted :
  let part := bs "222 b" ++ crlf ++ bs "=ybegin part=1 total=2 line=128 size=3 name=a" ++ crlf ++
    bs "=ypart begin=9223372036854775807 end=9223372036854775807" ++ crlf in
  match feed_all buffer_write plain_decode
          [part; bs "abc" ++ crlf ++ bs "=ybegin line=128 size=3 name=a" ++ crlf ++
                 crlf ++ bs "=ybegin part=1 total=2 line=128 size=3 name=a" ++ crlf ++
                 bs "=yend size=3" ++ crlf ++ bs "." ++ crlf]
          (newNNTPResponse false false) [] with
  | Done (r, out) => fst (validateBody r) = None /\ ym_FileSize (YEnc r) < ym_PartBegin (YEnc r)
  | _ => False
  end.
Proof. vm_compute. split; reflexivity. Qed.
