(* ===== verification/Evidence.v ===== *)
(** Requests, responses and the evidence an attempt leaves
    ([nntp.go]: [Request], [Response], [buildAttemptEvidence] and its helpers;
    [errors.go]: [responseError], [cancellationResponse];
    [circuit_breaker.go]: [classifyCircuitBreakerCompletion]).

    A [Request] is shared between the caller and the connection; its value here
    is a snapshot of the fields at the moment an operation reads them (the
    atomics included), and [ctxErr] is what [req.Ctx.Err()] answers then.  Times
    are nanoseconds, 0 for [time.Time{}] and for an atomic never stored. *)
From S2P Require Import Prelude Errors CircuitBreaker Reader.

(** ** Data *)

Inductive Response451Policy :=
| Response451Temporary
| Response451AbsentAfterRetry
| Response451Unknown (policy : Z).

#[export] Instance Response451Policy_eq_dec : EqDecision Response451Policy.
Proof. solve_decision. Defined.

Inductive attempt_state := attemptPending | attemptResponseHead | attemptCommitted.

#[export] Instance attempt_state_eq_dec : EqDecision attempt_state.
Proof. solve_decision. Defined.

(** The fields of [Request] the transport's decisions read. *)
Record Request := mkRequest {
  rq_Payload : bytes;
  rq_ValidateBody : bool;
  rq_FreshTransport : bool;
  rq_response451Policy : Response451Policy;
  rq_PostMode : bool;
  rq_responseTimeout : Z;
  rq_attemptState : attempt_state;
  rq_decodedCommitted : bool;
  rq_submittedAt : Z;
  rq_writtenAt : Z;
  rq_responseHeadAt : Z;
  rq_heldBody : bool;
  rq_heldBackgroundStat : bool;
  rq_heldPipeline : bool;
  rq_Priority : bool;
  rq_ctxErr : error
}.

#[export] Instance eta_Request : Eta Request := fun r =>
  mkRequest (rq_Payload r) (rq_ValidateBody r) (rq_FreshTransport r) (rq_response451Policy r)
    (rq_PostMode r) (rq_responseTimeout r) (rq_attemptState r) (rq_decodedCommitted r)
    (rq_submittedAt r) (rq_writtenAt r) (rq_responseHeadAt r) (rq_heldBody r)
    (rq_heldBackgroundStat r) (rq_heldPipeline r) (rq_Priority r) (rq_ctxErr r).

(** [&Request{Payload: payload, ValidateBody: validateBody}] *)
Definition newRequest (payload : bytes) (validateBody : bool) : Request :=
  mkRequest payload validateBody false Response451Temporary false 0 attemptPending false 0 0 0
    false false false false None.

Record Response := mkResponse {
  rs_StatusCode : Z;
  rs_Status : bytes;
  rs_ProviderID : string;
  rs_Attempts : list AttemptEvidence;
  rs_Lines : list bytes;
  rs_Body : bytes;
  rs_Meta : NNTPResponse;
  rs_Err : error;
  rs_Request : option Request
}.

#[export] Instance eta_Response : Eta Response := fun r =>
  mkResponse (rs_StatusCode r) (rs_Status r) (rs_ProviderID r) (rs_Attempts r) (rs_Lines r)
    (rs_Body r) (rs_Meta r) (rs_Err r) (rs_Request r).

(** [Response{Err: err}] *)
Definition errResponse (err : error) : Response :=
  mkResponse 0 [] "" [] [] [] (newNNTPResponse false false) err None.

(** ** Operations *)

Definition requestMaps451ToAbsence (req : Request) (responseCode : Z) : bool :=
  (responseCode =? 451) && bool_decide (rq_response451Policy req = Response451AbsentAfterRetry) &&
  isArticleOperation (operationFromPayload (rq_Payload req)).

(** The body-validation status of an attempt. *)
Definition body_validation (req : Request) (resp : Response) (outcome : OutcomeKind)
  : BodyValidationStatus :=
  if decide (operationFromPayload (rq_Payload req) = OperationBody) then
    if negb (rq_ValidateBody req) then BodyValidationNotRequested
    else match outcome with
         | OutcomeSuccess => BodyValidationValid
         | OutcomeCorruptBody => BodyValidationInvalid
         | _ => if (rs_StatusCode resp =? nntpBody) || negb (is_nil (rs_Err resp))
                then BodyValidationIncomplete else BodyValidationNotApplicable
         end
  else BodyValidationNotApplicable.

(** The three durations: pool queue, pipeline-head wait, response service. *)
Definition attempt_durations (req : Request) (completedAt : Z) : Z * Z * Z :=
  let writtenAt := rq_writtenAt req in
  let headAt := rq_responseHeadAt req in
  let submitted := negb (rq_submittedAt req =? 0) in
  let poolQueue :=
    if submitted && (0 <? writtenAt) then writtenAt - rq_submittedAt req
    else if submitted then completedAt - rq_submittedAt req else 0 in
  let headWait :=
    if (0 <? writtenAt) && (0 <? headAt) then headAt - writtenAt
    else if 0 <? writtenAt then completedAt - writtenAt else 0 in
  let service := if 0 <? headAt then completedAt - headAt else 0 in
  (poolQueue, headWait, service).

Definition buildAttemptEvidence (req : Request) (providerID : string) (resp : Response)
    (completedAt : Z) : AttemptEvidence :=
  let cause := if is_nil (rs_Err resp) then toError (rs_StatusCode resp) (rs_Status resp)
               else rs_Err resp in
  let operation := operationFromPayload (rq_Payload req) in
  let outcome := classifyOutcome (rs_StatusCode resp) cause in
  let outcome := if is_nil (rs_Err resp) && requestMaps451ToAbsence req (rs_StatusCode resp)
                 then OutcomeHardArticleAbsence else outcome in
  let '(poolQueue, headWait, service) := attempt_durations req completedAt in
  let providerResponseTimeout :=
    (0 <? rq_responseHeadAt req) && is_nil (rq_ctxErr req) &&
    match rs_Err resp with
    | Some e => match errors_as_net e with Some timeout => timeout | None => false end
    | None => false
    end in
  mkAttemptEvidence providerID operation outcome (rs_StatusCode resp)
    (body_validation req resp outcome) cause providerResponseTimeout
    (Z.max poolQueue 0) (Z.max headWait 0) (Z.max service 0).

Definition buildEligibilityEvidence (payload : bytes) (providerID : string) (cause : error)
    (validateBody : bool) (now : Z) : AttemptEvidence :=
  buildAttemptEvidence (newRequest payload validateBody) providerID (errResponse cause) now.

Definition responseIsHardArticleAbsence (resp : Response) : bool :=
  if (rs_StatusCode resp =? 423) || (rs_StatusCode resp =? 430) then true
  else if negb (rs_StatusCode resp =? 451) then false
  else match last_elem (rs_Attempts resp) with
       | Some final => (ae_ResponseCode final =? 451) &&
                       bool_decide (ae_Outcome final = OutcomeHardArticleAbsence)
       | None => false
       end.

Definition attemptCommittedResp (resp : Response) : bool :=
  match rs_Request resp with Some req => rq_decodedCommitted req | None => false end.

(** [attemptWriter.Write]: what a write of [p] to the caller's writer leaves on
    the request; the bytes then go to the wrapped writer. *)
Definition attemptWriter_mark (req : Request) (p : bytes) : Request :=
  match p with
  | [] => req
  | _ =>
      req <| rq_decodedCommitted := true |>
          <| rq_attemptState ::= fun s =>
               if decide (s = attemptResponseHead) then attemptCommitted else s |>
  end.

(** [responseError] *)
Definition responseError (resp : Response) : error :=
  let cause := if is_nil (rs_Err resp) then toError (rs_StatusCode resp) (rs_Status resp)
               else rs_Err resp in
  match cause with
  | None => None
  | Some (ETransport _ _ _ _ _) => cause
  | Some _ =>
      match rs_Attempts resp with
      | [] => cause
      | attempts => Some (newTransportError attempts cause)
      end
  end.

Definition cancellationResponse (attempts : list AttemptEvidence) (cause : error) : Response :=
  let providerID := match last_elem attempts with Some a => ae_ProviderID a | None => ""%string end in
  let err := ETransport OutcomeCancellation providerID 0 (cloneAttempts attempts) cause in
  (errResponse (Some err)) <| rs_Attempts := cloneAttempts attempts |>.

(** [classifyCircuitBreakerCompletion] *)
Definition mapped_absence (a : AttemptEvidence) : bool :=
  (ae_ResponseCode a =? 451) && bool_decide (ae_Outcome a = OutcomeHardArticleAbsence).

Definition classifyCircuitBreakerCompletion (resp : Response) (ok cancelled : bool)
  : circuitBreakerCompletion :=
  if cancelled || negb ok then circuitBreakerNeutral
  else match last_elem (rs_Attempts resp) with
  | None => circuitBreakerNeutral
  | Some final =>
      if existsb mapped_absence (rs_Attempts resp) then circuitBreakerNeutral
      else match ae_Outcome final with
      | OutcomeSuccess => circuitBreakerSuccess
      | OutcomeTemporaryFailure =>
          if Is (ae_Cause final) (TSentinel ErrCircuitBreakerOpen) then circuitBreakerNeutral
          else circuitBreakerFailure
      | OutcomeTransportFailure =>
          if ae_ProviderResponseTimeout final then circuitBreakerFailure
          else match rs_Request resp with
          | None => circuitBreakerNeutral
          | Some req =>
              if (rq_writtenAt req =? 0) || (0 <? rq_responseHeadAt req)
              then circuitBreakerFailure else circuitBreakerNeutral
          end
      | _ => circuitBreakerNeutral
      end
  end.

(** [minDeadline]; the deadlines are points in time. *)
Definition minDeadline (d : Z) (other : Z) (hasOther : bool) : Z * bool :=
  if hasOther && (other <? d) then (other, true) else (d, true).

(** ** Lemmas *)

Lemma is_nil_None (e : error) : is_nil e = true <-> e = None.
Proof. by destruct e. Qed.

(** [classifyOutcome] reports success only for a nil error, and what is neither
    success nor absence carries no [ErrArticleNotFound] unless the error does. *)
Lemma classifyOutcome_success code err :
  classifyOutcome code err = OutcomeSuccess -> err = None /\ code_ok code = true.
Proof.
  unfold classifyOutcome. destruct err as [e|]; simpl.
  - repeat (destruct (_ || _); [done|]). destruct (errors_is e _); [done|].
    repeat (destruct (_ || _); [done|]). destruct (code =? 451); [done|]. by destruct (errors_as_proto e).
  - destruct (code_ok code); [done|]. destruct (code =? 502); [done|].
    destruct (_ || _); [done|]. by destruct (code =? 451).
Qed.

Lemma proto_absence code :
  proto_is code IsArticleNotFound = true -> code = 423 \/ code = 430.
Proof.
  unfold proto_is, IsArticleNotFound, errorCategory. change ((430 =? 423) || (430 =? 430)) with true.
  cbv iota. destruct (Z.eqb_spec code 423); [auto|]. destruct (Z.eqb_spec code 430); [auto|].
  simpl. intros H. apply Z.eqb_eq in H. auto.
Qed.

Lemma toError_absence code status c :
  toError code status = Some c -> errors_is c IsArticleNotFound = true -> code = 423 \/ code = 430.
Proof.
  unfold toError. destruct (code_ok code); [done|].
  destruct (Z.eqb_spec code 423); [auto|]. destruct (Z.eqb_spec code 430); [auto|]. simpl.
  repeat (destruct (code =? _); [intros [= <-]; discriminate|]).
  intros [= <-]. simpl. by apply proto_absence.
Qed.

Lemma toError_nil code status : toError code status = None <-> code_ok code = true.
Proof.
  unfold toError. destruct (code_ok code); [done|].
  split; [|done]. repeat (destruct (_ || _); [done|]). repeat (destruct (code =? _); [done|]). done.
Qed.

(** The outcome of a reply, as a table. *)
Definition reply_outcome (code : Z) : OutcomeKind :=
  if code_ok code then OutcomeSuccess
  else if (code =? 423) || (code =? 430) then OutcomeHardArticleAbsence
  else if (code =? 480) || (code =? 481) || (code =? 502) then OutcomeProviderUnavailable
  else if code =? 451 then OutcomeTemporaryFailure
  else OutcomeInconclusive.

Lemma classifyOutcome_reply code status : classifyOutcome code (toError code status) = reply_outcome code.
Proof.
  unfold reply_outcome. destruct (code_ok code) eqn:E.
  - unfold classifyOutcome, toError. by rewrite E.
  - unfold toError. rewrite E. unfold classifyOutcome. rewrite E, andb_false_r.
    destruct (Z.eqb_spec code 423) as [->|]; [done|]. destruct (Z.eqb_spec code 430) as [->|]; [done|].
    destruct (Z.eqb_spec code 440) as [->|]; [done|]. destruct (Z.eqb_spec code 441) as [->|]; [done|].
    destruct (Z.eqb_spec code 480) as [->|]; [done|]. destruct (Z.eqb_spec code 481) as [->|]; [done|].
    destruct (Z.eqb_spec code 502) as [->|]; [done|].
    cbn [orb Is errors_is errors_as_proto].
    assert (Hcat : forall c, code <> c -> errorCategory c = c -> proto_is code (TProto c) = false).
    { intros c Hc Hcc. unfold proto_is. rewrite Hcc. apply Z.eqb_neq. unfold errorCategory.
      rewrite (proj2 (Z.eqb_neq code 423)), (proj2 (Z.eqb_neq code 430)) by done. done. }
    unfold IsServiceUnavailable, IsAuthRequired, IsAuthRejected, IsArticleNotFound.
    rewrite !Hcat by done. simpl. by destruct (code =? 451).
Qed.

(** The attempt evidence of a reply, without an error of the transport. *)
Lemma reply_evidence req id resp t :
  rs_Err resp = None ->
  let a := buildAttemptEvidence req id resp t in
  ae_Outcome a = (if requestMaps451ToAbsence req (rs_StatusCode resp) then OutcomeHardArticleAbsence
                  else reply_outcome (rs_StatusCode resp)) /\
  ae_ResponseCode a = rs_StatusCode resp /\ ae_Cause a = toError (rs_StatusCode resp) (rs_Status resp) /\
  ae_ProviderResponseTimeout a = false.
Proof.
  intros He. unfold buildAttemptEvidence. rewrite He. cbn [is_nil andb].
  destruct (attempt_durations req t) as [[p h] s]. cbn [ae_Outcome ae_ResponseCode ae_Cause ae_ProviderResponseTimeout].
  rewrite classifyOutcome_reply, andb_false_r. by destruct (requestMaps451ToAbsence _ _).
Qed.

(** ** Properties *)

(** What a reply counts as: the outcome an attempt records for a status code
    is success for 2xx and 3xx, hard absence for 423 and 430 and for a 451 that
    the provider's policy maps on an article command, provider unavailability
    for 480, 481 and 502, temporary failure for any other 451, and inconclusive
    otherwise; and every attempt whose error does not itself report a missing
    article is coherent evidence for the aggregate. *)
Theorem buildAttemptEvidence_outcome (req : Request) (id : string) (resp : Response) (t : Z) :
  let a := buildAttemptEvidence req id resp t in
  (rs_Err resp = None ->
   ae_Outcome a = if requestMaps451ToAbsence req (rs_StatusCode resp) then OutcomeHardArticleAbsence
                  else reply_outcome (rs_StatusCode resp)) /\
  (Is (rs_Err resp) IsArticleNotFound = false -> coherent_attempt a).
Proof.
  intros a. split; [intros He; apply reply_evidence; done|].
  intros Hn. unfold coherent_attempt. destruct (rs_Err resp) as [e|] eqn:He.
  - intros _ _. exists e. split; [|exact Hn]. unfold a, buildAttemptEvidence.
    destruct (attempt_durations req t) as [[p h] s]. by rewrite He.
  - destruct (reply_evidence req id resp t He) as (Ho & _ & Hc & _). fold a in Ho, Hc.
    rewrite Ho, Hc. destruct (requestMaps451ToAbsence req (rs_StatusCode resp)); [done|].
    unfold reply_outcome. intros H1 H2.
    destruct (toError (rs_StatusCode resp) (rs_Status resp)) as [c|] eqn:E.
    + exists c. split; [done|]. destruct (errors_is c IsArticleNotFound) eqn:Ea; [|done]. exfalso.
      destruct (toError_absence _ _ _ E Ea) as [Hs|Hs]; rewrite Hs in H2; by apply H2.
    + apply toError_nil in E. by rewrite E in H1.
Qed.

(** An attempt that gives no reason to doubt that the article is absent. *)
Definition faultless (a : AttemptEvidence) : Prop :=
  ae_Outcome a = OutcomeSuccess \/ ae_Outcome a = OutcomeHardArticleAbsence.

(** The aggregate is "no such article" only without a fault. *)
Lemma absence_faultless attempts c : Forall coherent_attempt attempts ->
  errors_is (newTransportError attempts (Some c)) IsArticleNotFound = true -> Forall faultless attempts.
Proof.
  intros Hco Hi. destruct (decide (failures_of attempts = [])) as [Hn|Hn].
  - apply list.Forall_forall. intros a Ha. left. destruct (decide (ae_Outcome a = OutcomeSuccess)) as [|Hs]; [done|].
    exfalso. assert (Hin : ae_Outcome a ∈ failures_of attempts); [|rewrite Hn in Hin; by apply elem_of_nil in Hin].
    apply list_elem_of_In, filter_In. split; [|by apply bool_decide_eq_true].
    apply list_elem_of_In, list_elem_of_fmap. eauto.
  - by apply newTransportError_absence in Hi.
Qed.

Lemma classifyOutcome_error_absence code e : errors_is e IsArticleNotFound = false ->
  classifyOutcome code (Some e) = OutcomeHardArticleAbsence -> code = 423 \/ code = 430.
Proof.
  unfold classifyOutcome. cbn [is_nil andb Is]. intros ->.
  repeat (destruct (_ || _); [done|]). destruct (errors_is e _); [done|]. repeat (destruct (_ || _); [done|]).
  destruct (Z.eqb_spec code 423); [auto|]. destruct (Z.eqb_spec code 430); [auto|]. simpl.
  destruct (code =? 451); [done|]. by destruct (errors_as_proto e).
Qed.

(** Without a fault a reply is a success or says that the article is absent. *)
Lemma faultless_reply req id resp t : Is (rs_Err resp) IsArticleNotFound = false ->
  let a := buildAttemptEvidence req id resp t in
  faultless a ->
  (rs_Err resp = None /\ code_ok (rs_StatusCode resp) = true) \/
  rs_StatusCode resp = 423 \/ rs_StatusCode resp = 430 \/
  (rs_Err resp = None /\ rs_StatusCode resp = 451 /\ ae_ResponseCode a = 451 /\
   ae_Outcome a = OutcomeHardArticleAbsence).
Proof.
  intros Hn a Hf. destruct (rs_Err resp) as [e|] eqn:He.
  - assert (Ho : ae_Outcome a = classifyOutcome (rs_StatusCode resp) (Some e)).
    { unfold a, buildAttemptEvidence. rewrite He. by destruct (attempt_durations req t) as [[? ?] ?]. }
    destruct Hf as [Hf|Hf]; rewrite Ho in Hf.
    + by destruct (classifyOutcome_success _ _ Hf).
    + destruct (classifyOutcome_error_absence _ _ Hn Hf); auto.
  - destruct (reply_evidence req id resp t He) as (Ho & Hc & _ & _). fold a in Ho, Hc.
    destruct (requestMaps451ToAbsence req (rs_StatusCode resp)) eqn:Hm.
    + do 3 right. unfold requestMaps451ToAbsence in Hm. apply andb_true_iff in Hm as [[Hm%Z.eqb_eq _]%andb_true_iff _].
      by rewrite Hc, Hm.
    + destruct Hf as [Hf|Hf]; rewrite Ho in Hf; unfold reply_outcome in Hf;
        destruct (code_ok (rs_StatusCode resp)); try (by left); try done;
        destruct (Z.eqb_spec (rs_StatusCode resp) 423); auto;
        destruct (Z.eqb_spec (rs_StatusCode resp) 430); auto; simpl in Hf; exfalso; revert Hf;
        repeat (destruct (_ || _); [done|]); by destruct (_ =? 451).
Qed.

(** Timing: pool queue, pipeline-head wait and response service partition
    the life of an attempt: whichever of the two milestones it reached, the
    three recorded durations add up to the time from submission to completion. *)
Theorem attempt_durations_partition (req : Request) (id : string) (resp : Response) (t : Z) :
  0 < rq_submittedAt req <= t ->
  (rq_writtenAt req = 0 /\ rq_responseHeadAt req = 0) \/
  (rq_submittedAt req <= rq_writtenAt req <= t /\ rq_responseHeadAt req = 0) \/
  (rq_submittedAt req <= rq_writtenAt req <= rq_responseHeadAt req /\ rq_responseHeadAt req <= t) ->
  let a := buildAttemptEvidence req id resp t in
  ae_PoolQueueDuration a + ae_PipelineHeadWaitDuration a + ae_ResponseServiceDuration a =
    t - rq_submittedAt req /\
  0 <= ae_PoolQueueDuration a /\ 0 <= ae_PipelineHeadWaitDuration a /\ 0 <= ae_ResponseServiceDuration a.
Proof.
  intros Hs Hm a. unfold a, buildAttemptEvidence, attempt_durations. simpl.
  rewrite (proj2 (Z.eqb_neq (rq_submittedAt req) 0)) by lia. simpl.
  destruct (Z.ltb_spec 0 (rq_writtenAt req)), (Z.ltb_spec 0 (rq_responseHeadAt req)); simpl; lia.
Qed.

Lemma attempt_durations_partition_witness :
  let req := (newRequest (bs "BODY <a>") true) <| rq_submittedAt := 10 |> <| rq_writtenAt := 13 |>
               <| rq_responseHeadAt := 20 |> in
  let a := buildAttemptEvidence req "p" (errResponse None) 50 in
  ae_PoolQueueDuration a + ae_PipelineHeadWaitDuration a + ae_ResponseServiceDuration a =
    50 - rq_submittedAt req /\
  0 <= ae_PoolQueueDuration a /\ 0 <= ae_PipelineHeadWaitDuration a /\ 0 <= ae_ResponseServiceDuration a.
Proof.
  intros req. apply (attempt_durations_partition req "p" (errResponse None) 50); simpl; lia.
Defined.

(** The request a completed attempt belonged to. *)
Definition single_attempt (req : Request) (id : string) (resp : Response) (t : Z) : Response :=
  resp <| rs_Attempts := [buildAttemptEvidence req id resp t] |> <| rs_Request := Some req |>.

(** What a provider is charged for: a single reply is a success for the
    breaker exactly when its code is 2xx or 3xx, and a failure exactly when it is
    a 451 not mapped to absence: a missing article (423, 430), an authentication
    failure or a 502 never counts against the circuit.  A dead connection is
    charged unless the request was written and never reached the head of the
    pipeline, and a cancelled request never is. *)
Theorem breaker_charges (req : Request) (id : string) (resp : Response) (t : Z) :
  let r := single_attempt req id resp t in
  (rs_Err resp = None ->
   classifyCircuitBreakerCompletion r true false =
   if code_ok (rs_StatusCode resp) then circuitBreakerSuccess
   else if (rs_StatusCode resp =? 451) && negb (requestMaps451ToAbsence req (rs_StatusCode resp))
   then circuitBreakerFailure else circuitBreakerNeutral) /\
  (rs_Err resp = Some (ESentinel ErrConnectionDied) -> rs_StatusCode resp = 0 ->
   classifyCircuitBreakerCompletion r true false =
   if (rq_writtenAt req =? 0) || (0 <? rq_responseHeadAt req)
   then circuitBreakerFailure else circuitBreakerNeutral) /\
  classifyCircuitBreakerCompletion r true true = circuitBreakerNeutral.
Proof.
  intros r. unfold classifyCircuitBreakerCompletion, r, single_attempt.
  remember (buildAttemptEvidence req id resp t) as a eqn:Ea. simpl. split_and!; [| |done].
  - intros He. destruct (reply_evidence req id resp t He) as (Ho & Hc & Hca & Ht). rewrite <- Ea in Ho, Hc, Hca, Ht.
    unfold mapped_absence. rewrite Ho, Hc, Hca, Ht, orb_false_r.
    destruct (requestMaps451ToAbsence req (rs_StatusCode resp)) eqn:Em.
    + assert (Hs : rs_StatusCode resp = 451).
      { unfold requestMaps451ToAbsence in Em. destruct (Z.eqb_spec (rs_StatusCode resp) 451); done. }
      by rewrite Hs.
    + unfold reply_outcome. destruct (code_ok (rs_StatusCode resp)) eqn:Ek.
      { rewrite bool_decide_eq_false_2, andb_false_r by done. done. }
      destruct (Z.eqb_spec (rs_StatusCode resp) 451) as [Hs|Hs].
      { rewrite Hs. unfold toError. rewrite <- Hs, Ek, Hs. done. }
      simpl. destruct (_ || _); [done|]. by destruct (_ || _).
  - intros He Hcode. rewrite Ea. unfold buildAttemptEvidence. rewrite He, Hcode. simpl.
    destruct (_ && _) eqn:Et; [|done]. by rewrite andb_false_r in Et.
Qed.
