(* ===== verification/Yenc.v ===== *)
(** yEnc articles on the wire, and what the decoder makes of them
    ([processYencHeader], [decode] and [validateBody] of [reader.go]).

    The printers here are the specification side: the header lines a posting
    client writes.  The theorems say that the decoder reads back what they
    print, and that a BODY response built from them is accepted and yields
    exactly its payload. *)
From S2P Require Import Prelude Errors Reader.

(** ** Printers *)

(** A header field [" key=value"]. *)
Definition label (key : string) : bytes := x20 :: bs key ++ [x3d].
Definition field (key : string) (v : bytes) : bytes := label key ++ v.

(** [=ybegin part=P total=T line=128 size=S name=N] *)
Definition wire_ybegin (part total size : Z) (name : bytes) : bytes :=
  bs "=ybegin" ++ field "part" (format_nat part) ++ field "total" (format_nat total) ++
  field "line" (bs "128") ++ field "size" (format_nat size) ++ field "name" name.

(** [=ypart begin=B end=E] *)
Definition wire_ypart (b e : Z) : bytes :=
  bs "=ypart" ++ field "begin" (format_nat b) ++ field "end" (format_nat e).

(** Eight lower-case hexadecimal digits. *)
Definition hex_byte (d : Z) : byte :=
  default x30 (Byte.of_N (Z.to_N (if d <? 10 then 48 + d else 87 + d))).

Definition hex8 (crc : Z) : bytes :=
  (fun i => hex_byte ((crc / 16 ^ i) mod 16)) <$> [7; 6; 5; 4; 3; 2; 1; 0].

(** [=yend size=S part=P pcrc32=C] *)
Definition wire_yend (size part crc : Z) : bytes :=
  bs "=yend" ++ field "size" (format_nat size) ++ field "part" (format_nat part) ++
  field "pcrc32" (hex8 crc).

(** A BODY response: status line, the two headers, the encoded part, the
    trailer and the terminator. *)
Definition wire_body (msg : bytes) (part total fsize b e crc : Z) (name enc : bytes) : bytes :=
  status_text nntpBody msg ++ crlf ++
  wire_ybegin part total fsize name ++ crlf ++
  wire_ypart b e ++ crlf ++
  enc ++ crlf ++
  wire_yend (e - b + 1) part crc ++ crlf ++ bs "." ++ crlf.

(** ** Field extraction *)

Lemma index_any_hit chars a c rest :
  Forall (fun x => x ∉ chars) a -> c ∈ chars -> index_any chars (a ++ c :: rest) = Some (length a).
Proof.
  intros Ha Hc. induction Ha as [|x a Hx _ IH]; simpl.
  - by rewrite bool_decide_eq_true_2.
  - rewrite bool_decide_eq_false_2 by done. by rewrite IH.
Qed.

Lemma index_any_miss chars a : Forall (fun x => x ∉ chars) a -> index_any chars a = None.
Proof.
  intros Ha. induction Ha as [|x a Hx _ IH]; simpl; [done|].
  rewrite bool_decide_eq_false_2 by done. by rewrite IH.
Qed.

Lemma index_of_head key s : index_of key (key ++ s) = Some O.
Proof. rewrite index_of_unfold. by rewrite has_prefix_app. Qed.

(** What ends a number: the end of the line or a space. *)
Definition field_end (rest : bytes) : Prop := rest = [] \/ exists t, rest = x20 :: t.

Lemma digits_not_in chars ds :
  Forall is_digit ds -> Forall (fun c => bval c < 48) chars -> Forall (fun x => x ∉ chars) ds.
Proof.
  intros Hd Hc. eapply Forall_impl; [|exact Hd]. intros x [Hx _] Hin.
  rewrite list.Forall_forall in Hc. specialize (Hc x Hin). simpl in Hc. lia.
Qed.

Lemma field_value chars ds rest :
  Forall (fun x => x ∉ chars) ds -> x20 ∈ chars -> field_end rest ->
  match index_any chars (ds ++ rest) with
  | Some e => take e (ds ++ rest) = ds
  | None => ds ++ rest = ds
  end.
Proof.
  intros Hd Hs [->|[t ->]].
  - rewrite app_nil_r, index_any_miss by done. done.
  - rewrite index_any_hit by done. apply take_app_length.
Qed.

Lemma extractInt_hit key n rest :
  0 <= n < 2 ^ 63 -> field_end rest ->
  extractInt (field key (format_nat n) ++ rest) (label key) = (n, None).
Proof.
  intros Hn Hr. unfold extractInt, field. rewrite <- app_assoc, index_of_head.
  rewrite Nat.add_0_l, drop_app_length.
  destruct (format_nat_digits n Hn) as (Hd & _ & _).
  pose proof (field_value [x00; x20; x0d; x0a] (format_nat n) rest) as Hv.
  specialize (Hv ltac:(apply digits_not_in; [done|repeat constructor])
                 ltac:(set_solver) Hr).
  destruct (index_any _ _); rewrite Hv, parse_int_format by done; done.
Qed.

Lemma extractString_hit key name :
  Forall (fun x => x ∉ [x00; x0d; x0a]) name ->
  extractString (field key name) (label key) = (name, None).
Proof.
  intros Hn. unfold extractString, field. rewrite index_of_head. rewrite Nat.add_0_l, drop_app_length.
  by rewrite index_any_miss.
Qed.

Lemma option_fmap_Some {A B} (f : A -> B) x : f <$> Some x = Some (f x).
Proof. done. Qed.

(** *** Skipping the fields that are not the one looked for *)

(** No text that starts with the field [k] starts with the label of [key]. *)
Definition other_field (key k : string) : Prop :=
  (x20 ∉ bs k) /\ forall s, has_prefix (label key) (label k ++ s) = false.

Lemma index_of_field key k v rest :
  other_field key k -> x20 ∉ v ->
  index_of (label key) (field k v ++ rest) =
  (fun i => (length (field k v) + i)%nat) <$> index_of (label key) rest.
Proof.
  intros [Hk Hp] Hv. unfold field at 1. rewrite <- app_assoc, index_of_unfold, Hp.
  change (label k ++ v ++ rest) with (x20 :: (bs k ++ [x3d]) ++ v ++ rest). cbv iota.
  unfold label at 1. rewrite (app_assoc _ v), index_of_skip.
  2: { rewrite !elem_of_app, list_elem_of_singleton. naive_solver. }
  fold (label key). destruct (index_of (label key) rest); [|done]. simpl.
  by rewrite !length_app.
Qed.

Section Skip.
Context (key k : string) (v rest : bytes).
Hypothesis Hother : other_field key k.
Hypothesis Hv : x20 ∉ v.

Lemma extractInt_skip : extractInt (field k v ++ rest) (label key) = extractInt rest (label key).
Proof.
  unfold extractInt. rewrite index_of_field by done.
  destruct (index_of (label key) rest); [|done].
  by rewrite option_fmap_Some, <- Nat.add_assoc, drop_app_add.
Qed.

Lemma extractString_skip :
  extractString (field k v ++ rest) (label key) = extractString rest (label key).
Proof.
  unfold extractString. rewrite index_of_field by done.
  destruct (index_of (label key) rest); [|done].
  by rewrite option_fmap_Some, <- Nat.add_assoc, drop_app_add.
Qed.

Lemma extractCRC_skip : extractCRC (field k v ++ rest) (label key) = extractCRC rest (label key).
Proof.
  unfold extractCRC. rewrite index_of_field by done.
  destruct (index_of (label key) rest); [|done].
  by rewrite option_fmap_Some, <- Nat.add_assoc, drop_app_add.
Qed.

Lemma contains_skip : contains (label key) (field k v ++ rest) = contains (label key) rest.
Proof.
  unfold contains. rewrite index_of_field by done. by destruct (index_of (label key) rest).
Qed.
End Skip.

Lemma format_nat_no_space n : 0 <= n < 2 ^ 63 -> x20 ∉ format_nat n.
Proof.
  intros Hn Hin. destruct (format_nat_digits n Hn) as (Hd & _ & _).
  rewrite list.Forall_forall in Hd. destruct (Hd _ Hin) as [H _]. by apply H.
Qed.

Lemma field_end_nil : field_end [].
Proof. by left. Qed.

Lemma field_end_field k v rest : field_end (field k v ++ rest).
Proof. right. eexists. reflexivity. Qed.

Lemma field_end_last k v : field_end (field k v).
Proof. right. eexists. reflexivity. Qed.

#[export] Hint Resolve format_nat_no_space field_end_nil field_end_field field_end_last : nntp.

Ltac other_field := split; [vm_compute; set_solver|intros; reflexivity].

Ltac skip_side := first [other_field | auto with nntp lia].
Ltac skip_fields :=
  repeat match goal with
  | |- context [extractInt (field ?k _ ++ _) (label ?key)] =>
      assert_fails (constr_eq k key); rewrite (extractInt_skip key k) by skip_side
  | |- context [extractString (field ?k _ ++ _) (label ?key)] =>
      assert_fails (constr_eq k key); rewrite (extractString_skip key k) by skip_side
  | |- context [extractCRC (field ?k _ ++ _) (label ?key)] =>
      assert_fails (constr_eq k key); rewrite (extractCRC_skip key k) by skip_side
  | |- context [contains (label ?key) (field ?k _ ++ _)] =>
      assert_fails (constr_eq k key); rewrite (contains_skip key k) by skip_side
  end.

(** ** Headers *)

Lemma no_space_128 : x20 ∉ bs "128".
Proof. vm_compute. set_solver. Qed.
#[export] Hint Resolve no_space_128 : nntp.

(** What [processYencHeader] makes of a printed [=ybegin] line. *)
Lemma ybegin_parsed r part total size name :
  0 <= part < 2 ^ 63 -> 0 <= total < 2 ^ 63 -> 0 <= size < 2 ^ 63 ->
  Forall (fun x => x ∉ [x00; x0d; x0a]) name ->
  processYencHeader r (wire_ybegin part total size name) =
  r <| hasBegin := true |>
    <| YEnc := mkYEncMeta name size part (ym_PartBegin (YEnc r)) (ym_PartSize (YEnc r)) total |>.
Proof.
  intros Hp Ht Hs Hn. unfold processYencHeader, wire_ybegin.
  change (has_prefix (bs "=ybegin ") _) with true. cbv iota. unfold process_ybegin.
  rewrite drop_app_length.
  change (bs " size=") with (label "size"). change (bs " name=") with (label "name").
  change (bs " part=") with (label "part"). change (bs " total=") with (label "total").
  rewrite (extractInt_hit "part") by (auto with nntp lia).
  skip_fields.
  rewrite (extractInt_hit "total"), (extractInt_hit "size"), (extractString_hit "name") by auto with nntp lia.
  by destruct r as [? ? ? ? []].
Qed.

(** What [processYencHeader] makes of a printed [=ypart] line. *)
Lemma ypart_parsed r b e :
  1 <= b <= e -> e < 2 ^ 63 ->
  processYencHeader r (wire_ypart b e) =
  fire_meta (r <| hasPart := true |> <| body := true |>
    <| YEnc ::= fun y => y <| ym_PartBegin := b - 1 |> <| ym_PartSize := e - b + 1 |> |>).
Proof.
  intros Hb He. unfold processYencHeader, wire_ypart.
  change (has_prefix (bs "=ybegin ") _) with false. change (has_prefix (bs "=ypart ") _) with true.
  cbv iota. unfold process_ypart. rewrite drop_app_length.
  change (bs " begin=") with (label "begin"). change (bs " end=") with (label "end").
  rewrite (extractInt_hit "begin") by (auto with nntp lia). skip_fields.
  rewrite <- (app_nil_r (field "end" _)), (extractInt_hit "end") by auto with nntp lia.
  rewrite (proj2 (Z.leb_gt b 0)) by lia. cbn [is_nil negb orb andb].
  rewrite (proj2 (Z.leb_le b e)), (proj2 (Z.ltb_lt 0 b)) by lia. cbn [andb].
  assert (Hw : wrap64 (e - (b - 1)) = e - b + 1).
  { unfold wrap64. rewrite Z.mod_small; lia. }
  rewrite <- Hw. by destruct r as [? ? ? ? []].
Qed.

(** *** The trailer *)

Lemma hex_byte_val d : 0 <= d < 16 -> hex_val (hex_byte d) = Some d.
Proof.
  intros H. assert (E : d ∈ seqZ 0 16) by (apply elem_of_seqZ; lia).
  assert (A : forallb (fun d => bool_decide (hex_val (hex_byte d) = Some d)) (seqZ 0 16) = true)
    by reflexivity.
  rewrite forallb_forall in A. apply (bool_decide_eq_true _), (A d). by apply list_elem_of_In.
Qed.

Lemma parse_hex_step d s m maxVal :
  0 <= d < 16 -> 0 <= m -> m * 16 + d <= maxVal -> maxVal < 2 ^ 32 ->
  parse_uint_loop hex_val 16 maxVal (hex_byte d :: s) m =
  parse_uint_loop hex_val 16 maxVal s (m * 16 + d).
Proof.
  intros Hd Hm Hle Hmax. cbn [parse_uint_loop]. rewrite hex_byte_val by done.
  change ((2 ^ 64 - 1) / 16 + 1) with 1152921504606846976.
  by rewrite (proj2 (Z.leb_gt _ m)), (proj2 (Z.ltb_ge _ _)) by lia.
Qed.

Lemma hex8_parse crc :
  0 <= crc < 2 ^ 32 -> parse_uint hex_val 16 (2 ^ 32 - 1) (hex8 crc) = (crc, None).
Proof.
  intros H. unfold hex8. cbn [fmap list_fmap]. unfold parse_uint.
  set (q := fun i => crc / 16 ^ i).
  assert (Hq : forall i, 0 <= i -> q i = q (i + 1) * 16 + q i mod 16 /\ 0 <= q i <= crc).
  { intros i Hi. unfold q. rewrite Z.pow_add_r, <- Z.div_div by lia.
    pose proof (Z.div_mod (crc / 16 ^ i) 16).
    assert (0 < 16 ^ i) by (apply Z.pow_pos_nonneg; lia).
    pose proof (Z.div_pos crc (16 ^ i)). pose proof (Z.div_le_upper_bound crc (16 ^ i) crc).
    change (16 ^ 1) with 16. nia. }
  assert (H8 : q 8 = 0) by (apply Z.div_small; lia).
  assert (H0 : q 0 = crc) by (unfold q; apply Z.div_1_r).
  fold (q 7) (q 6) (q 5) (q 4) (q 3) (q 2) (q 1) (q 0).
  assert (Hs : forall i j s, 0 <= i -> j = i + 1 ->
    parse_uint_loop hex_val 16 (2 ^ 32 - 1) (hex_byte (q i mod 16) :: s) (q j) =
    parse_uint_loop hex_val 16 (2 ^ 32 - 1) s (q i)).
  { intros i j s Hi ->. destruct (Hq i Hi) as [E1 E2]. destruct (Hq (i + 1)) as [_ E3]; [lia|].
    rewrite parse_hex_step; [by rewrite <- E1|apply Z.mod_pos_bound|..]; lia. }
  clearbody q.
  assert (G : parse_uint_loop hex_val 16 (2 ^ 32 - 1)
    ((fun i => hex_byte (q i mod 16)) <$> [7; 6; 5; 4; 3; 2; 1; 0]) (q 8) = (q 0, None)).
  { cbn [fmap list_fmap].
    by rewrite (Hs 7 8), (Hs 6 7), (Hs 5 6), (Hs 4 5), (Hs 3 4), (Hs 2 3), (Hs 1 2), (Hs 0 1) by lia. }
  rewrite H8, H0 in G. exact G.
Qed.

Lemma hex8_plain crc : Forall (fun x => x ∉ [x00; x20; x0d; x0a]) (hex8 crc).
Proof.
  unfold hex8. apply list.Forall_forall. intros x (i & -> & _)%list_elem_of_fmap.
  pose proof (Z.mod_pos_bound (crc / 16 ^ i) 16 ltac:(lia)) as Hb.
  apply hex_byte_val in Hb. intros Hin. rewrite !elem_of_cons in Hin.
  destruct Hin as [E|[E|[E|[E|E]]]]; [rewrite E in Hb; discriminate..|].
  by apply elem_of_nil in E.
Qed.

Lemma hex8_hit key crc :
  0 <= crc < 2 ^ 32 -> extractCRC (field key (hex8 crc)) (label key) = (crc, None).
Proof.
  intros H. unfold extractCRC, field. rewrite index_of_head, Nat.add_0_l, drop_app_length.
  rewrite index_any_miss by apply hex8_plain. change (zlen (hex8 crc)) with 8. cbn [Z.eqb Pos.eqb negb].
  rewrite hex8_parse by done. by rewrite Z.mod_small by lia.
Qed.

(** What [processYencHeader] makes of a printed [=yend] line. *)
Lemma yend_parsed r size part crc :
  0 <= size < 2 ^ 63 -> 0 <= part < 2 ^ 63 -> 0 <= crc < 2 ^ 32 -> hasFileCRC r = false ->
  processYencHeader r (wire_yend size part crc) =
  r <| hasEnd := true |> <| partCRC := crc |> <| hasPartCRC := true |>
    <| ExpectedCRC := crc |> <| hasCrc := true |> <| EndSize := size |>.
Proof.
  intros Hs Hp Hc Hf. unfold processYencHeader, wire_yend.
  change (has_prefix (bs "=ybegin ") _) with false. change (has_prefix (bs "=ypart ") _) with false.
  change (has_prefix (bs "=yend ") _) with true.
  cbv iota. unfold process_yend. rewrite drop_app_length.
  change (bs " pcrc32=") with (label "pcrc32"). change (bs " crc32=") with (label "crc32").
  change (bs " size=") with (label "size").
  rewrite (extractInt_hit "size") by auto with nntp lia. skip_fields.
  rewrite hex8_hit by done.
  change (contains (label "pcrc32") (field "pcrc32" (hex8 crc))) with true.
  assert (contains (label "crc32") (field "pcrc32" (hex8 crc)) = false) as ->.
  { rewrite <- (app_nil_r (field "pcrc32" _)), contains_skip; [done|other_field|].
    pose proof (hex8_plain crc) as Hh. intros Hin. rewrite list.Forall_forall in Hh.
    apply (Hh _ Hin). set_solver. }
  destruct r as [? ? ? ? [] ? ? ? ? ? ? ? ? ? ? ? ? ? ? ? ? ? ? ? ? ?].
  simpl in Hf. by rewrite Hf.
Qed.

(** ** The range of a CRC *)

Lemma lxor_u32 a b : 0 <= a < 2 ^ 32 -> 0 <= b < 2 ^ 32 -> 0 <= Z.lxor a b < 2 ^ 32.
Proof.
  intros Ha Hb. assert (Hn : 0 <= Z.lxor a b) by (apply Z.lxor_nonneg; lia).
  split; [done|]. destruct (Z.eq_dec (Z.lxor a b) 0) as [->|Hz]; [done|].
  apply Z.log2_lt_pow2; [lia|]. pose proof (Z.log2_lxor a b ltac:(lia) ltac:(lia)).
  assert (Hl : forall c, 0 <= c < 2 ^ 32 -> Z.log2 c < 32).
  { intros c Hc. destruct (Z.eq_dec c 0) as [->|]; [done|]. apply Z.log2_lt_pow2; lia. }
  pose proof (Hl a Ha). pose proof (Hl b Hb). lia.
Qed.

Lemma shiftr_u32 a n : 0 <= n -> 0 <= a < 2 ^ 32 -> 0 <= Z.shiftr a n < 2 ^ 32.
Proof.
  intros Hn Ha. rewrite Z.shiftr_div_pow2 by done.
  assert (0 < 2 ^ n) by (apply Z.pow_pos_nonneg; lia).
  pose proof (Z.div_pos a (2 ^ n)). pose proof (Z.div_le_upper_bound a (2 ^ n) a). nia.
Qed.

Lemma crc_shift_u32 c : 0 <= c < 2 ^ 32 -> 0 <= crc_shift c < 2 ^ 32.
Proof.
  intros H. unfold crc_shift. pose proof (shiftr_u32 c 1 ltac:(lia) H).
  destruct (Z.testbit c 0); [apply lxor_u32; lia|done].
Qed.

Lemma crc_byte_u32 c v : 0 <= c < 2 ^ 32 -> 0 <= crc_byte c v < 2 ^ 32.
Proof.
  intros H. unfold crc_byte. apply lxor_u32; [|by apply shiftr_u32].
  assert (Ht : 0 <= Z.land (Z.lxor c (bval v)) 255 < 2 ^ 32).
  { change 255 with (Z.ones 8). rewrite Z.land_ones by lia.
    pose proof (Z.mod_pos_bound (Z.lxor c (bval v)) (2 ^ 8)). lia. }
  revert Ht. generalize (Z.land (Z.lxor c (bval v)) 255). intros t Ht.
  induction (8%nat) as [|n IH]; [done|]. by apply crc_shift_u32.
Qed.

Lemma crc32_range c p : 0 <= c < 2 ^ 32 -> 0 <= crc32_update c p < 2 ^ 32.
Proof.
  intros H. unfold crc32_update. apply lxor_u32; [|lia].
  assert (Hi : 0 <= Z.lxor c (2 ^ 32 - 1) < 2 ^ 32) by (apply lxor_u32; lia).
  revert Hi. generalize (Z.lxor c (2 ^ 32 - 1)). clear H c.
  induction p as [|v p IH]; intros c H; [done|]. by apply IH, crc_byte_u32.
Qed.

(** ** A whole article *)

Lemma no_cr_no_crlf l : x0d ∉ l -> index_of crlf l = None.
Proof.
  intros H. unfold crlf. rewrite <- (app_nil_r l), index_of_skip by done. done.
Qed.

Lemma no_cr_field k v : x0d ∉ bs k -> x0d ∉ v -> x0d ∉ field k v.
Proof.
  intros Hk Hv. unfold field, label.
  rewrite elem_of_app, elem_of_cons, elem_of_app, list_elem_of_singleton. naive_solver.
Qed.

Lemma format_nat_no_cr n : 0 <= n < 2 ^ 63 -> x0d ∉ format_nat n.
Proof.
  intros Hn Hin. destruct (format_nat_digits n Hn) as (Hd & _ & _).
  rewrite list.Forall_forall in Hd. destruct (Hd _ Hin) as [H _]. by apply H.
Qed.

Ltac no_cr :=
  repeat match goal with
  | |- x0d ∉ _ ++ _ => rewrite elem_of_app; intros [?|?]; revert select (x0d ∈ _); fold not
  | |- x0d ∉ field _ _ => apply no_cr_field
  | |- x0d ∉ format_nat _ => apply format_nat_no_cr; lia
  | |- x0d ∉ bs _ => vm_compute; set_solver
  | |- x0d ∈ ?l -> False => change (x0d ∉ l)
  end.

Lemma wire_ybegin_line part total size name :
  0 <= part < 2 ^ 63 -> 0 <= total < 2 ^ 63 -> 0 <= size < 2 ^ 63 ->
  Forall (fun x => x ∉ [x00; x0d; x0a]) name ->
  index_of crlf (wire_ybegin part total size name) = None.
Proof.
  intros Hp Ht Hs Hn. apply no_cr_no_crlf. unfold wire_ybegin. no_cr.
  rewrite list.Forall_forall in Hn. intros Hin. apply (Hn _ Hin). set_solver.
Qed.

Lemma wire_ypart_line b e :
  0 <= b < 2 ^ 63 -> 0 <= e < 2 ^ 63 -> index_of crlf (wire_ypart b e) = None.
Proof. intros Hb He. apply no_cr_no_crlf. unfold wire_ypart. no_cr. Qed.

Lemma wire_yend_line size part crc :
  0 <= size < 2 ^ 63 -> 0 <= part < 2 ^ 63 -> index_of crlf (wire_yend size part crc) = None.
Proof.
  intros Hs Hp. apply no_cr_no_crlf. unfold wire_yend. no_cr.
  pose proof (hex8_plain crc) as Hh. intros Hin. rewrite list.Forall_forall in Hh.
  apply (Hh _ Hin). set_solver.
Qed.

(** What a yEnc decoder does with the encoded form [enc] of [payload] when the
    trailer follows: it writes the payload over the start of the slice, stops at
    the control line, and has consumed its line end and its first two bytes. *)
Definition decodes_part (decodeFn : bytes -> YState -> yenc_result) (enc payload : bytes) : Prop :=
  (length payload <= length enc)%nat /\
  forall tail, let buf := enc ++ crlf ++ bs "=y" ++ tail in
    let d := decodeFn buf StateCRLF in
    yr_buf d = payload ++ drop (length payload) buf /\ yr_produced d = zlen payload /\
    yr_consumed d = zlen enc + 4 /\ yr_end d = EndControl /\ yr_err d = None.

Lemma take_zlen (a b : bytes) : take (Z.to_nat (zlen a)) (a ++ b) = a.
Proof. unfold zlen. rewrite Nat2Z.id. apply take_app_length. Qed.

Section Article.
Context {W : Type} (write : W -> bytes -> W * error).
Context (decodeFn : bytes -> YState -> yenc_result).

(** A header line inside a yEnc response. *)
Lemma decode_lines_header fuel r pre line rest out read :
  Format_ r = FormatYenc -> index_of crlf line = None -> line <> [x2e] ->
  body (processYencHeader r line) = false ->
  decode_lines write decodeFn (S fuel) r pre (line ++ crlf ++ rest) out read =
  decode_lines write decodeFn fuel (processYencHeader r line) (pre ++ line ++ crlf) rest out
    (read + (zlen line + 2)).
Proof.
  intros Hf Hl Hd Hb. cbn [decode_lines]. rewrite cut_at_crlf by done.
  rewrite bool_decide_eq_false_2 by done. unfold status_line.
  rewrite !decide_False by congruence. by rewrite Hf, Hb.
Qed.

(** The [=ybegin] line of a BODY response. *)
Lemma decode_lines_ybegin fuel r pre part total size name rest out read :
  Format_ r = FormatUnknown -> StatusCode r = nntpBody -> body r = false ->
  0 <= part < 2 ^ 63 -> 0 <= total < 2 ^ 63 -> 0 <= size < 2 ^ 63 ->
  Forall (fun x => x ∉ [x00; x0d; x0a]) name ->
  let line := wire_ybegin part total size name in
  decode_lines write decodeFn (S fuel) r pre (line ++ crlf ++ rest) out read =
  decode_lines write decodeFn fuel (processYencHeader (r <| Format_ := FormatYenc |>) line)
    (pre ++ line ++ crlf) rest out (read + (zlen line + 2)).
Proof.
  intros Hf Hs Hb Hp Ht Hz Hn line. cbn [decode_lines].
  rewrite cut_at_crlf by (by apply wire_ybegin_line).
  rewrite bool_decide_eq_false_2 by discriminate. unfold status_line.
  rewrite !decide_True by done. rewrite Hs. cbn [Z.eqb nntpBody andb].
  assert (Hdet : detectFormat r line = r <| Format_ := FormatYenc |>).
  { unfold detectFormat. by rewrite Hs. }
  rewrite Hdet. cbn [Format_ update_field]. subst line. rewrite ybegin_parsed by done.
  simpl. by rewrite Hb.
Qed.

(** The [=ypart] line and the encoded part behind it. *)
Lemma decode_lines_part fuel r pre line enc payload tail out read :
  Format_ r = FormatYenc -> index_of crlf line = None -> line <> [x2e] ->
  decodes_part decodeFn enc payload -> payload <> [] ->
  let r1 := processYencHeader r line in
  body r1 = true -> State r1 = StateCRLF -> snd (write out payload) = None ->
  exists pre' st, decode_lines write decodeFn (S fuel) r pre
      (line ++ crlf ++ enc ++ crlf ++ bs "=y" ++ tail) out read =
    decode_lines write decodeFn fuel
      (r1 <| State := st |> <| CRC := crc32_update (CRC r1) payload |>
          <| BytesDecoded := BytesDecoded r1 + zlen payload |> <| body := false |>)
      pre' (bs "=y" ++ tail) (fst (write out payload))
      (read + (zlen line + 2) + (zlen enc + 2)).
Proof.
  intros Hf Hl Hd [Hlen Hdec] Hne r1 Hb Hst Hw. cbn [decode_lines]. rewrite cut_at_crlf by done.
  rewrite bool_decide_eq_false_2 by done. unfold status_line.
  rewrite !decide_False by congruence. rewrite Hf. fold r1. rewrite Hb.
  set (buf := enc ++ crlf ++ bs "=y" ++ tail).
  destruct (Hdec tail) as (Hbuf & Hprod & Hcons & Hend & Herr). fold buf in Hbuf, Hprod, Hcons, Hend, Herr.
  unfold decodeYenc. rewrite Hst.
  assert (Hbl : length buf = (length enc + 2 + 2 + length tail)%nat).
  { unfold buf. rewrite !length_app. simpl. lia. }
  destruct buf as [|c0 buf0] eqn:Ebuf; [simpl in Hbl; lia|]. rewrite <- Ebuf in *. clear Ebuf c0 buf0.
  cbv zeta. rewrite Herr. unfold decodeYenc_finish. rewrite Hprod, Hbuf, Hcons, Hend.
  assert (Hpos : 0 < zlen payload) by (destruct payload; [done|]; zlen_simp; auto with nntp; pose proof (zlen_nonneg payload); lia).
  rewrite (proj2 (Z.ltb_lt _ _) Hpos).
  rewrite overwrite_same by (rewrite length_app, length_drop; lia).
  rewrite (proj2 (Z.ltb_ge _ (zlen payload))) by (zlen_simp; unfold zlen; lia). rewrite take_zlen.
  destruct (write out payload) as [out' we]. simpl in Hw. subst we. cbn [outcome_bind].
  replace (zlen enc + 4 - 2) with (zlen enc + 2) by lia.
  rewrite slice_from_ok.
  2: { zlen_simp. unfold zlen. rewrite length_drop. lia. }
  assert (Hrest : drop (Z.to_nat (zlen enc + 2)) (payload ++ drop (length payload) buf) =
                  bs "=y" ++ tail).
  { replace (Z.to_nat (zlen enc + 2)) with (length payload + (length enc + 2 - length payload))%nat
      by (unfold zlen; lia).
    rewrite drop_app_add, drop_drop.
    replace (length payload + (length enc + 2 - length payload))%nat with (length enc + 2)%nat by lia.
    unfold buf. by rewrite drop_app_add. }
  rewrite Hrest. do 2 eexists. reflexivity.
Qed.
End Article.

(** The decoder after a whole single-segment article. *)
Definition article_decoder (withMeta strict : bool) (msg : bytes) (part total fsize b e crc : Z)
    (name : bytes) (size : Z) (st : YState) : NNTPResponse :=
  let y := mkYEncMeta name fsize part (b - 1) (e - b + 1) total in
  mkNNTPResponse size 0 [] FormatYenc y (e - b + 1) crc (status_text nntpBody msg) st nntpBody
    crc true false true true true true true false false crc 0
    false (if withMeta then [y] else []) None strict.

Section ArticleDecode.
Context {W : Type} (write : W -> bytes -> W * error).
Context (decodeFn : bytes -> YState -> yenc_result).
Context (withMeta strict : bool) (msg name enc payload rest : bytes) (part total fsize b e : Z) (out : W).

Definition well_formed_part : Prop :=
  index_of crlf msg = None /\ 1 <= part <= total /\ total < 2 ^ 63 /\
  1 <= b <= e /\ e <= fsize < 2 ^ 63 /\ (part = total <-> e = fsize) /\
  name <> [] /\ Forall (fun x => x ∉ [x00; x0d; x0a]) name /\
  e - b + 1 = zlen payload.

Hypothesis Hwf : well_formed_part.
Hypothesis Hdec : decodes_part decodeFn enc payload.
Hypothesis Hwrite : snd (write out payload) = None.

Let crc := crc32_update 0 payload.

(** The fuel: every line of the article, and one iteration more. *)
Lemma article_decode fuel :
  (5 <= fuel)%nat ->
  exists st mem, decode_lines write decodeFn fuel (newNNTPResponse withMeta strict) []
      (wire_body msg part total fsize b e crc name enc ++ rest) out 0 =
    Done (mkDec (zlen (wire_body msg part total fsize b e crc name enc)) None
      (article_decoder withMeta strict msg part total fsize b e crc name (zlen payload) st)
      (fst (write out payload)) mem).
Proof.
  intros Hf. destruct Hwf as (Hmsg & Hp & Ht & Hbe & Hfs & _ & Hne & Hname & Hsz).
  assert (Hcrc : 0 <= crc < 2 ^ 32) by (apply crc32_range; lia).
  do 5 (destruct fuel as [|fuel]; [lia|]). unfold wire_body. rewrite <- !app_assoc.
  rewrite decode_lines_status by (done || (unfold nntpBody; lia)).
  change (isMultiline nntpBody) with true. cbv iota.
  rewrite decode_lines_ybegin by (done || lia).
  rewrite ybegin_parsed by (done || lia).
  change (wire_yend (e - b + 1) part crc ++ crlf ++ bs "." ++ crlf ++ rest) with
    (bs "=y" ++ drop 2 (wire_yend (e - b + 1) part crc ++ crlf ++ bs "." ++ crlf ++ rest)).
  match goal with |- context [decode_lines _ _ (S (S (S fuel))) ?r ?pre _ _ ?n] =>
    destruct (decode_lines_part write decodeFn (S (S fuel)) r pre (wire_ypart b e) enc payload
      (drop 2 (wire_yend (e - b + 1) part crc ++ crlf ++ bs "." ++ crlf ++ rest)) out n)
      as (pre' & st & Heq)
  end; try done.
  { apply wire_ypart_line; lia. }
  { intros ->. unfold zlen in Hsz. simpl in Hsz. lia. }
  { rewrite ypart_parsed by lia. by destruct withMeta. }
  { rewrite ypart_parsed by lia. by destruct withMeta. }
  rewrite Heq, ypart_parsed by lia. clear Heq.
  match goal with |- context [bs "=y" ++ drop 2 ?x] => change (bs "=y" ++ drop 2 x) with x end.
  set (y := mkYEncMeta name fsize part (b - 1) (e - b + 1) total).
  match goal with |- context [decode_lines _ _ _ ?r _ _ _ _] => replace r with
    (mkNNTPResponse (zlen payload) 0 [] FormatYenc y 0 0 (status_text nntpBody msg) st nntpBody
       crc false false true true false false false false false 0 0
       false (if withMeta then [y] else []) None strict) by (by destruct withMeta) end.
  rewrite decode_lines_header; try done; [|apply wire_yend_line; lia|].
  2: { rewrite yend_parsed by (done || lia). done. }
  rewrite yend_parsed by (done || lia).
  cbn [decode_lines].
  rewrite cut_at_crlf by done. rewrite bool_decide_eq_true_2 by done.
  exists st. eexists.
  match goal with |- Done (mkDec ?n _ _ _ ?m) = Done (mkDec ?n' _ _ _ _) =>
    replace n with n' by (zlen_simp; change (zlen (bs ".")) with 1; lia) end.
  reflexivity.
Qed.
End ArticleDecode.

(** Such a decoder passes [validateBody], with the part's CRC as verified CRC. *)
Lemma article_accepted withMeta strict msg part total fsize b e crc name size st :
  1 <= part <= total -> 1 <= b <= e -> e <= fsize < 2 ^ 63 -> (part = total <-> e = fsize) ->
  name <> [] -> e - b + 1 = size ->
  let r := article_decoder withMeta strict msg part total fsize b e crc name size st in
  forall n, validateBody (r <| BytesConsumed := n |>) =
    (None, r <| BytesConsumed := n |>).
Proof.
  intros Hp Hb He Hpe Hne Hsz r n.
  assert (Ha : body_accepted (r <| BytesConsumed := n |>)).
  { unfold body_accepted, r, article_decoder. simpl. split_and!; try done; try lia.
    rewrite (proj2 (Z.ltb_lt 0 part)) by lia.
    assert (Hw : wrap64 (b - 1 + (e - b + 1)) = e).
    { unfold wrap64. rewrite Z.mod_small; lia. }
    rewrite Hw. split_and!; try done; try lia.
    destruct (Z.eqb_spec part total); [by apply Hpe|]. assert (e <> fsize) by tauto. lia. }
  pose proof (proj2 (validateBody_iff (r <| BytesConsumed := n |>) eq_refl) Ha) as Hv.
  destruct (validateBody (r <| BytesConsumed := n |>)) as [err r'] eqn:E. simpl in Hv. subst err.
  f_equal. unfold validateBody in E. cbv zeta in E.
  repeat match type of E with
  | (if ?c then _ else _) = _ => destruct c eqn:?; [by simplify_eq|]
  | match ?c with Some _ => _ | None => _ end = _ => destruct c eqn:?; [by simplify_eq|]
  end.
  simplify_eq. reflexivity.
Qed.

(** ** Properties *)

(** C26: a yEnc article survives the wire: the BODY response built from a
    well-formed part is consumed exactly to its end whatever follows it, its
    payload (and nothing else) reaches the writer, its metadata is reported
    once and exactly, and the integrity check accepts it with the CRC of the
    payload as the verified CRC. *)
Theorem article_roundtrip {W} (write : W -> bytes -> W * error)
    (decodeFn : bytes -> YState -> yenc_result) (withMeta strict : bool)
    (msg name enc payload rest : bytes) (part total fsize b e : Z) (out : W) :
  well_formed_part msg name payload part total fsize b e ->
  decodes_part decodeFn enc payload -> snd (write out payload) = None ->
  let crc := crc32_update 0 payload in
  let wire := wire_body msg part total fsize b e crc name enc in
  exists r mem,
    Feed write decodeFn (newNNTPResponse withMeta strict) (wire ++ rest) out =
      Done (zlen wire, true, None, r, fst (write out payload), mem) /\
    YEnc r = mkYEncMeta name fsize part (b - 1) (e - b + 1) total /\
    metaCalls r = (if withMeta then [YEnc r] else []) /\
    BytesDecoded r = zlen payload /\ CRC r = crc /\
    fst (validateBody r) = None /\ hasCrc (snd (validateBody r)) = true /\
    ExpectedCRC (snd (validateBody r)) = crc.
Proof.
  intros Hwf Hdec Hw crc wire.
  destruct (article_decode write decodeFn withMeta strict msg name enc payload rest
              part total fsize b e out Hwf Hdec Hw (S (length (wire ++ rest)))) as (st & mem & Hd).
  { unfold wire, wire_body. rewrite !length_app. simpl. lia. }
  destruct Hwf as (_ & Hp & _ & Hb & He & Hpe & Hne & _ & Hsz).
  unfold Feed, decode. fold crc wire in Hd. simpl body. cbn [andb negb]. rewrite Hd.
  do 2 eexists. split; [reflexivity|]. simpl d_resp.
  rewrite article_accepted by done. simpl. by destruct withMeta.
Qed.

Lemma article_roundtrip_witness :
  exists r mem,
    Feed buffer_write plain_decode (newNNTPResponse true true)
      (wire_body (bs "body") 2 2 5 3 5 (crc32_update 0 (bs "abc")) (bs "a.bin") (bs "abc") ++ bs "223") [] =
      Done (zlen (wire_body (bs "body") 2 2 5 3 5 (crc32_update 0 (bs "abc")) (bs "a.bin") (bs "abc")),
            true, None, r, bs "abc", mem) /\
    YEnc r = mkYEncMeta (bs "a.bin") 5 2 2 3 2 /\ metaCalls r = [YEnc r] /\
    BytesDecoded r = 3 /\ CRC r = crc32_update 0 (bs "abc") /\
    fst (validateBody r) = None /\ hasCrc (snd (validateBody r)) = true /\
    ExpectedCRC (snd (validateBody r)) = crc32_update 0 (bs "abc").
Proof.
  apply (article_roundtrip buffer_write plain_decode true true (bs "body") (bs "a.bin") (bs "abc")
           (bs "abc") (bs "223") 2 2 5 3 5 []); [| |reflexivity].
  - unfold well_formed_part. split_and!; try reflexivity; try discriminate; try lia.
    repeat constructor; vm_compute; set_solver.
  - split; [reflexivity|]. intros tail. vm_compute. split_and!; reflexivity.
Defined.

(** The name runs to the end of the line, but the other fields are searched in
    it too: a single-part article whose name contains " part=" is rejected. *)
Example name_with_part_rejected :
  match feed_all buffer_write plain_decode
          [bs "222 b" ++ crlf ++ bs "=ybegin line=128 size=3 name=my part=x.bin" ++ crlf ++
           bs "abc" ++ crlf ++ bs "=yend size=3" ++ crlf ++ bs "." ++ crlf] (newNNTPResponse false false) [] with
  | Done (r, out) => out = bs "abc" /\ fst (validateBody r) = corrupt "header"
  | _ => False
  end.
Proof. vm_compute. auto. Qed.
