(* ===== verification/ReadBuffer.v ===== *)
(** The read buffer of a connection and the loop that feeds a decoder from it
    ([readBuffer.go]).

    The decoder is known to the loop only through the interface [byteFeeder];
    the connection is a script of read results (what [net.Conn.Read] will
    return) after which it ends or falls silent, with the read deadlines set on it
    recorded; the [control] closure is
    a state-passing function that may also redirect the writer, as the one of
    [readerLoop] does. *)
From S2P Require Import Prelude Errors Reader.

(** ** Data *)

Definition defaultReadBufSize : Z := 128 * 1024.
Definition maxReadBufSize : Z := 8 * 1024 * 1024.

Record readBuffer := mkReadBuffer {
  rb_buf : bytes;
  rb_start : Z;
  rb_end : Z;
  lastDeadline : Z;
  lastHasDeadline : bool;
  deadlineSet : bool
}.

#[export] Instance eta_readBuffer : Eta readBuffer := fun rb =>
  mkReadBuffer (rb_buf rb) (rb_start rb) (rb_end rb) (lastDeadline rb) (lastHasDeadline rb)
    (deadlineSet rb).

Definition emptyReadBuffer : readBuffer := mkReadBuffer [] 0 0 0 false false.

(** A connection, seen from the reader: the results of the reads to come (the
    bytes, and the error returned with them), the deadlines set so far, and whether
    the peer then says nothing more without closing. *)
Record Conn := mkLine {
  conn_script : list (bytes * error);
  conn_deadlines : list (option Z);
  conn_silent : bool
}.

#[export] Instance eta_Conn : Eta Conn := fun c => mkLine (conn_script c) (conn_deadlines c) (conn_silent c).

(** A connection that the peer closes. *)
Definition mkConn (script : list (bytes * error)) (deadlines : list (option Z)) : Conn := mkLine script deadlines false.

(** [conn.Read(p)] with room for [room] bytes; a result that does not fit is
    delivered in pieces.  With nothing left, a closed connection is at its end; on a
    silent one the read fails at the deadline set last, and never returns when that
    is none. *)
Definition conn_read (c : Conn) (room : nat) : outcome (bytes * error * Conn) :=
  match conn_script c with
  | [] =>
      if conn_silent c then
        match rev (conn_deadlines c) with
        | Some _ :: _ => Done ([], Some (ENet true), c)
        | _ => Blocked
        end
      else Done ([], Some (EOpaque "EOF"), c)
  | (data, e) :: rest =>
      Done (if decide (length data <= room)%nat then (data, e, c <| conn_script := rest |>)
            else (take room data, None, c <| conn_script := (drop room data, e) :: rest |>))
  end.

(** The slice expression [s[a:b]]. *)
Definition slice_range (a b : Z) (s : bytes) : outcome bytes :=
  if (a <? 0) || (b <? a) || (zlen s <? b) then Panicked
  else Done (take (Z.to_nat (b - a)) (drop (Z.to_nat a) s)).

(** [copy(buf[at:], data)] for data that fits. *)
Definition blit (at_ : Z) (data s : bytes) : bytes :=
  take (Z.to_nat at_) s ++ data ++ drop (Z.to_nat at_ + length data) s.

(** ** Operations *)

Definition init (rb : readBuffer) : readBuffer :=
  if zlen (rb_buf rb) =? 0 then rb <| rb_buf := repeat x00 (Z.to_nat defaultReadBufSize) |> else rb.

Definition window (rb : readBuffer) : outcome bytes := slice_range (rb_start rb) (rb_end rb) (rb_buf rb).

Definition advance (rb : readBuffer) (consumed : Z) : readBuffer :=
  if consumed <=? 0 then rb
  else
    let rb := rb <| rb_start ::= fun s => s + consumed |> in
    if rb_end rb <=? rb_start rb then rb <| rb_start := 0 |> <| rb_end := 0 |> else rb.

Definition compact (rb : readBuffer) : outcome readBuffer :=
  if (rb_start rb =? 0) || (rb_start rb =? rb_end rb) then Done rb
  else
    let*! w := window rb in
    Done (rb <| rb_buf ::= blit 0 w |> <| rb_end ::= fun e => e - rb_start rb |> <| rb_start := 0 |>).

(** The growing part of [ensureWriteSpace]. *)
Definition grow (rb : readBuffer) : outcome (error * readBuffer) :=
  let cur := if zlen (rb_buf rb) =? 0 then defaultReadBufSize else zlen (rb_buf rb) in
  let newLen := Z.min (cur * 2) maxReadBufSize in
  if newLen <=? zlen (rb_buf rb) then Done (Some (EOpaque "nntp read buffer exceeded"), rb)
  else
    let*! w := window rb in
    Done (None, rb <| rb_buf := w ++ repeat x00 (Z.to_nat newLen - length w) |>
                   <| rb_end ::= fun e => e - rb_start rb |> <| rb_start := 0 |>).

Definition ensureWriteSpace (rb : readBuffer) : outcome (error * readBuffer) :=
  if rb_end rb <? zlen (rb_buf rb) then Done (None, rb)
  else if 0 <? rb_start rb then
    let*! rb := compact rb in
    if rb_end rb <? zlen (rb_buf rb) then Done (None, rb) else grow rb
  else grow rb.

(** The deadline part of [readMore]: a system call only when it changes. *)
Definition setDeadline (rb : readBuffer) (conn : Conn) (deadline : Z) (hasDeadline : bool)
  : readBuffer * Conn :=
  if negb (deadlineSet rb) || negb (Bool.eqb (lastHasDeadline rb) hasDeadline) ||
     (hasDeadline && negb (deadline =? lastDeadline rb))
  then (rb <| lastDeadline := deadline |> <| lastHasDeadline := hasDeadline |> <| deadlineSet := true |>,
        conn <| conn_deadlines := conn_deadlines conn ++ [if hasDeadline then Some deadline else None] |>)
  else (rb, conn).

Definition readMore (rb : readBuffer) (conn : Conn) (deadline : Z) (hasDeadline : bool)
  : outcome (Z * error * readBuffer * Conn) :=
  let '(rb, conn) := setDeadline rb conn deadline hasDeadline in
  let*! res := ensureWriteSpace rb in
  let '(err, rb) := res in
  match err with
  | Some _ => Done (0, err, rb, conn)
  | None =>
      let*! room := slice_range (rb_end rb) (zlen (rb_buf rb)) (rb_buf rb) in
      let*! res := conn_read conn (length room) in
      let '(data, e, conn) := res in
      let rb := rb <| rb_buf ::= blit (rb_end rb) data |> in
      let rb := if 0 <? zlen data then rb <| rb_end ::= fun e => e + zlen data |> else rb in
      Done (zlen data, e, rb, conn)
  end.

(** The interface of a decoder: it returns, with a count inside the slice it was given,
    or slices out of range, for which [feeder_fails] is the reason. *)
Class byteFeeder (F W : Type) := {
  feeder_feed : F -> bytes -> W -> outcome (Z * bool * error * F * W * bytes);
  feeder_fails : Prop;
  feeder_lawful : forall f b w,
    match feeder_feed f b w with
    | Done (n, _, _, _, _, mem) => 0 <= n <= zlen b /\ length mem = length b
    | Panicked => feeder_fails
    | _ => False
    end
}.

(** Without an error, a feed leaves what it has not consumed as it was (decoding is done
    in place). *)
Definition feeds_keep {F W} `{byteFeeder F W} : Prop :=
  forall f b w n dn f' w' mem, feeder_feed f b w = Done (n, dn, None, f', w', mem) ->
    drop (Z.to_nat n) mem = drop (Z.to_nat n) b.

(** The interface [streamFeeder] as the loop is meant to be used: the decoder does not
    fail, and keeps the rest of the slice. *)
Class streamFeeder (F W : Type) := {
  stream_byteFeeder :: byteFeeder F W;
  feeder_total : ~ feeder_fails;
  feeder_keeps : feeds_keep
}.

(** What [control] answers: a deadline, a limit on the next feed, or an error. *)
Record control_result := mkControl {
  ctl_deadline : Z;
  ctl_hasDeadline : bool;
  ctl_maxFeed : Z;
  ctl_err : error
}.

Section Feeding.
Context {F W C : Type} `{byteFeeder F W}.
Context (control : C -> W -> Z -> Z -> control_result * C * W).

(** Everything the loop changes. *)
Record loop_state := mkLoop {
  l_rb : readBuffer;
  l_conn : Conn;
  l_feeder : F;
  l_out : W;
  l_ctl : C;
  l_wire : Z;
  l_consumed : Z
}.

Definition ask (s : loop_state) : control_result * loop_state :=
  let '(a, c, w) := control (l_ctl s) (l_out s) (l_wire s) (l_consumed s) in
  (a, mkLoop (l_rb s) (l_conn s) (l_feeder s) w c (l_wire s) (l_consumed s)).

(** [control], then [readMore] with its deadline. *)
Definition ask_and_read (s : loop_state) : outcome (error * loop_state) :=
  let '(a, s) := ask s in
  match ctl_err a with
  | Some _ => Done (ctl_err a, s)
  | None =>
      let*! res := readMore (l_rb s) (l_conn s) (ctl_deadline a) (ctl_hasDeadline a) in
      let '(n, err, rb, conn) := res in
      Done (err, mkLoop rb conn (l_feeder s) (l_out s) (l_ctl s) (l_wire s + n) (l_consumed s))
  end.

(** The window, or its first [maxFeed] bytes. *)
Definition limit_feed (maxFeed : Z) (w : bytes) : bytes :=
  if (0 <? maxFeed) && (maxFeed <? zlen w) then take (Z.to_nat maxFeed) w else w.

(** Feeding them to the decoder. *)
Definition feed_window (maxFeed : Z) (s : loop_state) : outcome (Z * bool * error * loop_state) :=
  let*! w := window (l_rb s) in
  let w := limit_feed maxFeed w in
  let*! res := feeder_feed (l_feeder s) w (l_out s) in
  let '(consumed, dn, err, f, out, mem) := res in
  let rb := (l_rb s) <| rb_buf ::= blit (rb_start (l_rb s)) mem |> in
  Done (consumed, dn, err,
    if 0 <? consumed
    then mkLoop (advance rb consumed) (l_conn s) f out (l_ctl s) (l_wire s) (l_consumed s + consumed)
    else mkLoop rb (l_conn s) f out (l_ctl s) (l_wire s) (l_consumed s)).

(** One iteration: [None] goes round again. *)
Definition feed_iteration (s : loop_state) : outcome (option error * loop_state) :=
  let*! res :=
    if rb_start (l_rb s) =? rb_end (l_rb s)
    then ask_and_read (mkLoop ((l_rb s) <| rb_start := 0 |> <| rb_end := 0 |>) (l_conn s) (l_feeder s)
                         (l_out s) (l_ctl s) (l_wire s) (l_consumed s))
    else Done (None, s) in
  let '(err, s) := res in
  if negb (is_nil err) then Done (Some err, s)
  else
    let '(a, s) := ask s in
    if negb (is_nil (ctl_err a)) then Done (Some (ctl_err a), s)
    else
      let*! res := feed_window (ctl_maxFeed a) s in
      let '(consumed, dn, err, s) := res in
      if negb (is_nil err) then Done (Some err, s)
      else
        let '(a, s) := ask s in
        if negb (is_nil (ctl_err a)) then Done (Some (ctl_err a), s)
        else if (dn : bool) then Done (Some None, s)
        else
          let*! s :=
            if (consumed =? 0) && (0 <? rb_end (l_rb s) - rb_start (l_rb s))
            then let*! rb := compact (l_rb s) in
                 Done (mkLoop rb (l_conn s) (l_feeder s) (l_out s) (l_ctl s) (l_wire s) (l_consumed s))
            else Done s in
          let*! res := ask_and_read s in
          let '(err, s) := res in
          Done (if is_nil err then None else Some err, s).

Fixpoint feed_loop (fuel : nat) (s : loop_state) : outcome (error * loop_state) :=
  match fuel with
  | O => OutOfFuel
  | S fuel =>
      let*! res := feed_iteration s in
      match res with
      | (Some err, s) => Done (err, s)
      | (None, s) => feed_loop fuel s
      end
  end.

(** Reads that can still be made: an iteration makes at least one. *)
Definition script_measure (c : Conn) : nat :=
  sum_list ((fun p : bytes * error => S (length (fst p))) <$> conn_script c).

Definition feedUntilDoneControlled (rb : readBuffer) (conn : Conn) (f : F) (out : W) (c : C)
  : outcome (error * loop_state) :=
  feed_loop (S (script_measure conn)) (mkLoop (init rb) conn f out c 0 0).
End Feeding.
Arguments loop_state : clear implicits.
Arguments mkLoop {F W C}.
Arguments l_rb {F W C}.
Arguments l_conn {F W C}.
Arguments l_feeder {F W C}.
Arguments l_out {F W C}.
Arguments l_ctl {F W C}.
Arguments l_wire {F W C}.
Arguments l_consumed {F W C}.

(** [feedUntilDone]: the deadline depends on the bytes read only. *)
Definition deadline_control {W} (deadline : Z -> option Z) (c : unit) (w : W) (wireBytes consumed : Z)
  : control_result * unit * W :=
  (match deadline wireBytes with
   | Some d => mkControl d true 0 None
   | None => mkControl 0 false 0 None
   end, c, w).

Definition feedUntilDone {F W} `{byteFeeder F W} (rb : readBuffer) (conn : Conn) (f : F) (out : W)
    (deadline : Z -> option Z) : outcome (error * loop_state F W unit) :=
  feedUntilDoneControlled (deadline_control deadline) rb conn f out tt.

(** ** The buffer's invariant and content *)

(** The indices are in order, the buffer stays within 8 MiB, and an empty window
    sits at the start (so that a full buffer always holds something). *)
Definition rb_wf (rb : readBuffer) : Prop :=
  0 <= rb_start rb <= rb_end rb /\ rb_end rb <= zlen (rb_buf rb) <= maxReadBufSize /\
  (rb_start rb = rb_end rb -> rb_start rb = 0).

(** The bytes read and not yet consumed. *)
Definition unread (rb : readBuffer) : bytes :=
  take (Z.to_nat (rb_end rb - rb_start rb)) (drop (Z.to_nat (rb_start rb)) (rb_buf rb)).

(** Everything the connection will still deliver. *)
Definition conn_bytes (c : Conn) : bytes := concat (fst <$> conn_script c).

Lemma unread_length rb : rb_wf rb -> zlen (unread rb) = rb_end rb - rb_start rb.
Proof.
  intros (H1 & H2 & _). unfold unread, zlen in *. rewrite length_take, length_drop. lia.
Qed.

Lemma window_ok rb : rb_wf rb -> window rb = Done (unread rb).
Proof.
  intros (H1 & H2 & _). unfold window, slice_range.
  destruct (Z.ltb_spec (rb_start rb) 0), (Z.ltb_spec (rb_end rb) (rb_start rb)),
    (Z.ltb_spec (zlen (rb_buf rb)) (rb_end rb)); done || lia.
Qed.

Lemma blit_length at_ data s :
  0 <= at_ -> at_ + zlen data <= zlen s -> zlen (blit at_ data s) = zlen s.
Proof.
  intros H1 H2. unfold blit, zlen in *. rewrite !length_app, length_take, length_drop. lia.
Qed.

Lemma init_wf : rb_wf (init emptyReadBuffer).
Proof.
  unfold init. simpl rb_buf. cbn [zlen length Z.of_nat Z.eqb]. split_and!; simpl rb_start; simpl rb_end; try lia.
  all: change (rb_buf _) with (repeat x00 (Z.to_nat defaultReadBufSize)); unfold zlen;
    rewrite repeat_length; unfold defaultReadBufSize, maxReadBufSize; lia.
Qed.

Lemma init_id rb : 0 < zlen (rb_buf rb) -> init rb = rb.
Proof. intros H. unfold init. by rewrite (proj2 (Z.eqb_neq _ 0)) by lia. Qed.

Lemma advance_ok rb n :
  rb_wf rb -> 0 <= n <= zlen (unread rb) ->
  rb_wf (advance rb n) /\ unread (advance rb n) = drop (Z.to_nat n) (unread rb) /\
  rb_buf (advance rb n) = rb_buf rb.
Proof.
  intros Hwf Hn. pose proof (unread_length rb Hwf) as Hl. destruct Hwf as (H1 & H2 & H3).
  unfold advance. destruct (Z.leb_spec n 0).
  { replace n with 0 by lia. by rewrite drop_0. }
  simpl. destruct (Z.leb_spec (rb_end rb) (rb_start rb + n)).
  - split; [unfold rb_wf; simpl; lia|]. split; [|done]. unfold unread at 1. simpl.
    symmetry. apply drop_ge. unfold zlen in *. lia.
  - split; [unfold rb_wf; simpl; lia|]. split; [|done]. unfold unread. simpl.
    rewrite skipn_firstn_comm, drop_drop. f_equal; [lia|]. f_equal. lia.
Qed.

Lemma compact_ok rb :
  rb_wf rb -> exists rb', compact rb = Done rb' /\ rb_wf rb' /\ unread rb' = unread rb /\
    zlen (rb_buf rb') = zlen (rb_buf rb) /\ rb_start rb' = 0 /\
    rb_end rb' = rb_end rb - rb_start rb.
Proof.
  intros Hwf. pose proof (unread_length rb Hwf) as Hl. destruct (Hwf) as (H1 & H2 & H3).
  unfold compact. destruct (Z.eqb_spec (rb_start rb) 0) as [H0|H0].
  { eexists. split; [reflexivity|]. split_and!; try done. lia. }
  destruct (Z.eqb_spec (rb_start rb) (rb_end rb)) as [He|He]; [tauto|].
  simpl. rewrite window_ok by done. simpl. eexists. split; [reflexivity|].
  assert (Hb : zlen (blit 0 (unread rb) (rb_buf rb)) = zlen (rb_buf rb)) by (apply blit_length; lia).
  unfold rb_wf. simpl. rewrite Hb. split_and!; try lia.
  unfold unread at 1. simpl. unfold blit. simpl. rewrite Z.sub_0_r. apply take_app_length'.
  unfold zlen in Hl. lia.
Qed.

Lemma grow_ok rb :
  rb_wf rb -> 0 < zlen (rb_buf rb) -> rb_end rb - rb_start rb = zlen (rb_buf rb) ->
  exists e rb', grow rb = Done (e, rb') /\ rb_wf rb' /\ unread rb' = unread rb /\
    (e = None -> rb_end rb' < zlen (rb_buf rb')) /\
    (e <> None <-> zlen (unread rb) = maxReadBufSize).
Proof.
  intros Hwf H0 Hfull. pose proof (unread_length rb Hwf) as Hl. destruct (Hwf) as (H1 & H2 & H3).
  unfold grow. rewrite (proj2 (Z.eqb_neq _ 0)) by lia.
  destruct (Z.leb_spec (Z.min (zlen (rb_buf rb) * 2) maxReadBufSize) (zlen (rb_buf rb))) as [Hle|Hgt].
  - do 2 eexists. split; [reflexivity|]. split_and!; try done. split; [lia|done].
  - rewrite window_ok by done. cbn [outcome_bind].
    set (nl := Z.min (zlen (rb_buf rb) * 2) maxReadBufSize) in *.
    do 2 eexists. split; [reflexivity|].
    assert (Hb : zlen (unread rb ++ repeat x00 (Z.to_nat nl - length (unread rb))) = nl).
    { rewrite zlen_app. unfold zlen in *. rewrite repeat_length. lia. }
    unfold rb_wf. simpl. rewrite Hb. split_and!; try lia; try done.
    + unfold unread at 1. simpl. rewrite Z.sub_0_r. apply take_app_length'. unfold zlen in Hl. lia.
    + split; [done|lia].
Qed.

(** [ensureWriteSpace]: it keeps the window, makes room for at least one byte,
    and fails exactly when the window already fills 8 MiB. *)
Lemma ensureWriteSpace_ok rb :
  rb_wf rb -> 0 < zlen (rb_buf rb) ->
  exists e rb', ensureWriteSpace rb = Done (e, rb') /\ rb_wf rb' /\ unread rb' = unread rb /\
    0 < zlen (rb_buf rb') /\ (e = None -> rb_end rb' < zlen (rb_buf rb')) /\
    (e <> None <-> zlen (unread rb) = maxReadBufSize).
Proof.
  intros Hwf H0. pose proof (unread_length rb Hwf) as Hl. destruct (Hwf) as (H1 & H2 & H3).
  assert (Hgrow : forall rb1, rb_wf rb1 -> zlen (rb_buf rb1) = zlen (rb_buf rb) ->
    rb_end rb1 - rb_start rb1 = zlen (rb_buf rb1) -> unread rb1 = unread rb ->
    exists e rb', grow rb1 = Done (e, rb') /\ rb_wf rb' /\ unread rb' = unread rb /\
      0 < zlen (rb_buf rb') /\ (e = None -> rb_end rb' < zlen (rb_buf rb')) /\
      (e <> None <-> zlen (unread rb) = maxReadBufSize)).
  { intros rb1 Hw1 Hb1 Hf1 Hu1. destruct (grow_ok rb1 Hw1) as (e & rb' & Hg & Hw & Hu & Hs & He); [lia|done|].
    rewrite Hu1 in *. exists e, rb'. split_and!; try done; try apply He.
    pose proof (unread_length rb' Hw) as Hl'. rewrite Hu in Hl'.
    pose proof (unread_length rb1 Hw1) as Hl1. rewrite Hu1 in Hl1.
    destruct Hw as (Ha & Hb & _). lia. }
  unfold ensureWriteSpace. destruct (Z.ltb_spec (rb_end rb) (zlen (rb_buf rb))).
  { do 2 eexists. split; [reflexivity|]. split_and!; try done. split; [done|lia]. }
  destruct (Z.ltb_spec 0 (rb_start rb)).
  - destruct (compact_ok rb Hwf) as (rb1 & Hc & Hw1 & Hu1 & Hb1 & Hs1 & He1). rewrite Hc. simpl.
    destruct (Z.ltb_spec (rb_end rb1) (zlen (rb_buf rb1))).
    + do 2 eexists. split; [reflexivity|]. split_and!; try done; [lia|]. split; [done|lia].
    + apply Hgrow; try done. lia.
  - apply Hgrow; try done. lia.
Qed.

Lemma ensureWriteSpace_error rb e rb' :
  ensureWriteSpace rb = Done (Some e, rb') -> e = EOpaque "nntp read buffer exceeded".
Proof.
  assert (Hg : forall rb, grow rb = Done (Some e, rb') -> e = EOpaque "nntp read buffer exceeded").
  { intros rb1. unfold grow. destruct (_ <=? _); [by intros [= <- _]|]. by destruct (window rb1). }
  unfold ensureWriteSpace. destruct (_ <? _); [done|]. destruct (0 <? _); [|apply Hg].
  destruct (compact rb) as [rb1| | |]; try done. cbn [outcome_bind]. destruct (_ <? _); [done|apply Hg].
Qed.

(** ** Reading *)

Lemma script_measure_cons d e r dl b :
  script_measure (mkLine ((d, e) :: r) dl b) = (S (length d) + script_measure (mkLine r dl b))%nat.
Proof. done. Qed.

Lemma conn_bytes_cons d e r dl b : conn_bytes (mkLine ((d, e) :: r) dl b) = d ++ conn_bytes (mkLine r dl b).
Proof. done. Qed.

(** A read returns, or blocks on a silent connection. *)
Lemma conn_read_returns c room :
  (exists data e c', conn_read c room = Done (data, e, c')) \/ (conn_read c room = Blocked /\ conn_silent c = true /\ conn_script c = []).
Proof.
  unfold conn_read. destruct (conn_script c) as [|[data e] rest].
  - destruct (conn_silent c); [|left; eauto]. destruct (rev (conn_deadlines c)) as [|[] ?]; eauto 6.
  - left. case_decide; eauto.
Qed.

Lemma conn_read_ok c room data e c' :
  (0 < room)%nat -> conn_read c room = Done (data, e, c') ->
  (length data <= room)%nat /\ conn_bytes c = data ++ conn_bytes c' /\
  (script_measure c' <= script_measure c)%nat /\
  (e = None -> (script_measure c' < script_measure c)%nat) /\ conn_silent c' = conn_silent c.
Proof.
  intros Hr. unfold conn_read. destruct c as [[|[dat er] rest] dl b]; cbn [conn_script conn_silent conn_deadlines].
  { destruct b; [destruct (rev dl) as [|[] ?]|]; intros [= <- <- <-]; split_and!; done || (simpl; lia). }
  change ((mkLine ((dat, er) :: rest) dl b) <| conn_script := rest |>) with (mkLine rest dl b).
  change ((mkLine ((dat, er) :: rest) dl b) <| conn_script := (drop room dat, er) :: rest |>) with
    (mkLine ((drop room dat, er) :: rest) dl b).
  case_decide as Hlen; intros [= <- <- <-]; rewrite !script_measure_cons, ?conn_bytes_cons.
  - split_and!; done || lia.
  - rewrite length_take, length_drop, app_assoc, take_drop. split_and!; done || lia.
Qed.

Lemma setDeadline_fields rb conn d h rb' conn' :
  setDeadline rb conn d h = (rb', conn') ->
  rb_buf rb' = rb_buf rb /\ rb_start rb' = rb_start rb /\ rb_end rb' = rb_end rb /\
  conn_script conn' = conn_script conn /\ conn_silent conn' = conn_silent conn.
Proof. unfold setDeadline. destruct (_ || _); by intros [= <- <-]. Qed.

Definition rb_ready (rb : readBuffer) : Prop := rb_wf rb /\ 0 < zlen (rb_buf rb).

Lemma readMore_ok rb conn d h :
  rb_ready rb ->
  (readMore rb conn d h = Blocked /\ conn_silent conn = true /\ conn_script conn = []) \/
  exists n e rb' conn', readMore rb conn d h = Done (n, e, rb', conn') /\ rb_ready rb' /\ 0 <= n /\
    unread rb' ++ conn_bytes conn' = unread rb ++ conn_bytes conn /\
    zlen (unread rb') = zlen (unread rb) + n /\
    (script_measure conn' <= script_measure conn)%nat /\
    (e = None -> (script_measure conn' < script_measure conn)%nat) /\
    (zlen (unread rb) < maxReadBufSize -> exists room c0 data, (0 < room)%nat /\
      conn_script c0 = conn_script conn /\ conn_read c0 room = Done (data, e, conn') /\ n = zlen data) /\
    conn_silent conn' = conn_silent conn.
Proof.
  intros [Hwf H0]. unfold readMore.
  destruct (setDeadline rb conn d h) as [rb0 conn0] eqn:Hsd.
  destruct (setDeadline_fields _ _ _ _ _ _ Hsd) as (Eb & Es & Ee & Ec & Esil).
  assert (Hwf0 : rb_wf rb0) by (unfold rb_wf; by rewrite Eb, Es, Ee).
  assert (Hu0 : unread rb0 = unread rb) by (unfold unread; by rewrite Eb, Es, Ee).
  assert (Hcb : conn_bytes conn0 = conn_bytes conn) by (unfold conn_bytes; by rewrite Ec).
  assert (Hcm : script_measure conn0 = script_measure conn) by (unfold script_measure; by rewrite Ec).
  rewrite <- Hu0, <- Hcb, <- Hcm, <- Ec, <- Esil. rewrite <- Eb in H0. clear Hsd Eb Es Ee Ec Esil Hu0 Hcb Hcm Hwf.
  destruct (ensureWriteSpace_ok rb0 Hwf0 H0) as (e & rb1 & -> & Hw1 & Hu1 & H1 & Hroom & Hfull).
  rewrite <- Hu1. cbn [outcome_bind].
  destruct e as [e|].
  { right. do 4 eexists. split; [reflexivity|]. split; [by split|]. split_and!; try done; try lia.
    intros Hlt. rewrite Hu1 in Hlt. assert (zlen (unread rb0) = maxReadBufSize) by by apply Hfull. lia. }
  specialize (Hroom eq_refl). destruct (Hw1) as (Ha & Hb & Hc).
  unfold slice_range. rewrite (proj2 (Z.ltb_ge _ 0)) by lia.
  rewrite (proj2 (Z.ltb_ge (zlen (rb_buf rb1)) (rb_end rb1))) by lia. rewrite Z.ltb_irrefl. simpl.
  set (room := take _ _).
  assert (Hrl : Z.of_nat (length room) = zlen (rb_buf rb1) - rb_end rb1).
  { unfold room. rewrite length_take, length_drop. unfold zlen in *. lia. }
  destruct (conn_read_returns conn0 (length room)) as [(data & e & conn1 & Hr)|(Hr & Hsil & Hno)];
    [rewrite Hr; cbn [outcome_bind]; right|left; by rewrite Hr].
  assert (Hread : exists room c0 data0, (0 < room)%nat /\ conn_script c0 = conn_script conn0 /\
            conn_read c0 room = Done (data0, e, conn1) /\ zlen data = zlen data0).
  { exists (length room), conn0, data. split_and!; try done. lia. }
  apply conn_read_ok in Hr as (Hdl & Hcb & Hm1 & Hm2 & Hsil); [|lia].
  do 4 eexists. split; [reflexivity|].
  pose proof (zlen_nonneg data) as Hd0.
  assert (Hbl : zlen (blit (rb_end rb1) data (rb_buf rb1)) = zlen (rb_buf rb1)).
  { apply blit_length; [lia|]. unfold zlen in *. lia. }
  set (rb2 := if 0 <? zlen data then _ else _).
  assert (E2 : rb_buf rb2 = blit (rb_end rb1) data (rb_buf rb1) /\ rb_start rb2 = rb_start rb1 /\
               rb_end rb2 = rb_end rb1 + zlen data).
  { unfold rb2. destruct (Z.ltb_spec 0 (zlen data)); simpl; split_and!; try done. lia. }
  destruct E2 as (E2b & E2s & E2e).
  assert (Hw2 : rb_wf rb2).
  { unfold rb_wf. rewrite E2b, E2s, E2e, Hbl. unfold zlen in *. lia. }
  assert (Hu2 : unread rb2 = unread rb1 ++ data).
  { unfold unread. rewrite E2b, E2s, E2e. unfold blit.
    rewrite drop_app_le by (rewrite length_take; unfold zlen in *; lia).
    rewrite app_assoc, take_app_length'.
    2: { rewrite length_app, length_drop, length_take. unfold zlen in *. lia. }
    f_equal. rewrite skipn_firstn_comm. f_equal. lia. }
  split; [split; [done|rewrite E2b; lia]|]. split; [done|].
  rewrite Hu2, Hcb, zlen_app, <- app_assoc. split_and!; done.
Qed.

(** ** The feeding loop *)

Section Loop.
Context {F W C : Type} `{byteFeeder F W}.
Context (control : C -> W -> Z -> Z -> control_result * C * W).
Abbreviation lstate := (loop_state F W C).

(** All the bytes not yet consumed: in the buffer, then in the connection. *)
Definition stream (s : lstate) : bytes := unread (l_rb s) ++ conn_bytes (l_conn s).

(** What every step keeps: the buffer's invariant, and the count of the bytes
    that were consumed. *)
Definition counted_from (s s' : lstate) : Prop :=
  rb_ready (l_rb s') /\ l_consumed s <= l_consumed s' /\
  l_consumed s' - l_consumed s + zlen (stream s') = zlen (stream s) /\
  l_wire s <= l_wire s' /\
  (script_measure (l_conn s') <= script_measure (l_conn s))%nat /\
  conn_silent (l_conn s') = conn_silent (l_conn s).

(** An outcome without a result: the decoder failed, or the peer fell silent. *)
Definition stuck {A} (o : outcome A) (s : lstate) : Prop :=
  (o = Panicked /\ feeder_fails) \/ (o = Blocked /\ conn_silent (l_conn s) = true).

Lemma stuck_bind {A B} (o : outcome A) (f : A -> outcome B) s : stuck o s -> stuck (outcome_bind o f) s.
Proof. intros [[-> Hf]|[-> Hs]]; [by left|by right]. Qed.

Lemma stuck_from {A} (o : outcome A) s s' : conn_silent (l_conn s') = conn_silent (l_conn s) -> stuck o s' -> stuck o s.
Proof. unfold stuck. by intros ->. Qed.

(** [s'] is [s] after consuming some bytes from the front of the stream. *)
Definition consumed_from (s s' : lstate) : Prop :=
  counted_from s s' /\
  stream s' = drop (Z.to_nat (l_consumed s' - l_consumed s)) (stream s).

Lemma counted_from_trans s1 s2 s3 : counted_from s1 s2 -> counted_from s2 s3 -> counted_from s1 s3.
Proof.
  intros (Ha1 & Hb1 & Hd1 & He1 & Hf1 & Hg1) (Ha2 & Hb2 & Hd2 & He2 & Hf2 & Hg2).
  unfold counted_from. split_and!; done || lia || congruence.
Qed.

Lemma consumed_from_refl s : rb_ready (l_rb s) -> consumed_from s s.
Proof. intros Hr. unfold consumed_from, counted_from. rewrite Z.sub_diag. split_and!; done || lia. Qed.

Lemma consumed_from_trans s1 s2 s3 :
  consumed_from s1 s2 -> consumed_from s2 s3 -> consumed_from s1 s3.
Proof.
  intros [C1 E1] [C2 E2]. split; [by eapply counted_from_trans|].
  destruct C1 as (_ & ? & _), C2 as (_ & ? & _). rewrite E2, E1, drop_drop. f_equal. lia.
Qed.

Lemma consumed_from_silent s s' : consumed_from s s' -> conn_silent (l_conn s') = conn_silent (l_conn s).
Proof. by intros [(_ & _ & _ & _ & _ & Hs) _]. Qed.

Lemma consumed_from_ready s s' : consumed_from s s' -> rb_ready (l_rb s').
Proof. by intros [[Hr _] _]. Qed.

Lemma ask_ok (s : lstate) :
  let s' := snd (ask control s) in
  l_rb s' = l_rb s /\ l_conn s' = l_conn s /\ l_feeder s' = l_feeder s /\
  l_wire s' = l_wire s /\ l_consumed s' = l_consumed s.
Proof. unfold ask. by destruct (control _ _ _ _) as [[a c] w]. Qed.

Lemma consumed_from_ask (s : lstate) : rb_ready (l_rb s) -> consumed_from s (snd (ask control s)).
Proof.
  intros Hr. destruct (ask_ok s) as (E1 & E2 & E3 & E4 & E5). unfold consumed_from, counted_from, stream.
  rewrite E1, E2, E4, E5, Z.sub_diag. split_and!; done || lia.
Qed.

Lemma ask_and_read_ok (s : lstate) :
  rb_ready (l_rb s) ->
  stuck (ask_and_read control s) s \/
  exists e s', ask_and_read control s = Done (e, s') /\ consumed_from s s' /\
    l_consumed s' = l_consumed s /\
    (e = None -> (script_measure (l_conn s') < script_measure (l_conn s))%nat).
Proof.
  intros Hr. unfold ask_and_read. pose proof (ask_ok s) as Ha. pose proof (consumed_from_ask s Hr) as Hc.
  destruct (ask control s) as [a s1]. simpl in Ha, Hc. destruct Ha as (E1 & E2 & E3 & E4 & E5).
  destruct (ctl_err a) as [e|].
  { right. do 2 eexists. split; [reflexivity|]. split; [done|]. by split. }
  destruct (readMore_ok (l_rb s1) (l_conn s1) (ctl_deadline a) (ctl_hasDeadline a))
    as [(-> & Hsil & _)|(n & e & rb & conn & -> & Hr' & Hn & Hs & Hz & Hm & Hm' & _ & Hsil)]; [by rewrite E1|left; right; by rewrite <- E2|].
  right. do 2 eexists. split; [reflexivity|]. rewrite E1, E2 in *. split; [|by split].
  unfold consumed_from, counted_from, stream. simpl. rewrite E5, Z.sub_diag, Hs. split_and!; done || lia.
Qed.

Lemma unread_blit rb mem :
  rb_ready rb -> (length mem <= length (unread rb))%nat ->
  let rb' := rb <| rb_buf ::= blit (rb_start rb) mem |> in
  rb_ready rb' /\ unread rb' = mem ++ drop (length mem) (unread rb).
Proof.
  intros [Hwf H0] Hl rb'. pose proof (unread_length rb Hwf) as Hu. destruct (Hwf) as (H1 & H2 & H3).
  assert (Hb : zlen (blit (rb_start rb) mem (rb_buf rb)) = zlen (rb_buf rb)).
  { apply blit_length; unfold zlen in *; lia. }
  split; [unfold rb_ready, rb_wf, rb'; simpl; rewrite Hb; lia|].
  unfold unread, rb'. simpl. unfold blit.
  rewrite drop_app_length' by (rewrite length_take; unfold zlen in *; lia).
  rewrite take_app_ge by (unfold zlen in *; lia). f_equal.
  rewrite skipn_firstn_comm, drop_drop. done.
Qed.

Lemma feed_window_ok m (s : lstate) :
  rb_ready (l_rb s) ->
  stuck (feed_window m s) s \/
  exists n dn e s', feed_window m s = Done (n, dn, e, s') /\ counted_from s s' /\
    (e = None ->
     (forall n dn f' w' mem,
        feeder_feed (l_feeder s) (limit_feed m (unread (l_rb s))) (l_out s) = Done (n, dn, None, f', w', mem) ->
        drop (Z.to_nat n) mem = drop (Z.to_nat n) (limit_feed m (unread (l_rb s)))) -> consumed_from s s') /\ 0 <= n /\
    l_consumed s' = l_consumed s + n /\ (0 < m -> n <= m) /\ l_conn s' = l_conn s /\
    l_ctl s' = l_ctl s /\ l_wire s' = l_wire s.
Proof.
  intros Hr. destruct (Hr) as [Hwf H0]. unfold feed_window. rewrite window_ok by done. simpl.
  set (u := unread (l_rb s)). set (w := limit_feed m u).
  assert (Hw : exists k, w = take k u /\ (length w <= length u)%nat /\ (0 < m -> zlen w <= m)).
  { unfold w, limit_feed. destruct (Z.ltb_spec 0 m), (Z.ltb_spec m (zlen u)); simpl.
    1: exists (Z.to_nat m). 2-4: exists (length u).
    all: rewrite ?length_take, ?firstn_all; unfold zlen in *; split_and!; try done; try lia.
    rewrite length_take. lia. }
  destruct Hw as (k & Hk & Hlw & Hm).
  pose proof (feeder_lawful (l_feeder s) w (l_out s)) as Hlaw.
  destruct (feeder_feed (l_feeder s) w (l_out s)) as [[[[[[n dn] e] f'] w'] mem]| | |] eqn:Hfeed; try done; [|left; by left].
  destruct Hlaw as [Hn Hmem]. right. cbn [outcome_bind].
  destruct (unread_blit (l_rb s) mem Hr) as [Hr' Hu']; [rewrite Hmem; exact Hlw|]. fold u in Hu'.
  set (rb' := (l_rb s) <| rb_buf ::= blit (rb_start (l_rb s)) mem |>) in *.
  assert (Hdrop : drop (Z.to_nat n) mem = drop (Z.to_nat n) w -> drop (Z.to_nat n) (unread rb') = drop (Z.to_nat n) u).
  { intros Htail. rewrite Hu', drop_app_le by (unfold zlen in Hn; lia). rewrite Htail.
    rewrite Hmem, <- drop_app_le by (unfold zlen in Hn; lia). f_equal. rewrite Hk, length_take.
    destruct (Nat.min_spec k (length u)) as [[? ->]|[? ->]]; [apply take_drop|].
    rewrite drop_all, app_nil_r. apply take_ge. lia. }
  assert (Hlen : zlen (unread rb') = zlen u).
  { rewrite Hu'. unfold zlen. rewrite length_app, length_drop. lia. }
  assert (Hnu : n <= zlen u) by (unfold zlen in *; lia).
  set (rb2 := if 0 <? n then advance rb' n else rb').
  set (n2 := if 0 <? n then l_consumed s + n else l_consumed s).
  assert (E2 : rb_ready rb2 /\ unread rb2 = drop (Z.to_nat n) (unread rb') /\ n2 = l_consumed s + n).
  { unfold rb2, n2. destruct (Z.ltb_spec 0 n).
    - destruct (advance_ok rb' n) as (Hwa & Hua & Hba); [apply Hr'|lia|].
      split; [|by split]. split; [done|]. rewrite Hba. apply Hr'.
    - assert (n = 0) as -> by lia. rewrite drop_0, Z.add_0_r. by split. }
  destruct E2 as (E2a & E2b & E2c).
  exists n, dn, e, (mkLoop rb2 (l_conn s) f' w' (l_ctl s) (l_wire s) n2).
  split; [unfold rb2, n2; by destruct (0 <? n)|].
  unfold consumed_from, counted_from, stream. simpl. rewrite E2b, E2c. fold u.
  replace (l_consumed s + n - l_consumed s) with n by lia.
  assert (Hz : n + zlen (drop (Z.to_nat n) (unread rb') ++ conn_bytes (l_conn s)) =
               zlen (u ++ conn_bytes (l_conn s))).
  { rewrite !zlen_app. unfold zlen in *. rewrite length_drop. lia. }
  split_and!; try done; try lia. intros -> Hkeep. split_and!; try done; try lia.
  rewrite Hdrop, drop_app_le by (by eapply Hkeep || (unfold zlen in Hnu; lia)). done.
Qed.

(** One iteration, unless it gets stuck: it consumes from the front of the stream, and
    when it goes round again it has made a read. *)
Lemma feed_iteration_ok (s : lstate) :
  rb_ready (l_rb s) ->
  stuck (feed_iteration control s) s \/
  exists r s', feed_iteration control s = Done (r, s') /\ counted_from s s' /\
    (feeds_keep -> (forall e, r <> Some (Some e)) -> consumed_from s s') /\
    (r = None -> (script_measure (l_conn s') < script_measure (l_conn s))%nat).
Proof.
  intros Hr. unfold feed_iteration.
  set (first := if rb_start (l_rb s) =? rb_end (l_rb s) then _ else _).
  assert (Hfirst : stuck first s \/ exists e s1, first = Done (e, s1) /\ consumed_from s s1).
  { unfold first. destruct (Z.eqb_spec (rb_start (l_rb s)) (rb_end (l_rb s))) as [He|He].
    - set (s0 := mkLoop _ _ _ _ _ _ _).
      destruct (Hr) as [(H1 & H2 & H3) H0].
      assert (Hc0 : consumed_from s s0).
      { unfold consumed_from, counted_from, stream, s0. simpl. unfold unread. simpl.
        rewrite He, !Z.sub_diag. simpl. rewrite drop_0.
        split_and!; try done; try lia. split; [|done]. unfold rb_wf. simpl. lia. }
      destruct (ask_and_read_ok s0) as [Hst|(e & s1 & Hrd & Hc & _)]; [apply (proj1 (proj1 Hc0))|by left|].
      right. exists e, s1. split; [done|]. by eapply consumed_from_trans.
    - right. exists None, s. split; [done|]. by apply consumed_from_refl. }
  destruct Hfirst as [Hst|(e1 & s1 & -> & Hc1)]; [left; by apply stuck_bind|]. cbn [outcome_bind].
  assert (Hstop : forall (e : error) (s' : lstate), consumed_from s s' ->
    stuck (Done (Some e, s')) s \/ exists (r : option error) (s'' : lstate), Done (Some e, s') = Done (r, s'') /\
    counted_from s s'' /\ (feeds_keep -> (forall e, r <> Some (Some e)) -> consumed_from s s'') /\
    (r = None -> (script_measure (l_conn s'') < script_measure (l_conn s))%nat)).
  { intros e s' Hc. right. do 2 eexists. split; [reflexivity|]. split_and!; [apply Hc|done|done]. }
  destruct (negb (is_nil e1)); [by apply Hstop|].
  pose proof (consumed_from_ask s1 (consumed_from_ready _ _ Hc1)) as Hca.
  destruct (ask control s1) as [a s2]. simpl in Hca.
  assert (Hc2 : consumed_from s s2) by (by eapply consumed_from_trans). clear Hc1 Hca.
  destruct (negb (is_nil (ctl_err a))); [by apply Hstop|].
  destruct (feed_window_ok (ctl_maxFeed a) s2 (consumed_from_ready _ _ Hc2))
    as [Hst|(n & dn & e & s3 & -> & Hcnt & Hcf & _)].
  { left. apply stuck_bind. eapply stuck_from; [by apply (consumed_from_silent s s2)|done]. }
  cbn [outcome_bind].
  destruct e as [e|]; cbn [is_nil negb].
  { right. do 2 eexists. split; [reflexivity|]. split; [eapply counted_from_trans; [apply Hc2|done]|].
    split; [|done]. intros _ Hne. by destruct (Hne e). }
  assert (Hk3 : feeds_keep -> consumed_from s s3).
  { intros Hk. eapply consumed_from_trans; [done|]. apply Hcf; [done|]. intros ? ? ? ? ?. apply Hk. }
  assert (Hc3 : counted_from s s3) by (eapply counted_from_trans; [apply Hc2|done]).
  clear Hc2 Hcf Hcnt Hstop.
  assert (Hgo : forall s', consumed_from s3 s' -> counted_from s s' /\ (feeds_keep -> consumed_from s s')).
  { intros s' Hc. split; [eapply counted_from_trans; [exact Hc3|apply Hc]|]. intros Hk.
    eapply consumed_from_trans; [by apply Hk3|exact Hc]. }
  assert (Hstop : forall (e : error) (s' : lstate), consumed_from s3 s' ->
    stuck (Done (Some e, s')) s \/ exists (r : option error) (s'' : lstate), Done (Some e, s') = Done (r, s'') /\
    counted_from s s'' /\ (feeds_keep -> (forall e, r <> Some (Some e)) -> consumed_from s s'') /\
    (r = None -> (script_measure (l_conn s'') < script_measure (l_conn s))%nat)).
  { intros e s' Hc. right. do 2 eexists. split; [reflexivity|]. destruct (Hgo s' Hc) as [G1 G2].
    split_and!; [exact G1|intros Hk _; by apply G2|done]. }
  assert (Hr3 : rb_ready (l_rb s3)) by apply Hc3.
  pose proof (consumed_from_ask s3 Hr3) as Hc4.
  destruct (ask control s3) as [a' s4]. simpl in Hc4.
  destruct (negb (is_nil (ctl_err a'))); [by apply Hstop|].
  destruct dn; [by apply Hstop|].
  assert (Hcomp : exists s5, (if (n =? 0) && (0 <? rb_end (l_rb s4) - rb_start (l_rb s4))
      then let*! rb := compact (l_rb s4) in
           Done (mkLoop rb (l_conn s4) (l_feeder s4) (l_out s4) (l_ctl s4) (l_wire s4) (l_consumed s4))
      else Done s4) = Done s5 /\ consumed_from s3 s5).
  { destruct (_ && _); [|by eexists].
    destruct (consumed_from_ready _ _ Hc4) as [Hw H0].
    destruct (compact_ok (l_rb s4) Hw) as (rb' & -> & Hw' & Hu' & Hb' & _). eexists. split; [reflexivity|].
    eapply consumed_from_trans; [exact Hc4|]. unfold consumed_from, counted_from, stream. simpl.
    rewrite Hu', Z.sub_diag. split_and!; try done; try lia. split; [done|lia]. }
  destruct Hcomp as (s5 & -> & Hc5). cbn [outcome_bind].
  destruct (ask_and_read_ok s5 (consumed_from_ready _ _ Hc5)) as [Hst|(e6 & s6 & -> & Hc6 & _ & Hm)].
  { left. apply stuck_bind. eapply stuck_from; [|exact Hst]. rewrite (consumed_from_silent _ _ Hc5). apply Hc3. }
  cbn [outcome_bind].
  assert (Hc : consumed_from s3 s6) by (by eapply consumed_from_trans). destruct (Hgo s6 Hc) as [G1 G2].
  right. do 2 eexists. split; [reflexivity|]. split; [exact G1|]. split; [intros Hk _; by apply G2|].
  destruct e6; simpl; [done|]. intros _. destruct Hc5 as [(_ & _ & _ & _ & Hf5 & _) _].
  destruct Hc3 as (_ & _ & _ & _ & Hf3 & _). specialize (Hm eq_refl). lia.
Qed.

Lemma feed_loop_ok fuel : forall s : lstate,
  rb_ready (l_rb s) -> (script_measure (l_conn s) < fuel)%nat ->
  stuck (feed_loop control fuel s) s \/
  exists e s', feed_loop control fuel s = Done (e, s') /\ counted_from s s' /\
    (feeds_keep -> e = None -> consumed_from s s').
Proof.
  induction fuel as [|fuel IH]; intros s Hr Hf; [lia|]. cbn [feed_loop].
  destruct (feed_iteration_ok s Hr) as [Hst|(r & s1 & -> & Hc & Hcf & Hm)]; [left; by apply stuck_bind|]. cbn [outcome_bind].
  destruct r as [e|].
  { right. do 2 eexists. split; [reflexivity|]. split; [done|]. intros Hk ->. by apply Hcf. }
  specialize (Hm eq_refl).
  destruct (IH s1) as [Hst|(e & s2 & -> & Hc2 & Hcf2)]; [apply Hc|lia|left; eapply stuck_from; [apply Hc|done]|].
  right. do 2 eexists. split; [reflexivity|]. split; [by eapply counted_from_trans|].
  intros Hk He. eapply consumed_from_trans; [by apply Hcf|by apply Hcf2].
Qed.

(** *** Invariants of the control state and the writer *)

(** [P] relates the captured variables to the bytes consumed; [control] keeps
    it, and what it answers allows only feeds that keep it. *)
Section ControlInvariant.
Context (P : C -> Z -> Prop).
Hypothesis P_control : forall c w x k, P c k ->
  match control c w x k with
  | (a, c', _) => P c' k /\
      (ctl_err a = None -> forall n, 0 <= n -> (0 < ctl_maxFeed a -> n <= ctl_maxFeed a) -> P c' (k + n))
  end.

Definition ctl_inv (s : lstate) : Prop := rb_ready (l_rb s) /\ P (l_ctl s) (l_consumed s).

Lemma ask_inv s : ctl_inv s ->
  match ask control s with
  | (a, s') => ctl_inv s' /\ l_consumed s' = l_consumed s /\
      (ctl_err a = None -> forall n, 0 <= n -> (0 < ctl_maxFeed a -> n <= ctl_maxFeed a) ->
       P (l_ctl s') (l_consumed s' + n))
  end.
Proof.
  intros [Hr HP]. unfold ask. pose proof (P_control (l_ctl s) (l_out s) (l_wire s) (l_consumed s) HP) as Hc.
  destruct (control _ _ _ _) as [[a c] w]. destruct Hc as [H1 H2]. by split_and!.
Qed.

Lemma ask_and_read_inv s e s' : ctl_inv s -> ask_and_read control s = Done (e, s') -> ctl_inv s'.
Proof.
  intros Hi. unfold ask_and_read. pose proof (ask_inv s Hi) as Ha.
  destruct (ask control s) as [a s1]. destruct Ha as ([Hr HP] & _ & _).
  destruct (ctl_err a); [intros [= <- <-]; by split|].
  destruct (readMore_ok (l_rb s1) (l_conn s1) (ctl_deadline a) (ctl_hasDeadline a) Hr)
    as [[-> _]|(n & e1 & rb & conn & -> & Hr' & _)]; [done|]. cbn [outcome_bind]. intros [= <- <-]. by split.
Qed.

Lemma feed_iteration_inv s r s' : ctl_inv s -> feed_iteration control s = Done (r, s') -> ctl_inv s'.
Proof.
  intros Hi. unfold feed_iteration. destruct (if _ =? _ then _ else _) as [[e1 s1]| | |] eqn:Hfirst; try done.
  assert (Hi1 : ctl_inv s1).
  { destruct (rb_start (l_rb s) =? rb_end (l_rb s)).
    - eapply ask_and_read_inv; [|exact Hfirst]. destruct Hi as [[(H1 & H2 & H3) H0] HP].
      split; [|done]. split; [|done]. unfold rb_wf. simpl. lia.
    - by injection Hfirst as <- <-. }
  cbn [outcome_bind]. destruct (negb (is_nil e1)); [by intros [= <- <-]|].
  pose proof (ask_inv s1 Hi1) as Ha. destruct (ask control s1) as [a s2]. destruct Ha as (Hi2 & _ & Hn2).
  destruct (ctl_err a) eqn:Ea; cbn [is_nil negb]; [by intros [= <- <-]|]. specialize (Hn2 eq_refl).
  destruct (feed_window_ok (ctl_maxFeed a) s2 (proj1 Hi2))
    as [[[-> _]|[-> _]]|(n & dn & e & s3 & -> & Hcnt & _ & Hn & Hk & Hm & _ & Hc & _)]; [done..|]. cbn [outcome_bind].
  assert (Hi3 : ctl_inv s3).
  { split; [apply Hcnt|]. rewrite Hc, Hk. by apply Hn2. }
  destruct (negb (is_nil e)); [by intros [= <- <-]|].
  pose proof (ask_inv s3 Hi3) as Ha. destruct (ask control s3) as [a' s4]. destruct Ha as (Hi4 & _ & _).
  destruct (negb (is_nil (ctl_err a'))); [by intros [= <- <-]|].
  destruct dn; [by intros [= <- <-]|].
  destruct (if _ && _ then _ else _) as [s5| | |] eqn:Hcomp; try done.
  assert (Hi5 : ctl_inv s5).
  { destruct (_ && _); [|by injection Hcomp as <-]. destruct Hi4 as [[Hw H0] HP].
    destruct (compact_ok (l_rb s4) Hw) as (rb' & Hrb & Hw' & _ & Hb' & _). rewrite Hrb in Hcomp.
    injection Hcomp as <-. split; [|done]. split; [done|]. simpl. lia. }
  cbn [outcome_bind]. destruct (ask_and_read control s5) as [[e6 s6]| | |] eqn:Hrd; try done.
  cbn [outcome_bind]. intros [= <- <-]. by eapply ask_and_read_inv.
Qed.

Lemma feed_loop_inv fuel : forall s e s',
  ctl_inv s -> feed_loop control fuel s = Done (e, s') -> ctl_inv s'.
Proof.
  induction fuel as [|fuel IH]; intros s e s' Hi; [done|]. cbn [feed_loop].
  destruct (feed_iteration control s) as [[r s1]| | |] eqn:Hit; try done. cbn [outcome_bind].
  pose proof (feed_iteration_inv s r s1 Hi Hit) as Hi1.
  destruct r as [e1|]; [by intros [= <- <-]|by apply IH].
Qed.
End ControlInvariant.

(** [Q] relates the decoder, the captured variables, the writer and the connection, and
    [E] holds of the errors that can end the loop; [control], the reads with the deadline
    it asks for and the decoder keep them. *)
Section LoopInvariant.
Context (Q : F -> C -> W -> Conn -> Prop) (E : error -> Prop).
Hypothesis E_None : E None.
Hypothesis Q_control : forall f c w conn x k, Q f c w conn ->
  match control c w x k with (a, c', w') => Q f c' w' conn /\ E (ctl_err a) /\
    forall rb n e rb' conn', readMore rb conn (ctl_deadline a) (ctl_hasDeadline a) = Done (n, e, rb', conn') ->
      Q f c' w' conn' /\ E e end.
Hypothesis Q_feed : forall f b w c conn, Q f c w conn ->
  match feeder_feed f b w with Done (_, _, e, f', w', _) => Q f' c w' conn /\ E e | _ => True end.

Definition out_inv (s : lstate) : Prop := Q (l_feeder s) (l_ctl s) (l_out s) (l_conn s).

Lemma ask_out s : out_inv s -> match ask control s with (a, s') => out_inv s' /\ E (ctl_err a) /\
  forall rb n e rb' conn', readMore rb (l_conn s') (ctl_deadline a) (ctl_hasDeadline a) = Done (n, e, rb', conn') ->
    Q (l_feeder s') (l_ctl s') (l_out s') conn' /\ E e end.
Proof.
  intros HQ. unfold ask. pose proof (Q_control (l_feeder s) (l_ctl s) (l_out s) (l_conn s) (l_wire s) (l_consumed s) HQ) as Hc.
  by destruct (control _ _ _ _) as [[a c] w].
Qed.

Lemma ask_and_read_out s e s' : out_inv s -> ask_and_read control s = Done (e, s') -> out_inv s' /\ E e.
Proof.
  intros HQ. unfold ask_and_read. pose proof (ask_out s HQ) as Ha.
  destruct (ask control s) as [a s1]. destruct Ha as (Ha & He & Hrd). destruct (ctl_err a); [by intros [= <- <-]|].
  destruct (readMore _ _ _ _) as [[[[n e1] rb] conn]| | |] eqn:Hm; try done. cbn [outcome_bind]. intros [= <- <-]. by apply Hrd in Hm.
Qed.

Lemma feed_window_out m s n dn e s' : out_inv s -> feed_window m s = Done (n, dn, e, s') -> out_inv s' /\ E e.
Proof.
  intros HQ. unfold feed_window. destruct (window (l_rb s)) as [w| | |]; try done. cbn [outcome_bind].
  set (w1 := limit_feed m w).
  pose proof (Q_feed (l_feeder s) w1 (l_out s) (l_ctl s) (l_conn s) HQ) as Hf.
  destruct (feeder_feed (l_feeder s) w1 (l_out s)) as [[[[[[n1 dn1] e1] f1] w2] mem]| | |]; try done.
  cbn [outcome_bind]. destruct (0 <? n1); by intros [= <- <- <- <-].
Qed.

Lemma feed_iteration_out s r s' : out_inv s -> feed_iteration control s = Done (r, s') ->
  out_inv s' /\ match r with Some e => E e | None => True end.
Proof.
  intros HQ. unfold feed_iteration. destruct (if _ =? _ then _ else _) as [[e1 s1]| | |] eqn:Hfirst; try done.
  assert (H1 : out_inv s1 /\ E e1).
  { destruct (rb_start (l_rb s) =? rb_end (l_rb s)); [by eapply ask_and_read_out; [|exact Hfirst]|].
    by injection Hfirst as <- <-. }
  destruct H1 as [H1 E1]. cbn [outcome_bind]. destruct (negb (is_nil e1)); [by intros [= <- <-]|].
  pose proof (ask_out s1 H1) as H2. destruct (ask control s1) as [a s2]. destruct H2 as (H2 & E2 & _).
  destruct (negb (is_nil (ctl_err a))); [by intros [= <- <-]|].
  destruct (feed_window (ctl_maxFeed a) s2) as [[[[n dn] e] s3]| | |] eqn:Hw; try done. cbn [outcome_bind].
  destruct (feed_window_out _ _ _ _ _ _ H2 Hw) as [H3 E3].
  destruct (negb (is_nil e)); [by intros [= <- <-]|].
  pose proof (ask_out s3 H3) as H4. destruct (ask control s3) as [a' s4]. destruct H4 as (H4 & E4 & _).
  destruct (negb (is_nil (ctl_err a'))); [by intros [= <- <-]|].
  destruct dn; [by intros [= <- <-]|].
  destruct (if _ && _ then _ else _) as [s5| | |] eqn:Hcomp; try done.
  assert (H5 : out_inv s5).
  { destruct (_ && _); [|by injection Hcomp as <-].
    destruct (compact (l_rb s4)); try done. by injection Hcomp as <-. }
  cbn [outcome_bind]. destruct (ask_and_read control s5) as [[e6 s6]| | |] eqn:Hrd; try done.
  destruct (ask_and_read_out _ _ _ H5 Hrd) as [H6 E6].
  cbn [outcome_bind]. intros [= <- <-]. split; [done|]. by destruct e6.
Qed.

Lemma feed_loop_out fuel : forall s e s',
  out_inv s -> feed_loop control fuel s = Done (e, s') -> out_inv s' /\ E e.
Proof.
  induction fuel as [|fuel IH]; intros s e s' Hi; [done|]. cbn [feed_loop].
  destruct (feed_iteration control s) as [[r s1]| | |] eqn:Hit; try done. cbn [outcome_bind].
  destruct (feed_iteration_out s r s1 Hi Hit) as [Hi1 He].
  destruct r as [e1|]; [by intros [= <- <-]|by apply IH].
Qed.
End LoopInvariant.
End Loop.

(** ** [NNTPResponse] as a decoder *)

Section NNTPFeeder.
Context {W : Type} (write : W -> bytes -> W * error).
Context (decodeFn : bytes -> YState -> yenc_result).

#[export] Instance NNTPResponse_feeder : byteFeeder NNTPResponse W :=
  {| feeder_feed := Feed write decodeFn; feeder_fails := overruns decodeFn;
     feeder_lawful := Feed_bounds write decodeFn |}.

(** Without a yEnc body nothing is written into the slice. *)
Lemma decode_lines_mem fuel : forall r pre buf out read d,
  decode_lines write decodeFn fuel r pre buf out read = Done d ->
  Format_ (d_resp d) <> FormatYenc -> d_mem d = pre ++ buf.
Proof.
  induction fuel as [|fuel IH]; intros r pre buf out read d Hd Hf; [done|]. cbn [decode_lines] in Hd.
  destruct (cut_at crlf buf) as [[line rest]|] eqn:Hcut; [|by simplify_eq].
  apply cut_at_Some in Hcut as ->.
  replace (pre ++ line ++ crlf ++ rest) with ((pre ++ line ++ crlf) ++ rest) by (by rewrite <- !app_assoc).
  case_bool_decide; [by simplify_eq|].
  destruct (status_line r line) as [[[r' e] [|]]|]; [by simplify_eq|by eapply IH|].
  set (r1 := if decide _ then _ else _) in *. destruct (Format_ r1) eqn:Hf1; [by eapply IH| |by eapply IH].
  assert (Hf2 : Format_ (processYencHeader r1 line) = FormatYenc) by (by rewrite processYencHeader_format).
  destruct Hf. destruct (body (processYencHeader r1 line)); [|by eapply decode_lines_yenc].
  pose proof (decodeYenc_format write decodeFn (processYencHeader r1 line) rest out Hf2) as Hf3.
  destruct (decodeYenc write decodeFn _ rest out) as [[[[[n err] r'] out'] buf']| | |]; try done.
  cbn [outcome_bind] in Hd. destruct (slice_from n buf'); [|done].
  destruct (_ || _); [by simplify_eq|by eapply decode_lines_yenc].
Qed.

Lemma Feed_mem r buf out n dn e r' out' mem :
  Feed write decodeFn r buf out = Done (n, dn, e, r', out', mem) -> Format_ r' <> FormatYenc -> mem = buf.
Proof.
  unfold Feed. destruct (decode write decodeFn r buf out) as [d| | |] eqn:Hd; try done. cbn [outcome_bind].
  intros [= <- <- <- <- <- <-] Hf. change (Format_ (d_resp d) <> FormatYenc) in Hf.
  unfold decode in Hd. destruct (body r) eqn:Hb; cbn [negb andb] in Hd; [|by apply decode_lines_mem in Hd].
  case_bool_decide as Hy; [|by simplify_eq]. exfalso. apply Hf.
  pose proof (decodeYenc_format write decodeFn r buf out Hy) as Hf3.
  destruct (decodeYenc write decodeFn _ buf out) as [[[[[m err] r2] out2] buf']| | |]; try done.
  cbn [outcome_bind] in Hd. destruct err; [by simplify_eq|]. destruct (slice_from m buf'); [|done].
  destruct (body r2); [by simplify_eq|by eapply decode_lines_yenc].
Qed.

(** A decoder that works in place without touching what it leaves over. *)
Definition decoder_keeps : Prop :=
  forall buf st, let d := decodeFn buf st in
    let n := Z.to_nat (yr_consumed d - yr_backup d) in drop n (overwrite (yr_buf d) buf) = drop n buf.

Hypothesis keeps : decoder_keeps.

Lemma decodeYenc_tail r buf out n r' out' buf' :
  decodeYenc write decodeFn r buf out = Done (n, None, r', out', buf') ->
  drop (Z.to_nat n) buf' = drop (Z.to_nat n) buf.
Proof.
  unfold decodeYenc. destruct buf as [|c buf]; [by intros [= <- <- <- <-]|]. cbv zeta.
  pose proof (keeps (c :: buf) (State r)) as Hi. cbv zeta in Hi.
  set (d := decodeFn (c :: buf) (State r)) in *.
  pose proof (decodeYenc_finish_bounds write (r <| State := yr_state d |>) d (overwrite (yr_buf d) (c :: buf)) out) as B.
  assert (Hfin : decodeYenc_finish write (r <| State := yr_state d |>) d (overwrite (yr_buf d) (c :: buf)) out =
      Done (n, None, r', out', buf') -> drop (Z.to_nat n) buf' = drop (Z.to_nat n) (c :: buf)).
  { intros E. rewrite E in B. destruct B as (-> & _ & ->); done. }
  destruct (yr_err d); [destruct (strictDecodeErrors _); [done|]|]; exact Hfin.
Qed.

Lemma decode_lines_tail fuel : forall r pre buf out read d,
  (length buf < fuel)%nat ->
  decode_lines write decodeFn fuel r pre buf out read = Done d -> d_err d = None ->
  exists pre', d_mem d = pre' ++ drop (Z.to_nat (d_read d - read)) buf /\
    length pre' = (length pre + Z.to_nat (d_read d - read))%nat.
Proof.
  induction fuel as [|fuel IH]; intros r pre buf out read d Hf Hd He; [lia|].
  cbn [decode_lines] in Hd. destruct (cut_at crlf buf) as [[line rest]|] eqn:Hcut.
  2: { simplify_eq. simpl. rewrite Z.sub_diag. exists pre. by split. }
  apply cut_at_Some in Hcut as ->. rewrite !length_app in Hf. simpl in Hf.
  set (pre1 := pre ++ line ++ crlf) in *.
  assert (Hp1 : length pre1 = (length pre + (length line + 2))%nat).
  { unfold pre1. by rewrite !length_app. }
  assert (Hz : Z.to_nat (zlen line + 2) = length (line ++ crlf)).
  { rewrite length_app. unfold zlen. simpl. lia. }
  (* the step that returns, and the step that goes on from [k] bytes into the rest *)
  assert (Hstop : forall e r1, Done (mkDec (read + (zlen line + 2)) e r1 out (pre1 ++ rest)) = Done d ->
    exists pre', d_mem d = pre' ++ drop (Z.to_nat (d_read d - read)) (line ++ crlf ++ rest) /\
      length pre' = (length pre + Z.to_nat (d_read d - read))%nat).
  { intros e r1 [= <-]. exists pre1. cbn [d_mem d_read].
    replace (read + (zlen line + 2) - read) with (zlen line + 2) by lia.
    rewrite Hz, (app_assoc line), drop_app_length, Hp1, length_app. by split. }
  assert (Hgo : forall r1 out1 buf' n, length buf' = length rest -> 0 <= n <= zlen rest ->
    drop (Z.to_nat n) buf' = drop (Z.to_nat n) rest ->
    decode_lines write decodeFn fuel r1 (pre1 ++ take (Z.to_nat n) buf') (drop (Z.to_nat n) buf') out1
      (read + (zlen line + 2) + n) = Done d ->
    exists pre', d_mem d = pre' ++ drop (Z.to_nat (d_read d - read)) (line ++ crlf ++ rest) /\
      length pre' = (length pre + Z.to_nat (d_read d - read))%nat).
  { intros r1 out1 buf' n Hb Hn Hdrop Hd1.
    pose proof (decode_lines_bounds write decodeFn fuel r1 (pre1 ++ take (Z.to_nat n) buf')
      (drop (Z.to_nat n) buf') out1 (read + (zlen line + 2) + n)) as Hrd.
    rewrite Hd1, length_drop, Hb in Hrd. destruct Hrd as [Hrd _]; [lia|].
    apply IH in Hd1 as (pre' & Hm & Hl); [|rewrite length_drop, Hb; lia|done].
    exists pre'. rewrite Hm, Hl, Hdrop, drop_drop. unfold zlen in *.
    rewrite length_drop, Hb in Hrd. rewrite length_app, length_take, Hp1, Hb.
    set (k := Z.to_nat (d_read d - read)).
    assert (Hk : k = (length (line ++ crlf) +
      (Z.to_nat n + Z.to_nat (d_read d - (read + (Z.of_nat (length line) + 2) + n))))%nat).
    { rewrite length_app. simpl. lia. }
    split; [|rewrite Hk, length_app; simpl; lia].
    by rewrite Hk, (app_assoc line), drop_app_add. }
  assert (Hgo0 : forall r1, decode_lines write decodeFn fuel r1 pre1 rest out (read + (zlen line + 2)) = Done d ->
    exists pre', d_mem d = pre' ++ drop (Z.to_nat (d_read d - read)) (line ++ crlf ++ rest) /\
      length pre' = (length pre + Z.to_nat (d_read d - read))%nat).
  { intros r1 Hd1. pose proof (zlen_nonneg rest). apply (Hgo r1 out rest 0); [done|lia|done|].
    change (Z.to_nat 0) with 0%nat. by rewrite take_0, app_nil_r, drop_0, Z.add_0_r. }
  case_bool_decide; [by eapply Hstop|].
  destruct (status_line r line) as [[[r1 e] [|]]|]; [by eapply Hstop|by eapply Hgo0|].
  set (r1 := if decide _ then _ else _) in *. destruct (Format_ r1); [by eapply Hgo0| |by eapply Hgo0].
  destruct (body (processYencHeader r1 line)); [|by eapply Hgo0].
  pose proof (decodeYenc_bounds write decodeFn (processYencHeader r1 line) rest out) as B.
  pose proof (decodeYenc_tail (processYencHeader r1 line) rest out) as T.
  destruct (decodeYenc write decodeFn _ rest out) as [[[[[n err] r2] out2] buf2]| | |]; try done.
  cbn [outcome_bind] in Hd. destruct B as (Hb & _ & _). destruct (slice_from n buf2) as [rest2|] eqn:Hs; [|done].
  apply slice_from_Some in Hs as [Hn ->].
  destruct err as [err|]; cbn [is_nil negb orb] in Hd; [simplify_eq; by simpl in He|].
  specialize (T _ _ _ _ eq_refl). unfold zlen in Hn. rewrite Hb in Hn.
  destruct (body r2); [|by eapply Hgo].
  injection Hd as <-. cbn [d_mem d_read]. exists (pre1 ++ take (Z.to_nat n) buf2).
  replace (read + (zlen line + 2) + n - read) with (zlen line + 2 + n) by lia.
  rewrite Z2Nat.inj_add, Hz by (unfold zlen; lia).
  rewrite (app_assoc line), drop_app_add, <- T, <- app_assoc, take_drop. split; [done|].
  rewrite !length_app, length_take, Hp1. simpl. unfold zlen in Hn. lia.
Qed.

Lemma decode_tail r buf out d :
  decode write decodeFn r buf out = Done d -> d_err d = None ->
  drop (Z.to_nat (d_read d)) (d_mem d) = drop (Z.to_nat (d_read d)) buf.
Proof.
  intros Hd He. unfold decode in Hd. destruct (body r && _).
  - pose proof (decodeYenc_bounds write decodeFn r buf out) as B.
    pose proof (decodeYenc_tail r buf out) as T.
    destruct (decodeYenc write decodeFn r buf out) as [[[[[n err] r2] out2] buf2]| | |]; try done.
    cbn [outcome_bind] in Hd. destruct B as (Hb & _ & _). destruct err; [simplify_eq; by simpl in He|].
    specialize (T _ _ _ _ eq_refl).
    destruct (slice_from n buf2) as [rest|] eqn:Hs; [|done]. apply slice_from_Some in Hs as [Hn ->].
    destruct (body r2); [by simplify_eq/=|].
    pose proof (decode_lines_bounds write decodeFn (S (length buf2)) r2 (take (Z.to_nat n) buf2)
      (drop (Z.to_nat n) buf2) out2 n) as Hrd. rewrite Hd in Hrd. destruct Hrd as [Hrd _]; [rewrite length_drop; lia|].
    apply decode_lines_tail in Hd as (pre' & Hm & Hl); [|rewrite length_drop; lia|done].
    rewrite T, drop_drop in Hm.
    replace (Z.to_nat n + Z.to_nat (d_read d - n))%nat with (Z.to_nat (d_read d)) in Hm by lia.
    rewrite Hm. apply drop_app_length'. rewrite Hl, length_take. unfold zlen in *. lia.
  - destruct (negb (body r)); [|by simplify_eq/=].
    apply decode_lines_tail in Hd as (pre' & Hm & Hl); [|lia|done].
    rewrite Z.sub_0_r in *. rewrite Hm. by apply drop_app_length'.
Qed.

Lemma Feed_keeps : @feeds_keep NNTPResponse W NNTPResponse_feeder.
Proof.
  intros r buf out n dn r' out' mem. cbn [feeder_feed NNTPResponse_feeder]. unfold Feed.
  destruct (decode write decodeFn r buf out) as [d| | |] eqn:Hd; try done. cbn [outcome_bind].
  intros [= <- <- He <- <- <-]. by apply decode_tail with (1 := Hd).
Qed.

(** With such a decoder that never overruns, [NNTPResponse] is a [streamFeeder]. *)
Definition NNTPResponse_streamFeeder (Hok : ~ overruns decodeFn) : streamFeeder NNTPResponse W :=
  {| stream_byteFeeder := NNTPResponse_feeder; feeder_total := Hok; feeder_keeps := Feed_keeps |}.
End NNTPFeeder.

Lemma plain_scan_written buf : forall n,
  match plain_scan buf n with
  | (o, m, EndNone) => zlen o <= m - n
  | (o, m, EndControl) => zlen o <= m - n - 2
  | (o, m, EndArticle) => zlen o <= m - n - 3
  end.
Proof.
  induction buf as [|c buf IH]; intros n; [unfold zlen; simpl; lia|].
  cbn [plain_scan]. destruct (has_prefix (crlf ++ bs "=y") _); [unfold zlen; simpl; lia|].
  destruct (has_prefix (crlf ++ bs "." ++ crlf) _); [unfold zlen; simpl; lia|].
  specialize (IH (n + 1)). destruct (plain_scan buf (n + 1)) as [[o m] e].
  destruct (_ || _), e; rewrite ?zlen_cons; lia.
Qed.

Lemma plain_decode_keeps : decoder_keeps plain_decode.
Proof.
  intros buf st. unfold plain_decode. pose proof (plain_scan_written buf 0) as H.
  pose proof (plain_scan_bounds buf 0) as B.
  destruct (plain_scan buf 0) as [[o m] e]. unfold yr_backup. simpl.
  assert (Hk : exists k, Z.to_nat (m - match e with EndNone => 0 | EndControl => 2 | EndArticle => 3 end) =
            (length o + k)%nat).
  { exists (Z.to_nat (m - match e with EndNone => 0 | EndControl => 2 | EndArticle => 3 end) - length o)%nat.
    unfold zlen in *. destruct e; lia. }
  rewrite overwrite_same by (rewrite length_app, length_drop; unfold zlen in *; lia).
  destruct Hk as (k & ->). by rewrite drop_app_add, drop_drop.
Qed.
