(* ===== verification/ByteCount.v ===== *)
(** The decoder's byte counter ([BytesConsumed] of [reader.go]) is only a
    counter: no step of the decoder depends on it. *)
From S2P Require Import Prelude Errors Reader.

(** ** The byte counter is only a counter *)

Section BytesConsumed.
Context {W : Type} (write : W -> bytes -> W * error).
Context (decodeFn : bytes -> YState -> yenc_result).

Definition set_consumed (m : Z) (r : NNTPResponse) : NNTPResponse := r <| BytesConsumed := m |>.

Lemma fire_meta_consumed m r : fire_meta (set_consumed m r) = set_consumed m (fire_meta r).
Proof. by destruct r as [? ? ? ? ? ? ? ? ? ? ? ? ? ? ? ? ? ? ? ? ? ? [] ? ? ?]. Qed.

Lemma process_ybegin_consumed m r line :
  process_ybegin (set_consumed m r) line = set_consumed m (process_ybegin r line).
Proof.
  unfold process_ybegin, set_headerErr.
  set (data := drop (length (bs "=ybegin")) line).
  destruct (extractInt data (bs " size=")) as [? []],
    (extractString data _) as [? []], (extractInt data (bs " part=")) as [? []],
    (extractInt data (bs " total=")) as [? []], (contains (bs " part=") data), (contains (bs " total=") data);
    destruct r as [? ? ? ? ? ? ? ? ? ? ? ? ? ? ? ? ? ? ? ? ? ? [] ? ? ?]; reflexivity.
Qed.

Lemma process_ypart_consumed m r line :
  process_ypart (set_consumed m r) line = set_consumed m (process_ypart r line).
Proof.
  unfold process_ypart, set_headerErr.
  set (data := drop (length (bs "=ypart")) line).
  destruct (extractInt data (bs " begin=")) as [b []],
    (extractInt data (bs " end=")) as [e []]; cbn [is_nil negb orb andb];
    try destruct (b <=? 0); try destruct (b <=? e); try destruct (0 <? b);
    destruct r as [? ? ? ? ? ? ? ? ? ? ? ? ? ? ? ? ? ? ? ? ? ? [] ? ? ?]; reflexivity.
Qed.

Lemma process_yend_consumed m r line :
  process_yend (set_consumed m r) line = set_consumed m (process_yend r line).
Proof.
  unfold process_yend, set_headerErr.
  set (data := drop (length (bs "=yend")) line).
  destruct (contains (bs " pcrc32=") data), (contains (bs " crc32=") data),
    (extractCRC data (bs " pcrc32=")) as [? []], (extractCRC data (bs " crc32=")) as [? []],
    (extractInt data _) as [? []];
    destruct r as [? ? ? ? ? ? ? ? ? ? ? ? ? ? ? ? ? [] [] ? ? ? ? ? ? ?]; reflexivity.
Qed.

Lemma processYencHeader_consumed m r line :
  processYencHeader (set_consumed m r) line = set_consumed m (processYencHeader r line).
Proof.
  unfold processYencHeader.
  destruct (has_prefix _ _); [apply process_ybegin_consumed|].
  destruct (has_prefix _ _); [apply process_ypart_consumed|].
  by destruct (has_prefix _ _); [apply process_yend_consumed|].
Qed.

Lemma detectFormat_consumed m r line :
  detectFormat (set_consumed m r) line = set_consumed m (detectFormat r line).
Proof.
  unfold detectFormat. destruct r. simpl. repeat (case_match; try done).
Qed.

Lemma status_line_consumed m r line :
  status_line (set_consumed m r) line =
  (fun '(r', e, b) => (set_consumed m r', e, b)) <$> status_line r line.
Proof. unfold status_line. destruct r. simpl. repeat (case_match; try done). Qed.

Lemma decodeYenc_consumed m r buf out :
  decodeYenc write decodeFn (set_consumed m r) buf out =
  let*! res := decodeYenc write decodeFn r buf out in
  let '(n, e, r', out', buf') := res in Done (n, e, set_consumed m r', out', buf').
Proof.
  unfold decodeYenc. destruct buf as [|c buf]; [done|]. cbv zeta.
  change (State (set_consumed m r)) with (State r).
  set (d := decodeFn (c :: buf) (State r)). set (mem := overwrite (yr_buf d) (c :: buf)).
  assert (Hfin : decodeYenc_finish write (set_consumed m r <| State := yr_state d |>) d mem out =
    let*! res := decodeYenc_finish write (r <| State := yr_state d |>) d mem out in
    let '(n, e, r', out', buf') := res in Done (n, e, set_consumed m r', out', buf')).
  { unfold decodeYenc_finish, set_consumed. destruct r. simpl.
    destruct (0 <? yr_produced d); cbn [outcome_bind].
    - destruct (_ <? _); [done|]. destruct (write out _) as [out' [e|]]; [done|]. cbn [outcome_bind].
      destruct (yr_end d); simpl; try destruct (decide (yr_state d = _)); done.
    - destruct (yr_end d); simpl; try destruct (decide (yr_state d = _)); done. }
  destruct (yr_err d); [|exact Hfin].
  change (strictDecodeErrors ((set_consumed m r) <| State := yr_state d |>)) with (strictDecodeErrors r).
  change (strictDecodeErrors (r <| State := yr_state d |>)) with (strictDecodeErrors r).
  destruct (strictDecodeErrors r); [done|exact Hfin].
Qed.

Definition set_consumed_dec (m : Z) (o : outcome (@dec_result W)) : outcome dec_result :=
  let*! d := o in Done (mkDec (d_read d) (d_err d) (set_consumed m (d_resp d)) (d_out d) (d_mem d)).

Lemma decode_lines_consumed m fuel : forall r pre buf out read,
  decode_lines write decodeFn fuel (set_consumed m r) pre buf out read =
  set_consumed_dec m (decode_lines write decodeFn fuel r pre buf out read).
Proof.
  induction fuel as [|fuel IH]; intros r pre buf out read; [done|]. cbn [decode_lines].
  destruct (cut_at crlf buf) as [[line rest]|]; [|done]. case_bool_decide; [done|].
  rewrite status_line_consumed.
  destruct (status_line r line) as [[[r' e] [|]]|]; simpl; [done|apply IH|].
  replace (if decide (Format_ (set_consumed m r) = FormatUnknown)
           then detectFormat (set_consumed m r) line else set_consumed m r)
    with (set_consumed m (if decide (Format_ r = FormatUnknown) then detectFormat r line else r)).
  2: { change (Format_ (set_consumed m r)) with (Format_ r).
       destruct (decide _); [by rewrite detectFormat_consumed|done]. }
  set (r1 := if decide _ then _ else _). change (Format_ (set_consumed m r1)) with (Format_ r1).
  change ((set_consumed m r1) <| Lines := Lines (set_consumed m r1) ++ [line] |>) with
    (set_consumed m (r1 <| Lines := Lines r1 ++ [line] |>)).
  destruct (Format_ r1); [apply IH| |apply IH].
  rewrite processYencHeader_consumed.
  change (body (set_consumed m ?x)) with (body x).
  destruct (body (processYencHeader r1 line)); [|apply IH].
  rewrite decodeYenc_consumed.
  destruct (decodeYenc write decodeFn _ rest out) as [[[[[n err] r'] out'] buf']| | |]; try done. cbn [outcome_bind].
  destruct (slice_from n buf'); [|done].
  change (body (set_consumed m r')) with (body r'). destruct (_ || _); [done|apply IH].
Qed.

Lemma decode_consumed m r buf out :
  decode write decodeFn (set_consumed m r) buf out = set_consumed_dec m (decode write decodeFn r buf out).
Proof.
  unfold decode. change (body (set_consumed m r)) with (body r).
  change (Format_ (set_consumed m r)) with (Format_ r).
  destruct (body r && _).
  - rewrite decodeYenc_consumed.
    destruct (decodeYenc write decodeFn r buf out) as [[[[[n [e|]] r'] out'] buf']| | |]; try done. cbn [outcome_bind].
    destruct (slice_from n buf'); [|done].
    change (body (set_consumed m r')) with (body r'). destruct (body r'); [done|].
    apply decode_lines_consumed.
  - destruct (negb (body r)); [apply decode_lines_consumed|done].
Qed.
End BytesConsumed.
