(* ===== verification/Framing.v ===== *)
(** Responses on a pipelined connection: whatever pieces the network delivers
    ([readBuffer.go], [reader.go]).

    The decoder's step lemmas of Reader.v and the buffer's of ReadBuffer.v meet
    here: a response outside BODY and ARTICLE is taken off the stream exactly,
    and the bytes of the next response stay in the buffer. *)
From S2P Require Import Prelude Errors Reader ByteCount ReadBuffer.

(** ** Prefixes of a response *)

Section Prefix.
Context {W : Type} (write : W -> bytes -> W * error).
Context (decodeFn : bytes -> YState -> yenc_result).

Lemma status_line_goes_on r line r' e :
  status_line r line = Some (r', e, false) -> eof r' = eof r /\ Format_ r' = Format_ r.
Proof. unfold status_line. repeat (case_match; try done). intros; by simplify_eq/=. Qed.

Lemma detectFormat_eof r line : eof (detectFormat r line) = eof r.
Proof. unfold detectFormat. repeat (case_match; try done). Qed.

Lemma cut_at_len a line rest :
  cut_at crlf a = Some (line, rest) -> length a = (length line + 2 + length rest)%nat.
Proof. intros ->%cut_at_Some. rewrite !length_app. simpl. lia. Qed.

(** A run that stopped is not changed by what follows in the buffer. *)
Lemma decode_lines_stopped f1 : forall r pre a out read d b f2,
  decode_lines write decodeFn f1 r pre a out read = Done d -> eof r = false ->
  Format_ (d_resp d) <> FormatYenc -> d_err d <> None \/ eof (d_resp d) = true ->
  (length a < f1)%nat -> (length (a ++ b) < f2)%nat ->
  exists d', decode_lines write decodeFn f2 r pre (a ++ b) out read = Done d' /\ d_read d' = d_read d.
Proof.
  induction f1 as [|f1 IH]; intros r pre a out read d b f2 Hd Heof Hfmt Hstop H1 H2; [lia|].
  cbn [decode_lines] in Hd. destruct (cut_at crlf a) as [[line rest]|] eqn:Hcut.
  2: { simplify_eq. simpl in Hstop. destruct Hstop; congruence. }
  pose proof (cut_at_len _ _ _ Hcut) as Hla. rewrite length_app in H2.
  destruct f2 as [|f2]; [lia|]. cbn [decode_lines]. rewrite (cut_at_app _ _ b _ _ Hcut).
  case_bool_decide; [simplify_eq; by eexists|].
  assert (Hgo : forall r1, eof r1 = false ->
    decode_lines write decodeFn f1 r1 (pre ++ line ++ crlf) rest out (read + (zlen line + 2)) = Done d ->
    exists d', decode_lines write decodeFn f2 r1 (pre ++ line ++ crlf) (rest ++ b) out
      (read + (zlen line + 2)) = Done d' /\ d_read d' = d_read d).
  { intros r1 Hr1 Hd1. eapply IH; try done; [lia|]. rewrite length_app. lia. }
  destruct (status_line r line) as [[[r1 e] [|]]|] eqn:Hst.
  - simplify_eq. by eexists.
  - apply status_line_goes_on in Hst as [He _]. apply Hgo; congruence.
  - set (r1 := if decide _ then _ else _) in *.
    assert (Her : eof r1 = false).
    { unfold r1. destruct (decide _); [by rewrite detectFormat_eof|done]. }
    destruct (Format_ r1) eqn:Hf; [by apply Hgo| |by apply Hgo].
    exfalso. apply Hfmt. clear Hgo.
    assert (Hf2 : Format_ (processYencHeader r1 line) = FormatYenc) by (by rewrite processYencHeader_format).
    destruct (body (processYencHeader r1 line)); [|by eapply decode_lines_yenc].
    pose proof (decodeYenc_format write decodeFn (processYencHeader r1 line) rest out Hf2) as Hf3.
    destruct (decodeYenc write decodeFn _ rest out) as [[[[[n err] r'] out'] buf']| | |]; try done.
    cbn [outcome_bind] in Hd. destruct (slice_from n buf'); [|done].
    destruct (_ || _); [by simplify_eq|by eapply decode_lines_yenc].
Qed.

(** A run that met yEnc (the only thing to slice out of range) does so with more input,
    too. *)
Definition met_yenc (o : outcome (@dec_result W)) : Prop :=
  match o with Done d => Format_ (d_resp d) = FormatYenc | Panicked => True | _ => False end.

Lemma decode_lines_yenc_more f1 : forall r pre a out read b f2 d',
  met_yenc (decode_lines write decodeFn f1 r pre a out read) ->
  decode_lines write decodeFn f2 r pre (a ++ b) out read = Done d' -> Format_ (d_resp d') = FormatYenc.
Proof.
  induction f1 as [|f1 IH]; intros r pre a out read b f2 d' Hd Hd'; [done|].
  cbn [decode_lines] in Hd. destruct (cut_at crlf a) as [[line rest]|] eqn:Hcut.
  2: { by eapply decode_lines_yenc. }
  destruct f2 as [|f2]; [done|]. cbn [decode_lines] in Hd'. rewrite (cut_at_app _ _ b _ _ Hcut) in Hd'.
  case_bool_decide; [by simplify_eq/=|].
  destruct (status_line r line) as [[[r1 e] [|]]|] eqn:Hst; [by simplify_eq/=|by eapply IH|].
  set (r1 := if decide _ then _ else _) in *.
  destruct (Format_ r1) eqn:Hf1; [by eapply IH| |by eapply IH].
  assert (Hf2 : Format_ (processYencHeader r1 line) = FormatYenc) by (by rewrite processYencHeader_format).
  destruct (body (processYencHeader r1 line)); [|by eapply decode_lines_yenc].
  pose proof (decodeYenc_format write decodeFn (processYencHeader r1 line) (rest ++ b) out Hf2) as Hf3.
  destruct (decodeYenc write decodeFn _ (rest ++ b) out) as [[[[[n err] r'] out'] buf']| | |]; try done.
  cbn [outcome_bind] in Hd'. destruct (slice_from n buf'); [|done].
  destruct (_ || _); [by simplify_eq|by eapply decode_lines_yenc].
Qed.

(** Outside yEnc the writer makes no difference. *)
Lemma decode_lines_any_out fuel : forall r pre buf out read d out2,
  decode_lines write decodeFn fuel r pre buf out read = Done d -> Format_ (d_resp d) <> FormatYenc ->
  decode_lines write decodeFn fuel r pre buf out2 read =
    Done (mkDec (d_read d) (d_err d) (d_resp d) out2 (d_mem d)).
Proof.
  induction fuel as [|fuel IH]; intros r pre buf out read d out2 Hd Hf; [done|]. cbn [decode_lines] in Hd |- *.
  destruct (cut_at crlf buf) as [[line rest]|]; [|by simplify_eq].
  case_bool_decide; [by simplify_eq|].
  destruct (status_line r line) as [[[r1 e] [|]]|]; [by simplify_eq|by eapply IH|].
  set (r1 := if decide _ then _ else _) in *. destruct (Format_ r1) eqn:Hf1; [by eapply IH| |by eapply IH].
  assert (Hf2 : Format_ (processYencHeader r1 line) = FormatYenc) by (by rewrite processYencHeader_format).
  destruct Hf. destruct (body (processYencHeader r1 line)); [|by eapply decode_lines_yenc].
  pose proof (decodeYenc_format write decodeFn (processYencHeader r1 line) rest out Hf2) as Hf3.
  destruct (decodeYenc write decodeFn _ rest out) as [[[[[n err] r'] out'] buf']| | |]; try done.
  cbn [outcome_bind] in Hd. destruct (slice_from n buf'); [|done].
  destruct (_ || _); [by simplify_eq|by eapply decode_lines_yenc].
Qed.

(** Outside yEnc the writer is not used, and a body once entered stays. *)
Lemma decode_quiet r buf out d :
  decode write decodeFn r buf out = Done d -> Format_ (d_resp d) <> FormatYenc -> d_out d = out.
Proof.
  intros Hd Hf.
  cut ((fun r w => w = out \/ Format_ r = FormatYenc) (d_resp d) (d_out d)); [naive_solver|].
  eapply (decode_preserves write decodeFn); [..|exact Hd|by left].
  - intros r0 line w r' e s. unfold status_line. case_decide; [|done].
    intros Hst [->|?]; [by left|congruence].
  - intros r0 line w ? [->|?]; [by left|congruence].
  - intros r0 l w ? [->|?]; [by left|congruence].
  - done.
  - intros r0 line w Hy _. right. by rewrite processYencHeader_format.
  - intros r0 b w Hy _. pose proof (decodeYenc_format write decodeFn r0 b w Hy) as Hy'.
    destruct (decodeYenc write decodeFn r0 b w) as [[[[[? ?] ?] ?] ?]| | |]; try done. by right.
Qed.

Lemma decode_lines_body_stays fuel r pre buf out read d :
  decode_lines write decodeFn fuel r pre buf out read = Done d -> body r = true ->
  Format_ (d_resp d) <> FormatYenc -> body (d_resp d) = true.
Proof.
  intros Hd Hb Hf.
  cut ((fun r (_ : W) => body r = true \/ Format_ r = FormatYenc) (d_resp d) (d_out d)); [naive_solver|].
  eapply (decode_lines_preserves write decodeFn); [..|exact Hd|by left].
  - intros r0 line w r' e s. unfold status_line. case_decide; [|done].
    intros Hst [Hb'|?]; [left|congruence]. revert Hst. repeat (case_match; try done); intros; by simplify_eq/=.
  - intros r0 line w Hu [Hb'|?]; [|congruence]. unfold detectFormat.
    repeat (case_match; try tauto; try (right; reflexivity); try (left; done)).
  - intros r0 l w Hu [Hb'|?]; [by left|congruence].
  - done.
  - intros r0 line w Hy _. right. by rewrite processYencHeader_format.
  - intros r0 b w Hy _. pose proof (decodeYenc_format write decodeFn r0 b w Hy) as Hy'.
    destruct (decodeYenc write decodeFn r0 b w) as [[[[[? ?] ?] ?] ?]| | |]; try done. by right.
Qed.
End Prefix.

(** ** A response the decoder will complete *)

Section Completes.
Context {W : Type} (write : W -> bytes -> W * error).
Context (decodeFn : bytes -> YState -> yenc_result).
(** What is wanted of the decoder at the end. *)
Context (R : NNTPResponse -> Prop).
Hypothesis R_consumed : forall m r, R r -> R (set_consumed m r).

(** From [r], the bytes [w] are a whole response, whatever follows them and whatever
    the writer. *)
Definition completes (r : NNTPResponse) (w : bytes) : Prop :=
  body r = false /\ eof r = false /\
  forall x out, exists d, decode write decodeFn r (w ++ x) out = Done d /\ d_read d = zlen w /\
    d_err d = None /\ eof (d_resp d) = true /\ body (d_resp d) = false /\
    Format_ (d_resp d) <> FormatYenc /\ R (d_resp d).

Lemma completes_consumed m r w : completes r w -> completes (set_consumed m r) w.
Proof.
  intros (Hb & He & Hx). split; [done|]. split; [done|]. intros x out.
  destruct (Hx x out) as (d & Hd & H1 & H2 & H3 & H4 & H5 & H6).
  rewrite decode_consumed, Hd. eexists. split; [reflexivity|]. cbn [d_read d_err d_resp].
  split_and!; try done. by apply R_consumed.
Qed.

(** Enough bytes: the response is done, exactly. *)
Lemma completes_feed_all r w x out :
  completes r w ->
  exists r', Feed write decodeFn r (w ++ x) out = Done (zlen w, true, None, r', out, w ++ x) /\ R r'.
Proof.
  intros (Hb & He & Hx). destruct (Hx x out) as (d & Hd & H1 & H2 & H3 & H4 & H5 & H6).
  assert (Hmem : d_mem d = w ++ x).
  { unfold decode in Hd. rewrite Hb in Hd. cbn [andb negb] in Hd. by apply decode_lines_mem in Hd. }
  unfold Feed. rewrite Hd. cbn [outcome_bind]. rewrite H1, H2, Hmem.
  rewrite (decode_quiet write decodeFn r (w ++ x) out d Hd H5).
  eexists. split; [|by apply (R_consumed (BytesConsumed (d_resp d) + zlen w))].
  change (eof ((d_resp d) <| BytesConsumed := BytesConsumed (d_resp d) + zlen w |>)) with (eof (d_resp d)).
  by rewrite H3.
Qed.

(** Not enough: some whole lines are consumed and the rest will do. *)
Lemma completes_feed_part r a b out :
  completes r (a ++ b) -> b <> [] ->
  exists n r', Feed write decodeFn r a out = Done (n, false, None, r', out, a) /\
    0 <= n <= zlen a /\ completes r' (drop (Z.to_nat n) a ++ b).
Proof.
  intros (Hb & He & Hx) Hne.
  assert (Hdec : forall buf out, decode write decodeFn r buf out =
    decode_lines write decodeFn (S (length buf)) r [] buf out 0) by (intros; unfold decode; by rewrite Hb).
  assert (Hbpos : 0 < zlen b) by (destruct b as [|c b']; [done|]; zlen_simp; pose proof (zlen_nonneg b'); lia).
  (* the run on the prefix neither met yEnc nor stopped *)
  destruct (Hx [] out) as (d0 & Hd0 & Hr0 & _ & _ & _ & Hf0 & _).
  rewrite app_nil_r, Hdec in Hd0.
  assert (Hd : exists d, decode_lines write decodeFn (S (length a)) r [] a out 0 = Done d).
  { pose proof (decode_lines_bounds write decodeFn (S (length a)) r [] a out 0) as B.
    destruct (decode_lines _ _ _ _ _ a _ _) as [d| | |] eqn:E; try (exfalso; apply B; lia); [by exists d|].
    exfalso. apply Hf0. eapply (decode_lines_yenc_more write decodeFn (S (length a))); [|exact Hd0].
    by rewrite E. }
  destruct Hd as (d & Hd).
  pose proof (decode_lines_bounds write decodeFn (S (length a)) r [] a out 0) as B. rewrite Hd in B.
  destruct B as [Hn _]; [lia|]. rewrite Z.add_0_l in Hn.
  assert (Hfmt : Format_ (d_resp d) <> FormatYenc).
  { intros Hy. apply Hf0. eapply (decode_lines_yenc_more write decodeFn (S (length a))); [|exact Hd0].
    by rewrite Hd. }
  assert (Hns : d_err d = None /\ eof (d_resp d) = false).
  { destruct (d_err d) eqn:E1, (eof (d_resp d)) eqn:E2; try (by split); exfalso.
    all: destruct (decode_lines_stopped write decodeFn _ _ _ _ _ _ _ b (S (length (a ++ b))) Hd He Hfmt)
      as (d' & Hd' & Hr'); [rewrite ?E1, ?E2; auto|lia|lia|].
    all: rewrite Hd0 in Hd'; injection Hd' as <-; rewrite Hr0, zlen_app in Hr'; lia. }
  destruct Hns as [Herr Heof].
  assert (Hsplit : forall x out2 f3, (length (drop (Z.to_nat (d_read d)) a ++ b ++ x) < f3)%nat ->
    decode write decodeFn r (a ++ b ++ x) out2 =
    shift_dec (d_read d) (take (Z.to_nat (d_read d)) a)
      (decode_lines write decodeFn f3 (d_resp d) [] (drop (Z.to_nat (d_read d)) a ++ b ++ x) out2 0)).
  { intros x out2 f3 Hf3. rewrite Hdec.
    rewrite (decode_lines_split write decodeFn _ _ _ _ _ _ _ (b ++ x) _ f3
      (decode_lines_any_out write decodeFn _ _ _ _ _ _ _ out2 Hd Hfmt) Herr Heof Hfmt);
      cbn [d_read d_resp d_out]; rewrite ?Z.sub_0_r; try lia; try done.
    by rewrite <- decode_lines_shift, Z.add_0_r, app_nil_r. }
  assert (Hbody : body (d_resp d) = false).
  { destruct (body (d_resp d)) eqn:E; [|done]. exfalso.
    destruct (Hx [] out) as (d1 & Hd1 & _ & _ & _ & Hb1 & Hf1 & _).
    rewrite <- app_assoc in Hd1.
    rewrite (Hsplit [] out (S (length (drop (Z.to_nat (d_read d)) a ++ b ++ [])))) in Hd1 by lia.
    destruct (decode_lines _ _ _ (d_resp d) _ _ _ _) as [d2| | |] eqn:E2; try done.
    simpl in Hd1. injection Hd1 as <-. simpl in Hb1, Hf1.
    rewrite (decode_lines_body_stays write decodeFn _ _ _ _ _ _ _ E2) in Hb1; done. }
  pose proof (decode_lines_mem write decodeFn _ _ _ _ _ _ _ Hd Hfmt) as Hmem. rewrite <- Hdec in Hd.
  pose proof (decode_quiet write decodeFn r a out d Hd Hfmt) as Hout.
  unfold Feed. rewrite Hd. cbn [outcome_bind]. rewrite Herr, Hout, Hmem.
  exists (d_read d). eexists. split.
  { change (eof ((d_resp d) <| BytesConsumed := ?n |>)) with (eof (d_resp d)). by rewrite Heof. }
  split; [done|]. apply (completes_consumed (BytesConsumed (d_resp d) + d_read d)).
  split; [done|]. split; [done|]. intros x out2.
  destruct (Hx x out2) as (d1 & Hd1 & H1 & H2 & H3 & H4 & H5 & H6).
  rewrite <- app_assoc, (Hsplit x out2 (S (length (drop (Z.to_nat (d_read d)) a ++ b ++ x)))) in Hd1 by lia.
  rewrite <- app_assoc. unfold decode. rewrite Hbody. cbn [andb negb].
  destruct (decode_lines _ _ _ (d_resp d) _ _ _ _) as [d2| | |]; try done.
  simpl in Hd1. injection Hd1 as <-. simpl in *. exists d2. split_and!; try done.
  rewrite zlen_app in H1. rewrite zlen_app. unfold zlen in *. rewrite length_drop. lia.
Qed.
End Completes.

(** ** The loop takes the response off the stream *)

(** The next [n] bytes arrive without a read error. *)
Definition arrives (conn : Conn) (n : Z) : Prop :=
  exists chunks more, conn_script conn = ((fun d => (d, None)) <$> chunks) ++ more /\
    n <= zlen (concat chunks).

Lemma arrives_le conn n m : arrives conn n -> m <= n -> arrives conn m.
Proof. intros (cs & more & Hs & Hn) Hm. exists cs, more. split; [done|lia]. Qed.

Lemma conn_read_arrives c n room data e c' :
  arrives c n -> 0 < n -> conn_read c room = Done (data, e, c') -> e = None /\ arrives c' (n - zlen data).
Proof.
  intros (chunks & more & Hs & Hn) Hpos. unfold conn_read. rewrite Hs.
  destruct chunks as [|d chunks]; [simpl in Hn; unfold zlen in Hn; simpl in Hn; lia|].
  rewrite fmap_cons, <- app_comm_cons. simpl concat in Hn. rewrite zlen_app in Hn.
  case_decide; intros [= <- <- <-]; (split; [done|]).
  - exists chunks, more. split; [done|lia].
  - exists (drop room d :: chunks), more. split; [done|]. simpl concat. rewrite zlen_app.
    unfold zlen in *. rewrite length_drop, length_take. lia.
Qed.

Section Receive.
Context {W C : Type} (write : W -> bytes -> W * error).
Context (decodeFn : bytes -> YState -> yenc_result).
Context (R : NNTPResponse -> Prop).
Hypothesis R_consumed : forall m r, R r -> R (set_consumed m r).
(** A [control] that lets the loop run while [Pc] holds of its variables and the writer. *)
Context (control : C -> W -> Z -> Z -> control_result * C * W).
Context (Pc : C -> W -> Prop).
Hypothesis control_runs : forall c w x y, Pc c w -> exists a c' w',
  control c w x y = (a, c', w') /\ ctl_err a = None /\ ctl_maxFeed a = 0 /\ Pc c' w'.

#[local] Instance feeder : byteFeeder NNTPResponse W := NNTPResponse_feeder write decodeFn.
Abbreviation lstate := (loop_state NNTPResponse W C).

Lemma ask_runs (s : lstate) : Pc (l_ctl s) (l_out s) -> exists a s',
  ask control s = (a, s') /\ ctl_err a = None /\ ctl_maxFeed a = 0 /\ l_rb s' = l_rb s /\
  l_conn s' = l_conn s /\ l_feeder s' = l_feeder s /\ Pc (l_ctl s') (l_out s').
Proof.
  intros HP. unfold ask.
  destruct (control_runs (l_ctl s) (l_out s) (l_wire s) (l_consumed s) HP) as (a & c' & w' & -> & He & Hm & HP').
  do 2 eexists. split; [reflexivity|]. done.
Qed.

(** The loop's states while [w] is still to come, and [tail] after it. *)
Definition receiving (w tail : bytes) (s : lstate) : Prop :=
  rb_ready (l_rb s) /\ completes write decodeFn R (l_feeder s) w /\ Pc (l_ctl s) (l_out s) /\
  unread (l_rb s) ++ conn_bytes (l_conn s) = w ++ tail /\
  arrives (l_conn s) (zlen w - zlen (unread (l_rb s))) /\ zlen w <= maxReadBufSize.

Lemma receiving_ask w tail s :
  receiving w tail s -> exists a s', ask control s = (a, s') /\ ctl_err a = None /\
    ctl_maxFeed a = 0 /\ receiving w tail s' /\
    unread (l_rb s') = unread (l_rb s) /\ l_conn s' = l_conn s.
Proof.
  intros H. destruct (ask_runs s) as (a & s' & Ha & He & Hm & E1 & E2 & E3 & E4); [apply H|].
  exists a, s'. unfold receiving in *. rewrite E1, E2, E3. naive_solver.
Qed.

Lemma receiving_read w tail s :
  receiving w tail s -> zlen (unread (l_rb s)) < zlen w ->
  exists s', ask_and_read control s = Done (None, s') /\ receiving w tail s' /\
    (script_measure (l_conn s') < script_measure (l_conn s))%nat.
Proof.
  intros (Hr & Hc & HP & Hs & Harr & Hmax) Hlt. unfold ask_and_read.
  destruct (ask_runs s HP) as (a & s1 & -> & He & _ & E1 & E2 & E3 & E4). rewrite He, E1, E2.
  assert (Harr0 : forall c0, conn_script c0 = conn_script (l_conn s) -> arrives c0 (zlen w - zlen (unread (l_rb s)))).
  { intros c0 E. unfold arrives. by rewrite E. }
  destruct (readMore_ok (l_rb s) (l_conn s) (ctl_deadline a) (ctl_hasDeadline a) Hr)
    as [(_ & _ & Hno)|(n & e & rb & conn & -> & Hr' & Hn & Hs' & Hz & _ & Hm & Hroom & _)].
  { destruct Harr as (chunks & more & Hno' & Hle). rewrite Hno in Hno'. destruct chunks; [|done].
    change (zlen w - zlen (unread (l_rb s)) <= 0) in Hle. lia. }
  destruct Hroom as (room & c0 & data & Hpos & Hc0 & Hrd & ->); [lia|].
  specialize (Harr0 c0 Hc0). destruct (conn_read_arrives _ _ _ _ _ _ Harr0 ltac:(lia) Hrd) as [-> Harr'].
  eexists. cbn [outcome_bind]. split; [reflexivity|]. split; [|by apply Hm].
  unfold receiving. simpl. rewrite E3, Hz. split_and!; try done; [congruence|].
  eapply arrives_le; [exact Harr'|lia].
Qed.

(** What [feed_window] does with an answer that left the slice as it was. *)
Lemma feed_window_known (s : lstate) n dn f' out' :
  rb_ready (l_rb s) ->
  Feed write decodeFn (l_feeder s) (unread (l_rb s)) (l_out s) = Done (n, dn, None, f', out', unread (l_rb s)) ->
  exists s', feed_window 0 s = Done (n, dn, None, s') /\ l_feeder s' = f' /\ l_out s' = out' /\
    l_ctl s' = l_ctl s /\ l_conn s' = l_conn s /\ consumed_from s s' /\ l_consumed s' = l_consumed s + n.
Proof.
  intros Hr Hf. destruct (feed_window_ok 0 s Hr) as [Hst|(n1 & dn1 & e1 & s2 & Hw2 & _ & Hcf & _ & Hn & _ & Hc & Hctl & _)].
  - exfalso. unfold feed_window in Hst. rewrite window_ok in Hst by apply Hr. cbn [outcome_bind] in Hst.
    change (limit_feed 0 (unread (l_rb s))) with (unread (l_rb s)) in Hst.
    change (feeder_feed (l_feeder s) (unread (l_rb s)) (l_out s)) with
      (Feed write decodeFn (l_feeder s) (unread (l_rb s)) (l_out s)) in Hst. rewrite Hf in Hst.
    by destruct Hst as [[? _]|[? _]].
  - change (limit_feed 0 (unread (l_rb s))) with (unread (l_rb s)) in Hcf.
    change (feeder_feed (l_feeder s) (unread (l_rb s)) (l_out s)) with
      (Feed write decodeFn (l_feeder s) (unread (l_rb s)) (l_out s)) in Hcf. rewrite Hf in Hcf.
    assert (E : feed_window 0 s = Done (n, dn, None, s2) /\ l_feeder s2 = f' /\ l_out s2 = out').
    { rewrite Hw2. unfold feed_window in Hw2. rewrite window_ok in Hw2 by apply Hr. cbn [outcome_bind] in Hw2.
      change (limit_feed 0 (unread (l_rb s))) with (unread (l_rb s)) in Hw2.
      change (feeder_feed (l_feeder s) (unread (l_rb s)) (l_out s)) with
        (Feed write decodeFn (l_feeder s) (unread (l_rb s)) (l_out s)) in Hw2. rewrite Hf in Hw2.
      cbn [outcome_bind] in Hw2. destruct (0 <? n); injection Hw2 as <- <- <- <-; done. }
    destruct E as (E1 & E2 & E3). rewrite E1 in Hw2. injection Hw2 as <- <- <-.
    exists s2. split_and!; try done. apply Hcf; [done|]. by intros ? ? ? ? ? [= <- <- <- <- <-].
Qed.

Lemma receiving_feed_all w tail s :
  receiving w tail s -> zlen w <= zlen (unread (l_rb s)) ->
  exists s', feed_window 0 s = Done (zlen w, true, None, s') /\ rb_ready (l_rb s') /\
    R (l_feeder s') /\ Pc (l_ctl s') (l_out s') /\ unread (l_rb s') ++ conn_bytes (l_conn s') = tail.
Proof.
  intros (Hr & Hc & HP & Hs & Harr & Hmax) Hle.
  assert (Hu : exists x, unread (l_rb s) = w ++ x /\ tail = x ++ conn_bytes (l_conn s)).
  { exists (drop (length w) (unread (l_rb s))). unfold zlen in Hle.
    pose proof (f_equal (take (length w)) Hs) as H1. pose proof (f_equal (drop (length w)) Hs) as H2.
    rewrite take_app_le, take_app_length in H1 by lia. rewrite drop_app_le, drop_app_length in H2 by lia.
    split; [|done]. by rewrite <- H1 at 1; rewrite take_drop. }
  destruct Hu as (x & Hu & ->).
  destruct (completes_feed_all write decodeFn R R_consumed (l_feeder s) w x (l_out s) Hc) as (r' & Hf & HR).
  rewrite <- Hu in Hf.
  destruct (feed_window_known s _ _ _ _ Hr Hf) as (s' & Hw & Hf' & Ho' & Hctl & Hconn & [(Hr' & _) Hst] & Hn).
  exists s'. rewrite Hf', Ho', Hctl. split_and!; try done; [apply Hr'..|].
  unfold stream in Hst. rewrite Hst, Hs, Hn. replace (l_consumed s + zlen w - l_consumed s) with (zlen w) by lia.
  unfold zlen. by rewrite Nat2Z.id, drop_app_length.
Qed.

Lemma receiving_feed_part w tail s :
  receiving w tail s -> zlen (unread (l_rb s)) < zlen w ->
  exists n s' w', feed_window 0 s = Done (n, false, None, s') /\ receiving w' tail s' /\
    zlen (unread (l_rb s')) < zlen w' /\ l_conn s' = l_conn s.
Proof.
  intros (Hr & Hc & HP & Hs & Harr & Hmax) Hlt. set (u := unread (l_rb s)) in *.
  assert (Hb : exists b, w = u ++ b /\ b <> []).
  { exists (drop (length u) w). unfold zlen in Hlt.
    pose proof (f_equal (take (length u)) Hs) as H1.
    rewrite take_app_length, take_app_le in H1 by lia. split.
    - rewrite H1 at 1. by rewrite take_drop.
    - intros E. apply (f_equal length) in E. rewrite length_drop in E. simpl in E. lia. }
  destruct Hb as (b & -> & Hne).
  destruct (completes_feed_part write decodeFn R R_consumed (l_feeder s) u b (l_out s) Hc Hne)
    as (n & r' & Hf & Hn & Hc').
  destruct (feed_window_known s _ _ _ _ Hr Hf) as (s' & Hw & Hf' & Ho' & Hctl & Hconn & [(Hr' & _) Hst] & Hn1).
  unfold stream in Hst. rewrite Hconn in Hst. fold u in Hst.
  rewrite Hn1 in Hst. replace (l_consumed s + n - l_consumed s) with n in Hst by lia.
  rewrite drop_app_le in Hst by (unfold zlen in Hn; lia). apply app_inv_tail in Hst.
  exists n, s', (drop (Z.to_nat n) u ++ b). split; [done|]. split; [|split; [|done]].
  - unfold receiving. rewrite Hf', Ho', Hst, Hconn, Hctl. split_and!; try done.
    + rewrite <- app_assoc in Hs. apply app_inv_head in Hs. by rewrite <- app_assoc, <- Hs.
    + eapply arrives_le; [exact Harr|]. rewrite !zlen_app. lia.
    + rewrite zlen_app in *. unfold zlen in *. rewrite length_drop. lia.
  - rewrite Hst, zlen_app. destruct b as [|c b']; [done|]. zlen_simp. pose proof (zlen_nonneg b'). lia.
Qed.

Lemma receiving_same w tail (s s' : lstate) :
  receiving w tail s -> rb_ready (l_rb s') -> unread (l_rb s') = unread (l_rb s) ->
  l_conn s' = l_conn s -> l_feeder s' = l_feeder s -> l_out s' = l_out s -> l_ctl s' = l_ctl s -> receiving w tail s'.
Proof. unfold receiving. intros (Hr & H) Hr' -> -> -> -> ->. done. Qed.

Lemma feed_iteration_receiving w tail s :
  receiving w tail s -> 0 < zlen w ->
  (exists s', feed_iteration control s = Done (Some None, s') /\ rb_ready (l_rb s') /\
     R (l_feeder s') /\ Pc (l_ctl s') (l_out s') /\ unread (l_rb s') ++ conn_bytes (l_conn s') = tail) \/
  (exists s' w', feed_iteration control s = Done (None, s') /\ receiving w' tail s' /\ 0 < zlen w' /\
     (script_measure (l_conn s') < script_measure (l_conn s))%nat).
Proof.
  intros H Hpos. unfold feed_iteration.
  assert (Hfirst : exists s1, (if rb_start (l_rb s) =? rb_end (l_rb s)
      then ask_and_read control (mkLoop ((l_rb s) <| rb_start := 0 |> <| rb_end := 0 |>) (l_conn s)
             (l_feeder s) (l_out s) (l_ctl s) (l_wire s) (l_consumed s))
      else Done (None, s)) = Done (None, s1) /\ receiving w tail s1 /\
      (script_measure (l_conn s1) <= script_measure (l_conn s))%nat).
  { destruct (Z.eqb_spec (rb_start (l_rb s)) (rb_end (l_rb s))) as [He|He].
    2: { exists s. by split. }
    set (s0 := mkLoop _ _ _ _ _ _ _).
    assert (Hu : unread (l_rb s0) = [] /\ unread (l_rb s) = []).
    { split; [reflexivity|]. unfold unread. by rewrite He, Z.sub_diag. }
    destruct Hu as [Hu0 Hu].
    assert (H0 : receiving w tail s0).
    { eapply receiving_same; [exact H|..]; try done.
      destruct H as (((H1 & H2 & H3) & Hb) & _). split; [|done]. unfold rb_wf, s0. simpl. lia. }
    destruct (receiving_read w tail s0 H0) as (s1 & -> & H1 & Hm); [rewrite Hu0; done|].
    exists s1. split_and!; try done. change (l_conn s0) with (l_conn s) in Hm. lia. }
  destruct Hfirst as (s1 & -> & H1 & Hm1). cbn [outcome_bind is_nil negb].
  destruct (receiving_ask w tail s1 H1) as (a & s2 & -> & He & Hmf & H2 & Hu2 & Hc2).
  rewrite He, Hmf. cbn [is_nil negb].
  destruct (Z.le_gt_cases (zlen w) (zlen (unread (l_rb s2)))) as [Hle|Hlt].
  - left. destruct (receiving_feed_all w tail s2 H2 Hle) as (s3 & -> & Hr3 & HR & HP3 & Ht).
    cbn [outcome_bind is_nil negb].
    destruct (ask_runs s3 HP3) as (a' & s4 & -> & He' & _ & E1 & E2 & E3 & HP4). rewrite He'. cbn [is_nil negb].
    eexists. split; [reflexivity|]. by rewrite E1, E2, E3.
  - right. destruct (receiving_feed_part w tail s2 H2 Hlt) as (n & s3 & w' & -> & H3 & Hlt3 & Hc3).
    cbn [outcome_bind is_nil negb].
    destruct (receiving_ask w' tail s3 H3) as (a' & s4 & -> & He' & _ & H4 & Hu4 & Hc4).
    rewrite He'. cbn [is_nil negb].
    assert (Hcomp : exists s5, (if (n =? 0) && (0 <? rb_end (l_rb s4) - rb_start (l_rb s4))
        then let*! rb := compact (l_rb s4) in
             Done (mkLoop rb (l_conn s4) (l_feeder s4) (l_out s4) (l_ctl s4) (l_wire s4) (l_consumed s4))
        else Done s4) = Done s5 /\ receiving w' tail s5 /\ l_conn s5 = l_conn s4 /\
        unread (l_rb s5) = unread (l_rb s4)).
    { destruct (_ && _); [|by exists s4]. destruct (H4) as ((Hw & Hb) & _).
      destruct (compact_ok (l_rb s4) Hw) as (rb & -> & Hw' & Hu' & Hb' & _).
      eexists. split; [reflexivity|]. split; [|done].
      eapply receiving_same; [exact H4|..]; try done. split; [done|]. simpl. by rewrite Hb'. }
    destruct Hcomp as (s5 & -> & H5 & Hc5 & Hu5). cbn [outcome_bind].
    destruct (receiving_read w' tail s5 H5) as (s6 & -> & H6 & Hm6); [by rewrite Hu5, Hu4|].
    cbn [outcome_bind is_nil]. do 2 eexists. split; [reflexivity|]. split_and!; [done| |].
    + pose proof (zlen_nonneg (unread (l_rb s3))). lia.
    + rewrite Hc5, Hc4, Hc3, Hc2 in Hm6. lia.
Qed.

Lemma feed_loop_receives fuel : forall w tail s,
  receiving w tail s -> 0 < zlen w -> (script_measure (l_conn s) < fuel)%nat ->
  exists s', feed_loop control fuel s = Done (None, s') /\ rb_ready (l_rb s') /\
    R (l_feeder s') /\ Pc (l_ctl s') (l_out s') /\ unread (l_rb s') ++ conn_bytes (l_conn s') = tail.
Proof.
  induction fuel as [|fuel IH]; intros w tail s H Hpos Hf; [lia|]. cbn [feed_loop].
  destruct (feed_iteration_receiving w tail s H Hpos)
    as [(s' & -> & Hr)|(s' & w' & -> & H' & Hpos' & Hm)]; cbn [outcome_bind].
  - by exists s'.
  - apply (IH w' tail s' H' Hpos'). lia.
Qed.
End Receive.

(** ** Plain responses *)

Definition is_response (code : Z) (msg : bytes) (lines : list bytes) (r : NNTPResponse) : Prop :=
  StatusCode r = code /\ Message r = status_text code msg /\ Lines r = lines.

Definition plain_response (code : Z) (msg : bytes) (lines : list bytes) : Prop :=
  100 <= code < 1000 /\ code <> nntpBody /\ code <> nntpArtiicle /\ index_of crlf msg = None /\
  Forall text_line lines /\ (isMultiline code = false -> lines = []).

Lemma plain_completes {W} (write : W -> bytes -> W * error) decodeFn withMeta strict code msg lines :
  plain_response code msg lines ->
  completes write decodeFn (is_response code msg lines) (newNNTPResponse withMeta strict)
    (wire_response code msg lines).
Proof.
  intros (H1 & H2 & H3 & H4 & H5 & H6). split; [done|]. split; [done|]. intros x out.
  rewrite decode_wire by done. eexists. split; [reflexivity|]. by split_and!.
Qed.

(** What the feeding loop does with a plain response, under a [control] that lets it
    run. *)
Lemma framed_controlled {W C} (write : W -> bytes -> W * error) (decodeFn : bytes -> YState -> yenc_result)
    (control : C -> W -> Z -> Z -> control_result * C * W) (Pc : C -> W -> Prop)
    (withMeta strict : bool) (code : Z) (msg : bytes) (lines : list bytes) (tail : bytes)
    (rb : readBuffer) (conn : Conn) (out : W) (c : C) :
  (forall c w x y, Pc c w -> exists a c' w',
     control c w x y = (a, c', w') /\ ctl_err a = None /\ ctl_maxFeed a = 0 /\ Pc c' w') ->
  Pc c out -> plain_response code msg lines -> rb_ready rb ->
  let wire := wire_response code msg lines in
  zlen wire <= maxReadBufSize ->
  unread rb ++ conn_bytes conn = wire ++ tail -> arrives conn (zlen wire - zlen (unread rb)) ->
  exists s, @feedUntilDoneControlled _ _ _ (NNTPResponse_feeder write decodeFn) control rb conn
              (newNNTPResponse withMeta strict) out c = Done (None, s) /\
    is_response code msg lines (l_feeder s) /\ Pc (l_ctl s) (l_out s) /\ rb_ready (l_rb s) /\
    unread (l_rb s) ++ conn_bytes (l_conn s) = tail.
Proof.
  intros Hrun HP Hp Hr wire Hmax Hs Harr. unfold feedUntilDoneControlled.
  rewrite (init_id rb (proj2 Hr)).
  destruct (feed_loop_receives (C := C) write decodeFn (is_response code msg lines))
    with (control := control) (Pc := Pc) (fuel := S (script_measure conn)) (w := wire) (tail := tail)
         (s := mkLoop rb conn (newNNTPResponse withMeta strict) out c 0 0)
    as (s' & Hf & Hr' & HR & Ho & Ht).
  - done.
  - exact Hrun.
  - unfold receiving. split_and!; try done. by apply plain_completes.
  - destruct Hp as (Hc & _ & _ & Hm & _).
    destruct (status_text_facts decodeFn code msg Hc Hm) as (_ & _ & Hl & _).
    unfold wire, wire_response. rewrite !zlen_app. change (zlen crlf) with 2.
    match goal with |- context [zlen (if ?b then ?x else ?y)] =>
      pose proof (zlen_nonneg (if b then x else y)) end. lia.
  - simpl. lia.
  - exists s'. done.
Qed.

(** The same for [feedUntilDone]. *)
Lemma framed_ok {W} (write : W -> bytes -> W * error)
    (decodeFn : bytes -> YState -> yenc_result) (deadline : Z -> option Z)
    (withMeta strict : bool) (code : Z) (msg : bytes) (lines : list bytes) (tail : bytes)
    (rb : readBuffer) (conn : Conn) (out : W) :
  plain_response code msg lines -> rb_ready rb ->
  let wire := wire_response code msg lines in
  zlen wire <= maxReadBufSize ->
  unread rb ++ conn_bytes conn = wire ++ tail -> arrives conn (zlen wire - zlen (unread rb)) ->
  exists s, @feedUntilDone _ _ (NNTPResponse_feeder write decodeFn) rb conn
              (newNNTPResponse withMeta strict) out deadline = Done (None, s) /\
    is_response code msg lines (l_feeder s) /\ l_out s = out /\ rb_ready (l_rb s) /\
    unread (l_rb s) ++ conn_bytes (l_conn s) = tail.
Proof.
  apply (framed_controlled write decodeFn (deadline_control deadline) (fun _ w => w = out)); [|done].
  intros c w x y ->. unfold deadline_control. destruct (deadline x); do 3 eexists; by split_and!.
Qed.

(** ** Properties *)

(** C28: no byte is lost or duplicated, and nothing spins: for any decoder that
    keeps the [streamFeeder] contract, any connection and any [control], the
    loop returns after finitely many reads without an out-of-range slice, or is blocked
    in a read of a peer that neither sends nor closes; when it returns, the
    buffer keeps its invariant (its indices in order, at most 8 MiB), the bytes
    consumed and the bytes left add up to those there were, and without an error
    those left are exactly the ones behind those consumed. *)
Theorem feedUntilDone_conserves {F W C} `{streamFeeder F W}
    (control : C -> W -> Z -> Z -> control_result * C * W)
    (rb : readBuffer) (conn : Conn) (f : F) (out : W) (c : C) :
  rb_ready rb ->
  let all := unread rb ++ conn_bytes conn in
  match feedUntilDoneControlled control rb conn f out c with
  | Done (e, s) => rb_ready (l_rb s) /\
      let left_ := unread (l_rb s) ++ conn_bytes (l_conn s) in
      0 <= l_consumed s /\ l_consumed s + zlen left_ = zlen all /\
      (e = None -> left_ = drop (Z.to_nat (l_consumed s)) all)
  | Blocked => conn_silent conn = true
  | _ => False
  end.
Proof.
  intros Hr all. unfold feedUntilDoneControlled. rewrite (init_id rb (proj2 Hr)).
  destruct (feed_loop_ok control (S (script_measure conn)) (mkLoop rb conn f out c 0 0))
    as [[[-> Hf]|[-> Hb]]|(e & s & -> & (Hr' & Hc & Hl & _) & Hcf)]; [done|simpl; lia|by apply feeder_total|done|].
  unfold stream in *. simpl in *. rewrite Z.sub_0_r in *. split_and!; try done.
  intros He. destruct (Hcf feeder_keeps He) as [_ Hst]. unfold stream in Hst. simpl in Hst.
  by rewrite Z.sub_0_r in Hst.
Qed.

Lemma init_ready : rb_ready (init emptyReadBuffer).
Proof. split; [apply init_wf|reflexivity]. Qed.

(** The decoder of the witnesses as a [streamFeeder]. *)
Definition plain_streamFeeder {W} (write : W -> bytes -> W * error) : streamFeeder NNTPResponse W :=
  NNTPResponse_streamFeeder write plain_decode plain_decode_keeps plain_never_overruns.

Lemma feedUntilDone_conserves_witness :
  exists e s, @feedUntilDoneControlled _ _ _ (NNTPResponse_feeder buffer_write plain_decode)
      (deadline_control (fun _ => Some 5)) (init emptyReadBuffer)
      (mkConn [(bs "430 no", None)] []) (newNNTPResponse false false) [] tt = Done (e, s) /\
    rb_ready (l_rb s) /\ 0 <= l_consumed s /\
    l_consumed s + zlen (unread (l_rb s) ++ conn_bytes (l_conn s)) = 6.
Proof.
  pose proof (@feedUntilDone_conserves _ _ _ (plain_streamFeeder buffer_write)
      (deadline_control (fun _ => Some 5)) (init emptyReadBuffer)
      (mkConn [(bs "430 no", None)] []) (newNNTPResponse false false) [] tt
      init_ready) as H.
  cbv zeta in H. change (@stream_byteFeeder _ _ (plain_streamFeeder buffer_write)) with
    (NNTPResponse_feeder buffer_write plain_decode) in H.
  destruct (feedUntilDoneControlled _ _ _ _ _ _) as [[e s]| | |]; try done.
  destruct H as (H1 & H2 & H3 & _). exists e, s. auto.
Defined.

(** Growing: [ensureWriteSpace] keeps the bytes of the window and the
    buffer's invariant, makes room for at least one more byte, and reports an
    error exactly when the window already holds 8 MiB. *)
Theorem ensureWriteSpace_spec (rb : readBuffer) :
  rb_ready rb ->
  exists e rb', ensureWriteSpace rb = Done (e, rb') /\ rb_ready rb' /\ unread rb' = unread rb /\
    (e = None -> rb_end rb' < zlen (rb_buf rb')) /\
    (e <> None <-> zlen (unread rb) = maxReadBufSize).
Proof.
  intros [Hwf H0]. destruct (ensureWriteSpace_ok rb Hwf H0) as (e & rb' & H1 & H2 & H3 & H4 & H5 & H6).
  exists e, rb'. by split_and!.
Qed.

Lemma ensureWriteSpace_spec_witness :
  exists e rb', ensureWriteSpace (mkReadBuffer (bs "abcd") 2 4 0 false false) = Done (e, rb') /\
    rb_ready rb' /\ unread rb' = bs "cd" /\ (e = None -> rb_end rb' < zlen (rb_buf rb')) /\
    (e <> None <-> zlen (bs "cd") = maxReadBufSize).
Proof.
  apply (ensureWriteSpace_spec (mkReadBuffer (bs "abcd") 2 4 0 false false)).
  split; [unfold rb_wf|]; vm_compute; intuition discriminate.
Defined.
