(* ===== verification/Handshake.v ===== *)
(** The start of a connection ([nntp.go]): dialling ([newNetConn]), greeting and
    authentication ([newNNTPConnectionFromConn], [auth], [NewNNTPConnection]) and the
    ping of a provider ([pingProvider], [parseDateResponse], [TestProvider]).

    The responses are read by the loop of ReadBuffer.v with the decoder of Reader.v;
    the network's answers to a dial and to a TLS handshake are arguments. *)
From S2P Require Import Prelude Text Errors Reader ReadBuffer Framing.

(** ** Data *)

Record Auth := mkAuth { au_Username : bytes; au_Password : bytes }.

(** A connection with the writes made on it; [lk_writes] are the results of the writes
    to come, which succeed when there is none. *)
Record link := mkLink {
  lk_rb : readBuffer;
  lk_conn : Conn;
  lk_sent : list bytes;
  lk_writes : list error
}.

#[export] Instance eta_link : Eta link := fun l => mkLink (lk_rb l) (lk_conn l) (lk_sent l) (lk_writes l).

Definition link_write (data : bytes) (l : link) : error * link :=
  (default None (head (lk_writes l)), l <| lk_sent ::= fun s => s ++ [data] |> <| lk_writes ::= tail |>).

(** [io.Discard] *)
Definition discard (w : unit) (p : bytes) : unit * error := (w, None).

Definition greeting_ok (code : Z) : bool := (code =? 200) || (code =? 201).

Definition wrapped (prefix : string) (e : error) : error := EWrap prefix <$> e.

Definition user_line (a : Auth) : bytes := bs "AUTHINFO USER " ++ au_Username a ++ crlf.
Definition pass_line (a : Auth) : bytes := bs "AUTHINFO PASS " ++ au_Password a ++ crlf.

Definition password_required : error :=
  withErrorClassification (Some (EOpaque "nntp auth: password required when username is set"))
    (ESentinel ErrInvalidProviderConfiguration) (TSentinel ErrInvalidProviderConfiguration).

(** The reused buffer of the slot, or a new one; either way it is empty. *)
Definition start_buffer (shared : option bytes) : readBuffer :=
  match shared with
  | Some (c :: buf) => emptyReadBuffer <| rb_buf := c :: buf |>
  | _ => emptyReadBuffer <| rb_buf := repeat x00 (Z.to_nat defaultReadBufSize) |>
  end.

(** [time.Parse("20060102150405", s)] for a text of 14 bytes: year, month, day, hour,
    minute and second; [None] is its error. *)
Definition digit (b : byte) : option Z := if (48 <=? bval b) && (bval b <=? 57) then Some (bval b - 48) else None.

Fixpoint digits_val (acc : Z) (s : bytes) : option Z :=
  match s with
  | [] => Some acc
  | b :: s => match digit b with Some d => digits_val (acc * 10 + d) s | None => None end
  end.

Definition is_leap (y : Z) : bool := (y mod 4 =? 0) && (negb (y mod 100 =? 0) || (y mod 400 =? 0)).
Definition days_in (m y : Z) : Z :=
  if m =? 2 then (if is_leap y then 29 else 28)
  else if (m =? 4) || (m =? 6) || (m =? 9) || (m =? 11) then 30 else 31.

Definition timestamp : Type := (Z * Z * Z) * (Z * Z * Z).

Definition parse_timestamp (s : bytes) : option timestamp :=
  let field a n := digits_val 0 (take n (drop a s)) in
  match field 0%nat 4%nat, field 4%nat 2%nat, field 6%nat 2%nat, field 8%nat 2%nat, field 10%nat 2%nat, field 12%nat 2%nat with
  | Some y, Some mo, Some d, Some h, Some mi, Some se =>
      if (1 <=? mo) && (mo <=? 12) && (1 <=? d) && (d <=? days_in mo y) && (h <? 24) && (mi <? 60) && (se <? 60)
      then Some ((y, mo, d), (h, mi, se)) else None
  | _, _, _, _, _, _ => None
  end.

Definition parseDateResponse (message : bytes) : timestamp + gerror :=
  let ts := if (4 <? zlen message) && bool_decide (nth_error message 3 = Some x20) then drop 4 message else message in
  if zlen ts <? 14 then inr (EOpaque "nntp: DATE response too short")
  else match parse_timestamp (take 14 ts) with
       | Some t => inl t
       | None => inr (EOpaque "parsing time")
       end.

(** The text of a time: the inverse of the parser. *)
Definition stamp (t : timestamp) : bytes :=
  let '((y, mo, d), (h, mi, se)) := t in
  padded 4 y ++ padded 2 mo ++ padded 2 d ++ padded 2 h ++ padded 2 mi ++ padded 2 se.

Definition valid_time (t : timestamp) : Prop :=
  let '((y, mo, d), (h, mi, se)) := t in
  0 <= y < 10000 /\ 1 <= mo <= 12 /\ 1 <= d <= days_in mo y /\ 0 <= h < 24 /\ 0 <= mi < 60 /\ 0 <= se < 60.

Record PingResult := mkPing { pg_RTT : Z; pg_ServerTime : option timestamp; pg_Err : error }.

(** Fields of fixed width are read back. *)
Lemma field_back w n : (w = 2%nat /\ 0 <= n < 100) \/ (w = 4%nat /\ 0 <= n < 10000) ->
  length (padded w n) = w /\ digits_val 0 (padded w n) = Some n.
Proof.
  pose (ok w n := bool_decide (length (padded w n) = w) && bool_decide (digits_val 0 (padded w n) = Some n)).
  assert (H2 : forallb (ok 2%nat) (seqZ 0 100) = true) by (vm_compute; reflexivity).
  assert (H4 : forallb (ok 4%nat) (seqZ 0 10000) = true) by (vm_compute; reflexivity).
  rewrite forallb_forall in H2, H4. intros [[-> H]|[-> H]]; [specialize (H2 n)|specialize (H4 n)];
    rewrite <- list_elem_of_In, elem_of_seqZ in *; unfold ok in *;
    [specialize (H2 ltac:(lia)); apply andb_true_iff in H2 as [H5 H6]|specialize (H4 ltac:(lia)); apply andb_true_iff in H4 as [H5 H6]];
    by apply bool_decide_eq_true in H5, H6.
Qed.

Lemma field_take w n rest : length (padded w n) = w -> take w (padded w n ++ rest) = padded w n /\ drop w (padded w n ++ rest) = rest.
Proof. intros H. by rewrite take_app_length', drop_app_length' by done. Qed.

Lemma stamp_back t : valid_time t -> parse_timestamp (stamp t) = Some t /\ length (stamp t) = 14%nat.
Proof.
  destruct t as [[[y mo] d] [[h mi] se]]. intros (Hy & Hmo & Hd & Hh & Hmi & Hse).
  assert (Hd' : d < 100) by (unfold days_in in Hd; repeat case_match; lia).
  destruct (field_back 4 y ltac:(right; lia)) as [L1 V1]. destruct (field_back 2 mo ltac:(left; lia)) as [L2 V2].
  destruct (field_back 2 d ltac:(left; lia)) as [L3 V3]. destruct (field_back 2 h ltac:(left; lia)) as [L4 V4].
  destruct (field_back 2 mi ltac:(left; lia)) as [L5 V5]. destruct (field_back 2 se ltac:(left; lia)) as [L6 V6].
  unfold stamp. split; [|rewrite !length_app; lia]. unfold parse_timestamp. set (s := padded 4 y ++ _).
  assert (D4 : drop 4 s = padded 2 mo ++ padded 2 d ++ padded 2 h ++ padded 2 mi ++ padded 2 se) by (by apply drop_app_length').
  assert (D6 : drop 6 s = padded 2 d ++ padded 2 h ++ padded 2 mi ++ padded 2 se) by (change 6%nat with (4 + 2)%nat; rewrite <- drop_drop, D4; by apply drop_app_length').
  assert (D8 : drop 8 s = padded 2 h ++ padded 2 mi ++ padded 2 se) by (change 8%nat with (6 + 2)%nat; rewrite <- drop_drop, D6; by apply drop_app_length').
  assert (D10 : drop 10 s = padded 2 mi ++ padded 2 se) by (change 10%nat with (8 + 2)%nat; rewrite <- drop_drop, D8; by apply drop_app_length').
  assert (D12 : drop 12 s = padded 2 se ++ []) by (change 12%nat with (10 + 2)%nat; rewrite app_nil_r, <- drop_drop, D10; by apply drop_app_length').
  rewrite D4, D6, D8, D10, D12, drop_0. unfold s. rewrite !take_app_length' by done. rewrite V1, V2, V3, V4, V5, V6.
  assert (Hb : (1 <=? mo) && (mo <=? 12) && (1 <=? d) && (d <=? days_in mo y) && (h <? 24) && (mi <? 60) && (se <? 60) = true) by lia.
  by rewrite Hb.
Qed.

(** The reply to DATE. *)
Lemma stamp_digits t : Forall is_digit (stamp t).
Proof.
  destruct t as [[[y mo] d] [[h mi] se]]. unfold stamp. rewrite !Forall_app. split_and!; apply padded_digits.
Qed.

Lemma parse_date t : valid_time t -> parseDateResponse (status_text 111 (stamp t)) = inl t.
Proof.
  intros Ht. destruct (stamp_back t Ht) as [Hp Hl]. unfold parseDateResponse, status_text. change (format_nat 111) with (bs "111").
  assert (Hz : zlen (bs "111" ++ x20 :: stamp t) = 18) by (rewrite zlen_app, zlen_cons; unfold zlen; rewrite Hl; done).
  rewrite Hz. change (nth_error (bs "111" ++ x20 :: stamp t) 3) with (Some x20). rewrite bool_decide_eq_true_2 by done.
  change (drop 4 (bs "111" ++ x20 :: stamp t)) with (stamp t). change (4 <? 18) with true. cbn [andb]. cbv zeta.
  rewrite take_ge by lia. unfold zlen. by rewrite Hl, Hp.
Qed.

(** ** Operations *)

Section Handshake.
Context (decodeFn : bytes -> YState -> yenc_result).
#[local] Instance reply_feeder : byteFeeder NNTPResponse unit := NNTPResponse_feeder discard decodeFn.

Definition readOneResponse (l : link) : outcome (error * NNTPResponse * link) :=
  let*! res := feedUntilDone (lk_rb l) (lk_conn l) (newNNTPResponse false false) tt (fun _ => None) in
  let '(err, s) := res in
  Done (err, l_feeder s, l <| lk_rb := l_rb s |> <| lk_conn := l_conn s |>).

(** Sends a command and reads its reply. *)
Definition command_reply (prefix : string) (line : bytes) (l : link) : outcome (error * NNTPResponse * link) :=
  let '(err, l) := link_write line l in
  if negb (is_nil err) then Done (wrapped prefix err, newNNTPResponse false false, l)
  else
    let*! res := readOneResponse l in
    let '(err, resp, l) := res in Done (wrapped prefix err, resp, l).

Definition auth (a : Auth) (l : link) : outcome (error * link) :=
  let*! res := command_reply "nntp auth: AUTHINFO USER" (user_line a) l in
  let '(err, resp, l) := res in
  if negb (is_nil err) then Done (err, l)
  else if StatusCode resp =? 281 then Done (None, l)
  else if negb (StatusCode resp =? 381) then Done (authResponseError "AUTHINFO USER" (StatusCode resp) (Message resp), l)
  else
    let*! res := command_reply "nntp auth: AUTHINFO PASS" (pass_line a) l in
    let '(err, resp, l) := res in
    if negb (is_nil err) then Done (err, l)
    else if negb (StatusCode resp =? 281) then Done (authResponseError "AUTHINFO PASS" (StatusCode resp) (Message resp), l)
    else Done (None, l).

(** The error of the connection, or its greeting; [conn] is what was dialled. *)
Definition newNNTPConnectionFromConn (a : Auth) (shared : option bytes) (conn : Conn) (writes : list error)
  : outcome ((NNTPResponse + gerror) * link) :=
  let*! res := readOneResponse (mkLink (start_buffer shared) conn [] writes) in
  let '(err, greeting, l) := res in
  match err with
  | Some e => Done (inr (EWrap "nntp greeting" e), l)
  | None =>
      if negb (greeting_ok (StatusCode greeting)) then Done (inr (EGreeting (StatusCode greeting) (Message greeting)), l)
      else if bool_decide (au_Username a = []) then Done (inl greeting, l)
      else if bool_decide (au_Password a = []) then
        Done (match password_required with Some e => inr e | None => inl greeting end, l)
      else
        let*! res := auth a l in
        let '(err, l) := res in
        Done (match err with Some e => inr e | None => inl greeting end, l)
  end.

(** [dialled]: the factory's answer, a connection or nil; [rtt]: the time between the
    two readings of the clock. *)
Definition pingProvider (a : Auth) (dialled : option Conn + gerror) (writes : list error) (rtt : Z) : outcome PingResult :=
  let failed e := mkPing 0 None (Some e) in
  match dialled with
  | inr e => Done (failed (EWrap "ping dial" e))
  | inl None => Done (failed (EOpaque "ping dial: factory returned nil connection"))
  | inl (Some conn) =>
      let*! res := readOneResponse (mkLink (start_buffer None) conn [] writes) in
      let '(err, greeting, l) := res in
      match err with
      | Some e => Done (failed (EWrap "ping greeting" e))
      | None =>
          if negb (greeting_ok (StatusCode greeting)) then Done (failed (EGreeting (StatusCode greeting) (Message greeting)))
          else
            let*! res := if bool_decide (au_Username a = []) then Done (None, l) else auth a l in
            let '(err, l) := res in
            match err with
            | Some e => Done (failed (EWrap "ping auth" e))
            | None =>
                let '(err, l) := link_write (bs "DATE" ++ crlf) l in
                match err with
                | Some e => Done (failed (EWrap "ping write DATE" e))
                | None =>
                    let*! res := readOneResponse l in
                    let '(err, resp, l) := res in
                    match err with
                    | Some e => Done (failed (EWrap "ping read DATE" e))
                    | None =>
                        if negb (StatusCode resp =? 111) then Done (failed (EOpaque "ping DATE unexpected status"))
                        else Done (match parseDateResponse (Message resp) with
                                   | inr e => mkPing rtt None (Some e)
                                   | inl t => mkPing rtt (Some t) None
                                   end)
                    end
                end
            end
      end
  end.

(** *** Dialling *)

Definition defaultKeepAlive : Z := 30 * GoSecond.

(** [dial] answers the dialler for its keep-alive interval, [secure] the TLS handshake
    on what was dialled.  The second result is whether the dialled connection was
    closed again. *)
Section Dial.
Context (dial : Z -> Conn + gerror) (secure : Conn -> Conn + gerror).

Definition newNetConn (tlsConfig : bool) (keepAlive : Z) : (Conn + gerror) * bool :=
  let keepAlive := if keepAlive =? 0 then defaultKeepAlive else keepAlive in
  match dial keepAlive with
  | inr e => (match classifyDialConfigurationError (Some e) with Some e => inr e | None => inr e end, false)
  | inl conn =>
      if tlsConfig then
        match secure conn with
        | inr e => (match classifyTLSConfigurationError (Some e) with Some e => inr e | None => inr e end, true)
        | inl tlsConn => (inl tlsConn, false)
        end
      else (inl conn, false)
  end.

(** The connection, or why there is none; and whether a dialled connection was closed. *)
Definition NewNNTPConnection (tlsConfig : bool) (a : Auth) (writes : list error) : outcome ((NNTPResponse * link + gerror) * bool) :=
  match newNetConn tlsConfig 0 with
  | (inr e, closed) => Done (inr e, closed)
  | (inl conn, _) =>
      let*! res := newNNTPConnectionFromConn a None conn writes in
      let '(c, l) := res in
      Done (match c with
            | inr e => (inr e, true)
            | inl greeting => (inl (greeting, l), false)
            end)
  end.

(** [factory] is the answer of the provider's own factory, when it has one. *)
Definition TestProvider (factory : option (option Conn + gerror)) (tlsConfig : bool) (keepAlive : Z) (a : Auth)
    (writes : list error) (rtt : Z) : outcome PingResult :=
  let dialled := match factory with
                 | Some answer => answer
                 | None => match fst (newNetConn tlsConfig keepAlive) with
                           | inl conn => inl (Some conn)
                           | inr e => inr e
                           end
                 end in
  pingProvider a dialled writes rtt.
End Dial.

(** ** Lemmas *)

(** A connection without read errors, on which no deadline was ever set. *)
Definition clean (c : Conn) : Prop := Forall (fun p : bytes * error => snd p = None) (conn_script c).
Definition unbounded (c : Conn) : Prop := Forall (fun d : option Z => d = None) (conn_deadlines c).

Lemma clean_arrives c : clean c -> arrives c (zlen (conn_bytes c)).
Proof.
  unfold clean, arrives, conn_bytes. intros H. exists (fst <$> conn_script c), []. rewrite app_nil_r. split; [|lia].
  induction H as [|[d e] s He _ IH]; [done|]. simpl in *. rewrite He. by f_equal.
Qed.

Lemma conn_read_keeps c room data e c' : conn_read c room = Done (data, e, c') ->
  (clean c -> clean c') /\ conn_deadlines c' = conn_deadlines c /\ conn_silent c' = conn_silent c.
Proof.
  unfold conn_read, clean. destruct (conn_script c) as [|[d x] s] eqn:E.
  { intros H. assert (c' = c) as -> by (destruct (conn_silent c); [destruct (rev _) as [|[] ?]|]; by simplify_eq). by rewrite E. }
  case_decide; intros [= <- <- <-]; (split; [|done]); intros Hc; apply Forall_cons_iff in Hc as [H1 H2]; [done|by constructor].
Qed.

Lemma readMore_keeps rb conn n e rb' conn' : readMore rb conn 0 false = Done (n, e, rb', conn') ->
  (clean conn -> clean conn') /\ (unbounded conn -> unbounded conn') /\ conn_silent conn' = conn_silent conn.
Proof.
  unfold readMore. destruct (setDeadline rb conn 0 false) as [rb1 c1] eqn:Hd.
  assert (H1 : (clean conn -> clean c1) /\ (unbounded conn -> unbounded c1) /\ conn_silent c1 = conn_silent conn).
  { unfold setDeadline, clean, unbounded in *. destruct (_ || _); injection Hd as <- <-; [|done]. split; [done|]. split; [|done].
    intros Hu. simpl. apply Forall_app. split; [done|by constructor]. }
  destruct (ensureWriteSpace rb1) as [[e1 rb2]| | |]; try done. cbn [outcome_bind]. destruct e1; [by intros [= <- <- <- <-]|].
  destruct (slice_range _ _ _) as [room| | |]; try done. cbn [outcome_bind].
  destruct (conn_read c1 (length room)) as [[[data e2] c2]| | |] eqn:Hr; try done.
  intros [= <- <- <- <-]. apply conn_read_keeps in Hr as (H2 & H3 & H4).
  unfold unbounded in *. rewrite H3, H4. tauto.
Qed.

Definition quiet_link (P : Conn -> Prop) : Prop :=
  forall rb conn n e rb' conn', readMore rb conn 0 false = Done (n, e, rb', conn') -> P conn -> P conn'.

(** What the reads of a response keep of the connection. *)
Lemma read_keeps (P : Conn -> Prop) l err r l' : quiet_link P -> P (lk_conn l) -> readOneResponse l = Done (err, r, l') ->
  P (lk_conn l') /\ lk_sent l' = lk_sent l /\ lk_writes l' = lk_writes l.
Proof.
  intros HP Hl H. unfold readOneResponse in H. destruct (feedUntilDone _ _ _ _ _) as [[e s]| | |] eqn:Hf; try done.
  cbn [outcome_bind] in H. injection H as <- <- <-. split; [|done]. simpl. unfold feedUntilDone, feedUntilDoneControlled in Hf.
  assert (Hi : out_inv (fun _ _ _ c => P c) s); [|exact Hi].
  refine (proj1 (feed_loop_out (deadline_control (fun _ => None)) (fun _ _ _ c => P c) (fun _ => True) I _ _ _ _ _ _ _ Hf)).
  - intros f c w conn x k Hc. simpl. split; [done|]. split; [done|]. intros rb n e1 rb' conn' Hm. split; [by eapply HP|done].
  - intros f b w c conn Hc. by destruct (feeder_feed f b w) as [[[[[[? ?] ?] ?] ?] ?]| | |].
  - exact Hl.
Qed.

Lemma quiet_clean : quiet_link clean.
Proof. intros rb conn n e rb' conn' H. by apply (readMore_keeps _ _ _ _ _ _ H). Qed.
Lemma quiet_unbounded : quiet_link unbounded.
Proof. intros rb conn n e rb' conn' H. by apply (readMore_keeps _ _ _ _ _ _ H). Qed.

Lemma quiet_silent b : quiet_link (fun c => conn_silent c = b).
Proof. intros rb conn n e rb' conn' H <-. by apply (readMore_keeps _ _ _ _ _ _ H). Qed.

(** A run that ends well, except where the peer falls silent or the decoder's counts do
    not fit what it was given. *)
Definition ends {A} (o : outcome A) (silent : Prop) (good : A -> Prop) : Prop :=
  match o with Done a => good a | Panicked => overruns decodeFn | Blocked => silent | OutOfFuel => False end.

Lemma ends_bind {A B} (o : outcome A) (f : A -> outcome B) silent P Q :
  ends o silent P -> (forall a, P a -> ends (f a) silent Q) -> ends (outcome_bind o f) silent Q.
Proof. destruct o; simpl; auto. Qed.

(** What reading a response leaves as it was. *)
Definition same_peer (l l' : link) : Prop :=
  conn_silent (lk_conn l') = conn_silent (lk_conn l) /\ (unbounded (lk_conn l) -> unbounded (lk_conn l')).

(** A response is read, or an error; the buffer stays usable. *)
Lemma read_total l : rb_ready (lk_rb l) ->
  ends (readOneResponse l) (conn_silent (lk_conn l) = true)
    (fun '(_, _, l') => rb_ready (lk_rb l') /\ lk_sent l' = lk_sent l /\ same_peer l l').
Proof.
  intros Hr.
  assert (Hrd : forall err r l', readOneResponse l = Done (err, r, l') -> lk_sent l' = lk_sent l /\ same_peer l l').
  { intros err r l' Hrd. destruct (read_keeps _ _ _ _ _ (quiet_silent (conn_silent (lk_conn l))) eq_refl Hrd) as (H1 & H2 & _).
    split; [done|split; [done|]]. intros Hu. by apply (read_keeps _ _ _ _ _ quiet_unbounded Hu Hrd). }
  revert Hrd. unfold readOneResponse, feedUntilDone, feedUntilDoneControlled. rewrite (init_id _ (proj2 Hr)).
  destruct (feed_loop_ok (deadline_control (fun _ => None)) (S (script_measure (lk_conn l)))
    (mkLoop (lk_rb l) (lk_conn l) (newNNTPResponse false false) tt tt 0 0))
    as [[[-> Ho]|[-> Ho]]|(e & s & -> & (Hr' & _) & _)]; [done|simpl; lia|done|done|].
  intros Hrd. split; [done|]. by eapply Hrd.
Qed.

(** The link with a stream to come. *)
Definition holding (stream : bytes) (sent : list bytes) (l : link) : Prop :=
  rb_ready (lk_rb l) /\ clean (lk_conn l) /\ unread (lk_rb l) ++ conn_bytes (lk_conn l) = stream /\ lk_sent l = sent /\ lk_writes l = [].

(** A reply of one line. *)
Definition reply_ok (code : Z) (msg : bytes) : Prop :=
  plain_response code msg [] /\ isMultiline code = false /\ zlen (wire_response code msg []) <= maxReadBufSize.

Lemma read_reply code msg rest sent l : reply_ok code msg -> holding (wire_response code msg [] ++ rest) sent l ->
  exists r l', readOneResponse l = Done (None, r, l') /\ StatusCode r = code /\ Message r = status_text code msg /\ holding rest sent l'.
Proof.
  intros (Hp & _ & Hz) (Hr & Hc & Hs & Ht & Hw). pose proof (clean_arrives _ Hc) as Ha.
  destruct (framed_ok discard decodeFn (fun _ => None) false false code msg [] rest (lk_rb l) (lk_conn l) tt Hp Hr Hz Hs)
    as (s & Hf & (H1 & H2 & _) & _ & Hr' & Hrest).
  { eapply arrives_le; [exact Ha|]. apply (f_equal zlen) in Hs. rewrite !zlen_app in Hs. pose proof (zlen_nonneg rest). lia. }
  assert (Hrd : readOneResponse l = Done (None, l_feeder s, l <| lk_rb := l_rb s |> <| lk_conn := l_conn s |>)).
  { unfold readOneResponse. unfold reply_feeder. rewrite Hf. done. }
  destruct (read_keeps clean l _ _ _ quiet_clean Hc Hrd) as (Hc' & Ht' & Hw').
  eexists _, _. split; [exact Hrd|]. split; [done|]. split; [done|]. split_and!; try done; congruence.
Qed.

Lemma stamp_reply t : valid_time t -> reply_ok 111 (stamp t).
Proof.
  intros Ht. destruct (stamp_back t Ht) as [_ Hl]. unfold reply_ok, plain_response. split; [|split; [done|]].
  - split_and!; try done; try lia. rewrite <- (app_nil_r (stamp t)). unfold crlf. rewrite index_of_skip; [done|].
    apply (digits_not _ _ (stamp_digits t)). unfold is_digit. vm_compute. by intros [].
  - unfold wire_response, status_text. change (isMultiline 111) with false. change (format_nat 111) with (bs "111").
    rewrite app_nil_r, !zlen_app, zlen_cons. unfold zlen. rewrite Hl. vm_compute. by intros.
Qed.

Lemma command_reads prefix line code msg rest sent l : reply_ok code msg -> holding (wire_response code msg [] ++ rest) sent l ->
  exists r l', command_reply prefix line l = Done (None, r, l') /\ StatusCode r = code /\ Message r = status_text code msg /\
    holding rest (sent ++ [line]) l'.
Proof.
  intros Hp (Hr & Hc & Hs & Ht & Hw). unfold command_reply, link_write. rewrite Hw. cbn [head default is_nil negb].
  set (l1 := _ <| lk_writes ::= tail |>).
  destruct (read_reply code msg rest (sent ++ [line]) l1 Hp) as (r & l' & Hrd & H1 & H2 & H3).
  { unfold holding, l1. simpl. rewrite Hw, Ht. by split_and!. }
  exists r, l'. change (default None None) with (None : error). cbn [is_nil negb]. rewrite Hrd. by cbn [outcome_bind wrapped fmap option_fmap option_map].
Qed.

(** ** The specification *)

(** What a handshake comes to. *)
Inductive verdict := Accepted | Refused (code : Z) | Unconfigured | Denied (code : Z).

Definition meets {A} (v : verdict) (x : A + gerror) : Prop :=
  match v with
  | Accepted => exists g, x = inl g
  | Refused code => exists msg, x = inr (EGreeting code msg)
  | Unconfigured => exists e, x = inr e /\ errors_is e (TSentinel ErrInvalidProviderConfiguration) = true
  | Denied code => exists e, x = inr e /\ errors_is e (TProto code) = true
  end.

Lemma meets_error {A B} v (e : error) (b : B) (a : A) :
  meets v (match e with Some e => inr e | None => inl b end) -> meets v (match e with Some e => inr e | None => inl a end).
Proof.
  destruct v, e; simpl; intros H; repeat match goal with H : ex _ |- _ => destruct H | H : _ /\ _ |- _ => destruct H end;
    simplify_eq; eauto.
Qed.

(** The handshake as a protocol: from the codes of the server's replies, the lines the
    client sends and the verdict; [None] when the replies are not those of a whole
    handshake. *)
Definition auth_spec (a : Auth) (codes : list Z) : option (list bytes * verdict) :=
  match codes with
  | [c1] => if c1 =? 281 then Some ([user_line a], Accepted)
            else if c1 =? 381 then None else Some ([user_line a], Denied c1)
  | [c1; c2] => if c1 =? 381 then Some ([user_line a; pass_line a], if c2 =? 281 then Accepted else Denied c2) else None
  | _ => None
  end.

Definition handshake_spec (a : Auth) (codes : list Z) : option (list bytes * verdict) :=
  match codes with
  | [] => None
  | g :: codes =>
      let ends v := if decide (codes = []) then Some ([], v) else None in
      if negb (greeting_ok g) then ends (Refused g)
      else if bool_decide (au_Username a = []) then ends Accepted
      else if bool_decide (au_Password a = []) then ends Unconfigured
      else auth_spec a codes
  end.

(** The replies on the wire. *)
Definition reply_wire (rs : list (Z * bytes)) : bytes := flat_map (fun r => wire_response (fst r) (snd r) []) rs.

Lemma reply_wire_snoc rs c m : reply_wire (rs ++ [(c, m)]) = reply_wire rs ++ wire_response c m [].
Proof. unfold reply_wire. rewrite flat_map_app. cbn [flat_map fst snd]. by rewrite app_nil_r. Qed.

Lemma denied_is stage code msg : exists e, authResponseError stage code msg = Some e /\ errors_is e (TProto code) = true.
Proof.
  unfold authResponseError, withErrorClassification. cbn [errors_is].
  eexists. split; [reflexivity|]. cbn [errors_is orb]. unfold toError.
  destruct (code_ok code); [simpl; apply Z.eqb_refl|].
  repeat (match goal with |- context [if ?b then _ else _] => destruct b eqn:?H end;
    [simpl; repeat match goal with H : (_ || _) = true |- _ => apply orb_true_iff in H as [H|H] | H : (_ =? _) = true |- _ => apply Z.eqb_eq in H; subst code end; reflexivity|]).
  simpl. apply Z.eqb_refl.
Qed.

Lemma auth_follows a rs tail l sent v : Forall (fun r => reply_ok (fst r) (snd r)) rs -> auth_spec a (map fst rs) = Some (sent, v) ->
  holding (reply_wire rs ++ tail) [] l ->
  exists e l', auth a l = Done (e, l') /\ holding tail sent l' /\ meets v (match e with Some e => inr e | None => inl () end).
Proof.
  intros Hok Hs Hl. destruct rs as [|[c1 m1] rs]; [done|]. apply Forall_cons_iff in Hok as [H1 Hok]. simpl in H1.
  cbn [reply_wire flat_map fst snd] in Hl. rewrite <- app_assoc in Hl.
  destruct (command_reads "nntp auth: AUTHINFO USER" (user_line a) _ _ _ _ _ H1 Hl) as (r & l1 & Hr & Hc & Hm & Hl1).
  unfold auth. rewrite Hr. cbn [outcome_bind is_nil negb]. rewrite Hc, Hm.
  destruct rs as [|[c2 m2] [|? ?]]; simpl in Hs.
  - destruct (Z.eqb_spec c1 281).
    + injection Hs as <- <-. eexists _, _. split; [reflexivity|]. split; [done|]. by exists ().
    + destruct (Z.eqb_spec c1 381); [done|]. injection Hs as <- <-. cbn [negb]. eexists _, _. split; [reflexivity|]. split; [done|].
      destruct (denied_is "AUTHINFO USER" c1 (status_text c1 m1)) as (e & -> & He). by exists e.
  - destruct (Z.eqb_spec c1 381) as [->|]; [|done]. injection Hs as <- <-. change (381 =? 281) with false. cbn [negb].
    apply Forall_cons_iff in Hok as [H2 _]. simpl in H2. cbn [flat_map fst snd] in Hl1. rewrite app_nil_r in Hl1.
    destruct (command_reads "nntp auth: AUTHINFO PASS" (pass_line a) _ _ _ _ _ H2 Hl1) as (r2 & l2 & Hr2 & Hc2 & Hm2 & Hl2).
    rewrite Hr2. cbn [outcome_bind is_nil negb]. rewrite Hc2, Hm2. destruct (Z.eqb_spec c2 281).
    + eexists _, _. split; [reflexivity|]. split; [done|]. by exists ().
    + eexists _, _. split; [reflexivity|]. split; [done|].
      destruct (denied_is "AUTHINFO PASS" c2 (status_text c2 m2)) as (e & -> & He). by exists e.
  - by destruct (c1 =? 381).
Qed.

Definition small_shared (shared : option bytes) : Prop := match shared with Some b => zlen b <= maxReadBufSize | None => True end.

Lemma start_ready shared : small_shared shared -> rb_ready (start_buffer shared) /\ unread (start_buffer shared) = [].
Proof.
  intros Hs. split; [|by destruct shared as [[|c b]|]]. assert (Hd : 0 < zlen (repeat x00 (Z.to_nat defaultReadBufSize)) <= maxReadBufSize)
    by (unfold zlen; rewrite repeat_length; unfold defaultReadBufSize, maxReadBufSize; lia).
  unfold rb_ready, rb_wf, start_buffer, small_shared in *. destruct shared as [[|c b]|]; cbn -[repeat zlen defaultReadBufSize maxReadBufSize]; try lia.
  rewrite zlen_cons in *. pose proof (zlen_nonneg b). lia.
Qed.

Lemma start_shape shared : exists buf, start_buffer shared = mkReadBuffer buf 0 0 0 false false /\ 0 < zlen buf.
Proof.
  unfold start_buffer. destruct shared as [[|c b]|].
  1, 3: exists (repeat x00 (Z.to_nat defaultReadBufSize)); split; [reflexivity|]; unfold zlen, defaultReadBufSize;
    rewrite repeat_length; lia.
  exists (c :: b). split; [reflexivity|]. rewrite zlen_cons. pose proof (zlen_nonneg b). lia.
Qed.

Lemma start_holding shared conn : small_shared shared -> clean conn -> holding (conn_bytes conn) [] (mkLink (start_buffer shared) conn [] []).
Proof. intros Hs Hc. destruct (start_ready shared Hs) as [Hr Hu]. unfold holding. simpl. by rewrite Hu. Qed.

Lemma password_required_is : exists e, password_required = Some e /\ errors_is e (TSentinel ErrInvalidProviderConfiguration) = true.
Proof. eexists. by split; [reflexivity|]. Qed.

Lemma holding_rest stream sent l : holding stream sent l -> lk_sent l = sent /\ unread (lk_rb l) ++ conn_bytes (lk_conn l) = stream.
Proof. by intros (_ & _ & H1 & H2 & _). Qed.

(** *** Whatever the server does *)

Lemma command_total prefix line l : rb_ready (lk_rb l) ->
  ends (command_reply prefix line l) (conn_silent (lk_conn l) = true) (fun '(err, r, l') => rb_ready (lk_rb l') /\
    lk_sent l' = lk_sent l ++ [line] /\ same_peer l l' /\
    (err = None -> exists l0, lk_sent l0 = lk_sent l ++ [line] /\ readOneResponse l0 = Done (None, r, l'))).
Proof.
  intros Hr. unfold command_reply, link_write. set (l1 := _ <| lk_writes ::= tail |>).
  destruct (default None (head (lk_writes l))) as [e|]; cbn [is_nil negb]; [done|].
  pose proof (read_total l1 Hr) as Hrd. destruct (readOneResponse l1) as [[[err r] l']| | |] eqn:E; try exact Hrd.
  destruct Hrd as (Hr' & Hs & Hp). split; [done|]. split; [done|]. split; [exact Hp|]. intros He. exists l1.
  split; [done|]. by destruct err.
Qed.

(** How far an authentication got: the password follows a 381 reply to the user. *)
Definition auth_sent (a : Auth) (sent : list bytes) : Prop :=
  sent = [user_line a] \/
  (sent = [user_line a; pass_line a] /\ exists l0 r l1, lk_sent l0 = [user_line a] /\
     readOneResponse l0 = Done (None, r, l1) /\ StatusCode r = 381).

Lemma auth_total a l : rb_ready (lk_rb l) -> lk_sent l = [] ->
  ends (auth a l) (conn_silent (lk_conn l) = true) (fun '(_, l') => auth_sent a (lk_sent l') /\ same_peer l l').
Proof.
  intros Hr Hs. unfold auth. eapply ends_bind; [by apply command_total|]. rewrite Hs.
  intros [[e1 r1] l1] (Hr1 & Hs1 & Hp1 & Hl1). rewrite app_nil_l in Hs1.
  assert (Hone : auth_sent a (lk_sent l1)) by by left.
  destruct e1 as [e1|]; cbn [is_nil negb]; [by split|]. destruct (StatusCode r1 =? 281); [by split|].
  destruct (Z.eqb_spec (StatusCode r1) 381) as [Hc|]; cbn [negb]; [|by split].
  destruct (Hl1 eq_refl) as (l0 & Hl0 & Hrd). rewrite app_nil_l in Hl0.
  eapply ends_bind; [rewrite <- (proj1 Hp1); by apply command_total|]. intros [[e2 r2] l2] (_ & Hs2 & Hp2 & _). rewrite Hs1 in Hs2.
  assert (Htwo : auth_sent a (lk_sent l2) /\ same_peer l l2).
  { split; [right; split; [done|by exists l0, r1, l1]|]. destruct Hp1 as [E1 U1], Hp2 as [E2 U2].
    split; [congruence|auto]. }
  destruct e2 as [e2|]; cbn [is_nil negb]; [done|]. by destruct (StatusCode r2 =? 281).
Qed.

(** ** Properties *)

(** C11: The handshake implements its protocol: for any replies that make a whole
    handshake, however the network cuts them, the client sends exactly the lines of
    the specification, comes to its verdict with an error of that class, and leaves
    what follows the last reply for the requests to come. *)
Theorem handshake_refines a shared conn rs rest sent v :
  small_shared shared -> clean conn -> Forall (fun r => reply_ok (fst r) (snd r)) rs -> conn_bytes conn = reply_wire rs ++ rest ->
  handshake_spec a (map fst rs) = Some (sent, v) ->
  exists x l, newNNTPConnectionFromConn a shared conn [] = Done (x, l) /\ meets v x /\ lk_sent l = sent /\
    unread (lk_rb l) ++ conn_bytes (lk_conn l) = rest.
Proof.
  intros Hsh Hc Hok Hb Hs. pose proof (start_holding shared conn Hsh Hc) as Hl. rewrite Hb in Hl.
  destruct rs as [|[g m] rs]; [done|]. apply Forall_cons_iff in Hok as [H1 Hok]. simpl in H1. cbn [reply_wire flat_map fst snd] in Hl. rewrite <- app_assoc in Hl.
  destruct (read_reply _ _ _ _ _ H1 Hl) as (r & l1 & Hr & Hg & Hm & Hl1). unfold newNNTPConnectionFromConn. rewrite Hr.
  cbn [outcome_bind]. rewrite Hg, Hm. simpl in Hs.
  assert (Hends : forall w, (if decide (map fst rs = []) then Some ([], w) else None) = Some (sent, v) -> sent = [] /\ v = w /\ holding rest [] l1).
  { intros w Hw. case_decide as Hn; [|done]. apply map_eq_nil in Hn as ->. by injection Hw as <- <-. }
  destruct (negb (greeting_ok g)).
  { destruct (Hends _ Hs) as (-> & -> & Hh). apply holding_rest in Hh as [H2 H3]. eexists _, _. split; [reflexivity|]. split; [|done]. by eexists. }
  case_bool_decide.
  { destruct (Hends _ Hs) as (-> & -> & Hh). apply holding_rest in Hh as [H2 H3]. eexists _, _. split; [reflexivity|]. split; [|done]. by eexists. }
  case_bool_decide.
  { destruct (Hends _ Hs) as (-> & -> & Hh). apply holding_rest in Hh as [H2 H3]. destruct password_required_is as (e & He & Hi).
    rewrite He. eexists _, _. split; [reflexivity|]. split; [|done]. by exists e. }
  destruct (auth_follows a rs rest l1 sent v Hok Hs Hl1) as (e & l2 & Ha & Hl2 & Hv). rewrite Ha. cbn [outcome_bind].
  apply holding_rest in Hl2 as [H2 H3]. eexists _, _. split; [reflexivity|]. split; [|done].
  by apply (meets_error v _ ()).
Qed.

(** C12: The handshake of any server ends, except where the server neither answers nor
    closes: no read of it has a deadline, and then it does not return; and it slices out
    of range only when the decoder's counts do not fit the slice.  No line is sent but the
    two of AUTHINFO, the password only after a 381 reply to the user, and nothing without
    credentials. *)
Theorem handshake_ends a shared conn writes : small_shared shared -> unbounded conn ->
  match newNNTPConnectionFromConn a shared conn writes with
  | Done (x, l) =>
      (lk_sent l = [] \/ (au_Username a <> [] /\ au_Password a <> [] /\ auth_sent a (lk_sent l))) /\ unbounded (lk_conn l)
  | Panicked => overruns decodeFn
  | Blocked => conn_silent conn = true
  | OutOfFuel => False
  end.
Proof.
  intros Hsh Hu. destruct (start_ready shared Hsh) as [Hr _].
  change (ends (newNNTPConnectionFromConn a shared conn writes) (conn_silent conn = true) (fun '(x, l) =>
    (lk_sent l = [] \/ (au_Username a <> [] /\ au_Password a <> [] /\ auth_sent a (lk_sent l))) /\ unbounded (lk_conn l))).
  unfold newNNTPConnectionFromConn. eapply ends_bind; [exact (read_total (mkLink _ conn [] writes) Hr)|].
  intros [[err r] l1] (Hr1 & Hs1 & Hp1 & Hu1). simpl in Hs1, Hp1. specialize (Hu1 Hu).
  destruct err; [by split; [left|]|]. destruct (negb (greeting_ok _)); [by split; [left|]|].
  case_bool_decide; [by split; [left|]|]. case_bool_decide; [by split; [left|]|].
  rewrite <- Hp1. eapply ends_bind; [by apply auth_total|]. intros [e l2] (Ha & _ & Hu2). split; [by right|by apply Hu2].
Qed.

(** Departure: where it does block.  A server that accepts the connection and says
    nothing holds the handshake for ever, and the ping at start-up with it, whose
    context's limit no read gets to see. *)
Theorem silent_server_blocks a shared (conn : Conn) writes rtt :
  conn_script conn = [] -> conn_silent conn = true -> conn_deadlines conn = [] -> small_shared shared ->
  newNNTPConnectionFromConn a shared conn writes = Blocked /\ pingProvider a (inl (Some conn)) writes rtt = Blocked.
Proof.
  intros Hs Hsil Hd Hsh.
  assert (Hb : forall shared, small_shared shared -> readOneResponse (mkLink (start_buffer shared) conn [] writes) = Blocked).
  { clear shared Hsh. intros shared Hsh. destruct (start_shape shared) as (buf & -> & Hpos).
    destruct conn as [sc dl sil]. simpl in Hs, Hsil, Hd. subst sc dl sil.
    unfold readOneResponse, feedUntilDone, feedUntilDoneControlled. cbn [lk_rb lk_conn].
    rewrite init_id by done. cbn [feed_loop]. unfold feed_iteration, ask_and_read, ask, readMore, setDeadline, ensureWriteSpace. simpl.
    rewrite (proj2 (Z.ltb_lt 0 (zlen buf)) Hpos). cbn [outcome_bind]. unfold slice_range. simpl.
    rewrite (proj2 (Z.ltb_ge (zlen buf) 0)), Z.ltb_irrefl by lia. done. }
  unfold newNNTPConnectionFromConn, pingProvider. rewrite !Hb by done. done.
Qed.

(** A ping of a server that answers gives the server's time and the round trip. *)
Theorem ping_answers a conn rs t rest rtt sent :
  clean conn -> Forall (fun r => reply_ok (fst r) (snd r)) rs -> handshake_spec a (map fst rs) = Some (sent, Accepted) ->
  valid_time t -> conn_bytes conn = reply_wire (rs ++ [(111, stamp t)]) ++ rest ->
  pingProvider a (inl (Some conn)) [] rtt = Done (mkPing rtt (Some t) None).
Proof.
  intros Hc Hok Hs Ht Hb. pose proof (start_holding None conn I Hc) as Hl. unfold pingProvider. set (l0 := mkLink _ _ _ _) in *.
  clearbody l0. rewrite Hb, reply_wire_snoc, <- app_assoc in Hl. clear Hb.
  destruct rs as [|[g m] rs]; [done|]. apply Forall_cons_iff in Hok as [H1 Hok]. cbn [fst snd] in H1. cbn [reply_wire flat_map fst snd] in Hl. rewrite <- app_assoc in Hl.
  destruct (read_reply _ _ _ _ _ H1 Hl) as (r & l1 & Hr & Hg & _ & Hl1). rewrite Hr. cbn [outcome_bind].
  rewrite Hg. simpl in Hs. destruct (negb (greeting_ok g)); [by case_decide|].
  assert (Ha : exists l2 sent2, (if bool_decide (au_Username a = []) then Done (None, l1) else auth a l1) = Done (None, l2) /\
    holding (wire_response 111 (stamp t) [] ++ rest) sent2 l2).
  { case_bool_decide.
    - case_decide as Hn; [|done]. apply map_eq_nil in Hn as ->. by exists l1, [].
    - case_bool_decide; [by case_decide|]. destruct (auth_follows a rs _ l1 sent Accepted Hok Hs Hl1) as (e & l2 & Ha & Hl2 & Hv).
      exists l2, sent. destruct e; [by destruct Hv|done]. }
  destruct Ha as (l2 & sent2 & -> & Hl2). cbn [outcome_bind].
  destruct (stamp_back t Ht) as [Hp Hlen]. 
  destruct (command_reads "x" (bs "DATE" ++ crlf) 111 (stamp t) rest sent2 l2 (stamp_reply t Ht) Hl2) as (r2 & l3 & Hd & Hcode & Hmsg & _).
  unfold command_reply in Hd. destruct (link_write _ l2) as [e l2']. destruct e; [done|]. cbn [is_nil negb] in Hd.
  destruct (readOneResponse l2') as [[[e3 r3] l3']| | |]; try done. cbn [outcome_bind] in Hd |- *. injection Hd as He -> ->.
  destruct e3; [done|]. rewrite Hcode, Hmsg. change (111 =? 111) with true. cbn [negb]. by rewrite (parse_date t Ht).
Qed.

(** Dialling: a connection is had exactly when the dial and, with TLS, the handshake
    succeed; an address the resolver refuses and a handshake the certificate ends are
    reported as a configuration error, what the network does is not made one; and a
    dialled connection is closed exactly when its handshake fails. *)
Theorem dial_errors (dial : Z -> Conn + gerror) (secure : Conn -> Conn + gerror) tls keepAlive :
  let '(r, closed) := newNetConn dial secure tls keepAlive in
  match dial (if keepAlive =? 0 then defaultKeepAlive else keepAlive) with
  | inr e => exists e', r = inr e' /\ closed = false /\ (errors_as_addr e = false -> e' = e) /\
      (errors_as_addr e = true -> errors_is e' (TSentinel ErrInvalidProviderConfiguration) = true)
  | inl conn =>
      if tls then
        match secure conn with
        | inl c => r = inl c /\ closed = false
        | inr e => exists e', r = inr e' /\ closed = true /\ (isBootstrapTransportError (Some e) = true -> e' = e) /\
            (isBootstrapTransportError (Some e) = false -> errors_is e' (TSentinel ErrInvalidProviderConfiguration) = true)
        end
      else r = inl conn /\ closed = false
  end.
Proof.
  unfold newNetConn. destruct (dial _) as [conn|e].
  - destruct tls; [|done]. destruct (secure conn) as [c|e]; [done|]. unfold classifyTLSConfigurationError. cbn [is_nil orb].
    destruct (isBootstrapTransportError (Some e)); [by exists e|]. unfold withErrorClassification.
    destruct (errors_is e (TSentinel ErrInvalidProviderConfiguration)) eqn:E; [by exists e|].
    eexists. split_and!; [reflexivity|done|done|]. intros _. simpl. apply orb_true_r.
  - unfold classifyDialConfigurationError. destruct (errors_as_addr e); [|by exists e]. unfold withErrorClassification.
    destruct (errors_is e (TSentinel ErrInvalidProviderConfiguration)) eqn:E; [by exists e|].
    eexists. split_and!; [reflexivity|done|done|]. intros _. simpl. apply orb_true_r.
Qed.
End Handshake.

(** ** Witnesses *)

Definition user_pass : Auth := mkAuth (bs "u") (bs "p").
Definition three_replies : list (Z * bytes) := [(200, bs "hi"); (381, bs "more"); (281, bs "ok")].
(** The replies in two pieces, with the start of a next response. *)
Definition greeted : Conn := mkConn [(bs "200 hi" ++ crlf ++ bs "38", None); (bs "1 more" ++ crlf ++ bs "281 ok" ++ crlf ++ bs "223", None)] [].

Lemma short_reply code msg : 100 <= code < 1000 -> isMultiline code = false -> index_of crlf msg = None -> zlen msg <= 100 -> reply_ok code msg.
Proof.
  intros Hc Hm Hi Hz. unfold reply_ok, plain_response. split; [|split; [done|]].
  - split_and!; try done; try lia; intros ->; vm_compute in Hm; done.
  - unfold wire_response, status_text. rewrite Hm, app_nil_r, !zlen_app, zlen_cons. destruct (status_code_digits code Hc) as (Hl & _).
    unfold zlen at 1. rewrite Hl. change (zlen crlf) with 2. unfold maxReadBufSize. lia.
Qed.

Lemma three_ok : Forall (fun r => reply_ok (fst r) (snd r)) three_replies.
Proof. do 3 (apply Forall_cons_iff; split; [apply short_reply; vm_compute; intuition discriminate|]). constructor. Qed.

Lemma greeted_clean : clean greeted.
Proof. by repeat constructor. Qed.

Lemma handshake_refines_witness : exists x l,
  newNNTPConnectionFromConn plain_decode user_pass None greeted [] = Done (x, l) /\
  meets Accepted x /\ lk_sent l = [bs "AUTHINFO USER u" ++ crlf; bs "AUTHINFO PASS p" ++ crlf] /\
  unread (lk_rb l) ++ conn_bytes (lk_conn l) = bs "223".
Proof. apply (handshake_refines plain_decode user_pass None greeted three_replies); [exact I|exact greeted_clean|exact three_ok|reflexivity|reflexivity]. Defined.

(** A server that greets, asks for the password and then falls silent. *)
Definition falls_silent : Conn :=
  mkLine [(bs "200 hi" ++ crlf, None); (bs "381 more" ++ crlf, None)] [] true.

Lemma handshake_ends_witness :
  match newNNTPConnectionFromConn plain_decode user_pass None falls_silent [] with
  | Done (x, l) => (lk_sent l = [] \/ (au_Username user_pass <> [] /\ au_Password user_pass <> [] /\
      auth_sent plain_decode user_pass (lk_sent l))) /\ unbounded (lk_conn l)
  | Panicked => overruns plain_decode
  | Blocked => true = true
  | OutOfFuel => False
  end.
Proof. apply (handshake_ends plain_decode user_pass None falls_silent []); [exact I|constructor]. Defined.

Lemma ping_answers_witness :
  pingProvider plain_decode (mkAuth [] [])
    (inl (Some (mkConn [(bs "200 hi" ++ crlf, None); (bs "111 20240229123456" ++ crlf, None)] []))) [] 7 =
  Done (mkPing 7 (Some ((2024, 2, 29), (12, 34, 56))) None).
Proof.
  apply (ping_answers plain_decode (mkAuth [] []) _ [(200, bs "hi")] ((2024, 2, 29), (12, 34, 56)) [] 7 []); [by repeat constructor| |reflexivity| |reflexivity].
  - apply Forall_cons_iff; split; [apply short_reply; vm_compute; intuition discriminate|constructor].
  - vm_compute. intuition discriminate.
Defined.
