(* ===== verification/ReaderControl.v ===== *)
(** The [control] closure of [readerLoop] ([nntp.go]): deadlines that follow the
    progress of a response, and the bounded drain of an abandoned body.

    Each call of the closure reads the clock and the state of the caller's
    context; both are inputs, one sample per call.  The writer it redirects is a
    [sink]: the caller's writer behind an [attemptWriter], or [io.Discard].  The
    deadlines keep a read from waiting for ever only where one is set, so a run may
    also be blocked by a peer that falls silent. *)
From S2P Require Import Prelude Errors CircuitBreaker Reader ReadBuffer Framing Evidence.

(** ** Data *)

Definition stallDeadlineQuantum : Z := 250 * GoMillisecond.
Definition defaultAbandonedBodyDrainBytes : Z := 1024 * 1024.
Definition defaultAbandonedBodyDrainTimeout : Z := 250 * GoMillisecond.

(** What a call of the closure finds: the time, and whether [req.Ctx] is done. *)
Record sample := mkSample {
  sm_now : Z;
  sm_ctxDone : bool
}.

(** The constants the closure captures. *)
Record reader_cfg := mkReaderCfg {
  rc_isBody : bool;
  rc_stall : Z;
  rc_drainBytes : Z;
  rc_drainTimeout : Z;
  rc_responseDeadline : option Z;
  rc_parentDeadline : option Z
}.

(** The variables it captures; a time that is still zero is [None]. *)
Record reader_ctl := mkReaderCtl {
  rd_samples : list sample;
  rd_deliver : bool;
  rd_lastBytes : Z;
  rd_lastConsumed : Z;
  rd_stallDeadline : option Z;
  rd_firstByteAt : option Z;
  rd_drainStarted : option Z;
  rd_drainStartConsumed : Z
}.

#[export] Instance eta_reader_ctl : Eta reader_ctl := fun c =>
  mkReaderCtl (rd_samples c) (rd_deliver c) (rd_lastBytes c) (rd_lastConsumed c)
    (rd_stallDeadline c) (rd_firstByteAt c) (rd_drainStarted c) (rd_drainStartConsumed c).

(** [writerRef] around the request's output: what has reached the caller, how the
    caller's writer will answer its next calls ([None]: it takes everything;
    [Some (n, e)]: it takes [n] bytes and fails with [e]; after the last, it takes
    everything), the request's commitment, and whether the output was switched to
    [io.Discard]. *)
Record sink := mkSink {
  sk_data : bytes;
  sk_answers : list (option (nat * gerror));
  sk_tracked : bool;
  sk_committed : bool;
  sk_discard : bool
}.

#[export] Instance eta_sink : Eta sink := fun w =>
  mkSink (sk_data w) (sk_answers w) (sk_tracked w) (sk_committed w) (sk_discard w).

(** [outRef.Write]: the error is the one of the caller's writer. *)
Definition sink_write (w : sink) (p : bytes) : sink * error :=
  if sk_discard w then (w, None)
  else
    let w := if sk_tracked w && negb (zlen p =? 0) then w <| sk_committed := true |> else w in
    match sk_answers w with
    | Some (n, e) :: rest => (w <| sk_data := sk_data w ++ take n p |> <| sk_answers := rest |>, Some e)
    | _ => (w <| sk_data := sk_data w ++ p |> <| sk_answers := tail (sk_answers w) |>, None)
    end.

(** ** The closure *)

Section Control.
Context (cfg : reader_cfg).

Definition next_sample (c : reader_ctl) : sample * reader_ctl :=
  match rd_samples c with
  | [] => (mkSample 0 false, c)
  | [s] => (s, c)
  | s :: rest => (s, c <| rd_samples := rest |>)
  end.

(** The answer while an abandoned body is drained. *)
Definition drain_control (now : Z) (c : reader_ctl) (consumedBytes : Z) : control_result * reader_ctl :=
  let c := match rd_drainStarted c with
           | None => c <| rd_drainStarted := Some now |> <| rd_drainStartConsumed := consumedBytes |>
           | Some _ => c
           end in
  let started := match rd_drainStarted c with Some t => t | None => now end in
  if (0 <? rc_drainTimeout cfg) && negb (now <? started + rc_drainTimeout cfg)
  then (mkControl 0 false 0 (Some (ESentinel errAbandonedBodyDrainLimit)), c)
  else
    let remaining := rc_drainBytes cfg - (consumedBytes - rd_drainStartConsumed c) in
    if (0 <? rc_drainBytes cfg) && (remaining <=? 0)
    then (mkControl 0 false 0 (Some (ESentinel errAbandonedBodyDrainLimit)), c)
    else if 0 <? rc_drainTimeout cfg
    then (mkControl (started + rc_drainTimeout cfg) true (Z.max remaining 0) None, c)
    else (mkControl 0 false (Z.max remaining 0) None, c).

(** The answer while the response is wanted. *)
Definition progress_control (now : Z) (c : reader_ctl) (wireBytes consumedBytes : Z)
  : control_result * reader_ctl :=
  let c :=
    if (rd_lastBytes c <? wireBytes) || (rd_lastConsumed c <? consumedBytes) then
      let c := match rd_firstByteAt c with
               | None => c <| rd_firstByteAt := Some now |>
               | Some _ => c
               end in
      let c := c <| rd_lastBytes := wireBytes |> <| rd_lastConsumed := consumedBytes |> in
      if 0 <? rc_stall cfg then
        let dl := now + rc_stall cfg in
        let renew := match rd_stallDeadline c with
                     | None => true
                     | Some sd => negb (now <? sd) || (stallDeadlineQuantum <=? dl - sd)
                     end in
        if renew then c <| rd_stallDeadline := Some dl |> else c
      else c
    else c in
  let parent := match rc_parentDeadline cfg with Some d => (d, true) | None => (0, false) end in
  let bounded (d : Z) :=
    let '(dl, ok) := minDeadline d (fst parent) (snd parent) in mkControl dl ok 0 None in
  (match rc_responseDeadline cfg with
   | Some rd =>
       if rd_lastBytes c =? 0 then bounded rd
       else if (0 <? rd_lastBytes c) && (0 <? rc_stall cfg)
       then bounded (match rd_stallDeadline c with Some d => d | None => 0 end)
       else mkControl (fst parent) (snd parent) 0 None
   | None =>
       if (0 <? rd_lastBytes c) && (0 <? rc_stall cfg)
       then bounded (match rd_stallDeadline c with Some d => d | None => 0 end)
       else mkControl (fst parent) (snd parent) 0 None
   end, c).

Definition reader_control (c : reader_ctl) (w : sink) (wireBytes consumedBytes : Z)
  : control_result * reader_ctl * sink :=
  let '(s, c) := next_sample c in
  let '(c, w) :=
    if rd_deliver c && sm_ctxDone s then
      (c <| rd_deliver := false |> <| rd_drainStarted := Some (sm_now s) |>
         <| rd_drainStartConsumed := consumedBytes |>, w <| sk_discard := true |>)
    else (c, w) in
  let '(a, c) :=
    if negb (rd_deliver c) && rc_isBody cfg
    then drain_control (sm_now s) c consumedBytes
    else progress_control (sm_now s) c wireBytes consumedBytes in
  (a, c, w).
End Control.

(** The variables at the start of a response; a request cancelled before its
    turn is not delivered and its output is discarded from the start. *)
Definition new_reader_ctl (samples : list sample) (deliver : bool) : reader_ctl :=
  mkReaderCtl samples deliver 0 0 None None None 0.
Definition new_sink (answers : list (option (nat * gerror))) (isBody deliver : bool) : sink :=
  mkSink [] answers (deliver && isBody) false (negb deliver).

(** ** Lemmas *)

(** A predicate that every write keeps is kept by [Feed]. *)
Lemma Feed_writer_inv {W} (write : W -> bytes -> W * error) (decodeFn : bytes -> YState -> yenc_result)
    (Pw : W -> Prop) (r : NNTPResponse) (buf : bytes) (w : W) :
  (forall w p, Pw w -> Pw (fst (write w p))) -> Pw w ->
  match Feed write decodeFn r buf w with Done (_, _, _, _, w', _) => Pw w' | _ => True end.
Proof.
  intros Hw H0. unfold Feed. destruct (decode write decodeFn r buf w) as [d| | |] eqn:Hd; try done.
  cbn [outcome_bind].
  apply (decode_preserves write decodeFn (fun _ w => Pw w)) with (7 := Hd); try done.
  intros r0 b w0 _ HP. unfold decodeYenc. destruct b as [|c b]; [done|]. cbv zeta.
  set (dd := decodeFn (c :: b) (State r0)).
  assert (Hfin : match decodeYenc_finish write (r0 <| State := yr_state dd |>) dd (overwrite (yr_buf dd) (c :: b)) w0 with
                 | Done (_, _, _, w', _) => Pw w' | _ => True end).
  { unfold decodeYenc_finish. destruct (0 <? yr_produced dd); cbn [outcome_bind].
    - destruct (_ <? _); [done|]. set (p := take _ _). specialize (Hw w0 p HP). destruct (write w0 p) as [w1 [e|]]; [done|].
      simpl in Hw. cbn [outcome_bind]. by destruct (yr_end dd); [case_decide|..].
    - by destruct (yr_end dd); [case_decide|..]. }
  destruct (yr_err dd); [by destruct (strictDecodeErrors _)|exact Hfin].
Qed.

Lemma sink_write_discards w p : sk_discard w = true -> sink_write w p = (w, None).
Proof. unfold sink_write. by intros ->. Qed.

(** The drain's invariant on the captured variables at [k] bytes consumed. *)
Definition drain_inv (cfg : reader_cfg) (c : reader_ctl) (k : Z) : Prop :=
  (rd_deliver c = true -> rd_drainStarted c = None) /\
  (rd_drainStarted c <> None -> k - rd_drainStartConsumed c <= rc_drainBytes cfg).

Lemma next_sample_fields c s c' :
  next_sample c = (s, c') -> rd_deliver c' = rd_deliver c /\ rd_drainStarted c' = rd_drainStarted c /\
    rd_drainStartConsumed c' = rd_drainStartConsumed c.
Proof. unfold next_sample. destruct (rd_samples c) as [|s0 [|]]; by intros [= <- <-]. Qed.

Lemma drain_control_inv cfg now c k :
  0 < rc_drainBytes cfg -> rd_deliver c = false -> drain_inv cfg c k ->
  match drain_control cfg now c k with
  | (a, c') => drain_inv cfg c' k /\ rd_deliver c' = false /\
      (ctl_err a = None -> forall n, (0 < ctl_maxFeed a -> n <= ctl_maxFeed a) -> drain_inv cfg c' (k + n))
  end.
Proof.
  intros Hpos Hd [H1 H2]. unfold drain_control.
  set (c1 := match rd_drainStarted c with None => _ | Some _ => c end).
  assert (Hc1 : exists t, rd_drainStarted c1 = Some t /\ rd_deliver c1 = false /\
            k - rd_drainStartConsumed c1 <= rc_drainBytes cfg).
  { unfold c1. destruct (rd_drainStarted c) as [t|] eqn:E.
    - exists t. split_and!; try done. by apply H2.
    - exists now. simpl. split_and!; try done. lia. }
  destruct Hc1 as (t & Ht & Hd1 & Hle). rewrite Ht.
  assert (Hi : drain_inv cfg c1 k) by (split; [congruence|done]).
  rewrite (proj2 (Z.ltb_lt _ _) Hpos). cbn [andb].
  set (rem := rc_drainBytes cfg - (k - rd_drainStartConsumed c1)).
  destruct ((0 <? rc_drainTimeout cfg) && _); [by split_and!|].
  destruct (Z.leb_spec rem 0); [by split_and!|].
  assert (Hn : forall n, (0 < Z.max rem 0 -> n <= Z.max rem 0) -> drain_inv cfg c1 (k + n)).
  { intros n Hn. split; [congruence|]. intros _. lia. }
  destruct (0 <? rc_drainTimeout cfg); split_and!; try done; intros _ n; apply Hn.
Qed.

Lemma progress_control_fields cfg now c x k :
  match progress_control cfg now c x k with
  | (_, c') => rd_deliver c' = rd_deliver c /\ rd_drainStarted c' = rd_drainStarted c /\
      rd_drainStartConsumed c' = rd_drainStartConsumed c
  end.
Proof.
  unfold progress_control. cbv zeta.
  destruct (_ || _); [|done]. destruct (0 <? rc_stall cfg); [|by destruct (rd_firstByteAt c)].
  destruct (match rd_stallDeadline _ with Some _ => _ | None => _ end); by destruct (rd_firstByteAt c).
Qed.

Lemma reader_control_inv cfg c w x k :
  rc_isBody cfg = true -> 0 < rc_drainBytes cfg -> drain_inv cfg c k ->
  match reader_control cfg c w x k with
  | (a, c', _) => drain_inv cfg c' k /\
      (ctl_err a = None -> forall n, 0 <= n -> (0 < ctl_maxFeed a -> n <= ctl_maxFeed a) ->
       drain_inv cfg c' (k + n))
  end.
Proof.
  intros Hb Hpos [H1 H2]. unfold reader_control.
  destruct (next_sample c) as [s c0] eqn:Hs. apply next_sample_fields in Hs as (E1 & E2 & E3).
  assert (Hi0 : drain_inv cfg c0 k) by (unfold drain_inv; rewrite E1, E2, E3; by split).
  destruct (rd_deliver c0 && sm_ctxDone s) eqn:Hdone.
  - simpl. rewrite Hb. simpl.
    pose proof (drain_control_inv cfg (sm_now s) (c0 <| rd_deliver := false |>
      <| rd_drainStarted := Some (sm_now s) |> <| rd_drainStartConsumed := k |>) k Hpos eq_refl) as Hd.
    destruct (drain_control _ _ _ _) as [a c']. destruct Hd as (Hd1 & _ & Hd2); [split; simpl; [done|lia]|].
    split; [done|]. intros He n _ Hn. by apply Hd2.
  - destruct (rd_deliver c0) eqn:Ed; cbn [negb andb].
    + pose proof (progress_control_fields cfg (sm_now s) c0 x k) as Hp.
      destruct (progress_control _ _ _ _ _) as [a c']. destruct Hp as (P1 & P2 & P3).
      assert (Hnone : rd_drainStarted c' = None) by (rewrite P2; by apply Hi0).
      split; [|intros _ n _ _]; (split; [done|congruence]).
    + rewrite Hb. pose proof (drain_control_inv cfg (sm_now s) c0 k Hpos Ed Hi0) as Hd.
      destruct (drain_control _ _ _ _) as [a c']. destruct Hd as (Hd1 & _ & Hd2).
      split; [done|]. intros He n _ Hn. by apply Hd2.
Qed.

(** Once delivery has stopped it stays stopped, and the output discards. *)
Definition discarding (data : bytes) (committed : bool) (c : reader_ctl) (w : sink) : Prop :=
  rd_deliver c = false /\ sk_discard w = true /\ sk_data w = data /\ sk_committed w = committed.

Lemma reader_control_discards cfg data committed c w x k :
  discarding data committed c w ->
  match reader_control cfg c w x k with (_, c', w') => discarding data committed c' w' end.
Proof.
  intros (H1 & H2 & H3 & H4). unfold reader_control.
  destruct (next_sample c) as [s c0] eqn:Hs. apply next_sample_fields in Hs as (E1 & _ & _).
  assert (Hd0 : rd_deliver c0 = false) by congruence. rewrite Hd0. cbn [andb]. rewrite Hd0. cbn [andb negb].
  assert (Hgo : rd_deliver (snd (if rc_isBody cfg then drain_control cfg (sm_now s) c0 k
                                 else progress_control cfg (sm_now s) c0 x k)) = false).
  { destruct (rc_isBody cfg).
    - unfold drain_control. destruct (rd_drainStarted c0);
        (destruct (_ && _); [simpl; congruence|]; destruct (_ && _); [simpl; congruence|];
         destruct (0 <? rc_drainTimeout cfg); simpl; congruence).
    - pose proof (progress_control_fields cfg (sm_now s) c0 x k) as Hp.
      destruct (progress_control _ _ _ _ _). destruct Hp as [Hp _]. simpl. congruence. }
  destruct (if rc_isBody cfg then _ else _) as [a c']. simpl in Hgo. by split_and!.
Qed.

(** The closure lets the loop run, without a limit, while no BODY is abandoned; it
    leaves what reached the caller as it is. *)
Definition wanted (isBody : bool) (deliver : bool) (samples : list sample) : Prop :=
  isBody = true -> deliver = true /\ Forall (fun s => sm_ctxDone s = false) samples.

Definition running (cfg : reader_cfg) (c : reader_ctl) (w : sink) : Prop :=
  wanted (rc_isBody cfg) (rd_deliver c) (rd_samples c) /\ sk_data w = [] /\ sk_committed w = false.

Lemma progress_control_runs cfg now c x k :
  let '(a, c') := progress_control cfg now c x k in
  ctl_err a = None /\ ctl_maxFeed a = 0 /\ rd_samples c' = rd_samples c.
Proof.
  unfold progress_control. cbv zeta. set (c1 := if _ || _ then _ else c).
  assert (E : rd_samples c1 = rd_samples c).
  { unfold c1. destruct (_ || _); [|done]. destruct (0 <? rc_stall cfg); [|by destruct (rd_firstByteAt c)].
    destruct (match rd_stallDeadline _ with Some _ => _ | None => _ end); by destruct (rd_firstByteAt c). }
  unfold minDeadline. repeat (case_match; simplify_eq/=; try done).
Qed.

Lemma reader_control_runs cfg c w x k : running cfg c w ->
  exists a c' w', reader_control cfg c w x k = (a, c', w') /\ ctl_err a = None /\ ctl_maxFeed a = 0 /\
    running cfg c' w'.
Proof.
  intros (Hw & Hd & Hc). unfold reader_control. destruct (next_sample c) as [s c0] eqn:Hs.
  assert (Hw0 : wanted (rc_isBody cfg) (rd_deliver c0) (rd_samples c0) /\ (rc_isBody cfg = true -> sm_ctxDone s = false)).
  { unfold next_sample in Hs. unfold wanted in *. destruct (rd_samples c) as [|s0 [|s1 l]] eqn:E; simplify_eq; rewrite ?E.
    - by split.
    - split; [done|]. intros Hb. destruct (Hw Hb) as [_ [H _]%Forall_cons_iff]. done.
    - split; intros Hb; destruct (Hw Hb) as [? [? ?]%Forall_cons_iff]; done. }
  destruct Hw0 as [Hw0 Hs0].
  destruct (rc_isBody cfg) eqn:Eb.
  - destruct (Hw0 eq_refl) as [Hdel Hall]. rewrite Hdel, (Hs0 eq_refl). cbn [andb]. rewrite Hdel. cbn [negb andb].
    pose proof (progress_control_runs cfg (sm_now s) c0 x k) as Hp.
    pose proof (progress_control_fields cfg (sm_now s) c0 x k) as Hf.
    destruct (progress_control _ _ _ _ _) as [a c']. destruct Hp as (P1 & P2 & P3), Hf as (F1 & _ & _).
    do 3 eexists. split; [reflexivity|]. unfold running. rewrite Eb, F1, P3. by split_and!.
  - set (cw := if _ && _ then _ else _).
    assert (E : sk_data (snd cw) = [] /\ sk_committed (snd cw) = false) by (unfold cw; by destruct (_ && _)).
    destruct cw as [c1 w1]. destruct E as [E1 E2]. rewrite andb_false_r.
    pose proof (progress_control_runs cfg (sm_now s) c1 x k) as Hp.
    destruct (progress_control _ _ _ _ _) as [a c']. destruct Hp as (P1 & P2 & P3).
    do 3 eexists. split; [reflexivity|]. unfold running. rewrite Eb. by split_and!.
Qed.

(** ** Properties *)

Section Properties.
Context (decodeFn : bytes -> YState -> yenc_result).
#[local] Instance sink_feeder : byteFeeder NNTPResponse sink := NNTPResponse_feeder sink_write decodeFn.

(** C33: an abandoned body is bounded: however the response of a cancelled BODY
    request continues, and whatever the decoder makes of it, the connection consumes at
    most [abandonedDrainBytes] more bytes of it (those already buffered included) before
    the read loop ends, by completion or with an error that retires the connection.
    The loop does not end only where the peer falls silent, and it slices out of
    range only when the decoder's counts do not fit the slice it was given. *)
Theorem abandoned_body_bounded (cfg : reader_cfg) (samples : list sample)
    (answers : list (option (nat * gerror))) (deliver : bool)
    (rb : readBuffer) (conn : Conn) (r : NNTPResponse) :
  rb_ready rb -> rc_isBody cfg = true -> 0 < rc_drainBytes cfg ->
  match feedUntilDoneControlled (reader_control cfg) rb conn r (new_sink answers true deliver)
          (new_reader_ctl samples deliver) with
  | Done (e, s) =>
      rd_drainStarted (l_ctl s) <> None ->
      l_consumed s - rd_drainStartConsumed (l_ctl s) <= rc_drainBytes cfg
  | Panicked => overruns decodeFn
  | Blocked => conn_silent conn = true
  | OutOfFuel => False
  end.
Proof.
  intros Hr Hb Hpos. unfold feedUntilDoneControlled. rewrite (init_id rb (proj2 Hr)).
  destruct (feed_loop_ok (reader_control cfg) (S (script_measure conn))
    (mkLoop rb conn r (new_sink answers true deliver) (new_reader_ctl samples deliver) 0 0))
    as [[[-> Hf]|[-> Hs]]|(e & s & Hs & _)]; [done|simpl; lia|done|done|]. rewrite Hs.
  assert (Hi : ctl_inv (drain_inv cfg) s).
  { refine (feed_loop_inv (reader_control cfg) (drain_inv cfg) _ _ _ _ _ _ Hs).
    - intros c w x k. by apply reader_control_inv.
    - split; [done|]. by split. }
  by destruct Hi as (_ & _ & H2).
Qed.

(** C25: framing: however the network cuts the stream into reads, the read loop under
    [readerLoop]'s [control] takes exactly one response off it, when the response is one
    whose status is not 220 or 222 (a refused BODY among them) and the request is no BODY
    abandoned by its caller: the response is decoded to the status, message and lines
    that were sent, nothing of it reaches the caller's writer, and the buffer and the
    connection together still hold exactly the bytes that follow it, so the next
    pipelined response starts where this one ended.  The loop ends without an error as
    soon as the response has arrived, with any yEnc decoder. *)
Theorem pipelined_reply_framed (cfg : reader_cfg) (samples : list sample)
    (answers : list (option (nat * gerror))) (deliver withMeta strict : bool)
    (code : Z) (msg : bytes) (lines : list bytes) (tail : bytes) (rb : readBuffer) (conn : Conn) :
  wanted (rc_isBody cfg) deliver samples -> plain_response code msg lines -> rb_ready rb ->
  let wire := wire_response code msg lines in
  zlen wire <= maxReadBufSize ->
  unread rb ++ conn_bytes conn = wire ++ tail -> arrives conn (zlen wire - zlen (unread rb)) ->
  exists s, feedUntilDoneControlled (reader_control cfg) rb conn (newNNTPResponse withMeta strict)
              (new_sink answers (rc_isBody cfg) deliver) (new_reader_ctl samples deliver) = Done (None, s) /\
    is_response code msg lines (l_feeder s) /\ rb_ready (l_rb s) /\
    unread (l_rb s) ++ conn_bytes (l_conn s) = tail /\
    sk_data (l_out s) = [] /\ sk_committed (l_out s) = false.
Proof.
  intros Hw Hp Hr wire Hmax Hs Harr.
  destruct (framed_controlled sink_write decodeFn (reader_control cfg) (running cfg) withMeta strict code msg lines tail
    rb conn (new_sink answers (rc_isBody cfg) deliver) (new_reader_ctl samples deliver))
    as (s & H1 & H2 & (_ & H3 & H4) & H5 & H6); try done.
  - intros c w x y. apply reader_control_runs.
  - by exists s.
Qed.

(** A cancelled request is silent: once a response is not to be delivered,
    no byte of it reaches the caller's writer and it commits nothing. *)
Theorem abandoned_response_silent (cfg : reader_cfg) (samples : list sample)
    (rb : readBuffer) (conn : Conn) (r : NNTPResponse) (w : sink) (e : error)
    (s : loop_state NNTPResponse sink reader_ctl) :
  sk_discard w = true ->
  feedUntilDoneControlled (reader_control cfg) rb conn r w (new_reader_ctl samples false) = Done (e, s) ->
  sk_data (l_out s) = sk_data w /\ sk_committed (l_out s) = sk_committed w.
Proof.
  intros Hd Hs. unfold feedUntilDoneControlled in Hs.
  assert (Hi : out_inv (fun _ c w' _ => discarding (sk_data w) (sk_committed w) c w') s).
  { refine (proj1 (feed_loop_out (reader_control cfg) (fun _ c w' _ => discarding (sk_data w) (sk_committed w) c w') (fun _ => True) I _ _ _ _ _ _ _ Hs)).
    - intros _ c w0 conn0 x k Hx. pose proof (reader_control_discards cfg _ _ c w0 x k Hx) as Hc.
      by destruct (reader_control cfg c w0 x k) as [[a c'] w'].
    - intros f b w0 c conn0 (H1 & H2 & H3 & H4).
      pose proof (Feed_writer_inv sink_write decodeFn
        (fun w1 => sk_discard w1 = true /\ sk_data w1 = sk_data w /\ sk_committed w1 = sk_committed w) f b w0) as Hf.
      change (feeder_feed f b w0) with (Feed sink_write decodeFn f b w0).
      destruct (Feed sink_write decodeFn f b w0) as [[[[[[? ?] ?] ?] w1] ?]| | |]; try done.
      destruct Hf as (F1 & F2 & F3); [|done|by split_and!].
      intros w2 p (F1 & F2 & F3). by rewrite sink_write_discards.
    - done. }
  by destruct Hi as (_ & _ & H3 & H4).
Qed.
End Properties.

(** A healthy transfer is not cut off: whenever bytes have arrived, the
    deadline the next read gets is within 250 ms of [now + StallTimeout], or the
    caller's own deadline when that is earlier; it never lies beyond either. *)
Theorem stall_deadline_rolls (cfg : reader_cfg) (now : Z) (c : reader_ctl) (wireBytes consumed : Z) :
  0 < rc_stall cfg -> 0 <= rd_lastBytes c < wireBytes ->
  (forall sd, rd_stallDeadline c = Some sd -> sd <= now + rc_stall cfg) ->
  let a := fst (progress_control cfg now c wireBytes consumed) in
  ctl_err a = None /\ ctl_hasDeadline a = true /\ ctl_deadline a <= now + rc_stall cfg /\
  (forall p, rc_parentDeadline cfg = Some p -> ctl_deadline a <= p) /\
  (now + rc_stall cfg - stallDeadlineQuantum < ctl_deadline a \/
   rc_parentDeadline cfg = Some (ctl_deadline a)).
Proof.
  intros Hst Hb Hsd a. unfold a, progress_control.
  rewrite (proj2 (Z.ltb_lt (rd_lastBytes c) wireBytes)) by lia. cbn [orb].
  set (c1 := match rd_firstByteAt c with None => _ | Some _ => c end).
  assert (E1 : rd_stallDeadline c1 = rd_stallDeadline c) by (unfold c1; by destruct (rd_firstByteAt c)).
  rewrite (proj2 (Z.ltb_lt 0 (rc_stall cfg))) by done.
  set (c2 := c1 <| rd_lastBytes := wireBytes |> <| rd_lastConsumed := consumed |>).
  set (renew := match rd_stallDeadline c2 with None => true | Some sd => _ end).
  set (c3 := if renew then _ else c2).
  assert (H3 : rd_lastBytes c3 = wireBytes /\ exists sd, rd_stallDeadline c3 = Some sd /\
            now + rc_stall cfg - stallDeadlineQuantum < sd <= now + rc_stall cfg).
  { unfold c3, renew. assert (stallDeadlineQuantum = 250000000) as -> by done.
    change (rd_stallDeadline c2) with (rd_stallDeadline c1). rewrite E1.
    destruct (rd_stallDeadline c) as [sd|] eqn:Es.
    - specialize (Hsd sd eq_refl).
      destruct (Z.ltb_spec now sd), (Z.leb_spec 250000000 (now + rc_stall cfg - sd)); simpl;
        split; try done; eexists; (split; [first [reflexivity|exact E1]|lia]).
    - simpl. split; [done|]. eexists. split; [reflexivity|lia]. }
  destruct H3 as (Hlb & sd & Hsd3 & Hr). rewrite Hlb, Hsd3.
  rewrite (proj2 (Z.ltb_lt 0 wireBytes)) by lia. rewrite (proj2 (Z.eqb_neq wireBytes 0)) by lia. cbn [andb].
  unfold minDeadline. destruct (rc_responseDeadline cfg), (rc_parentDeadline cfg) as [p|]; simpl;
    try (destruct (Z.ltb_spec p sd); simpl); split_and!; try done; try lia;
    try (intros ? [= <-]; lia); try (left; lia); try (right; done).
Qed.

(** ** Witnesses *)

(** A BODY whose caller is gone, on a connection that keeps sending. *)
Definition drain_cfg : reader_cfg := mkReaderCfg true (8 * GoSecond) 10 GoSecond None None.
Definition chatty_conn : Conn :=
  mkConn [(bs "222 b" ++ crlf ++ bs "a" ++ crlf ++ bs "b" ++ crlf ++ bs "c" ++ crlf, None)] [].

(** Two replies, cut in the middle of the first; the caller of this STAT is gone. *)
Lemma pipelined_reply_framed_witness :
  exists s, @feedUntilDoneControlled _ _ _ (NNTPResponse_feeder sink_write plain_decode)
      (reader_control (mkReaderCfg false (8 * GoSecond) 10 GoSecond None (Some 9))) (init emptyReadBuffer)
      (mkConn [(bs "223 0 <", None); (bs "a@b>" ++ crlf ++ bs "430", None)] []) (newNNTPResponse false false)
      (new_sink [] false true) (new_reader_ctl [mkSample 5 true] true) = Done (None, s) /\
    is_response 223 (bs "0 <a@b>") [] (l_feeder s) /\ rb_ready (l_rb s) /\
    unread (l_rb s) ++ conn_bytes (l_conn s) = bs "430" /\ sk_data (l_out s) = [] /\ sk_committed (l_out s) = false.
Proof.
  apply (pipelined_reply_framed plain_decode (mkReaderCfg false (8 * GoSecond) 10 GoSecond None (Some 9))
    [mkSample 5 true] [] true false false 223 (bs "0 <a@b>") [] (bs "430")).
  - discriminate.
  - unfold plain_response. split_and!; try reflexivity; try discriminate. constructor.
  - exact init_ready.
  - discriminate.
  - reflexivity.
  - exists [bs "223 0 <"; bs "a@b>" ++ crlf ++ bs "430"], []. split; [reflexivity|discriminate].
Defined.

Lemma abandoned_body_bounded_witness :
  match @feedUntilDoneControlled _ _ _ (NNTPResponse_feeder sink_write plain_decode)
      (reader_control drain_cfg) (init emptyReadBuffer) chatty_conn (newNNTPResponse false true)
      (new_sink [] true false) (new_reader_ctl [mkSample 7 true] false) with
  | Done (e, s) => rd_drainStarted (l_ctl s) <> None -> l_consumed s - rd_drainStartConsumed (l_ctl s) <= 10
  | Panicked => overruns plain_decode
  | Blocked => false = true
  | OutOfFuel => False
  end.
Proof.
  apply (abandoned_body_bounded plain_decode drain_cfg
           [mkSample 7 true] [] false (init emptyReadBuffer) chatty_conn (newNNTPResponse false true)).
  - exact init_ready.
  - reflexivity.
  - reflexivity.
Defined.

(** A small buffer, so that the run itself can be evaluated. *)
Definition small_buffer : readBuffer := mkReadBuffer (repeat x00 64) 0 0 0 false false.

Lemma abandoned_response_silent_witness :
  let run := @feedUntilDoneControlled _ _ _
      (NNTPResponse_feeder sink_write plain_decode)
      (reader_control drain_cfg) small_buffer chatty_conn (newNNTPResponse false true)
      (new_sink [] true false) (new_reader_ctl [mkSample 7 true] false) in
  exists e s, run = Done (e, s) /\ e = Some (ESentinel errAbandonedBodyDrainLimit) /\ sk_data (l_out s) = [].
Proof.
  intros run.
  assert (Hr : exists s, run = Done (Some (ESentinel errAbandonedBodyDrainLimit), s)).
  { eexists. vm_compute. reflexivity. }
  destruct Hr as (s & Hs). do 2 eexists. split; [exact Hs|]. split; [reflexivity|].
  apply (abandoned_response_silent plain_decode drain_cfg
           [mkSample 7 true] small_buffer chatty_conn (newNNTPResponse false true) (new_sink [] true false)
           _ s eq_refl Hs).
Defined.

Lemma stall_deadline_rolls_witness :
  let c := new_reader_ctl [] true in
  let cfg := mkReaderCfg true (8 * GoSecond) 0 0 (Some 100) (Some 500) in
  let a := fst (progress_control cfg 60 c 10 0) in
  ctl_err a = None /\ ctl_hasDeadline a = true /\ ctl_deadline a <= 60 + 8 * GoSecond /\
  (forall p, rc_parentDeadline cfg = Some p -> ctl_deadline a <= p) /\
  (60 + 8 * GoSecond - stallDeadlineQuantum < ctl_deadline a \/
   rc_parentDeadline cfg = Some (ctl_deadline a)).
Proof.
  intros c cfg. apply (stall_deadline_rolls cfg 60 c 10 0).
  - reflexivity.
  - split; [discriminate|reflexivity].
  - intros sd H. discriminate.
Defined.

(** The byte limit counts consumed bytes: a first line longer than the limit is
    never consumed, and the drain reads on until its time limit or a read error
    (here the connection's end). *)
Example drain_limit_below_line :
  match @feedUntilDoneControlled _ _ _
      (NNTPResponse_feeder sink_write plain_decode)
      (reader_control (mkReaderCfg true (8 * GoSecond) 4 GoSecond None None)) small_buffer chatty_conn
      (newNNTPResponse false true) (new_sink [] true false) (new_reader_ctl [mkSample 7 true] false) with
  | Done (e, s) => e = Some (EOpaque "EOF") /\ l_consumed s = 0 /\ zlen (unread (l_rb s)) = 16
  | _ => False
  end.
Proof. vm_compute. auto. Qed.
