(* ===== verification/Prog.v ===== *)
(** Programs that act on a concurrent environment.

    A program asks the environment one question at a time and goes on with the
    answer; it may fork programs and go on with all their results.  Its
    executions are the traces of questions and answers, those of forked programs
    interleaved in any order.  Every answer the environment may give is covered,
    so what is proved of all traces holds whatever other goroutines do.

    [sat p Q] states a property of every execution of [p]; its rules let the
    proofs about the request router follow the structure of its code. *)
From S2P Require Import Prelude.

Section Prog.
Context {query : Type} (ans : query -> Type) (P R : Type).

(** A question with the answer it got. *)
Inductive event := Ev (q : query) (a : ans q).

Inductive prog (A : Type) :=
| Ret (a : A)
| NoFuel
| Ask (q : query) (k : ans q -> prog A)
| Fork (ps : list P) (k : list R -> prog A).
End Prog.
Arguments Ev {query ans}.
Arguments Ret {query ans P R A}.
Arguments NoFuel {query ans P R A}.
Arguments Ask {query ans P R A}.
Arguments Fork {query ans P R A}.

Section Monad.
Context {query : Type} {ans : query -> Type} {P R : Type}.
Abbreviation prog := (prog ans P R).

Fixpoint bind {A B} (p : prog A) (f : A -> prog B) : prog B :=
  match p with
  | Ret a => f a
  | NoFuel => NoFuel
  | Ask q k => Ask q (fun a => bind (k a) f)
  | Fork ps k => Fork ps (fun rs => bind (k rs) f)
  end.

Definition ask (q : query) : prog (ans q) := Ask q Ret.
End Monad.

Declare Scope prog_scope.
Delimit Scope prog_scope with prog.
Notation "'let!' p ':=' c 'in' k" := (bind c (fun p => k))
  (at level 10, p pattern, c at level 100, k at level 200) : prog_scope.
Notation "c ';!' k" := (bind c (fun _ => k)) (at level 60, right associativity) : prog_scope.

(** ** Executions *)

(** [interleave ts t]: [t] is a shuffle of the traces [ts]. *)
Inductive interleave {E} : list (list E) -> list E -> Prop :=
| inter_nil ts : Forall (eq []) ts -> interleave ts []
| inter_cons ts1 e t ts2 tr :
    interleave (ts1 ++ t :: ts2) tr -> interleave (ts1 ++ (e :: t) :: ts2) (e :: tr).

(** All results, when there are. *)
Fixpoint all_some {A} (l : list (option A)) : option (list A) :=
  match l with
  | [] => Some []
  | Some a :: l => match all_some l with Some r => Some (a :: r) | None => None end
  | None :: _ => None
  end.

Section Exec.
Context {query : Type} {ans : query -> Type} {P R : Type}.
Abbreviation event := (event ans).
(** The executions of a forked program; the result is [None] when it runs out
    of fuel. *)
Context (execP : P -> list event -> option R -> Prop).

Fixpoint exec {A} (p : prog ans P R A) (tr : list event) (r : option A) : Prop :=
  match p with
  | Ret a => tr = [] /\ r = Some a
  | NoFuel => tr = [] /\ r = None
  | Ask q k => exists a tr', tr = Ev q a :: tr' /\ exec (k a) tr' r
  | Fork ps k => exists trs rs t1 t2,
      Forall3 execP ps trs rs /\ interleave trs t1 /\ tr = t1 ++ t2 /\
      match all_some rs with
      | Some l => exec (k l) t2 r
      | None => t2 = [] /\ r = None
      end
  end.

(** Every execution of [p] has the property [Q] of its trace and result. *)
Definition sat {A} (p : prog ans P R A) (Q : list event -> option A -> Prop) : Prop :=
  forall tr r, exec p tr r -> Q tr r.

Lemma sat_ret {A} (a : A) (Q : list event -> option A -> Prop) : Q [] (Some a) -> sat (Ret a) Q.
Proof. by intros HQ tr r [-> ->]. Qed.

Lemma sat_nofuel {A} (Q : list event -> option A -> Prop) : Q [] None -> sat NoFuel Q.
Proof. by intros HQ tr r [-> ->]. Qed.

Lemma sat_ask {A} (q : query) (k : ans q -> prog ans P R A) (Q : list event -> option A -> Prop) :
  (forall a, sat (k a) (fun tr r => Q (Ev q a :: tr) r)) -> sat (Ask q k) Q.
Proof. intros H tr r (a & tr' & -> & He). exact (H a tr' r He). Qed.

Lemma sat_conseq {A} (p : prog ans P R A) (Q Q' : list event -> option A -> Prop) :
  sat p Q -> (forall tr r, Q tr r -> Q' tr r) -> sat p Q'.
Proof. intros H HQ tr r He. by apply HQ, H. Qed.

(** An execution of a bind is one of its first part, then one of the rest. *)
Lemma exec_bind {A B} (p : prog ans P R A) (f : A -> prog ans P R B) : forall tr r,
  exec (bind p f) tr r ->
  (exists t1 t2 a, tr = t1 ++ t2 /\ exec p t1 (Some a) /\ exec (f a) t2 r) \/
  (exec p tr None /\ r = None).
Proof.
  induction p as [a| |q k IH|ps k IH]; intros tr r He; simpl in He.
  - left. by exists [], tr, a.
  - destruct He as [-> ->]. by right.
  - destruct He as (a & tr' & -> & He). apply IH in He as [(t1 & t2 & b & -> & H1 & H2)|[H1 ->]].
    + left. exists (Ev q a :: t1), t2, b. split_and!; try done. simpl. eauto.
    + right. split; [|done]. simpl. eauto.
  - destruct He as (trs & rs & t1 & t2 & Hf & Hi & -> & He). destruct (all_some rs) as [l|] eqn:Ers.
    + apply IH in He as [(u1 & u2 & b & -> & H1 & H2)|[H1 ->]].
      * left. exists (t1 ++ u1), u2, b. split_and!; [by rewrite app_assoc| |done].
        simpl. exists trs, rs, t1, u1. rewrite Ers. by split_and!.
      * right. split; [|done]. simpl. exists trs, rs, t1, t2. rewrite Ers. by split_and!.
    + destruct He as [-> ->]. right. split; [|done]. simpl. exists trs, rs, t1, []. rewrite Ers. by split_and!.
Qed.

(** What the first part of a bind can be stuck at, the whole can. *)
Lemma exec_bind_None {A B} (p : prog ans P R A) (f : A -> prog ans P R B) : forall tr,
  exec p tr None -> exec (bind p f) tr None.
Proof.
  induction p as [a| |q k IH|ps k IH]; intros tr He; simpl in *.
  - by destruct He.
  - by destruct He.
  - destruct He as (a & tr' & -> & He). exists a, tr'. split; [done|by apply IH].
  - destruct He as (trs & rs & t1 & t2 & Hf & Hi & -> & He). exists trs, rs, t1, t2. split_and!; try done.
    destruct (all_some rs); [by apply IH|]. by destruct He as [-> _].
Qed.

Lemma sat_bind {A B} (p : prog ans P R A) (f : A -> prog ans P R B)
    (Q1 : list event -> option A -> Prop) (Q : list event -> option B -> Prop) :
  sat p Q1 ->
  (forall t1 a, Q1 t1 (Some a) -> sat (f a) (fun t2 r => Q (t1 ++ t2) r)) ->
  (forall t1, Q1 t1 None -> Q t1 None) -> sat (bind p f) Q.
Proof.
  intros H1 H2 H3 tr r He. apply exec_bind in He as [(t1 & t2 & a & -> & Ha & Hb)|[Ha ->]].
  - by eapply H2; [apply H1|].
  - by apply H3, H1.
Qed.
End Exec.

(** ** Running a program on given answers *)

Section Run.
Context {query : Type} {ans : query -> Type} {P R S : Type}.
Abbreviation event := (event ans).
(** The environment: the answer to a question, and its next state. *)
Context (oracle : forall q : query, S -> ans q * S).
Context (execP : P -> list event -> option R -> Prop).
Context (runP : P -> S -> list event * option R * S).
Hypothesis runP_exec : forall p s tr r s', runP p s = (tr, r, s') -> execP p tr r.

Fixpoint run_all (ps : list P) (s : S) : list (list event) * list (option R) * S :=
  match ps with
  | [] => ([], [], s)
  | p :: ps =>
      let '(tr, r, s) := runP p s in
      let '(trs, rs, s) := run_all ps s in (tr :: trs, r :: rs, s)
  end.

(** One execution: forked programs run one after the other. *)
Fixpoint run {A} (p : prog ans P R A) (s : S) : list event * option A * S :=
  match p with
  | Ret a => ([], Some a, s)
  | NoFuel => ([], None, s)
  | Ask q k =>
      let '(a, s) := oracle q s in
      let '(tr, r, s) := run (k a) s in (Ev q a :: tr, r, s)
  | Fork ps k =>
      let '(trs, rs, s) := run_all ps s in
      match all_some rs with
      | Some l => let '(tr, r, s) := run (k l) s in (concat trs ++ tr, r, s)
      | None => (concat trs, None, s)
      end
  end.

Lemma run_all_exec ps : forall s trs rs s',
  run_all ps s = (trs, rs, s') -> Forall3 execP ps trs rs.
Proof.
  induction ps as [|p ps IH]; intros s trs rs s' H; simpl in H.
  - simplify_eq. constructor.
  - destruct (runP p s) as [[tr r] s1] eqn:Hp. destruct (run_all ps s1) as [[trs1 rs1] s2] eqn:Hps.
    simplify_eq. constructor; [by eapply runP_exec|by eapply IH].
Qed.

Lemma interleave_skip {E} (ts : list (list E)) tr : interleave ts tr -> interleave ([] :: ts) tr.
Proof.
  induction 1 as [ts H|ts1 e t ts2 tr _ IH].
  - constructor. by constructor.
  - by apply (inter_cons ([] :: ts1)).
Qed.

Lemma interleave_concat {E} (ts : list (list E)) : interleave ts (concat ts).
Proof.
  induction ts as [|t ts IH]; [by constructor|]. simpl.
  induction t as [|e t IHt]; [by apply interleave_skip|]. by apply (inter_cons []).
Qed.

Lemma run_exec {A} (p : prog ans P R A) : forall s tr r s', run p s = (tr, r, s') -> exec execP p tr r.
Proof.
  induction p as [a| |q k IH|ps k IH]; intros s tr r s' H; simpl in H.
  - simplify_eq. by split.
  - simplify_eq. by split.
  - destruct (oracle q s) as [a s1]. destruct (run (k a) s1) as [[tr1 r1] s2] eqn:Hk. simplify_eq.
    simpl. exists a, tr1. split; [done|]. by eapply IH.
  - destruct (run_all ps s) as [[trs rs] s1] eqn:Hps. pose proof (run_all_exec _ _ _ _ _ Hps) as Hf.
    destruct (all_some rs) as [l|] eqn:Ers.
    + destruct (run (k l) s1) as [[tr1 r1] s2] eqn:Hk. simplify_eq. simpl.
      exists trs, rs, (concat trs), tr1. rewrite Ers. split_and!; try done; [apply interleave_concat|].
      by eapply IH.
    + simplify_eq. simpl. exists trs, rs, (concat trs), []. rewrite Ers, app_nil_r.
      split_and!; try done. apply interleave_concat.
Qed.

(** What holds of every answer of the environment holds of the events of a run. *)
Context (I : event -> Prop).
Hypothesis oracle_events : forall q s, I (Ev q (fst (oracle q s))).
Hypothesis runP_events : forall p s, Forall I (fst (fst (runP p s))).

Lemma run_all_events ps : forall s, Forall I (concat (fst (fst (run_all ps s)))).
Proof.
  induction ps as [|p ps IH]; intros s; simpl; [constructor|]. pose proof (runP_events p s) as Hp.
  destruct (runP p s) as [[tr r] s1]. specialize (IH s1). destruct (run_all ps s1) as [[trs rs] s2].
  by apply Forall_app.
Qed.

Lemma run_events {A} (p : prog ans P R A) : forall s, Forall I (fst (fst (run p s))).
Proof.
  induction p as [a| |q k IH|ps k IH]; intros s; simpl; [constructor|constructor| |].
  - pose proof (oracle_events q s) as Hq. destruct (oracle q s) as [a s1]. specialize (IH a s1).
    destruct (run (k a) s1) as [[tr r] s2]. by constructor.
  - pose proof (run_all_events ps s) as Hps. destruct (run_all ps s) as [[trs rs] s1].
    destruct (all_some rs) as [l|]; [|done]. specialize (IH l s1). destruct (run (k l) s1) as [[tr r] s2].
    by apply Forall_app.
Qed.
End Run.

(** ** Interleavings *)

Lemma interleave_elem {E} (ts : list (list E)) tr e :
  interleave ts tr -> e ∈ tr <-> exists t, t ∈ ts /\ e ∈ t.
Proof.
  induction 1 as [ts H|ts1 e' t ts2 tr _ IH].
  - split; [by intros ?%elem_of_nil|]. intros (t & Ht & He).
    rewrite list.Forall_forall in H. rewrite <- (H t Ht) in He. by apply elem_of_nil in He.
  - rewrite elem_of_cons, IH. split.
    + intros [->|(u & Hu & He)].
      * exists (e' :: t). split; [|by left]. apply elem_of_app. right. by left.
      * apply elem_of_app in Hu as [Hu|Hu].
        -- exists u. split; [|done]. apply elem_of_app. by left.
        -- apply elem_of_cons in Hu as [->|Hu].
           ++ exists (e' :: t). split; [|by right]. apply elem_of_app. right. by left.
           ++ exists u. split; [|done]. apply elem_of_app. right. by right.
    + intros (u & Hu & He). apply elem_of_app in Hu as [Hu|Hu].
      * right. exists u. split; [|done]. apply elem_of_app. by left.
      * apply elem_of_cons in Hu as [->|Hu].
        -- apply elem_of_cons in He as [->|He]; [by left|]. right. exists t.
           split; [|done]. apply elem_of_app. right. by left.
        -- right. exists u. split; [|done]. apply elem_of_app. right. by right.
Qed.

Lemma interleave_Permutation {E} (ts : list (list E)) tr : interleave ts tr -> Permutation tr (concat ts).
Proof.
  induction 1 as [ts H|ts1 e t ts2 tr _ IH].
  - induction H as [|t ts <- _ IH]; [done|exact IH].
  - rewrite concat_app in *. simpl in *. etransitivity; [apply perm_skip, IH|].
    apply Permutation_middle.
Qed.
