(* ===== verification/Dispatch.v ===== *)
(** The dispatch arithmetic: [dispatchWeights], [speedScore] and the choice of
    the first provider of [doSendWithRetry] ([nntp.go]).

    Throughputs are Go [float64] values: the standard library's executable IEEE
    754 model with 53 bits of precision. *)
From Stdlib Require Import SpecFloat.
From S2P Require Import Prelude.

(** ** float64 *)

Definition float64 : Type := spec_float.
Definition fprec : Z := 53.
Definition femax : Z := 1024.
Definition f0 : float64 := S754_zero false.
Definition f_of_Z (z : Z) : float64 := binary_normalize fprec femax z 0 false.
Definition fadd : float64 -> float64 -> float64 := SFadd fprec femax.
Definition fmul : float64 -> float64 -> float64 := SFmul fprec femax.
Definition fdiv : float64 -> float64 -> float64 := SFdiv fprec femax.
Definition flt (a b : float64) : bool := SFltb a b.
Definition fle (a b : float64) : bool := SFleb a b.

(** [int(f)]: truncation; what the language leaves open is the minimum, as on
    amd64. *)
Definition f_to_int (f : float64) : Z :=
  match f with
  | S754_zero _ => 0
  | S754_infinity _ | S754_nan => - 2 ^ 63
  | S754_finite s m e =>
      let v := if 0 <=? e then Z.pos m * 2 ^ e else Z.pos m / 2 ^ (- e) in
      let v := if s then - v else v in
      if (v <? - 2 ^ 63) || (2 ^ 63 <=? v) then - 2 ^ 63 else v
  end.

(** ** Speed scores and weights *)

Definition maxSpeedScore : Z := 4.

Definition speedScore (speed maxSpeed : float64) : Z :=
  if fle speed f0 then maxSpeedScore
  else
    let s := f_to_int (fadd (fdiv (fmul (f_of_Z maxSpeedScore) speed) maxSpeed) (fdiv (f_of_Z 1) (f_of_Z 2))) in
    if s <? 1 then 1 else if maxSpeedScore <? s then maxSpeedScore else s.

(** The weight of one provider, and the cumulative weights of all. *)
Definition provider_weight (exceeded : bool) (available : Z) (score : option Z) : Z :=
  if exceeded then 0
  else Z.max 1 available * match score with Some s => s | None => 1 end.

Fixpoint cumulate (ws : list Z) (total : Z) : list Z :=
  match ws with
  | [] => []
  | w :: ws => (total + w) :: cumulate ws (total + w)
  end.

(** [sort.SearchInts(cumWeights, slot+1)] *)
Definition pick (ws : list Z) (slot : Z) : nat := search_ints (cumulate ws 0) (slot + 1).

(** ** Lemmas *)

Definition total_weight (ws : list Z) : Z := fold_right Z.add 0 ws.

Lemma cumulate_length ws t : length (cumulate ws t) = length ws.
Proof. revert t; induction ws as [|w ws IH]; intros t; simpl; [done|by rewrite IH]. Qed.

Lemma total_weight_nonneg ws : Forall (Z.le 0) ws -> 0 <= total_weight ws.
Proof. induction 1; simpl; lia. Qed.

Lemma cumulate_nth ws : forall t i, (i < length ws)%nat ->
  nth i (cumulate ws t) 0 = t + total_weight (take (S i) ws).
Proof.
  induction ws as [|w ws IH]; intros t i Hi; simpl in *; [lia|].
  destruct i as [|i]; [simpl; lia|]. rewrite IH by lia. simpl. lia.
Qed.

Lemma total_weight_app a b : total_weight (a ++ b) = total_weight a + total_weight b.
Proof. induction a as [|x a IH]; simpl; [done|]. rewrite IH. lia. Qed.

Lemma total_weight_take_mono ws i j :
  Forall (Z.le 0) ws -> (i <= j)%nat -> total_weight (take i ws) <= total_weight (take j ws).
Proof.
  intros Hw Hij. rewrite <- (take_drop i (take j ws)), take_take, Nat.min_l by done.
  rewrite total_weight_app. assert (0 <= total_weight (drop i (take j ws))); [|lia].
  apply total_weight_nonneg. by apply Forall_drop, Forall_take.
Qed.

(** Which provider a slot falls to. *)
Lemma pick_iff ws slot i :
  Forall (Z.le 0) ws -> 0 <= slot < total_weight ws -> (i < length ws)%nat ->
  pick ws slot = i <-> total_weight (take i ws) <= slot < total_weight (take (S i) ws).
Proof.
  intros Hw Hs Hi. unfold pick.
  destruct (search_ints_spec (cumulate ws 0) (slot + 1)) as (H1 & H2 & H3).
  { intros a b Hab. rewrite cumulate_length in Hab. rewrite !cumulate_nth by lia.
    pose proof (total_weight_take_mono ws (S a) (S b) Hw). lia. }
  set (r := search_ints _ _) in *. rewrite cumulate_length in *.
  assert (Hr : (r < length ws)%nat).
  { destruct (decide (r = length ws)) as [E|]; [|lia]. exfalso.
    specialize (H2 (length ws - 1)%nat ltac:(lia)). rewrite cumulate_nth in H2 by lia.
    replace (S (length ws - 1)) with (length ws) in H2 by lia. rewrite firstn_all in H2. lia. }
  split.
  - intros <-. specialize (H3 r ltac:(lia)). rewrite cumulate_nth in H3 by lia. split; [|lia].
    destruct r as [|r']; [simpl; lia|]. specialize (H2 r' ltac:(lia)). rewrite cumulate_nth in H2 by lia. lia.
  - intros [Ha Hb]. destruct (Nat.lt_trichotomy r i) as [Hlt|[E|Hgt]]; [|done|].
    + specialize (H3 r ltac:(lia)). rewrite cumulate_nth in H3 by lia.
      pose proof (total_weight_take_mono ws (S r) i Hw ltac:(lia)). lia.
    + specialize (H2 i Hgt). rewrite cumulate_nth in H2 by lia. lia.
Qed.

Lemma pick_in_range ws slot :
  Forall (Z.le 0) ws -> 0 <= slot < total_weight ws -> (pick ws slot < length ws)%nat.
Proof.
  intros Hw Hs. unfold pick.
  destruct (search_ints_spec (cumulate ws 0) (slot + 1)) as (H1 & H2 & H3).
  { intros a b Hab. rewrite cumulate_length in Hab. rewrite !cumulate_nth by lia.
    pose proof (total_weight_take_mono ws (S a) (S b) Hw). lia. }
  rewrite cumulate_length in *. destruct (decide (search_ints (cumulate ws 0) (slot + 1) = length ws)) as [E|]; [|lia].
  exfalso. destruct ws as [|w ws]; [simpl in Hs; lia|]. set (l := w :: ws) in *.
  specialize (H2 (length l - 1)%nat ltac:(rewrite E; simpl; lia)).
  rewrite cumulate_nth in H2 by (simpl; lia).
  replace (S (length l - 1)) with (length l) in H2 by (simpl; lia). rewrite firstn_all in H2. lia.
Qed.

(** ** Properties *)

(** The slots of one round that fall to provider [i]. *)
Definition slots_of (ws : list Z) (i : nat) : list Z :=
  List.filter (fun s => Nat.eqb (pick ws s) i) (seqZ 0 (total_weight ws)).

Lemma filter_interval (a b n : Z) :
  0 <= a <= b -> b <= n ->
  zlen (List.filter (fun s => (a <=? s) && (s <? b)) (seqZ 0 n)) = b - a.
Proof.
  intros Hab Hn. replace n with (a + ((b - a) + (n - b))) by lia.
  rewrite !seqZ_app by lia. rewrite !List.filter_app, !zlen_app.
  assert (Hno : forall lo len, (lo + len <= a \/ b <= lo) ->
    List.filter (fun s => (a <=? s) && (s <? b)) (seqZ lo len) = []).
  { intros lo len Hlo. rewrite (filter_ext_in _ (fun _ => false)); [apply filter_false|].
    intros x Hx%list_elem_of_In%elem_of_seqZ. destruct (Z.leb_spec a x), (Z.ltb_spec x b); simpl; lia. }
  rewrite (Hno 0 a), (Hno (0 + a + (b - a)) (n - b)) by lia.
  rewrite (filter_ext_in _ (fun _ => true)), filter_true.
  - unfold zlen. simpl. rewrite length_seqZ. lia.
  - intros x Hx%list_elem_of_In%elem_of_seqZ. destruct (Z.leb_spec a x), (Z.ltb_spec x b); simpl; lia.
Qed.

(** C40: round-robin is exactly proportional: over one round of the counter every
    provider is chosen exactly as many times as its weight, so a provider of
    weight 0 (over its quota) is never the first choice and every other one is
    chosen; the index is always in range. *)
Theorem dispatch_fair (ws : list Z) (i : nat) :
  Forall (Z.le 0) ws -> (i < length ws)%nat ->
  zlen (slots_of ws i) = nth i ws 0 /\
  (forall slot, 0 <= slot < total_weight ws -> (pick ws slot < length ws)%nat).
Proof.
  intros Hw Hi. split; [|intros slot; by apply pick_in_range]. unfold slots_of.
  pose proof (total_weight_take_mono ws i (S i) Hw ltac:(lia)) as Hm.
  pose proof (total_weight_take_mono ws (S i) (length ws) Hw ltac:(lia)) as Hm'.
  rewrite firstn_all in Hm'. assert (Hz : 0 <= total_weight (take i ws)).
  { apply total_weight_nonneg. by apply Forall_take. }
  rewrite (filter_ext_in _ (fun s => (total_weight (take i ws) <=? s) && (s <? total_weight (take (S i) ws)))).
  - rewrite filter_interval by lia.
    destruct (nth_error ws i) as [w|] eqn:E; [|apply nth_error_None in E; lia].
    apply nth_error_split in E as (l1 & l2 & -> & <-).
    rewrite nth_middle, take_app_length.
    replace (S (length l1)) with (length l1 + 1)%nat by lia. rewrite take_app_add. simpl.
    rewrite take_0, total_weight_app. simpl. lia.
  - intros s Hs%list_elem_of_In%elem_of_seqZ.
    pose proof (pick_iff ws s i Hw ltac:(lia) Hi) as Hp.
    apply eq_true_iff_eq. rewrite Nat.eqb_eq, andb_true_iff, Z.leb_le, Z.ltb_lt. exact Hp.
Qed.

Lemma dispatch_fair_witness :
  zlen (slots_of [3; 0; 2] 2) = 2 /\
  (forall slot, 0 <= slot < total_weight [3; 0; 2] -> (pick [3; 0; 2]%Z slot < 3)%nat).
Proof.
  apply (dispatch_fair [3; 0; 2] 2).
  - repeat constructor; discriminate.
  - simpl. lia.
Defined.

(** A speed score is a bounded multiplier whatever the measurement (zero,
    tiny, infinite or not a number): it lies between 1 and 4, and an unmeasured
    provider gets the maximum. *)
Theorem speedScore_bounds (speed maxSpeed : float64) :
  1 <= speedScore speed maxSpeed <= maxSpeedScore /\ speedScore f0 maxSpeed = maxSpeedScore.
Proof.
  split; [|done]. unfold speedScore, maxSpeedScore. destruct (fle speed f0); [lia|].
  set (s := f_to_int _). clearbody s.
  destruct (Z.ltb_spec s 1); [lia|]. destruct (Z.ltb_spec 4 s); lia.
Qed.

Example speedScore_half : speedScore (f_of_Z 50) (f_of_Z 100) = 2.
Proof. vm_compute. reflexivity. Qed.
Example speedScore_slow : speedScore (f_of_Z 1) (f_of_Z 100) = 1.
Proof. vm_compute. reflexivity. Qed.
