(* ===== verification/Stats.v ===== *)
(** Per-provider counters, averages and quotas ([metrics.go]; [attemptTimeout],
    [isQuotaExceeded], [ResetProviderQuota] and the accounting of [readerLoop] in
    [nntp.go]).

    Each function is one operation on the counters.  The operations on the quota are
    also given as step machines ([quota_call], [quota_call_step]), a step per atomic
    access, and interleave in [quota_sys]: the account they keep is compared with the
    bytes really used within a quota period, and the races at its end are shown. *)
From Stdlib Require Import SpecFloat.
From S2P Require Import Prelude Errors Reader Evidence Dispatch.

(** ** Data *)

Record providerStats := mkStats {
  st_BytesConsumed : Z;
  st_Missing : Z;
  st_Errors : Z;
  st_PipelineInUse : Z;
  st_BackgroundStatInUse : Z;
  st_ttfbEWMA : Z;
  st_speedEWMA : float64;
  st_quotaBytes : Z;
  st_quotaUsed : Z;
  st_quotaExceeded : bool
}.

#[export] Instance eta_providerStats : Eta providerStats := fun s =>
  mkStats (st_BytesConsumed s) (st_Missing s) (st_Errors s) (st_PipelineInUse s)
    (st_BackgroundStatInUse s) (st_ttfbEWMA s) (st_speedEWMA s) (st_quotaBytes s) (st_quotaUsed s)
    (st_quotaExceeded s).

(** ** Averages *)

Definition ewmaAlphaNum : Z := 1.
Definition ewmaAlphaDen : Z := 5.
Definition speedSampleFloor : Z := 16 * 1024.

(** [int64(math.Round(f))]: halves away from zero. *)
Definition f_round (f : float64) : Z :=
  match f with
  | S754_finite s m e =>
      let v := if 0 <=? e then Z.pos m * 2 ^ e else (2 * Z.pos m + 2 ^ (- e)) / 2 ^ (1 - e) in
      let v := if s then - v else v in
      if (v <? - 2 ^ 63) || (2 ^ 63 <=? v) then - 2 ^ 63 else v
  | _ => f_to_int f
  end.

(** [x * ewmaAlphaNum / ewmaAlphaDen] *)
Definition alpha (x : float64) : float64 := fdiv (fmul x (f_of_Z ewmaAlphaNum)) (f_of_Z ewmaAlphaDen).

Definition recordTTFB (s : providerStats) (sample : Z) : providerStats :=
  if sample <=? 0 then s
  else
    let old := st_ttfbEWMA s in
    let next := if old =? 0 then sample
                else wrap64 (old + f_round (alpha (f_of_Z (wrap64 (sample - old))))) in
    s <| st_ttfbEWMA := next |>.

(** [d.Seconds()] *)
Definition seconds (d : Z) : float64 :=
  fadd (f_of_Z (Z.quot d GoSecond)) (fdiv (f_of_Z (Z.rem d GoSecond)) (f_of_Z GoSecond)).

Definition f_sub (a b : float64) : float64 := SFsub fprec femax a b.

Definition recordSpeed (s : providerStats) (nbytes elapsed : Z) : providerStats :=
  if (nbytes <? speedSampleFloor) || (elapsed <=? 0) then s
  else
    let sample := fdiv (f_of_Z nbytes) (seconds elapsed) in
    let old := st_speedEWMA s in
    let next := if SFeqb old f0 then sample else fadd old (alpha (f_sub sample old)) in
    s <| st_speedEWMA := next |>.

(** ** Timeouts *)

Definition minAttemptTimeout : Z := 2 * GoSecond.
Definition maxAttemptTimeout : Z := 10 * GoSecond.

(** [attemptTimeout]; [configured] is [Provider.AttemptTimeout]. *)
Definition attemptTimeout (configured : Z) (s : providerStats) : Z :=
  if 0 <? configured then configured
  else
    let ttfb := st_ttfbEWMA s in
    if ttfb <=? 0 then minAttemptTimeout
    else
      let d := wrap64 (ttfb * 4) in
      if d <? minAttemptTimeout then minAttemptTimeout
      else if maxAttemptTimeout <? d then maxAttemptTimeout
      else d.

(** ** Quotas *)

(** The counters with the group's reset period. *)
Record groupQuota := mkQuota {
  q_stats : providerStats;
  q_period : Z;
  q_resetAt : Z
}.

#[export] Instance eta_groupQuota : Eta groupQuota := fun q =>
  mkQuota (q_stats q) (q_period q) (q_resetAt q).

(** What [startProviderGroup] sets up; [resetAt] is [Provider.QuotaResetAt] when
    it is not the zero time, [now] and [now'] are its two readings of the clock. *)
Definition startQuota (quotaBytes quotaUsed period : Z) (resetAt : option Z) (now now' : Z) : groupQuota :=
  let s := mkStats 0 0 0 0 0 0 f0 quotaBytes 0 false in
  if 0 <? quotaBytes then
    let s := if 0 <? quotaUsed
             then s <| st_quotaUsed := quotaUsed |> <| st_quotaExceeded := quotaBytes <=? quotaUsed |>
             else s in
    let at_ := if 0 <? period
               then match resetAt with
                    | Some t => if now <? t then t else now' + period
                    | None => now' + period
                    end
               else 0 in
    mkQuota s period at_
  else mkQuota s period 0.

(** [isQuotaExceeded]: the answer and the state after. *)
Definition isQuotaExceeded (q : groupQuota) (now now' : Z) : bool * groupQuota :=
  let s := q_stats q in
  if st_quotaBytes s <=? 0 then (false, q)
  else if negb (st_quotaExceeded s) then (false, q)
  else if (0 <? q_period q) && (0 <? q_resetAt q) && (q_resetAt q <=? now) then
    (false, q <| q_stats := s <| st_quotaUsed := 0 |> <| st_quotaExceeded := false |> |>
              <| q_resetAt := now' + q_period q |>)
  else (true, q).

(** [ResetProviderQuota] on the group it finds. *)
Definition resetQuota (q : groupQuota) (now : Z) : groupQuota :=
  q <| q_stats := (q_stats q) <| st_quotaUsed := 0 |> <| st_quotaExceeded := false |> |>
    <| q_resetAt := if 0 <? q_period q then now + q_period q else 0 |>.

(** The accounting of one response in [readerLoop]: [n] bytes consumed, the
    response's error and status, the decoder's status, whether the status maps to
    absence, and the samples of a success: time to first byte (when the request
    reached the head) and transfer time. *)
Definition account_bytes (s : providerStats) (n : Z) : providerStats :=
  let s := s <| st_BytesConsumed := wrap64 (st_BytesConsumed s + n) |> in
  if 0 <? st_quotaBytes s then
    let used := wrap64 (st_quotaUsed s + n) in
    let s := s <| st_quotaUsed := used |> in
    if st_quotaBytes s <=? used then s <| st_quotaExceeded := true |> else s
  else s.

Definition account_response (s : providerStats) (n : Z) (respErr : error) (respCode decoderCode : Z)
    (mapped : bool) (ttfb : option Z) (elapsed : Z) : providerStats :=
  let s := account_bytes s n in
  if negb (is_nil respErr) && negb (bool_decide (classifyOutcome respCode respErr = OutcomeCancellation))
  then s <| st_Errors := wrap64 (st_Errors s + 1) |>
  else if (decoderCode =? 430) || (decoderCode =? 423) || mapped
  then s <| st_Missing := wrap64 (st_Missing s + 1) |>
  else if (decoderCode <? 200) || (400 <=? decoderCode)
  then s <| st_Errors := wrap64 (st_Errors s + 1) |>
  else
    let s := match ttfb with Some d => recordTTFB s d | None => s end in
    recordSpeed s n elapsed.

(** *** The calls, an atomic access at a time *)

(** A call that works on a quota and the point it has reached: [readerLoop] accounts
    [n] bytes; [isQuotaExceeded]; [ResetProviderQuota] begins at [ResetUsed false]. *)
Inductive quota_call :=
| UseCalled (n : Z)
| UseCounted (n : Z)
| UseAdded (n total : Z)
| UseDone (n : Z)
| CheckCalled
| CheckFlagged
| ResetUsed (check : bool)
| ResetFlag (check : bool)
| ResetDue (check : bool)
| CheckDone (exceeded : bool)
| ResetDone.

(** The next access of a call; [now] is the clock, where it is read. *)
Definition quota_call_step (now : Z) (c : quota_call) (q : groupQuota) : quota_call * groupQuota :=
  let s := q_stats q in
  match c with
  | UseCalled n => (UseCounted n, q <| q_stats := s <| st_BytesConsumed := wrap64 (st_BytesConsumed s + n) |> |>)
  | UseCounted n =>
      if 0 <? st_quotaBytes s then
        let total := wrap64 (st_quotaUsed s + n) in
        (UseAdded n total, q <| q_stats := s <| st_quotaUsed := total |> |>)
      else (UseDone n, q)
  | UseAdded n total =>
      (UseDone n, if st_quotaBytes s <=? total then q <| q_stats := s <| st_quotaExceeded := true |> |> else q)
  | CheckCalled =>
      if st_quotaBytes s <=? 0 then (CheckDone false, q)
      else if negb (st_quotaExceeded s) then (CheckDone false, q)
      else (CheckFlagged, q)
  | CheckFlagged =>
      if (0 <? q_period q) && (0 <? q_resetAt q) && (q_resetAt q <=? now)
      then (ResetUsed true, q) else (CheckDone true, q)
  | ResetUsed check => (ResetFlag check, q <| q_stats := s <| st_quotaUsed := 0 |> |>)
  | ResetFlag check => (ResetDue check, q <| q_stats := s <| st_quotaExceeded := false |> |>)
  | ResetDue check =>
      (if check then CheckDone false else ResetDone,
       q <| q_resetAt := if check || (0 <? q_period q) then now + q_period q else 0 |>)
  | UseDone _ | CheckDone _ | ResetDone => (c, q)
  end.

(** A call during which no other accesses the quota, with its readings of the clock. *)
Fixpoint quota_alone (clock : list Z) (c : quota_call) (q : groupQuota) : quota_call * groupQuota :=
  match clock with
  | [] => (c, q)
  | now :: clock => let (c, q) := quota_call_step now c q in quota_alone clock c q
  end.

(** *** Interleaved calls *)

Definition quota_sys : Type := groupQuota * list quota_call.

Definition quota_called (c : quota_call) : bool :=
  match c with UseCalled n => 0 <=? n | CheckCalled | ResetUsed false => true | _ => false end.

(** The quota's deadline is not reached, or there is none. *)
Definition in_period (q : groupQuota) (now : Z) : Prop := q_period q <= 0 \/ q_resetAt q <= 0 \/ now < q_resetAt q.

(** Calls begin and make their steps in any order.  With [resets] the deadline may
    pass and [ResetProviderQuota] may be called. *)
Inductive quota_sys_step (resets : bool) : quota_sys -> quota_sys -> Prop :=
| qs_call q cs c :
    quota_called c = true -> (resets = false -> c <> ResetUsed false) -> quota_sys_step resets (q, cs) (q, cs ++ [c])
| qs_move q cs1 c cs2 now c' q' :
    (resets = false -> in_period q now) -> quota_call_step now c q = (c', q') ->
    quota_sys_step resets (q, cs1 ++ c :: cs2) (q', cs1 ++ c' :: cs2).

Inductive quota_reach (resets : bool) (q0 : groupQuota) : quota_sys -> Prop :=
| qr_start : quota_reach resets q0 (q0, [])
| qr_step st st' : quota_reach resets q0 st -> quota_sys_step resets st st' -> quota_reach resets q0 st'.

(** *** What the calls bring *)

(** The bytes of a call: those it brings, and those it has added to the counter. *)
Definition call_bytes (c : quota_call) : Z :=
  match c with UseCalled n | UseCounted n | UseAdded n _ | UseDone n => n | _ => 0 end.
Definition call_added (c : quota_call) : Z := match c with UseAdded n _ | UseDone n => n | _ => 0 end.

Definition zsum_calls (f : quota_call -> Z) (cs : list quota_call) : Z := fold_right Z.add 0 (map f cs).
Definition offered : list quota_call -> Z := zsum_calls call_bytes.
Definition accounted : list quota_call -> Z := zsum_calls call_added.

(** Between adding to the counter and setting the flag. *)
Definition flagging (c : quota_call) : bool := if c is UseAdded _ _ then true else false.

(** The operations one after another. *)
Inductive quota_op :=
| OpUse (n : Z)
| OpCheck (now now' : Z)
| OpReset (now : Z).

Definition quota_step (q : groupQuota) (op : quota_op) : groupQuota * option bool :=
  match op with
  | OpUse n => (q <| q_stats ::= fun s => account_bytes s n |>, None)
  | OpCheck now now' => let '(b, q) := isQuotaExceeded q now now' in (q, Some b)
  | OpReset now => (resetQuota q now, None)
  end.

(** The bytes used since the last reset, and when the next one is due. *)
Record quota_account := mkAccount { qa_limit : Z; qa_period : Z; qa_used : Z; qa_due : Z }.

(** The account a group's counters stand for. *)
Record quota_repr (q : groupQuota) (a : quota_account) : Prop := {
  qr_limit : st_quotaBytes (q_stats q) = qa_limit a;
  qr_period : q_period q = qa_period a;
  qr_used : 0 < qa_limit a -> st_quotaUsed (q_stats q) = qa_used a;
  qr_flag : 0 < qa_limit a -> st_quotaExceeded (q_stats q) = (qa_limit a <=? qa_used a);
  qr_due : 0 < qa_limit a -> q_resetAt q = qa_due a
}.

Fixpoint run_ops (q : groupQuota) (ops : list quota_op) : groupQuota * list (option bool) :=
  match ops with
  | [] => (q, [])
  | op :: ops =>
      let '(q, r) := quota_step q op in
      let '(q, rs) := run_ops q ops in (q, r :: rs)
  end.

(** ** Lemmas *)

Lemma wrap64_id z : in_int64 z -> wrap64 z = z.
Proof. unfold in_int64, wrap64. intros H. rewrite Z.mod_small; lia. Qed.

(** The whole operations are the calls with nothing between their accesses. *)
Lemma check_alone q t now t' t'' now' :
  quota_alone [t; now; t'; t''; now'] CheckCalled q =
  let (b, q) := isQuotaExceeded q now now' in (CheckDone b, q).
Proof.
  destruct q as [[bc mi er pi bg tt sp qb qu qe] per due]. unfold isQuotaExceeded. cbn [quota_alone quota_call_step]. simpl.
  destruct (qb <=? 0); [done|]. destruct qe; [|done]. simpl. by destruct (_ && _ && _).
Qed.

Lemma use_alone q n t t' t'' :
  quota_alone [t; t'; t''] (UseCalled n) q = (UseDone n, q <| q_stats := account_bytes (q_stats q) n |>).
Proof.
  destruct q as [[bc mi er pi bg tt sp qb qu qe] per due]. unfold account_bytes. cbn [quota_alone quota_call_step]. simpl.
  destruct (0 <? qb); [|done]. simpl. by destruct (qb <=? _).
Qed.

Lemma reset_alone q t t' now : quota_alone [t; t'; now] (ResetUsed false) q = (ResetDone, resetQuota q now).
Proof. by destruct q as [[] per due]. Qed.

Lemma zsum_calls_app f cs cs' : zsum_calls f (cs ++ cs') = zsum_calls f cs + zsum_calls f cs'.
Proof. unfold zsum_calls. rewrite map_app, fold_right_app. induction (map f cs); simpl in *; lia. Qed.

Lemma zsum_calls_mid f cs1 c cs2 : zsum_calls f (cs1 ++ c :: cs2) = zsum_calls f cs1 + f c + zsum_calls f cs2.
Proof. rewrite zsum_calls_app. unfold zsum_calls. simpl. lia. Qed.

Lemma zsum_calls_one f c : zsum_calls f [c] = f c.
Proof. unfold zsum_calls. simpl. lia. Qed.

(** *** Within a period the account is exact *)

(** What a call knows while nothing is reset. *)
Definition call_ok (limit used : Z) (c : quota_call) : Prop :=
  match c with
  | UseAdded _ total => total <= used
  | CheckFlagged | CheckDone true => limit <= used
  | ResetUsed _ | ResetFlag _ | ResetDue _ => False
  | _ => True
  end.

(** A call that will set the flag. *)
Definition will_flag (limit : Z) (c : quota_call) : bool := if c is UseAdded _ total then limit <=? total else false.

Record exact (limit used : Z) (q : groupQuota) (cs : list quota_call) : Prop := {
  ex_limit : st_quotaBytes (q_stats q) = limit;
  ex_used : st_quotaUsed (q_stats q) = used;
  ex_calls : Forall (call_ok limit used) cs;
  ex_flag : st_quotaExceeded (q_stats q) = true -> limit <= used;
  ex_unflagged : st_quotaExceeded (q_stats q) = false -> used < limit \/ existsb (will_flag limit) cs = true
}.

Lemma call_ok_mono limit used used' c : used <= used' -> call_ok limit used c -> call_ok limit used' c.
Proof. destruct c as [| | | | | | | | |[]|]; simpl; lia. Qed.

Lemma quota_call_step_bytes now c q : call_bytes (fst (quota_call_step now c q)) = call_bytes c.
Proof. destruct c as [| | | | | |[]|[]|[]| |]; simpl; repeat case_match; done. Qed.

Lemma exact_app limit used q cs c :
  quota_called c = true -> c <> ResetUsed false -> exact limit used q cs -> exact limit used q (cs ++ [c]).
Proof.
  intros Hc Hn []. split; try done.
  - apply list.Forall_app. split; [done|]. constructor; [|done]. by destruct c as [| | | | | |[]| | | |].
  - intros H. rewrite existsb_app. destruct (ex_unflagged0 H) as [?| ->]; auto.
Qed.

Lemma calls_ok_mono limit used used' cs :
  used <= used' -> Forall (call_ok limit used) cs -> Forall (call_ok limit used') cs.
Proof. intros Hu H. eapply list.Forall_impl; [exact H|]. intros c. by apply call_ok_mono. Qed.

(** One access of one call: what the other calls know stays true. *)
Lemma exact_move limit used q cs1 c cs2 now c' q' :
  0 < limit -> 0 <= used -> 0 <= call_bytes c -> used + call_bytes c - call_added c < 2 ^ 63 ->
  in_period q now -> quota_call_step now c q = (c', q') -> exact limit used q (cs1 ++ c :: cs2) ->
  exact limit (used + (call_added c' - call_added c)) q' (cs1 ++ c' :: cs2).
Proof.
  intros Hl Hu Hn Hb Hp Hs []. apply list.Forall_app in ex_calls0 as [F1 F2]. apply Forall_cons_iff in F2 as [Fc F2].
  rewrite existsb_app in ex_unflagged0. simpl in ex_unflagged0.
  destruct q as [[bc mi er pi bg tt sp qb qu qe] per due]. unfold in_period in Hp. simpl in *. subst qb qu.
  assert (Hc : forall v, used <= v -> call_ok limit v c' -> Forall (call_ok limit v) (cs1 ++ c' :: cs2)).
  { intros v Hv Hok. apply list.Forall_app. split; [by eapply calls_ok_mono|]. constructor; [done|by eapply calls_ok_mono]. }
  destruct c as [n|n|n total|n| | |ck|ck|ck|b|]; cbn [quota_call_step call_added call_bytes call_ok will_flag] in *; simpl in Hs; try done.
  - simplify_eq/=. rewrite Z.add_0_r. split; simpl; rewrite ?existsb_app; auto. by apply Hc.
  - destruct (Z.ltb_spec 0 limit); [|lia]. rewrite wrap64_id in Hs by (unfold in_int64; lia). simplify_eq/=. rewrite Z.sub_0_r.
    split; simpl; rewrite ?existsb_app; try done; [apply Hc; simpl; lia|intros H0; specialize (ex_flag0 H0); lia|].
    intros _. simpl. destruct (Z.leb_spec limit (used + n)); [right; by rewrite orb_true_r|by left].
  - destruct (Z.leb_spec limit total); simplify_eq/=; rewrite Z.sub_diag, Z.add_0_r; split; simpl; rewrite ?existsb_app; try done;
      try (by apply Hc); lia.
  - simplify_eq/=. rewrite Z.sub_diag, Z.add_0_r. split; simpl; rewrite ?existsb_app; auto. by apply Hc.
  - destruct (Z.leb_spec limit 0); [lia|]. destruct qe; simplify_eq/=; rewrite Z.add_0_r; split; simpl; rewrite ?existsb_app; auto; apply Hc; simpl; auto; lia.
  - assert (E : (0 <? per) && (0 <? due) && (due <=? now) = false).
    { destruct (Z.ltb_spec 0 per), (Z.ltb_spec 0 due), (Z.leb_spec due now); try done. lia. }
    rewrite E in Hs. simplify_eq/=. rewrite Z.add_0_r. split; simpl; rewrite ?existsb_app; auto. apply Hc; simpl; lia.
  - simplify_eq/=. rewrite Z.add_0_r. split; simpl; rewrite ?existsb_app; auto. apply Hc; simpl; [lia|done].
  - simplify_eq/=. rewrite Z.add_0_r. split; simpl; rewrite ?existsb_app; auto. by apply Hc.
Qed.

Lemma added_le_bytes c : 0 <= call_bytes c -> 0 <= call_added c <= call_bytes c.
Proof. destruct c; simpl; lia. Qed.

Lemma accounted_le cs : Forall (fun c => 0 <= call_bytes c) cs -> 0 <= accounted cs <= offered cs.
Proof.
  unfold accounted, offered, zsum_calls. induction 1 as [|c cs Hc _ IH]; simpl; [lia|].
  pose proof (added_le_bytes c Hc). lia.
Qed.

Definition quota_ok (limit used0 : Z) (st : quota_sys) : Prop :=
  Forall (fun c => 0 <= call_bytes c) (snd st) /\
  (used0 + offered (snd st) < 2 ^ 63 -> exact limit (used0 + accounted (snd st)) (fst st) (snd st)).

Lemma quota_sys_step_ok limit used0 st st' :
  0 < limit -> 0 <= used0 -> quota_ok limit used0 st -> quota_sys_step false st st' -> quota_ok limit used0 st'.
Proof.
  intros Hl Hu [Hn He] Hs. destruct Hs as [q cs c Hc Hr|q cs1 c cs2 now c' q' Hp Hs]; unfold quota_ok in *; cbn [fst snd] in *.
  - assert (0 <= call_bytes c /\ call_added c = 0) as [Hb Ha].
    { destruct c as [n| | | | | |[]| | | |]; try done. simpl in *. apply Z.leb_le in Hc. lia. }
    split. { apply list.Forall_app. split; [done|]. by constructor. }
    unfold offered, accounted in *. rewrite !zsum_calls_app, !zsum_calls_one, Ha, Z.add_0_r. intros Hlt.
    apply exact_app; [done|by apply Hr|]. apply He. lia.
  - apply list.Forall_app in Hn as [N1 N2]. apply Forall_cons_iff in N2 as [Nc N2].
    pose proof (quota_call_step_bytes now c q) as Hcb. rewrite Hs in Hcb. simpl in Hcb.
    split. { apply list.Forall_app. split; [done|]. constructor; [lia|done]. }
    pose proof (accounted_le cs1 N1). pose proof (accounted_le cs2 N2). pose proof (added_le_bytes c Nc).
    unfold offered, accounted in *. rewrite !zsum_calls_mid in *. rewrite Hcb. intros Hlt.
    replace (used0 + (zsum_calls call_added cs1 + call_added c' + zsum_calls call_added cs2))
      with (used0 + (zsum_calls call_added cs1 + call_added c + zsum_calls call_added cs2) + (call_added c' - call_added c)) by lia.
    eapply exact_move; try done; [lia|lia|by apply Hp|by apply He].
Qed.

Lemma startQuota_repr quotaBytes quotaUsed period resetAt now now' : 0 <= quotaUsed ->
  let q := startQuota quotaBytes quotaUsed period resetAt now now' in
  quota_repr q (mkAccount quotaBytes period quotaUsed (q_resetAt q)).
Proof.
  intros Hu q. unfold q, startQuota. destruct (Z.ltb_spec 0 quotaBytes) as [Hb|Hb]; [|split; simpl; intros; try done; lia].
  split; destruct (Z.ltb_spec 0 quotaUsed); simpl; intros; try done; [lia|]. symmetry. apply Z.leb_gt. lia.
Qed.

(** ** Properties *)

(** C34: Quota: within a quota period (no deadline passes and nobody resets the quota; a
    provider without [QuotaPeriod] has only one), whatever the readers account and
    however their accesses and those of the checks interleave, the counter is the
    usage the client started with and the bytes accounted since, exactly; a check has
    answered that the quota is exceeded only when that reached the limit; and
    whenever no reader is between adding its bytes and setting the flag, a check
    answers whether the limit is reached and changes nothing.  The bytes stay below
    2^63. *)
Theorem quota_exact (quotaBytes quotaUsed period : Z) (resetAt : option Z) (now now' : Z) q cs :
  0 < quotaBytes -> 0 <= quotaUsed ->
  quota_reach false (startQuota quotaBytes quotaUsed period resetAt now now') (q, cs) ->
  quotaUsed + offered cs < 2 ^ 63 ->
  let used := quotaUsed + accounted cs in
  st_quotaUsed (q_stats q) = used /\
  (CheckDone true ∈ cs -> quotaBytes <= used) /\
  (st_quotaExceeded (q_stats q) = true -> quotaBytes <= used) /\
  (existsb flagging cs = false ->
   forall t t', in_period q t -> isQuotaExceeded q t t' = (quotaBytes <=? used, q)).
Proof.
  intros Hb Hu Hr Hlt. assert (Hok : quota_ok quotaBytes quotaUsed (q, cs)).
  { clear Hlt. remember (q, cs) as st eqn:Est. clear Est q cs. induction Hr as [|st st' _ IH Hs]; [|by eapply quota_sys_step_ok].
    split; [constructor|]. intros _. destruct (startQuota_repr quotaBytes quotaUsed period resetAt now now' Hu) as [R1 _ R2 R3 _].
    simpl in *. specialize (R2 Hb). specialize (R3 Hb). split; simpl; try done.
    - rewrite R2. unfold accounted, zsum_calls. simpl. lia.
    - rewrite R3. unfold accounted, zsum_calls. simpl. intros ?%Z.leb_le. lia.
    - rewrite R3. unfold accounted, zsum_calls. simpl. intros ?%Z.leb_gt. left. lia. }
  destruct Hok as [_ He]. destruct (He Hlt). cbn [fst snd] in *. cbv zeta. split_and!; try done.
  - rewrite list.Forall_forall in ex_calls0. intros Hin. apply (ex_calls0 _ Hin).
  - intros Hf t t' Hp. assert (Hx : existsb (will_flag quotaBytes) cs = false).
    { clear -Hf. induction cs as [|c cs IH]; [done|]. simpl in *. apply orb_false_iff in Hf as [H1 H2].
      rewrite (IH H2). by destruct c. }
    rewrite Hx in ex_unflagged0. unfold isQuotaExceeded. rewrite ex_limit0. destruct (Z.leb_spec quotaBytes 0); [lia|].
    destruct (st_quotaExceeded (q_stats q)) eqn:Eq; simpl.
    + rewrite (proj2 (Z.leb_le _ _) (ex_flag0 eq_refl)).
      assert ((0 <? q_period q) && (0 <? q_resetAt q) && (q_resetAt q <=? t) = false) as ->; [|done].
      unfold in_period in Hp. destruct (Z.ltb_spec 0 (q_period q)), (Z.ltb_spec 0 (q_resetAt q)), (Z.leb_spec (q_resetAt q) t); try done. lia.
    + destruct (ex_unflagged0 eq_refl) as [?|?]; [|done]. by rewrite (proj2 (Z.leb_gt _ _)).
Qed.

(** Timeouts: an attempt's response timeout is the configured one or lies between
    two and ten seconds, two when nothing was measured; without overflow it is four
    times the measured latency, clamped. *)
Theorem attemptTimeout_bounds (configured : Z) (s : providerStats) :
  (0 < configured -> attemptTimeout configured s = configured) /\
  (configured <= 0 ->
   minAttemptTimeout <= attemptTimeout configured s <= maxAttemptTimeout /\
   (st_ttfbEWMA s <= 0 -> attemptTimeout configured s = minAttemptTimeout) /\
   (0 < st_ttfbEWMA s < 2 ^ 61 ->
    attemptTimeout configured s = Z.min maxAttemptTimeout (Z.max minAttemptTimeout (4 * st_ttfbEWMA s)))).
Proof.
  unfold attemptTimeout. split; intros Hc; [by rewrite (proj2 (Z.ltb_lt _ _) Hc)|].
  rewrite (proj2 (Z.ltb_ge _ _) Hc). unfold minAttemptTimeout, maxAttemptTimeout, GoSecond.
  destruct (Z.leb_spec (st_ttfbEWMA s) 0); [split_and!; lia|].
  assert (Hw : 0 < st_ttfbEWMA s < 2 ^ 61 -> wrap64 (st_ttfbEWMA s * 4) = 4 * st_ttfbEWMA s).
  { intros ?. rewrite wrap64_id; [lia|unfold in_int64; lia]. }
  set (d := wrap64 _) in *. destruct (Z.ltb_spec d (2 * 1000000000)), (Z.ltb_spec (10 * 1000000000) d); split_and!; lia.
Qed.

(** A quota period that ends before the quota is reached is not noticed: what was
    used in it still counts, and the deadline stays in the past; so the check after
    the quota is reached starts a new period at once and forgets everything.  The
    documentation says that the counter resets when the period elapses. *)
Theorem elapsed_period_unnoticed :
  let q := startQuota 100 0 10 None 0 0 in
  run_ops q [OpUse 90; OpCheck 1000 1000; OpUse 20; OpCheck 1001 1001; OpUse 99; OpCheck 1002 1002]
  = (mkQuota (mkStats 209 0 0 0 0 0 f0 100 99 false) 10 1011,
     [None; Some false; None; Some false; None; Some false]).
Proof. by vm_compute. Qed.

(** *** Schedules of quota calls *)

(** A new call, or an access of the [i]th at a clock reading. *)
Inductive quota_turn := QCall (c : quota_call) | QMove (i : nat) (now : Z).

Definition quota_play (st : quota_sys) (ts : list quota_turn) : quota_sys :=
  fold_left (fun (st : quota_sys) t =>
    let (q, cs) := st in
    match t with
    | QCall c => if quota_called c then (q, cs ++ [c]) else (q, cs)
    | QMove i now =>
        match cs !! i with
        | Some c => let (c, q) := quota_call_step now c q in (q, <[i := c]> cs)
        | None => (q, cs)
        end
    end) ts st.

Lemma quota_play_step resets st t st' :
  st' = quota_play st [t] -> (resets = false -> match t with QCall c => c <> ResetUsed false | QMove _ now => in_period (fst st) now end) ->
  st' = st \/ quota_sys_step resets st st'.
Proof.
  destruct st as [q cs]. intros -> H. destruct t as [c|i now]; cbn [quota_play fold_left fst] in *.
  - destruct (quota_called c) eqn:E; [right; by apply qs_call|by left].
  - destruct (cs !! i) as [c|] eqn:Ei; [|by left]. destruct (quota_call_step now c q) as [c' q'] eqn:Es.
    apply list_elem_of_split_length in Ei as (cs1 & cs2 & -> & ->). right.
    rewrite insert_app_r_alt, Nat.sub_diag by done. eapply qs_move; [|exact Es]. done.
Qed.

Lemma quota_play_reach q0 ts : forall st, quota_reach true q0 st -> quota_reach true q0 (quota_play st ts).
Proof.
  induction ts as [|t ts IH]; intros st H; [done|]. change (quota_play st (t :: ts)) with (quota_play (quota_play st [t]) ts).
  apply IH. destruct (quota_play_step true st t _ eq_refl) as [->|?]; [done|done|]. by eapply qr_step.
Qed.

(** No turn of the schedule resets the quota or reads a clock past its deadline. *)
Fixpoint turns_within (st : quota_sys) (ts : list quota_turn) : bool :=
  match ts with
  | [] => true
  | t :: ts =>
      match t with
      | QCall (ResetUsed _) => false
      | QCall _ => true
      | QMove _ now => (q_period (fst st) <=? 0) || (q_resetAt (fst st) <=? 0) || (now <? q_resetAt (fst st))
      end && turns_within (quota_play st [t]) ts
  end.

Lemma quota_play_within q0 ts : forall st,
  quota_reach false q0 st -> turns_within st ts = true -> quota_reach false q0 (quota_play st ts).
Proof.
  induction ts as [|t ts IH]; intros st H Hw; [done|]. change (quota_play st (t :: ts)) with (quota_play (quota_play st [t]) ts).
  cbn [turns_within] in Hw. apply andb_true_iff in Hw as [Ht Hw]. apply IH; [|done].
  destruct (quota_play_step false st t _ eq_refl) as [->|?]; [|done|by eapply qr_step]. intros _.
  destruct t as [c|i now]; [by intros ->|]. apply orb_true_iff in Ht as [[?|?]%orb_true_iff|?]; unfold in_period; lia.
Qed.

Lemma quota_exact_witness :
  let q := startQuota 100 40 10 None 0 0 in
  let ts := [QCall (UseCalled 30); QCall (UseCalled 35); QMove 0 1; QMove 1 1; QMove 1 2; QMove 0 2;
             QCall CheckCalled; QMove 2 3; QMove 0 4; QMove 1 4; QCall CheckCalled; QMove 3 5; QMove 3 6] in
  let st := quota_play (q, []) ts in
  snd st = [UseDone 30; UseDone 35; CheckDone false; CheckDone true] /\
  isQuotaExceeded (fst st) 7 7 = (true, fst st).
Proof.
  cbv zeta. set (st := quota_play _ _). split; [vm_compute; reflexivity|].
  destruct (quota_exact 100 40 10 None 0 0 (fst st) (snd st)) as (_ & _ & _ & H).
  - reflexivity.
  - discriminate.
  - rewrite <- surjective_pairing. apply quota_play_within; [apply qr_start|vm_compute; reflexivity].
  - vm_compute. reflexivity.
  - apply H; [vm_compute; reflexivity|]. vm_compute. right. right. reflexivity.
Defined.

(** A reader adds its bytes and is about to set the flag, [ResetProviderQuota] resets
    the counter and the flag, and the flag is set: with nothing used the provider is
    refused, for good when it has no period.  The other way round the flag that the
    reader set is cleared by a reset whose first store came before its bytes: the
    quota is used up and no check notices. *)
Theorem reset_races_usage :
  let q := startQuota 100 90 0 None 0 0 in
  let stuck := quota_play (q, []) ([QCall (UseCalled 20); QMove 0 0; QMove 0 0; QCall (ResetUsed false)] ++
                 replicate 3 (QMove 1 0) ++ [QMove 0 0]) in
  let lost := quota_play (q, []) ([QCall (ResetUsed false); QMove 0 0; QCall (UseCalled 150)] ++
                 replicate 3 (QMove 1 0) ++ [QMove 0 0; QMove 0 0]) in
  quota_reach true q stuck /\ snd stuck = [UseDone 20; ResetDone] /\
  st_quotaUsed (q_stats (fst stuck)) = 0 /\ (forall t t', isQuotaExceeded (fst stuck) t t' = (true, fst stuck)) /\
  quota_reach true q lost /\ snd lost = [ResetDone; UseDone 150] /\
  st_quotaUsed (q_stats (fst lost)) = 150 /\ (forall t t', isQuotaExceeded (fst lost) t t' = (false, fst lost)).
Proof.
  cbv zeta. split_and!; try (apply quota_play_reach, qr_start); try (by vm_compute); by intros.
Qed.

(** Two requests find that the period of a used-up quota is over: the slower one resets
    the counter again, and what was downloaded between is forgotten. *)
Theorem checks_race :
  let q := startQuota 100 100 10 None 0 0 in
  let st := quota_play (q, []) ([QCall CheckCalled; QCall CheckCalled; QMove 0 20; QMove 0 20; QMove 1 20; QMove 1 20] ++
              replicate 3 (QMove 0 20) ++ QCall (UseCalled 60) :: replicate 3 (QMove 2 20) ++ replicate 3 (QMove 1 25)) in
  quota_reach true q st /\ snd st = [CheckDone false; CheckDone false; UseDone 60] /\
  st_quotaUsed (q_stats (fst st)) = 0 /\ st_BytesConsumed (q_stats (fst st)) = 60.
Proof. cbv zeta. split_and!; try (apply quota_play_reach, qr_start); by vm_compute. Qed.

(** The latency average moves a fifth of the way, and stays put within two
    nanoseconds of its target. *)
Example ttfb_average :
  let s := mkStats 0 0 0 0 0 0 f0 0 0 false in
  let s1 := recordTTFB s 1000 in
  (st_ttfbEWMA s1, st_ttfbEWMA (recordTTFB s1 2000), st_ttfbEWMA (recordTTFB s1 1002), st_ttfbEWMA (recordTTFB s1 1003),
   st_ttfbEWMA (recordTTFB s1 0)) = (1000, 1200, 1000, 1001, 1000).
Proof. by vm_compute. Qed.

Example speed_average :
  let s := mkStats 0 0 0 0 0 0 f0 0 0 false in
  let s1 := recordSpeed s 1000000 GoSecond in
  (f_to_int (st_speedEWMA s1), f_to_int (st_speedEWMA (recordSpeed s1 2000000 GoSecond)),
   f_to_int (st_speedEWMA (recordSpeed s1 100 GoSecond))) = (1000000, 1200000, 1000000).
Proof. by vm_compute. Qed.
