(* ===== verification/Pipeline.v ===== *)
(** One connection ([NNTPConnection] in [nntp.go]): the goroutine that writes
    commands ([Run]) and the one that reads their responses ([readerLoop]).

    Both are programs in the sense of Prog.v; their questions are the operations
    on what they share with each other and with the callers: contexts, semaphores,
    the request channels, the queue of pending requests, the requests themselves
    and their response channels, the network connection and the provider's
    counters.  What each operation does is the relation [sem] of PipelineSys.v.
    Reading one response is one operation; Framing.v and ReaderControl.v say what
    it does with the bytes. *)
From S2P Require Import Prelude Errors CircuitBreaker Reader Evidence Prog Dispatch Stats.
#[local] Open Scope prog_scope.

(** ** Data *)

(** A request is known by its address. *)
Definition rid : Type := nat.

(** The channels requests come from. *)
Inductive lane := HotPrio | Prio | Hot | Cold.

#[export] Instance lane_eq_dec : EqDecision lane.
Proof. solve_decision. Defined.

(** The cases of a [select] that waits for work, and the one that was taken; a
    closed channel yields [None]. *)
Inductive alt := ALane (l : lane) | ACtx | AIdle | AKeepalive | AFreed.
Inductive sel := SRecv (l : lane) (r : option rid) | SCtx | SIdle | SKeepalive | SFreed.

(** The cases of waiting for a body slot, and of waiting for the server's answer
    to POST. *)
Inductive body_sel := BodyGot | BodyReqDone | BodyCtxDone.
Inductive ready_sel := ReadyMsg (e : error) | ReadyCtx.

(** One response read: the error of the feed loop, the decoder, whether the
    response is still to be delivered, the buffered body and the time of the first
    byte. *)
Record feed_result := mkFeed {
  fd_err : error;
  fd_decoder : NNTPResponse;
  fd_deliver : bool;
  fd_body : bytes;
  fd_firstByteAt : option Z
}.

(** The fields of [NNTPConnection] that [newNNTPConnectionFromConn] and
    [runConnSlot] fix. *)
Record conn_cfg := mkConnCfg {
  cc_inflight : nat;
  cc_body : nat;
  cc_background : nat;
  cc_standalone : bool;
  cc_idle : bool;
  cc_keepalive : bool;
  cc_keepaliveCommand : bytes;
  cc_providerName : string;
  cc_providerID : string;
  cc_createdAt : Z
}.

Inductive cquery :=
| QCancelled
| QCancel
| QCloseConn
| QCloseDone
| QReqErr (r : rid)
| QCtxErr
| QGet (r : rid)
| QHasBody (r : rid)
| QDeadline (r : rid)
| QInflight
| QInflightDrain
| QInflightRecv
| QInflightTryRecv
| QBody (r : rid)
| QBodyRecv
| QBgTry
| QBgRecv
| QBgFull
| QFreed
| QSetHeldBody (r : rid)
| QSetHeldBg (r : rid) (held : bool)
| QSetHeldPipeline (r : rid) (held : bool)
| QSetWritten (r : rid) (now : Z)
| QSetHead (r : rid) (now : Z)
| QPoll (l : lane)
| QSelect (alts : list alt)
| QNewKeepalive (payload : bytes)
| QKeepaliveResp (r : rid)
| QWrite (r : rid)
| QFlush
| QBuffered
| QSetWriteDeadline (dl : option Z)
| QCopyBody (r : rid)
| QDiscardBody (r : rid)
| QMakeReady (r : rid)
| QReady (r : rid)
| QHasReady (r : rid)
| QReadySend (r : rid) (e : error)
| QPush (r : rid)
| QPop
| QPopWait
| QFailLock
| QFailUnlock
| QFail (r : rid) (e : error)
| QDeliver (r : rid) (resp : Response)
| QClose (r : rid)
| QNow
| QStats (f : providerStats -> providerStats)
| QFeed (r : rid) (deliver : bool)
| QFeedPost (r : rid) (deliver : bool).

Definition cans (q : cquery) : Type :=
  match q with
  | QCancelled | QHasBody _ | QInflight | QInflightDrain | QBgTry | QBgFull | QBuffered | QHasReady _ => bool
  | QReqErr _ | QCtxErr | QWrite _ | QFlush | QCopyBody _ => error
  | QGet _ => Request
  | QDeadline _ => option Z
  | QBody _ => body_sel
  | QPoll _ => option (option rid)
  | QSelect _ => sel
  | QNewKeepalive _ => rid
  | QKeepaliveResp _ => option Response
  | QReady _ => ready_sel
  | QPop | QPopWait => option rid
  | QNow => Z
  | QFeed _ _ | QFeedPost _ _ => feed_result
  | _ => unit
  end.

Definition cprog : Type -> Type := prog cans Empty_set Empty_set.

Definition cask (q : cquery) : cprog (cans q) := ask q.

(** ** Requests and slots *)

(** [fmt.Errorf("%s: %w", c.providerName, err)] where a name is set. *)
Definition in_context (name : string) (err : gerror) : gerror :=
  if String.eqb name "" then err else EWrap name err.

(** [keepaliveExpectedCode] *)
Definition keepaliveExpectedCode (cmd : bytes) : Z :=
  if bool_decide (cmd = bs "HELP") then 100
  else if bool_decide (cmd = bs "CAPABILITIES") then 101
  else 111.

Definition count_bg (d : Z) (s : providerStats) : providerStats :=
  s <| st_BackgroundStatInUse := wrap64 (st_BackgroundStatInUse s + d) |>.
Definition count_pipeline (d : Z) (s : providerStats) : providerStats :=
  s <| st_PipelineInUse := wrap64 (st_PipelineInUse s + d) |>.

(** Whether the request takes a slot of the background window. *)
Definition is_background (req : Request) : bool := isCheapCommand (rq_Payload req) && negb (rq_Priority req).

(** [acquireBackgroundStat]: false when the window is full. *)
Definition acquireBackgroundStat (r : rid) : cprog bool :=
  let! req := cask (QGet r) in
  if negb (is_background req) then Ret true
  else
    let! got := cask QBgTry in
    if (got : bool) then
      cask (QSetHeldBg r true) ;! cask (QStats (count_bg 1)) ;! Ret true
    else Ret false.

Definition releaseBackgroundStat (r : rid) : cprog unit :=
  let! req := cask (QGet r) in
  if negb (rq_heldBackgroundStat req) then Ret tt
  else cask (QSetHeldBg r false) ;! cask QBgRecv ;! cask (QStats (count_bg (-1))) ;! cask QFreed.

Definition markRequestPending (r : rid) : cprog unit :=
  cask (QSetHeldPipeline r true) ;! cask (QStats (count_pipeline 1)).

Definition releaseRequestPending (r : rid) : cprog unit :=
  releaseBackgroundStat r ;!
  let! req := cask (QGet r) in
  (if rq_heldPipeline req then cask (QStats (count_pipeline (-1))) else Ret tt) ;!
  cask (QSetHeldPipeline r false).

Definition markRequestWritten (r : rid) : cprog unit :=
  let! now := cask QNow in
  cask (QSetWritten r now).

(** [failRequest(req.RespCh, err)] *)
Definition failRequest (r : rid) (err : error) : cprog unit := cask (QFail r err).

Section Conn.
Context (cfg : conn_cfg).

Definition connErr : error := Some (in_context (cc_providerName cfg) (ESentinel ErrConnectionDied)).

(** The loop of [failOutstanding]. *)
Fixpoint fail_pending (fuel : nat) : cprog unit :=
  match fuel with
  | O => NoFuel
  | S fuel =>
      let! popped := cask QPop in
      match popped with
      | Some r =>
          releaseRequestPending r ;!
          failRequest r connErr ;!
          cask QInflightTryRecv ;!
          fail_pending fuel
      | None => Ret tt
      end
  end.

Definition failOutstanding (fuel : nat) : cprog unit :=
  cask QFailLock ;! fail_pending fuel ;! cask QFailUnlock.

(** [_ = c.conn.Close(); c.failOutstanding()] *)
Definition close_and_fail (fuel : nat) : cprog unit :=
  cask QCloseConn ;! failOutstanding fuel.

(** [waitForInflightDrain]; [n] slots are left to acquire. *)
Fixpoint wait_drain (n : nat) : cprog unit :=
  match n with
  | O => Ret tt
  | S n => let! got := cask QInflightDrain in if (got : bool) then wait_drain n else Ret tt
  end.
Definition waitForInflightDrain : cprog unit := wait_drain (cc_inflight cfg).

(** ** The writer *)

(** The variables of [Run]: [unsent], [deferredNormal], and the cached write
    deadline ([None] before the first one is set). *)
Record wstate := mkW {
  w_unsent : option rid;
  w_deferred : option rid;
  w_deadline : option (option Z)
}.

#[export] Instance eta_wstate : Eta wstate := fun w => mkW (w_unsent w) (w_deferred w) (w_deadline w).

(** [setWriteDeadline] *)
Definition setWriteDeadline (w : wstate) (dl : option Z) : cprog wstate :=
  if decide (w_deadline w = Some dl) then Ret w
  else cask (QSetWriteDeadline dl) ;! Ret (w <| w_deadline := Some dl |>).

(** [if bw.Buffered() > 0 { bw.Flush() }]: whether it succeeded. *)
Definition flush_buffered : cprog bool :=
  let! buffered := cask QBuffered in
  if (buffered : bool) then
    let! e := cask QFlush in Ret (is_nil e)
  else Ret true.

Definition discard_body (r : rid) : cprog unit :=
  let! has := cask (QHasBody r) in
  if (has : bool) then cask (QDiscardBody r) else Ret tt.

(** [io.Copy(bw, req.PayloadBody)] where there is one. *)
Definition copy_body (r : rid) : cprog error :=
  let! has := cask (QHasBody r) in
  if (has : bool) then cask (QCopyBody r) else Ret None.

(** The failure of a write before the request is pending. *)
Definition write_failed (fuel : nat) (r : rid) (err : error) (bg : bool) (w : wstate) : cprog (bool * wstate) :=
  cask QInflightRecv ;!
  (if bg then releaseBackgroundStat r else Ret tt) ;!
  failRequest r err ;!
  close_and_fail fuel ;!
  Ret (false, w).

(** The second phase of a POST, after "POST" was written. *)
Definition post_phase (fuel : nat) (r : rid) (w : wstate) : cprog (bool * wstate) :=
  let! e := cask QFlush in
  if negb (is_nil e) then write_failed fuel r e false w
  else
    cask (QMakeReady r) ;!
    markRequestPending r ;!
    cask (QPush r) ;!
    let w := w <| w_unsent := None |> in
    let! ready := cask (QReady r) in
    match ready with
    | ReadyMsg (Some _) => discard_body r ;! Ret (true, w)
    | ReadyCtx => discard_body r ;! Ret (false, w)
    | ReadyMsg None =>
        let! e := copy_body r in
        if is_nil e then Ret (true, w) else close_and_fail fuel ;! Ret (false, w)
    end.

(** Writing a request that holds its slots; false ends [Run]. *)
Definition write_request (fuel : nat) (r : rid) (w : wstate) : cprog (bool * wstate) :=
  let! dl := cask (QDeadline r) in
  let! w := setWriteDeadline w dl in
  let! e := cask (QWrite r) in
  if negb (is_nil e) then write_failed fuel r e true w
  else
    let! req := cask (QGet r) in
    if rq_PostMode req then post_phase fuel r w
    else
      let! e := copy_body r in
      if negb (is_nil e) then write_failed fuel r e false w
      else
        markRequestWritten r ;!
        markRequestPending r ;!
        cask (QPush r) ;!
        Ret (true, w <| w_unsent := None |>).

(** The connection is older than the request, which demands a fresh one. *)
Definition stale_transport (req : Request) : bool :=
  rq_FreshTransport req && (cc_createdAt cfg <? rq_submittedAt req).

(** The bootstrap request; false ends [Run]. *)
Definition bootstrap (fuel : nat) (r : rid) (w : wstate) : cprog (bool * wstate) :=
  let w := w <| w_unsent := Some r |> in
  let! req := cask (QGet r) in
  if stale_transport req then failRequest r (Some (ESentinel errFreshTransportRequired)) ;! Ret (false, w)
  else
    let! e := cask (QReqErr r) in
    if negb (is_nil e) then failRequest r e ;! Ret (true, w)
    else
      let! got := cask QInflight in
      if negb got then (let! e := cask QCtxErr in failRequest r e) ;! Ret (false, w)
      else
        let! b := (if isCheapCommand (rq_Payload req) then Ret BodyGot else cask (QBody r) : cprog body_sel) in
        match b with
        | BodyReqDone =>
            cask QInflightRecv ;! (let! e := cask (QReqErr r) in failRequest r e) ;! Ret (true, w)
        | BodyCtxDone =>
            cask QInflightRecv ;! (let! e := cask QCtxErr in failRequest r e) ;! Ret (false, w)
        | BodyGot =>
            (if isCheapCommand (rq_Payload req) then Ret tt else cask (QSetHeldBody r)) ;!
            let! bg := acquireBackgroundStat r in
            if negb bg then
              cask QInflightRecv ;!
              (let! req := cask (QGet r) in if rq_heldBody req then cask QBodyRecv else Ret tt) ;!
              failRequest r (Some (ESentinel errBackgroundStatWindowFull)) ;! Ret (true, w)
            else write_request fuel r w
        end.

(** What the wait for the next request ends with. *)
Inductive picked := PickReq (r : option rid) | PickKeepalive | PickStop.

(** [takePriority]: a request from a priority channel, if there is one now. *)
Definition takePriority : cprog (option (option rid)) :=
  let! p := cask (QPoll HotPrio) in
  match p with
  | Some r => Ret (Some r)
  | None => cask (QPoll Prio)
  end.

Definition idle_alts : list alt :=
  (if cc_idle cfg then [AIdle] else []) ++ (if cc_keepalive cfg then [AKeepalive] else []).

(** A normal request was selected: a priority request that is there goes first. *)
Definition selected_normal (r : option rid) (w : wstate) : cprog (picked * wstate) :=
  let! p := takePriority in
  match p with
  | Some pr => Ret (PickReq pr, w <| w_deferred := r |>)
  | None => Ret (PickReq r, w)
  end.

(** The wait ended without a request. *)
Definition pick_other (s : sel) (w : wstate) : cprog (picked * wstate) :=
  match s with
  | SCtx => cask QInflightRecv ;! Ret (PickStop, w)
  | SIdle => cask QInflightRecv ;! waitForInflightDrain ;! Ret (PickStop, w)
  | SKeepalive => Ret (PickKeepalive, w)
  | SRecv _ r => Ret (PickReq r, w)
  | SFreed => Ret (PickStop, w)
  end.

(** [blockedDeferredStat] *)
Definition blocked_deferred (w : wstate) : cprog bool :=
  match w_deferred w with
  | None => Ret false
  | Some d =>
      let! req := cask (QGet d) in
      if is_background req then cask QBgFull else Ret false
  end.

Definition pick_normal (w : wstate) : cprog (picked * wstate) :=
  match w_deferred w with
  | Some d => selected_normal (Some d) (w <| w_deferred := None |>)
  | None =>
      let! h := cask (QPoll Hot) in
      match h with
      | Some r => selected_normal r w
      | None =>
          let! c := cask (QPoll Cold) in
          match c with
          | Some r => selected_normal r w
          | None =>
              let! s := cask (QSelect ([ALane HotPrio; ALane Prio; ALane Hot; ALane Cold; ACtx] ++ idle_alts)) in
              match s with
              | SRecv Hot r | SRecv Cold r => selected_normal r w
              | s => pick_other s w
              end
          end
      end
  end.

(** The next request; an inflight slot is held. *)
Definition pick_request (w : wstate) : cprog (picked * wstate) :=
  if cc_standalone cfg then
    let! s := cask (QSelect ([ALane Cold; ACtx] ++ idle_alts)) in pick_other s w
  else
    let! blocked := blocked_deferred w in
    let! p := takePriority in
    match p with
    | Some r => Ret (PickReq r, w)
    | None =>
        if (blocked : bool) then
          let! s := cask (QSelect [ALane HotPrio; ALane Prio; AFreed; ACtx]) in
          match s with
          | SFreed => pick_normal w
          | s => pick_other s w
          end
        else pick_normal w
    end.

(** The keepalive probe; false ends [Run]. *)
Definition keepalive_probe (fuel : nat) : cprog bool :=
  let! k := cask (QNewKeepalive (cc_keepaliveCommand cfg ++ crlf)) in
  let! e := cask (QWrite k) in
  if negb (is_nil e) then close_and_fail fuel ;! Ret false
  else
    let! e := cask QFlush in
    if negb (is_nil e) then close_and_fail fuel ;! Ret false
    else
      cask (QPush k) ;!
      let! resp := cask (QKeepaliveResp k) in
      match resp with
      | None => Ret false
      | Some resp =>
          if negb (is_nil (rs_Err resp)) ||
             negb (rs_StatusCode resp =? keepaliveExpectedCode (cc_keepaliveCommand cfg))
          then close_and_fail fuel ;! Ret false
          else Ret true
      end.

(** A request was picked: its cancellation, its slots, and the write. *)
Definition serve_request (fuel : nat) (r : rid) (w : wstate) : cprog (bool * wstate) :=
  let w := w <| w_unsent := Some r |> in
  let! e := cask (QReqErr r) in
  if negb (is_nil e) then cask QInflightRecv ;! failRequest r e ;! Ret (true, w)
  else
    let! req := cask (QGet r) in
    if stale_transport req then
      cask QInflightRecv ;! failRequest r (Some (ESentinel errFreshTransportRequired)) ;! Ret (false, w)
    else
      let! b := (if isCheapCommand (rq_Payload req) then Ret BodyGot else cask (QBody r) : cprog body_sel) in
      match b with
      | BodyReqDone =>
          cask QInflightRecv ;! (let! e := cask (QReqErr r) in failRequest r e) ;! Ret (true, w)
      | BodyCtxDone => cask QInflightRecv ;! Ret (false, w)
      | BodyGot =>
          (if isCheapCommand (rq_Payload req) then Ret tt else cask (QSetHeldBody r)) ;!
          let! bg := acquireBackgroundStat r in
          if negb bg then
            cask QInflightRecv ;!
            (let! req := cask (QGet r) in if rq_heldBody req then cask QBodyRecv else Ret tt) ;!
            Ret (true, w <| w_deferred := Some r |> <| w_unsent := None |>)
          else write_request fuel r w
      end.

Fixpoint main_loop (fuel : nat) (w : wstate) : cprog wstate :=
  match fuel with
  | O => NoFuel
  | S fuel =>
      let! cancelled := cask QCancelled in
      if (cancelled : bool) then Ret w
      else
        let! ok := flush_buffered in
        if negb ok then Ret w
        else
          let! got := cask QInflight in
          if negb got then Ret w
          else
            let! ok := flush_buffered in
            if negb ok then cask QInflightRecv ;! Ret w
            else
              let! (p, w) := pick_request w in
              match p with
              | PickStop => Ret w
              | PickKeepalive =>
                  let! ok := keepalive_probe fuel in
                  if (ok : bool) then main_loop fuel w else Ret w
              | PickReq None => cask QInflightRecv ;! Ret w
              | PickReq (Some r) =>
                  let! (go, w) := serve_request fuel r w in
                  if (go : bool) then main_loop fuel w else Ret w
              end
  end.

(** The deferred function of [Run]. *)
Definition finish_run (fuel : nat) (w : wstate) : cprog unit :=
  match w_unsent w with
  | Some r => failRequest r (Some (ESentinel ErrConnectionDied))
  | None => Ret tt
  end ;!
  match w_deferred w with
  | Some r => failRequest r (Some (ESentinel ErrConnectionDied))
  | None => Ret tt
  end ;!
  cask QCancel ;!
  cask QCloseConn ;!
  failOutstanding fuel ;!
  cask QCloseDone.

(** [Run], with the requests [runConnSlot] passes it. *)
Definition Run (fuel : nat) (firstReq secondReq : option rid) : cprog unit :=
  let w := mkW None secondReq None in
  let! (go, w) := (match firstReq with
                   | Some r => bootstrap fuel r w
                   | None => Ret (true, w)
                   end : cprog (bool * wstate)) in
  let! w := (if (go : bool) then
               let! ok := flush_buffered in
               if (ok : bool) then main_loop fuel w else Ret w
             else Ret w : cprog wstate) in
  finish_run fuel w.

(** ** The reader *)

(** The final status line of a POST; the response and whether it is delivered. *)
Definition post_result (r : rid) (resp : Response) (decoder : NNTPResponse) (deliver : bool)
  : cprog (Response * bool) :=
  let! ready := cask (QHasReady r) in
  if StatusCode decoder =? 340 then
    (if (ready : bool) then cask (QReadySend r None) else Ret tt) ;!
    let! f := cask (QFeedPost r deliver) in
    let resp := match fd_err f with
                | Some e => resp <| rs_Err := Some (in_context (cc_providerName cfg) e) |>
                | None => resp
                end in
    Ret (resp <| rs_StatusCode := StatusCode (fd_decoder f) |> <| rs_Status := Message (fd_decoder f) |>
              <| rs_Meta := fd_decoder f |>, fd_deliver f)
  else
    (if (ready : bool) then cask (QReadySend r (Some (EOpaque "post rejected"))) else Ret tt) ;!
    Ret (resp, deliver).

(** The error of a response: validation first, then the caller's cancellation
    takes the place of any error. *)
Definition response_error (r : rid) (req : Request) (f : feed_result) : cprog (error * NNTPResponse) :=
  let '(err, decoder) :=
    if is_nil (fd_err f) && rq_ValidateBody req then validateBody (fd_decoder f)
    else (fd_err f, fd_decoder f) in
  let! err := (if is_nil err then Ret err
               else let! e := cask (QReqErr r) in Ret (if is_nil e then err else e) : cprog error) in
  Ret (match err with Some e => Some (in_context (cc_providerName cfg) e) | None => None end, decoder).

(** The counters after a response. *)
Definition account (r : rid) (resp : Response) (decoder : NNTPResponse) (firstByteAt : option Z) (respStart : Z)
  : cprog unit :=
  let! req := cask (QGet r) in
  let! now := cask QNow in
  let fb := match firstByteAt with Some t => t | None => respStart end in
  let ttfb := if rq_responseHeadAt req =? 0 then None else Some (fb - rq_responseHeadAt req) in
  cask (QStats (fun s => account_response s (BytesConsumed decoder) (rs_Err resp) (rs_StatusCode resp)
                           (StatusCode decoder) (requestMaps451ToAbsence req (StatusCode decoder)) ttfb (now - fb))).

(** Whether the connection is retired after the response. *)
Definition retires (req : Request) (resp : Response) (decoder : NNTPResponse) : bool :=
  negb (is_nil (rs_Err resp)) &&
    (isBodyCommand (rq_Payload req) ||
     match rs_Err resp with
     | Some e => match errors_as_net e with Some timeout => timeout | None => false end
     | None => false
     end ||
     Is (rs_Err resp) (TSentinel ErrProtocolDesync)) ||
  (StatusCode decoder =? 502) || (StatusCode decoder =? 451).

(** One request at the head of the pipeline; false ends the loop. *)
Definition read_response (fuel : nat) (r : rid) : cprog bool :=
  let! headAt := cask QNow in
  cask (QSetHead r headAt) ;!
  let! done_ := cask (QReqErr r) in
  let! req := cask (QGet r) in
  let! respStart := cask QNow in
  let! f := cask (QFeed r (is_nil done_)) in
  let! (err, decoder) := response_error r req f in
  let resp := mkResponse (StatusCode decoder) (Message decoder) (cc_providerID cfg) [] (Lines decoder)
                (fd_body f) decoder err (Some req) in
  let! (resp, deliver) := (if rq_PostMode req then post_result r resp decoder (fd_deliver f)
                           else Ret (resp, fd_deliver f) : cprog (Response * bool)) in
  account r resp decoder (fd_firstByteAt f) respStart ;!
  let! req := cask (QGet r) in
  let! now := cask QNow in
  let resp := resp <| rs_Attempts := [buildAttemptEvidence req (cc_providerID cfg) resp now] |>
                   <| rs_Request := Some req |> in
  (if (deliver : bool) then cask (QDeliver r resp) else Ret tt) ;!
  cask (QClose r) ;!
  cask QInflightRecv ;!
  releaseRequestPending r ;!
  (let! req := cask (QGet r) in if rq_heldBody req then cask QBodyRecv else Ret tt) ;!
  if retires req resp decoder then close_and_fail fuel ;! Ret false else Ret true.

Fixpoint readerLoop (fuel : nat) : cprog unit :=
  match fuel with
  | O => NoFuel
  | S fuel =>
      let! cancelled := cask QCancelled in
      if (cancelled : bool) then failOutstanding fuel
      else
        let! popped := cask QPopWait in
        match popped with
        | None => Ret tt
        | Some r =>
            let! go := read_response fuel r in
            if (go : bool) then readerLoop fuel else Ret tt
        end
  end.

(** The goroutine [Run] starts. *)
Definition reader (fuel : nat) : cprog unit := readerLoop fuel ;! cask QCancel.
End Conn.
