(* ===== verification/PipelineSys.v ===== *)
(** What the goroutines of a connection share, what each of their operations does
    to it, and the steps of the two programs of Pipeline.v against it.

    [react] gives the state after an operation with an answer, or nothing when the
    operation cannot end that way now: an operation none of whose answers are
    possible blocks.  Callers, the server, the network and the clock are the choice
    of answers; the steps [env] are what callers do on their own: cancel the
    connection or a request, and take a response. *)
From S2P Require Import Prelude Errors CircuitBreaker Reader Evidence Prog Dispatch Stats Pipeline.

(** ** State *)

(** [Request.RespCh], with room for one response. *)
Inductive respchan := ChOpen (v : option Response) | ChClosed (v : option Response).

(** [Request.postReadyCh], with room for one message. *)
Inductive readychan := RNil | REmpty | RFull (e : error).

(** A request in memory. *)
Record creq := mkCreq {
  cr_req : Request;
  cr_hasBody : bool;
  cr_ch : respchan;
  cr_ready : readychan
}.

#[export] Instance eta_creq : Eta creq := fun c => mkCreq (cr_req c) (cr_hasBody c) (cr_ch c) (cr_ready c).

(** The shared state.  The fields from [sh_taken] on are a record of what
    happened: the requests received, the probes made, the commands written and
    queued in order, whether a queued request was failed, how many responses were
    read and whether each ended cleanly, and which request got which response, with
    whether nothing had gone wrong by the time it left the queue. *)
Record shared := mkShared {
  sh_heap : rid -> creq;
  sh_inflight : nat;
  sh_body : nat;
  sh_bg : nat;
  sh_freed : bool;
  sh_pending : list rid;
  sh_cancelled : bool;
  sh_closed : bool;
  sh_done : bool;
  sh_locked : bool;
  sh_panicked : bool;
  sh_stats : option providerStats;
  sh_taken : list rid;
  sh_probes : list rid;
  sh_wire : list rid;
  sh_pushed : list rid;
  sh_failed : bool;
  sh_read : nat;
  sh_aligned : bool;
  sh_sound : bool;
  sh_matched : list (rid * nat * bool)
}.

#[export] Instance eta_shared : Eta shared := fun s =>
  mkShared (sh_heap s) (sh_inflight s) (sh_body s) (sh_bg s) (sh_freed s) (sh_pending s) (sh_cancelled s)
    (sh_closed s) (sh_done s) (sh_locked s) (sh_panicked s) (sh_stats s) (sh_taken s) (sh_probes s)
    (sh_wire s) (sh_pushed s) (sh_failed s) (sh_read s) (sh_aligned s) (sh_sound s) (sh_matched s).

Definition upd (h : rid -> creq) (r : rid) (f : creq -> creq) : rid -> creq :=
  fun x => if decide (x = r) then f (h x) else h x.

Definition on_req (r : rid) (f : Request -> Request) (s : shared) : shared :=
  s <| sh_heap := upd (sh_heap s) r (fun c => c <| cr_req ::= f |>) |>.
Definition set_ch (r : rid) (ch : respchan) (s : shared) : shared :=
  s <| sh_heap := upd (sh_heap s) r (fun c => c <| cr_ch := ch |>) |>.
Definition set_ready (r : rid) (x : readychan) (s : shared) : shared :=
  s <| sh_heap := upd (sh_heap s) r (fun c => c <| cr_ready := x |>) |>.

Definition req_of (s : shared) (r : rid) : Request := cr_req (sh_heap s r).
Definition ch_of (s : shared) (r : rid) : respchan := cr_ch (sh_heap s r).
Definition ready_of (s : shared) (r : rid) : readychan := cr_ready (sh_heap s r).

(** ** Operations *)

Definition guard_if (b : bool) (s : shared) : option shared := if b then Some s else None.

(** One more, within the capacity; one less, when there is one. *)
Definition inc (n cap : nat) : option nat := if (n <? cap)%nat then Some (S n) else None.
Definition dec (n : nat) : option nat := match n with O => None | S n => Some n end.

Definition is_prio (l : lane) : bool := match l with HotPrio | Prio => true | _ => false end.

Definition unknown (r : rid) (s : shared) : bool := negb (existsb (Nat.eqb r) (sh_taken s ++ sh_probes s)).

(** A request arrives on a channel: each one once, those with priority on the
    priority channels ([tryGroup]). *)
Definition receive (l : lane) (r : rid) (s : shared) : option shared :=
  guard_if (unknown r s && implb (is_prio l) (rq_Priority (req_of s r))) (s <| sh_taken := sh_taken s ++ [r] |>).

Definition sel_alt (a : sel) : alt :=
  match a with
  | SRecv l _ => ALane l
  | SCtx => ACtx
  | SIdle => AIdle
  | SKeepalive => AKeepalive
  | SFreed => AFreed
  end.

#[export] Instance alt_eq_dec : EqDecision alt.
Proof. solve_decision. Defined.

Definition react_select (alts : list alt) (a : sel) (s : shared) : option shared :=
  if negb (bool_decide (sel_alt a ∈ alts)) then None
  else match a with
       | SRecv l (Some r) => receive l r s
       | SRecv _ None | SIdle | SKeepalive => Some s
       | SCtx => guard_if (sh_cancelled s) s
       | SFreed => guard_if (sh_freed s) (s <| sh_freed := false |>)
       end.

(** The head of the queue. *)
Definition pop (a : option rid) (s : shared) : option shared :=
  match a, sh_pending s with
  | Some r, p :: rest => guard_if (Nat.eqb r p) (s <| sh_pending := rest |>)
  | _, _ => None
  end.

(** [failRequest] on the channel: an error response where there is room, then the
    channel is closed; nothing where it was closed. *)
Definition fail_ch (e : error) (ch : respchan) : respchan :=
  match ch with
  | ChOpen None => ChClosed (Some (errResponse e))
  | ChOpen v => ChClosed v
  | ChClosed v => ChClosed v
  end.

Definition close_ch (ch : respchan) : respchan :=
  match ch with ChOpen v => ChClosed v | ChClosed v => ChClosed v end.

Definition new_probe (payload : bytes) : creq := mkCreq (newRequest payload false) false (ChOpen None) RNil.

Section React.
Context (cfg : conn_cfg).

Definition react (q : cquery) : cans q -> shared -> option shared :=
  match q return cans q -> shared -> option shared with
  | QCancelled => fun a s => guard_if (Bool.eqb a (sh_cancelled s)) s
  | QCancel => fun _ s => Some (s <| sh_cancelled := true |>)
  | QCloseConn => fun _ s => Some (s <| sh_closed := true |>)
  | QCloseDone => fun _ s => Some (s <| sh_done := true |>)
  | QHasBody r => fun a s => guard_if (Bool.eqb a (cr_hasBody (sh_heap s r))) s
  | QInflight => fun a s =>
      if (a : bool) then option_map (fun n => s <| sh_inflight := n |>) (inc (sh_inflight s) (cc_inflight cfg))
      else guard_if (sh_cancelled s) s
  | QInflightDrain => fun a s =>
      if (a : bool) then option_map (fun n => s <| sh_inflight := n |>) (inc (sh_inflight s) (cc_inflight cfg))
      else Some s
  | QInflightRecv => fun _ s => option_map (fun n => s <| sh_inflight := n |>) (dec (sh_inflight s))
  | QInflightTryRecv => fun _ s => Some (s <| sh_inflight ::= Nat.pred |>)
  | QBody r => fun a s =>
      match a with
      | BodyGot => option_map (fun n => s <| sh_body := n |>) (inc (sh_body s) (cc_body cfg))
      | BodyReqDone => Some s
      | BodyCtxDone => guard_if (sh_cancelled s) s
      end
  | QBodyRecv => fun _ s => option_map (fun n => s <| sh_body := n |>) (dec (sh_body s))
  | QBgTry => fun a s =>
      if (a : bool) then option_map (fun n => s <| sh_bg := n |>) (inc (sh_bg s) (cc_background cfg))
      else guard_if (negb (sh_bg s <? cc_background cfg)%nat) s
  | QBgRecv => fun _ s => option_map (fun n => s <| sh_bg := n |>) (dec (sh_bg s))
  | QBgFull => fun a s => guard_if (Bool.eqb a (Nat.eqb (sh_bg s) (cc_background cfg))) s
  | QFreed => fun _ s => Some (s <| sh_freed := true |>)
  | QSetHeldBody r => fun _ s => Some (on_req r (fun x => x <| rq_heldBody := true |>) s)
  | QSetHeldBg r b => fun _ s => Some (on_req r (fun x => x <| rq_heldBackgroundStat := b |>) s)
  | QSetHeldPipeline r b => fun _ s => Some (on_req r (fun x => x <| rq_heldPipeline := b |>) s)
  | QSetWritten r now => fun _ s => Some (on_req r (fun x => x <| rq_writtenAt := now |>) s)
  | QSetHead r now => fun _ s =>
      Some (on_req r (fun x => x <| rq_responseHeadAt := now |>
                                 <| rq_attemptState ::= fun t =>
                                      if decide (t = attemptPending) then attemptResponseHead else t |>) s)
  | QPoll l => fun a s =>
      match a with
      | Some (Some r) => receive l r s
      | _ => Some s
      end
  | QSelect alts => react_select alts
  | QNewKeepalive payload => fun k s =>
      guard_if (unknown k s)
        (s <| sh_probes := sh_probes s ++ [k] |> <| sh_heap := upd (sh_heap s) k (fun _ => new_probe payload) |>)
  | QKeepaliveResp k => fun a s =>
      match a, ch_of s k with
      | None, _ => guard_if (sh_cancelled s) s
      | Some _, ChOpen (Some _) => Some (set_ch k (ChOpen None) s)
      | Some _, ChClosed (Some _) => Some (set_ch k (ChClosed None) s)
      | Some _, ChClosed None => Some s
      | Some _, ChOpen None => None
      end
  | QWrite r => fun a s => Some (if is_nil a then s <| sh_wire := sh_wire s ++ [r] |> else s)
  | QMakeReady r => fun _ s => Some (set_ready r REmpty s)
  | QReady r => fun a s =>
      match a, ready_of s r with
      | ReadyMsg _, RFull _ => Some (set_ready r REmpty s)
      | ReadyMsg _, _ => None
      | ReadyCtx, _ => guard_if (sh_cancelled s) s
      end
  | QHasReady r => fun a s => guard_if (Bool.eqb a (match ready_of s r with RNil => false | _ => true end)) s
  | QReadySend r e => fun _ s =>
      match ready_of s r with REmpty => Some (set_ready r (RFull e) s) | _ => None end
  | QPush r => fun _ s =>
      guard_if (length (sh_pending s) <? cc_inflight cfg)%nat
        (s <| sh_pending := sh_pending s ++ [r] |> <| sh_pushed := sh_pushed s ++ [r] |>)
  | QPop => fun a s =>
      match a with
      | None => guard_if (match sh_pending s with [] => true | _ => false end) s
      | Some _ => option_map (fun s => s <| sh_failed := true |>) (pop a s)
      end
  | QPopWait => fun a s =>
      match a with
      | None => guard_if (sh_cancelled s) s
      | Some _ => option_map (fun s => s <| sh_sound := sh_aligned s && negb (sh_failed s) |>) (pop a s)
      end
  | QFailLock => fun _ s => guard_if (negb (sh_locked s)) (s <| sh_locked := true |>)
  | QFailUnlock => fun _ s => Some (s <| sh_locked := false |>)
  | QFail r e => fun _ s => Some (set_ch r (fail_ch e (ch_of s r)) s)
  | QDeliver r resp => fun _ s =>
      Some (match ch_of s r with
            | ChOpen None => set_ch r (ChOpen (Some resp)) s
            | ChOpen (Some _) => s
            | ChClosed _ => s <| sh_panicked := true |>
            end)
  | QClose r => fun _ s => Some (set_ch r (close_ch (ch_of s r)) s)
  | QStats f => fun _ s => Some (s <| sh_stats ::= option_map f |>)
  | QFeed r deliver => fun a s =>
      guard_if (negb (fd_deliver a) || deliver)
        (if is_nil (fd_err a)
         then s <| sh_matched := sh_matched s ++ [(r, sh_read s, sh_sound s)] |> <| sh_read ::= S |>
         else s <| sh_aligned := false |>)
  | QFeedPost _ deliver => fun a s =>
      guard_if (negb (fd_deliver a) || deliver)
        (if is_nil (fd_err a) then s else s <| sh_aligned := false |>)
  | QGet _ | QReqErr _ | QCtxErr | QDeadline _ | QFlush | QBuffered | QSetWriteDeadline _ | QCopyBody _ | QDiscardBody _ | QNow =>
      fun _ s => Some s
  end.
End React.

(** ** Steps *)

(** The answers that are read from memory. *)
Definition observes (q : cquery) : cans q -> shared -> Prop :=
  match q return cans q -> shared -> Prop with
  | QGet r => fun a s => a = req_of s r
  | QReqErr r => fun a s => a = rq_ctxErr (req_of s r)
  | _ => fun _ _ => True
  end.

(** What callers and their writers do. *)
Inductive env : shared -> shared -> Prop :=
| env_cancel s : env s (s <| sh_cancelled := true |>)
| env_request s r t d e :
    env s (on_req r (fun x => x <| rq_attemptState := t |> <| rq_decodedCommitted := d |> <| rq_ctxErr := e |>) s)
| env_receive s r :
    env s (set_ch r (match ch_of s r with ChOpen _ => ChOpen None | ChClosed _ => ChClosed None end) s).

(** The connection at work: the memory and what is left of the two programs. *)
Record sys := mkSys { y_shared : shared; y_run : cprog unit; y_reader : cprog unit }.

(** One of the programs gets an answer. *)
Inductive pstep (cfg : conn_cfg) : shared -> cprog unit -> shared -> cprog unit -> Prop :=
| pstep_ask s q k a s' : observes q a s -> react cfg q a s = Some s' -> pstep cfg s (Ask q k) s' (k a).

Inductive sstep (cfg : conn_cfg) : sys -> sys -> Prop :=
| step_run s w rd s' w' : pstep cfg s w s' w' -> sstep cfg (mkSys s w rd) (mkSys s' w' rd)
| step_reader s w rd s' rd' : pstep cfg s rd s' rd' -> sstep cfg (mkSys s w rd) (mkSys s' w rd')
| step_env s s' w rd : env s s' -> sstep cfg (mkSys s w rd) (mkSys s' w rd).

(** A request nobody has worked on. *)
Definition pristine (c : creq) : Prop :=
  cr_ch c = ChOpen None /\ cr_ready c = RNil /\
  rq_heldBody (cr_req c) = false /\ rq_heldBackgroundStat (cr_req c) = false.

(** The connection as [runConnSlot] starts it. *)
Definition opening (h : rid -> creq) (stats : option providerStats) (taken : list rid) : shared :=
  mkShared h 0 0 0 false [] false false false false false stats taken [] [] [] false 0 true false [].

Inductive reachable (cfg : conn_cfg) (fuel : nat) (first second : option rid) : sys -> Prop :=
| reach_init h stats :
    (forall r, pristine (h r)) ->
    NoDup (option_list first ++ option_list second) ->
    reachable cfg fuel first second
      (mkSys (opening h stats (option_list first ++ option_list second))
         (Run cfg fuel first second) (reader cfg fuel))
| reach_step y y' : reachable cfg fuel first second y -> sstep cfg y y' -> reachable cfg fuel first second y'.
