(* ===== verification/PipelineLogic.v ===== *)
(** What each goroutine of a connection owns, and a logic for its program.

    A goroutine owns the requests it took from a channel or from the queue and has
    not handed on, and the semaphore slots it holds.  [wp] follows a program with
    what it owns: an operation states what it needs and what it gives.  [Inv] ties
    what the two goroutines own to the shared state; [sem_sound] shows that an
    operation allowed by [wp] keeps it, whatever the other goroutine owns, and
    [internal_ready] that the operations that must not block do not. *)
From S2P Require Import Prelude Errors CircuitBreaker Reader Evidence Prog Dispatch Stats Pipeline PipelineSys.

(** ** What a goroutine owns *)

(** A request it owns: whether its response channel is still open, the slots
    recorded in it, whether it has a POST channel and whether the message was
    sent, whether it is a keepalive probe, and what never changes of it. *)
Record held := mkHeld {
  h_open : bool;
  h_body : bool;
  h_bg : bool;
  h_ready : bool;
  h_sent : bool;
  h_probe : bool;
  h_cheap : bool;
  h_prio : bool
}.

#[export] Instance eta_held : Eta held := fun f =>
  mkHeld (h_open f) (h_body f) (h_bg f) (h_ready f) (h_sent f) (h_probe f) (h_cheap f) (h_prio f).

(** Inflight, body and background slots it holds beside those of its requests; the
    commands written and not queued; the request whose response it is about to
    read; whether it has seen the queue empty since its last push; whether it is
    the one that queues. *)
Record own := mkOwn {
  o_tok : nat;
  o_body : nat;
  o_bg : nat;
  o_reqs : gmap rid held;
  o_extra : list rid;
  o_cur : list rid;
  o_drained : bool;
  o_writer : bool
}.

#[export] Instance eta_own : Eta own := fun g =>
  mkOwn (o_tok g) (o_body g) (o_bg g) (o_reqs g) (o_extra g) (o_cur g) (o_drained g) (o_writer g).

Definition set_held (r : rid) (f : held) (g : own) : own := g <| o_reqs ::= insert r f |>.

(** A request as it comes from a channel. *)
Definition fresh_held (f : held) : Prop :=
  h_open f = true /\ h_body f = false /\ h_bg f = false /\ h_ready f = false /\ h_sent f = false.

(** It holds the slots its command needs: a body slot unless it is a STAT, a place in
    the background window if it is a STAT without priority; a keepalive probe needs
    none. *)
Definition slotted (f : held) : Prop :=
  h_probe f = true \/ (h_body f = negb (h_cheap f) /\ h_bg f = h_cheap f && negb (h_prio f)).

(** One as it comes from the queue. *)
Definition queued_held (f : held) : Prop := h_open f = true /\ h_sent f = false /\ slotted f.

(** What reading a request shows. *)
Definition describes (f : held) (a : Request) : Prop :=
  rq_heldBody a = h_body f /\ rq_heldBackgroundStat a = h_bg f /\
  isCheapCommand (rq_Payload a) = h_cheap f /\ rq_Priority a = h_prio f.

(** ** Operations on what is owned *)

Section Spec.
Context (g : own).

Definition arrives (l : lane) (r : rid) (K : own -> Prop) : Prop :=
  forall f, o_reqs g !! r = None -> fresh_held f -> h_probe f = false -> (is_prio l = true -> h_prio f = true) ->
    K (set_held r f g).

Definition with_held (r : rid) (K : held -> Prop) : Prop := exists f, o_reqs g !! r = Some f /\ K f.

Definition qspec (q : cquery) : (cans q -> own -> Prop) -> Prop :=
  match q return (cans q -> own -> Prop) -> Prop with
  | QGet r => fun K => with_held r (fun f => forall a, describes f a -> K a g)
  | QInflight | QInflightDrain => fun K => forall a : bool, K a (if a then g <| o_tok ::= S |> else g)
  | QInflightRecv | QInflightTryRecv => fun K => o_cur g = [] /\ exists n, o_tok g = S n /\ K tt (g <| o_tok := n |>)
  | QBody _ => fun K => forall a, K a (match a with BodyGot => g <| o_body ::= S |> | _ => g end)
  | QBodyRecv => fun K => o_cur g = [] /\ exists r f,
      o_reqs g !! r = Some f /\ h_open f = false /\ h_body f = true /\ K tt (g <| o_reqs ::= delete r |>)
  | QBgTry => fun K => forall a : bool, K a (if a then g <| o_bg ::= S |> else g)
  | QBgRecv => fun K => exists n, o_bg g = S n /\ K tt (g <| o_bg := n |>)
  | QSetHeldBody r => fun K => o_cur g = [] /\ with_held r (fun f => exists n,
      o_body g = S n /\ h_body f = false /\ K tt (set_held r (f <| h_body := true |>) (g <| o_body := n |>)))
  | QSetHeldBg r b => fun K => o_cur g = [] /\ with_held r (fun f => h_bg f = negb b /\
      let g' n := set_held r (f <| h_bg := b |>) (g <| o_bg := n |>) in
      if b then exists n, o_bg g = S n /\ K tt (g' n) else K tt (g' (S (o_bg g))))
  | QSetHeldPipeline r _ | QSetWritten r _ | QSetHead r _ => fun K => with_held r (fun _ => K tt g)
  | QPoll l => fun K =>
      (forall r, arrives l r (K (Some (Some r)))) /\ K (Some None) g /\ K None g
  | QSelect alts => fun K =>
      forall a, sel_alt a ∈ alts -> match a with SRecv l (Some r) => arrives l r (K a) | _ => K a g end
  | QNewKeepalive _ => fun K => forall k f,
      o_reqs g !! k = None -> fresh_held f -> h_probe f = true -> K k (set_held k f g)
  | QWrite r => fun K => o_writer g = true /\
      forall a, K a (if is_nil a then g <| o_extra ::= fun l => l ++ [r] |> else g)
  | QMakeReady r => fun K => with_held r (fun f => K tt (set_held r (f <| h_ready := true |> <| h_sent := false |>) g))
  | QHasReady r => fun K => with_held r (fun f => K (h_ready f) g)
  | QReadySend r _ => fun K => with_held r (fun f =>
      h_ready f = true /\ h_sent f = false /\ K tt (set_held r (f <| h_sent := true |>) g))
  | QPush r => fun K => with_held r (fun f => exists n,
      o_writer g = true /\ h_open f = true /\ h_sent f = false /\ slotted f /\ o_tok g = S n /\ o_extra g = [r] /\
      K tt (g <| o_tok := n |> <| o_reqs ::= delete r |> <| o_extra := [] |> <| o_drained := false |>))
  | QPop => fun K =>
      K None (g <| o_drained := o_writer g |>) /\
      forall r f, o_reqs g !! r = None -> queued_held f -> K (Some r) (set_held r f (g <| o_tok ::= S |>))
  | QPopWait => fun K => o_writer g = false /\ o_cur g = [] /\ K None g /\
      forall r f, o_reqs g !! r = None -> queued_held f ->
        K (Some r) (set_held r f (g <| o_tok ::= S |> <| o_cur := [r] |>))
  | QFail r _ | QClose r => fun K => with_held r (fun f => K tt (set_held r (f <| h_open := false |>) g))
  | QDeliver r _ => fun K => with_held r (fun f => h_open f = true /\ K tt g)
  | QFeed r deliver => fun K => o_cur g = [r] /\
      forall a, (fd_deliver a = true -> deliver = true) -> K a (g <| o_cur := [] |>)
  | QFeedPost _ deliver => fun K => forall a, (fd_deliver a = true -> deliver = true) -> K a g
  | _ => fun K => forall a, K a g
  end.
End Spec.

Fixpoint wp {A} (p : cprog A) (Q : A -> own -> Prop) (g : own) : Prop :=
  match p with
  | Ret a => Q a g
  | NoFuel => True
  | Ask q k => qspec g q (fun a => wp (k a) Q)
  | Fork _ _ => False
  end.

Lemma qspec_mono g q (K K' : cans q -> own -> Prop) :
  qspec g q K -> (forall a g', K a g' -> K' a g') -> qspec g q K'.
Proof.
  intros H HK. destruct q; cbn [qspec] in *; unfold with_held, arrives in *; try by (intros a; apply HK).
  all: try by naive_solver.
  - destruct H as (Hc & f & Hf & Hb & H). split; [done|]. exists f. split_and!; [done..|]. repeat case_match; naive_solver.
  - intros a Ha. specialize (H a Ha). destruct a as [l [r|]| | | |]; intros; apply HK; eauto.
Qed.

Lemma wp_mono {A} (p : cprog A) : forall (Q Q' : A -> own -> Prop) g,
  wp p Q g -> (forall a g', Q a g' -> Q' a g') -> wp p Q' g.
Proof.
  induction p as [a| |q k IH|ps k IH]; intros Q Q' g H HQ; cbn [wp] in *; [by apply HQ|done| |done].
  eapply qspec_mono; [exact H|]. intros a g' Ha. exact (IH a Q Q' g' Ha HQ).
Qed.

Lemma wp_bind {A B} (p : cprog A) (f : A -> cprog B) Q : forall g,
  wp p (fun a g' => wp (f a) Q g') g -> wp (bind p f) Q g.
Proof.
  induction p as [a| |q k IH|ps k IH]; intros g H; cbn [wp bind] in *; [done|done| |done].
  eapply qspec_mono; [exact H|]. intros a g' Ha. by apply IH.
Qed.

Lemma wp_ask q (Q : cans q -> own -> Prop) g : qspec g q Q -> wp (cask q) Q g.
Proof. intros H. cbn [cask ask wp]. eapply qspec_mono; [exact H|]. done. Qed.
