(* ===== verification/PipelineInv.v ===== *)
(** The invariant of a connection's two goroutines: what they own and the shared
    state agree, and every operation they may do keeps it so. *)
From S2P Require Import Prelude Errors CircuitBreaker Reader Evidence Prog Dispatch Stats Pipeline PipelineSys PipelineLogic.

(** ** Counting slots *)

Definition msum (h : held -> bool) (m : gmap rid held) : nat :=
  sum_list_with (fun p => Nat.b2n (h p.2)) (map_to_list m).

Lemma msum_empty h : msum h ∅ = 0%nat.
Proof. unfold msum. by rewrite map_to_list_empty. Qed.

Lemma msum_insert h m r f : m !! r = None -> msum h (<[r := f]> m) = (Nat.b2n (h f) + msum h m)%nat.
Proof. intros Hr. unfold msum. by rewrite (map_to_list_insert m r f Hr). Qed.

Lemma msum_delete h m r f : m !! r = Some f -> msum h m = (Nat.b2n (h f) + msum h (delete r m))%nat.
Proof.
  intros Hr. rewrite <- (insert_delete_id m r f Hr) at 1. apply msum_insert, lookup_delete_eq.
Qed.

Lemma msum_update h m r f f' :
  m !! r = Some f -> (msum h (<[r := f']> m) + Nat.b2n (h f) = msum h m + Nat.b2n (h f'))%nat.
Proof.
  intros Hr. rewrite (msum_delete h m r f Hr), <- (insert_delete_eq m r f').
  rewrite msum_insert by apply lookup_delete_eq. lia.
Qed.

(** The queued requests with a field set. *)
Definition qsum (h : rid -> creq) (b : Request -> bool) (l : list rid) : nat :=
  sum_list_with (fun r => Nat.b2n (b (cr_req (h r)))) l.

Lemma qsum_ext h h' b l :
  (forall r, r ∈ l -> b (cr_req (h' r)) = b (cr_req (h r))) -> qsum h' b l = qsum h b l.
Proof.
  induction l as [|r l IH]; intros H; [done|]. unfold qsum in *. simpl.
  rewrite (H r) by left. rewrite IH; [done|]. intros x Hx. apply H. by right.
Qed.

Lemma qsum_app h b l1 l2 : qsum h b (l1 ++ l2) = (qsum h b l1 + qsum h b l2)%nat.
Proof. apply sum_list_with_app. Qed.

(** ** Memory *)

Definition is_open (ch : respchan) : bool := match ch with ChOpen _ => true | ChClosed _ => false end.
Definition is_full (x : readychan) : bool := match x with RFull _ => true | _ => false end.
Definition is_made (x : readychan) : bool := match x with RNil => false | _ => true end.

(** The request in memory is as its owner knows it. *)
Definition held_ok (c : creq) (f : held) : Prop :=
  describes f (cr_req c) /\ is_open (cr_ch c) = h_open f /\ is_made (cr_ready c) = h_ready f /\
  (h_sent f = false -> is_full (cr_ready c) = false).

Record mem_ok (h : rid -> creq) (pending taken probes : list rid) (m1 m2 : gmap rid held) : Prop := {
  mo_nodup : NoDup pending;
  mo_known : forall r, r ∈ pending -> r ∈ taken ++ probes;
  mo_open : forall r, r ∈ pending -> is_open (cr_ch (h r)) = true /\ is_full (cr_ready (h r)) = false;
  mo_own1 : forall r f, m1 !! r = Some f -> held_ok (h r) f /\ ~ r ∈ pending /\ r ∈ (if h_probe f then probes else taken);
  mo_own2 : forall r f, m2 !! r = Some f -> held_ok (h r) f /\ ~ r ∈ pending /\ r ∈ (if h_probe f then probes else taken);
  mo_disj : m1 ##ₘ m2;
  mo_cover : forall r, r ∈ taken -> r ∈ pending \/ is_Some (m1 !! r) \/ is_Some (m2 !! r) \/
                                     is_open (cr_ch (h r)) = false;
  mo_apart : NoDup (taken ++ probes);
  mo_new : forall r, r ∉ taken ++ probes -> pristine (h r)
}.

Lemma mem_ok_sym h p t pr m1 m2 : mem_ok h p t pr m1 m2 -> mem_ok h p t pr m2 m1.
Proof. intros []. split; try done. intros r Hr. destruct (mo_cover0 r Hr) as [?|[?|[?|?]]]; tauto. Qed.

Lemma upd_eq h r F : upd h r F r = F (h r).
Proof. unfold upd. by rewrite decide_True. Qed.
Lemma upd_ne h r F x : x <> r -> upd h r F x = h x.
Proof. intros. unfold upd. by rewrite decide_False. Qed.

(** An owner changes its request. *)
Lemma mem_ok_update h p t pr m1 m2 r f f' F :
  mem_ok h p t pr m1 m2 -> m1 !! r = Some f -> h_probe f' = h_probe f -> held_ok (F (h r)) f' ->
  (is_open (cr_ch (h r)) = false -> is_open (cr_ch (F (h r))) = false) ->
  mem_ok (upd h r F) p t pr (<[r := f']> m1) m2.
Proof.
  intros [] Hr Hp Hok Hcl. assert (Hn : m2 !! r = None) by (eapply map_disjoint_Some_l; done).
  destruct (mo_own3 r f Hr) as (_ & Hrp & Hrt).
  split; [done|done| | | | | |done|].
  - intros x Hx. rewrite upd_ne by naive_solver. by apply mo_open0.
  - intros x fx [(<- & <-)|(Hne & Hx)]%lookup_insert_Some.
    + rewrite upd_eq, Hp. by split_and!.
    + rewrite upd_ne by done. by apply mo_own3.
  - intros x fx Hx. rewrite upd_ne by naive_solver. by apply mo_own4.
  - by apply map_disjoint_insert_l.
  - intros x Hx. destruct (decide (x = r)) as [->|Hne].
    + right. left. rewrite lookup_insert_eq. by eexists.
    + rewrite upd_ne, lookup_insert_ne by done. by apply mo_cover0.
  - intros x Hx. rewrite upd_ne; [by apply mo_new0|]. intros ->. apply Hx. apply elem_of_app.
    destruct (h_probe f); auto.
Qed.

(** Somebody changes a request in a way no owner sees. *)
Lemma mem_ok_frame h p t pr m1 m2 r F :
  mem_ok h p t pr m1 m2 ->
  (forall f, held_ok (h r) f -> held_ok (F (h r)) f) ->
  (is_open (cr_ch (F (h r))) = is_open (cr_ch (h r))) ->
  (is_full (cr_ready (h r)) = false -> is_full (cr_ready (F (h r))) = false) ->
  (pristine (h r) -> pristine (F (h r))) ->
  mem_ok (upd h r F) p t pr m1 m2.
Proof.
  intros [] Hok Hop Hfull Hpr.
  assert (Hu : forall x (P : creq -> Prop), P (h x) -> (x = r -> P (h r) -> P (F (h r))) -> P (upd h r F x)).
  { intros x P Hx HP. destruct (decide (x = r)) as [->|Hne]; [rewrite upd_eq|rewrite upd_ne by done]; auto. }
  split; [done|done| | | |done| |done|].
  - intros x Hx. apply (Hu x (fun c => is_open (cr_ch c) = true /\ is_full (cr_ready c) = false)); [by apply mo_open0|].
    intros -> [H1 H2]. rewrite Hop. auto.
  - intros x f Hx. destruct (mo_own3 x f Hx) as (H1 & H2). split; [|done].
    apply (Hu x (fun c => held_ok c f)); auto.
  - intros x f Hx. destruct (mo_own4 x f Hx) as (H1 & H2). split; [|done].
    apply (Hu x (fun c => held_ok c f)); auto.
  - intros x Hx. destruct (mo_cover0 x Hx) as [H|[H|[H|H]]]; [tauto..|]. right. right. right.
    apply (Hu x (fun c => is_open (cr_ch c) = false)); [done|]. intros -> ?. by rewrite Hop.
  - intros x Hx. apply (Hu x pristine); auto.
Qed.

(** A request leaves the queue. *)
Lemma mem_ok_pop h r p t pr m1 m2 f :
  mem_ok h (r :: p) t pr m1 m2 -> held_ok (h r) f -> r ∈ (if h_probe f then pr else t) ->
  mem_ok h p t pr (<[r := f]> m1) m2.
Proof.
  intros [] Hok Hin. apply list.NoDup_cons in mo_nodup0 as [Hnp Hnd].
  assert (H1 : m1 !! r = None).
  { destruct (m1 !! r) as [g|] eqn:E; [|done]. exfalso. apply (mo_own3 r g E). left. }
  assert (H2 : m2 !! r = None).
  { destruct (m2 !! r) as [g|] eqn:E; [|done]. exfalso. apply (mo_own4 r g E). left. }
  split; try done.
  - intros x Hx. apply mo_known0. by right.
  - intros x Hx. apply mo_open0. by right.
  - intros x fx [(<- & <-)|(Hne & Hx)]%lookup_insert_Some; [done|].
    destruct (mo_own3 x fx Hx) as (Ha & Hb & Hc). split_and!; [done| |done]. rewrite elem_of_cons in Hb. tauto.
  - intros x fx Hx. destruct (mo_own4 x fx Hx) as (Ha & Hb & Hc). split_and!; [done| |done].
    rewrite elem_of_cons in Hb. tauto.
  - by apply map_disjoint_insert_l.
  - intros x Hx. destruct (decide (x = r)) as [->|Hne].
    + right. left. rewrite lookup_insert_eq. by eexists.
    + rewrite lookup_insert_ne by done. destruct (mo_cover0 x Hx) as [[?|?]%elem_of_cons|H]; tauto.
Qed.

(** A request joins the queue. *)
Lemma mem_ok_push h r p t pr m1 m2 f :
  mem_ok h p t pr m1 m2 -> m1 !! r = Some f -> h_open f = true -> h_sent f = false ->
  mem_ok h (p ++ [r]) t pr (delete r m1) m2.
Proof.
  intros [] Hr Hop Hsent. destruct (mo_own3 r f Hr) as (Hok & Hrp & Hrt).
  assert (Hn : m2 !! r = None) by (eapply map_disjoint_Some_l; done).
  split; try done.
  - apply list.NoDup_app. split_and!; [done| |apply list.NoDup_singleton]. intros x Hx ->%list_elem_of_singleton. done.
  - intros x [Hx| ->%list_elem_of_singleton]%elem_of_app; [by apply mo_known0|]. apply elem_of_app.
    destruct (h_probe f); auto.
  - intros x [Hx| ->%list_elem_of_singleton]%elem_of_app; [by apply mo_open0|].
    destruct Hok as (_ & Ho & _ & Hs). rewrite Ho, Hop. auto.
  - intros x fx [Hne Hx]%lookup_delete_Some. destruct (mo_own3 x fx Hx) as (Ha & Hb & Hc).
    split_and!; [done| |done]. rewrite elem_of_app, list_elem_of_singleton. naive_solver.
  - intros x fx Hx. destruct (mo_own4 x fx Hx) as (Ha & Hb & Hc).
    split_and!; [done| |done]. rewrite elem_of_app, list_elem_of_singleton. naive_solver.
  - by apply map_disjoint_delete_l.
  - intros x Hx. rewrite elem_of_app, list_elem_of_singleton. destruct (decide (x = r)) as [->|Hne]; [tauto|].
    rewrite lookup_delete_ne by done. destruct (mo_cover0 x Hx) as [?|H]; tauto.
Qed.

(** A request is forgotten by its owner once its channel is closed. *)
Lemma mem_ok_drop h r p t pr m1 m2 f :
  mem_ok h p t pr m1 m2 -> m1 !! r = Some f -> h_open f = false -> mem_ok h p t pr (delete r m1) m2.
Proof.
  intros [] Hr Hop. destruct (mo_own3 r f Hr) as (Hok & _). split; try done.
  - intros x fx [Hne Hx]%lookup_delete_Some. by apply mo_own3.
  - by apply map_disjoint_delete_l.
  - intros x Hx. destruct (decide (x = r)) as [->|Hne].
    + right. right. right. destruct Hok as (_ & -> & _). done.
    + rewrite lookup_delete_ne by done. by apply mo_cover0.
Qed.

(** A request arrives. *)
Lemma mem_ok_new h r p t pr t' pr' m1 m2 f :
  mem_ok h p t pr m1 m2 -> r ∉ t ++ pr -> held_ok (h r) f ->
  (if h_probe f then t' = t /\ pr' = pr ++ [r] else t' = t ++ [r] /\ pr' = pr) ->
  mem_ok h p t' pr' (<[r := f]> m1) m2 /\ m1 !! r = None.
Proof.
  intros [] Hnew Hok Hadd.
  assert (Hrp : r ∉ p) by (intros Hr; by apply Hnew, mo_known0).
  assert (Ha : forall x, x ∈ t' ++ pr' <-> x ∈ t ++ pr \/ x = r).
  { intros x. destruct (h_probe f), Hadd as [-> ->]; rewrite !elem_of_app, list_elem_of_singleton; tauto. }
  assert (Hm : forall b x, x ∈ (if b : bool then pr else t) -> x ∈ (if b then pr' else t')).
  { intros b x Hx. destruct b, (h_probe f), Hadd as [-> ->]; rewrite ?elem_of_app; auto. }
  assert (H1 : m1 !! r = None).
  { destruct (m1 !! r) as [g|] eqn:E; [|done]. exfalso. apply Hnew, elem_of_app.
    destruct (mo_own3 r g E) as (_ & _ & H). destruct (h_probe g); auto. }
  assert (H2 : m2 !! r = None).
  { destruct (m2 !! r) as [g|] eqn:E; [|done]. exfalso. apply Hnew, elem_of_app.
    destruct (mo_own4 r g E) as (_ & _ & H). destruct (h_probe g); auto. }
  split; [|done]. split; [done| |done| | | | | |].
  - intros x Hx. apply Ha. left. by apply mo_known0.
  - intros x fx [(<- & <-)|(Hne & Hx)]%lookup_insert_Some.
    + split_and!; [done..|]. destruct (h_probe f), Hadd as [-> ->]; apply elem_of_app; right; by apply list_elem_of_singleton.
    + destruct (mo_own3 x fx Hx) as (? & ? & ?). auto.
  - intros x fx Hx. destruct (mo_own4 x fx Hx) as (? & ? & ?). auto.
  - by apply map_disjoint_insert_l.
  - intros x Hx. destruct (decide (x = r)) as [->|Hne].
    + right. left. rewrite lookup_insert_eq. by eexists.
    + rewrite lookup_insert_ne by done. apply mo_cover0.
      destruct (h_probe f), Hadd as [-> ->]; [done|]. apply elem_of_app in Hx as [?|?%list_elem_of_singleton]; done.
  - destruct (h_probe f), Hadd as [-> ->].
    + rewrite app_assoc. apply list.NoDup_app. split_and!; [done| |apply list.NoDup_singleton].
      intros x Hx ->%list_elem_of_singleton. done.
    + rewrite <- app_assoc, (Permutation_app_comm [r] pr), app_assoc. apply list.NoDup_app.
      split_and!; [done| |apply list.NoDup_singleton]. intros x Hx ->%list_elem_of_singleton. done.
  - intros x Hx. apply mo_new0. rewrite Ha in Hx. tauto.
Qed.

(** ** The invariant *)

(** Compute the fields of updated records. *)
Ltac fields := unfold set_held, on_req, set_ch, set_ready, update_field in *;
  cbn [sh_heap sh_inflight sh_body sh_bg sh_freed sh_pending sh_cancelled sh_closed sh_done sh_locked sh_panicked
       sh_stats sh_taken sh_probes sh_wire sh_pushed sh_failed sh_read sh_aligned sh_sound sh_matched
       o_tok o_body o_bg o_reqs o_extra o_cur o_drained o_writer
       cr_req cr_hasBody cr_ch cr_ready h_open h_body h_bg h_ready h_sent h_probe h_cheap h_prio] in *.

Section Invariant.
Context (cfg : conn_cfg).

(** The slots in use, those recorded in the live requests and those held. *)
Definition slots_ok (used cap : nat) (b : Request -> bool) (hb : held -> bool) (s : shared) (m1 m2 : gmap rid held)
    (n1 n2 : nat) : Prop :=
  (qsum (sh_heap s) b (sh_pending s) + msum hb m1 + msum hb m2 + n1 + n2 <= used <= cap)%nat.

Definition role_ok (g : own) : Prop :=
  if o_writer g then o_cur g = [] else o_extra g = [] /\ o_drained g = false.

(** The requests whose responses were read, in order. *)
Definition matched_reqs (s : shared) : list rid := map (fun x => x.1.1) (sh_matched s).

(** A queued command has its slots: it took them, or it is a keepalive probe. *)
Definition took (a : Request) : Prop :=
  rq_heldBody a = negb (isCheapCommand (rq_Payload a)) /\ rq_heldBackgroundStat a = is_background a.
Definition has_slots (s : shared) (r : rid) : Prop := r ∈ sh_probes s \/ took (req_of s r).
Definition all_slots (s : shared) : Prop := forall r, r ∈ sh_pending s -> has_slots s r.

(** So has the one whose response is about to be read. *)
Definition cur_ok (cur : list rid) (m : gmap rid held) (tok : nat) : Prop :=
  cur = [] \/ exists r f, cur = [r] /\ m !! r = Some f /\ slotted f /\ (1 <= tok)%nat.

Record Inv (s : shared) (g1 g2 : own) : Prop := {
  inv_mem : mem_ok (sh_heap s) (sh_pending s) (sh_taken s) (sh_probes s) (o_reqs g1) (o_reqs g2);
  inv_inflight : (sh_inflight s = length (sh_pending s) + o_tok g1 + o_tok g2 /\ sh_inflight s <= cc_inflight cfg)%nat;
  inv_body : slots_ok (sh_body s) (cc_body cfg) rq_heldBody h_body s (o_reqs g1) (o_reqs g2) (o_body g1) (o_body g2);
  inv_bg : slots_ok (sh_bg s) (cc_background cfg) rq_heldBackgroundStat h_bg s (o_reqs g1) (o_reqs g2)
             (o_bg g1) (o_bg g2);
  inv_slots : all_slots s;
  inv_cur : cur_ok (o_cur g1) (o_reqs g1) (o_tok g1) /\ cur_ok (o_cur g2) (o_reqs g2) (o_tok g2);
  inv_roles : o_writer g1 = negb (o_writer g2) /\ role_ok g1 /\ role_ok g2;
  inv_wire : sh_wire s = sh_pushed s ++ o_extra g1 ++ o_extra g2;
  inv_fifo : sh_failed s = false -> sh_aligned s = true ->
    exists pre, sh_pushed s = pre ++ (o_cur g1 ++ o_cur g2) ++ sh_pending s /\ length pre = sh_read s /\
      pre = matched_reqs s;
  inv_sound : sh_sound s = true -> forall r, o_cur g1 ++ o_cur g2 = [r] -> sh_pushed s !! sh_read s = Some r;
  inv_matched : forall r i, (r, i, true) ∈ sh_matched s -> sh_pushed s !! i = Some r;
  inv_drained : o_drained g1 = true \/ o_drained g2 = true -> sh_pending s = [];
  inv_calm : sh_panicked s = false
}.

Lemma Inv_sym s g1 g2 : Inv s g1 g2 -> Inv s g2 g1.
Proof.
  intros []. unfold slots_ok, role_ok in *. destruct inv_roles0 as (Hw & H1 & H2).
  assert (Hc : o_cur g2 ++ o_cur g1 = o_cur g1 ++ o_cur g2 /\ o_extra g2 ++ o_extra g1 = o_extra g1 ++ o_extra g2).
  { destruct (o_writer g1), (o_writer g2); try done; destruct_and?;
      repeat match goal with H : _ = [] |- _ => rewrite H end; by rewrite ?app_nil_r. }
  destruct Hc as [Hc He]. split; unfold slots_ok; rewrite ?Hc, ?He; try done; [by apply mem_ok_sym|lia|lia|lia|tauto| |tauto].
  split_and!; [by rewrite Hw, negb_involutive|exact H2|exact H1].
Qed.

(** Who owns more keeps what it is about to read; so does who changes another request. *)
Lemma cur_ok_more cur m tok tok' : cur_ok cur m tok -> (tok <= tok')%nat -> cur_ok cur m tok'.
Proof. intros [->|(r & f & -> & H1 & H2 & H3)] Ht; [by left|right]. exists r, f. split_and!; done || lia. Qed.

Lemma cur_ok_insert cur m tok r f : cur_ok cur m tok -> (forall f0, m !! r = Some f0 -> cur <> [] -> slotted f0 -> slotted f) ->
  cur_ok cur (<[r := f]> m) tok.
Proof.
  intros [->|(x & g & -> & H1 & H2 & H3)] Hs; [by left|right]. destruct (decide (x = r)) as [->|Hne].
  - exists r, f. rewrite lookup_insert_eq. split_and!; try done. by eapply Hs.
  - exists x, g. by rewrite lookup_insert_ne.
Qed.

(** Requests in the queue are as they were. *)
Lemma slots_same s s' : all_slots s ->
  sh_probes s ⊆ sh_probes s' ->
  (forall r, r ∈ sh_pending s' -> r ∈ sh_pending s /\ (took (req_of s r) -> took (req_of s' r))) ->
  all_slots s'.
Proof.
  intros H Hp Hr r Hin. destruct (Hr r Hin) as [Hin' Ht]. destruct (H r Hin') as [Hx|Hx]; [left; set_solver|right; auto].
Qed.

(** The operations on memory by the owner of the request. *)
Lemma inv_update s g1 g2 r f f' F body bg :
  Inv s g1 g2 -> o_reqs g1 !! r = Some f -> h_probe f' = h_probe f -> held_ok (F (sh_heap s r)) f' ->
  (is_open (cr_ch (sh_heap s r)) = false -> is_open (cr_ch (F (sh_heap s r))) = false) ->
  (Nat.b2n (h_body f') + body = Nat.b2n (h_body f) + o_body g1)%nat ->
  (Nat.b2n (h_bg f') + bg = Nat.b2n (h_bg f) + o_bg g1)%nat ->
  (o_cur g1 = [] \/ (slotted f -> slotted f')) ->
  Inv (s <| sh_heap := upd (sh_heap s) r F |>) (set_held r f' (g1 <| o_body := body |> <| o_bg := bg |>)) g2.
Proof.
  intros [] Hr Hp Hok Hcl Hb Hg Hsl. pose proof (mo_own1 _ _ _ _ _ _ inv_mem0 r f Hr) as (_ & Hrp & _).
  assert (Hq : forall b, qsum (upd (sh_heap s) r F) b (sh_pending s) = qsum (sh_heap s) b (sh_pending s)).
  { intros b. apply qsum_ext. intros x Hx. by rewrite upd_ne by naive_solver. }
  pose proof (msum_update h_body _ r f f' Hr). pose proof (msum_update h_bg _ r f f' Hr).
  unfold slots_ok in *. split; fields; try done; unfold slots_ok; fields; rewrite ?Hq; [|lia..| |].
  - by eapply mem_ok_update.
  - eapply (slots_same s); [done|done|]. fields. intros x Hx. split; [done|]. unfold req_of. fields.
    rewrite upd_ne by naive_solver. done.
  - split; [|apply inv_cur0]. apply cur_ok_insert; [apply inv_cur0|]. intros f0 Hf0 Hne. rewrite Hr in Hf0. simplify_eq.
    by destruct Hsl.
Qed.

(** Those nobody owning the request can see. *)
Lemma inv_frame s g1 g2 r F :
  Inv s g1 g2 ->
  (forall f, held_ok (sh_heap s r) f -> held_ok (F (sh_heap s r)) f) ->
  is_open (cr_ch (F (sh_heap s r))) = is_open (cr_ch (sh_heap s r)) ->
  (is_full (cr_ready (sh_heap s r)) = false -> is_full (cr_ready (F (sh_heap s r))) = false) ->
  (pristine (sh_heap s r) -> pristine (F (sh_heap s r))) ->
  (rq_heldBody (cr_req (F (sh_heap s r))) = rq_heldBody (cr_req (sh_heap s r))) ->
  (rq_heldBackgroundStat (cr_req (F (sh_heap s r))) = rq_heldBackgroundStat (cr_req (sh_heap s r))) ->
  (took (cr_req (sh_heap s r)) -> took (cr_req (F (sh_heap s r)))) ->
  Inv (s <| sh_heap := upd (sh_heap s) r F |>) g1 g2.
Proof.
  intros [] Hok Hop Hfull Hpr Hb Hg Htk. unfold slots_ok in *.
  assert (Hq : forall b : Request -> bool, b (cr_req (F (sh_heap s r))) = b (cr_req (sh_heap s r)) ->
            qsum (upd (sh_heap s) r F) b (sh_pending s) = qsum (sh_heap s) b (sh_pending s)).
  { intros b E. apply qsum_ext. intros x Hx. destruct (decide (x = r)) as [->|Hne];
      [by rewrite upd_eq|by rewrite upd_ne]. }
  split; fields; try done; unfold slots_ok; fields; rewrite ?(Hq _ Hb), ?(Hq _ Hg); try done; [by apply mem_ok_frame|].
  eapply (slots_same s); [done|done|]. fields. intros x Hx. split; [done|]. unfold req_of. fields.
  destruct (decide (x = r)) as [->|Hne]; [by rewrite upd_eq|by rewrite upd_ne].
Qed.

(** A request arrives. *)
Lemma inv_new s g1 g2 r f t' pr' h :
  Inv s g1 g2 -> r ∉ sh_taken s ++ sh_probes s -> fresh_held f -> held_ok (h r) f -> pristine (h r) ->
  (forall x, x <> r -> h x = sh_heap s x) ->
  (if h_probe f then t' = sh_taken s /\ pr' = sh_probes s ++ [r] else t' = sh_taken s ++ [r] /\ pr' = sh_probes s) ->
  Inv (s <| sh_heap := h |> <| sh_taken := t' |> <| sh_probes := pr' |>) (set_held r f g1) g2
    /\ o_reqs g1 !! r = None.
Proof.
  intros [] Hnew (Ho & Hb & Hg & Hf) Hok Hpr Hh Hadd. unfold slots_ok in *.
  assert (Hne : forall x, x ∈ sh_taken s ++ sh_probes s -> h x = sh_heap s x).
  { intros x Hx. apply Hh. by intros ->. }
  assert (Hrp : r ∉ sh_pending s) by (intros Hr; by apply Hnew, (mo_known _ _ _ _ _ _ inv_mem0)).
  assert (Hmem : mem_ok h (sh_pending s) (sh_taken s) (sh_probes s) (o_reqs g1) (o_reqs g2)).
  { destruct inv_mem0.
    assert (Hk : forall (b : bool) x, x ∈ (if b then sh_probes s else sh_taken s) -> x ∈ sh_taken s ++ sh_probes s).
    { intros b x Hx. apply elem_of_app. destruct b; auto. }
    split; try done.
    - intros x Hx. rewrite Hne by auto. auto.
    - intros x fx Hx. destruct (mo_own3 x fx Hx) as (H1 & H2 & H3). rewrite Hne by eauto. auto.
    - intros x fx Hx. destruct (mo_own4 x fx Hx) as (H1 & H2 & H3). rewrite Hne by eauto. auto.
    - intros x Hx. rewrite Hne by (apply elem_of_app; auto). auto.
    - intros x Hx. destruct (decide (x = r)) as [->|]; [|rewrite Hh by done]; auto. }
  eapply mem_ok_new in Hmem as [Hmem Hn]; [|done|done|done].
  split; [|done].
  assert (Hq : forall b, qsum h b (sh_pending s) = qsum (sh_heap s) b (sh_pending s)).
  { intros b. apply qsum_ext. intros x Hx. by rewrite Hh by (intros ->; auto). }
  split; fields; try done; unfold slots_ok; fields; rewrite ?Hq, ?(msum_insert _ _ r f Hn), ?Hb, ?Hg; try done.
  - eapply (slots_same s); [done|fields; destruct (h_probe f), Hadd as [_ ->]; set_solver|]. fields. intros x Hx. split; [done|].
    unfold req_of. fields. by rewrite Hh by (intros ->; auto).
  - split; [|apply inv_cur0]. apply cur_ok_insert; [apply inv_cur0|]. intros f0 Hf0. congruence.
Qed.
End Invariant.

(** ** Every operation keeps the invariant *)

Create HintDb pipeline.

Section Sound.
Context (cfg : conn_cfg).

Definition keeps (q : cquery) : Prop := forall s s' g1 g2 (K : cans q -> own -> Prop) a,
  Inv cfg s g1 g2 -> qspec g1 q K -> observes q a s -> react cfg q a s = Some s' ->
  exists g, K a g /\ Inv cfg s' g g2.

Lemma guard_if_Some b s s' : guard_if b s = Some s' -> b = true /\ s' = s.
Proof. destruct b; simpl; intros; by simplify_eq. Qed.

Ltac start := intros s s' g1 g2 K a HI HK HO HR; cbn [react qspec observes cans] in *;
  repeat match goal with u : unit |- _ => destruct u end.
Ltac unguard := repeat match goal with H : guard_if _ _ = Some _ |- _ =>
  apply guard_if_Some in H as [? ->] end.

(** Operations that change nothing the invariant speaks of. *)
Ltac unseen := start; repeat case_match; unguard; simplify_eq; eexists;
  (split; [match goal with H : forall a, _ |- _ => apply H end|]);
  match goal with H : Inv _ _ _ _ |- _ => destruct H; split; fields; done end.

Lemma keeps_QCancelled : keeps QCancelled. Proof. unseen. Qed.
Lemma keeps_QCancel : keeps QCancel. Proof. unseen. Qed.
Lemma keeps_QCloseConn : keeps QCloseConn. Proof. unseen. Qed.
Lemma keeps_QCloseDone : keeps QCloseDone. Proof. unseen. Qed.
Lemma keeps_QReqErr r : keeps (QReqErr r). Proof. unseen. Qed.
Lemma keeps_QCtxErr : keeps QCtxErr. Proof. unseen. Qed.
Lemma keeps_QHasBody r : keeps (QHasBody r). Proof. unseen. Qed.
Lemma keeps_QDeadline r : keeps (QDeadline r). Proof. unseen. Qed.
Lemma keeps_QBgFull : keeps QBgFull. Proof. unseen. Qed.
Lemma keeps_QFreed : keeps QFreed. Proof. unseen. Qed.
Lemma keeps_QFlush : keeps QFlush. Proof. unseen. Qed.
Lemma keeps_QBuffered : keeps QBuffered. Proof. unseen. Qed.
Lemma keeps_QSetWriteDeadline dl : keeps (QSetWriteDeadline dl). Proof. unseen. Qed.
Lemma keeps_QCopyBody r : keeps (QCopyBody r). Proof. unseen. Qed.
Lemma keeps_QDiscardBody r : keeps (QDiscardBody r). Proof. unseen. Qed.
Lemma keeps_QNow : keeps QNow. Proof. unseen. Qed.
Lemma keeps_QStats f : keeps (QStats f). Proof. unseen. Qed.
Lemma keeps_QFailLock : keeps QFailLock. Proof. unseen. Qed.
Lemma keeps_QFailUnlock : keeps QFailUnlock. Proof. unseen. Qed.

(** Operations on semaphores. *)
Lemma inc_Some n cap m : inc n cap = Some m -> (m = S n /\ n < cap)%nat.
Proof. unfold inc. destruct (Nat.ltb_spec n cap); intros; by simplify_eq. Qed.

Lemma dec_Some n m : dec n = Some m -> n = S m.
Proof. destruct n; simpl; intros; by simplify_eq. Qed.

Lemma map_Some {A B} (f : A -> B) o b : option_map f o = Some b -> exists a, o = Some a /\ b = f a.
Proof. destruct o; simpl; intros; simplify_eq; eauto. Qed.

Ltac unslot := repeat match goal with
  | H : option_map _ _ = Some _ |- _ => apply map_Some in H as (? & ? & ->)
  | H : inc _ _ = Some _ |- _ => apply inc_Some in H as [-> ?]
  | H : dec _ = Some _ |- _ => apply dec_Some in H
  | H : exists n, _ |- _ => destruct H as (? & ? & ?)
  | H : o_cur _ = [] /\ _ |- _ => destruct H as [? H]
  end.

Ltac cur := match goal with H : cur_ok _ _ _ /\ _ |- cur_ok _ _ _ /\ _ =>
  destruct H as [? ?]; split; [first [assumption|by left|eapply cur_ok_more; [eassumption|lia]]|assumption] end.

Ltac slot := start; repeat case_match; unguard; unslot; simplify_eq; eexists;
  (split; [first [eassumption | match goal with H : forall a, _ |- _ => apply H end]|]);
  match goal with H : Inv _ _ _ _ |- _ => destruct H; split; unfold slots_ok in *; fields; try done; first [lia|cur] end.

Lemma keeps_QInflight : keeps QInflight. Proof. slot. Qed.
Lemma keeps_QInflightDrain : keeps QInflightDrain. Proof. slot. Qed.
Lemma keeps_QInflightRecv : keeps QInflightRecv. Proof. slot. Qed.
Lemma keeps_QInflightTryRecv : keeps QInflightTryRecv. Proof. slot. Qed.
Lemma keeps_QBody r : keeps (QBody r). Proof. slot. Qed.
Lemma keeps_QBgTry : keeps QBgTry. Proof. slot. Qed.
Lemma keeps_QBgRecv : keeps QBgRecv. Proof. slot. Qed.

Lemma keeps_QBodyRecv : keeps QBodyRecv.
Proof.
  start. destruct HK as (Hc & r & f & Hr & Ho & Hb & HK). unslot. eexists. split; [exact HK|].
  pose proof (msum_delete h_body _ r f Hr) as Hs. pose proof (msum_delete h_bg _ r f Hr) as Hg.
  rewrite Hb in Hs. simpl in Hs.
  destruct HI; split; unfold slots_ok in *; fields; try done; try lia; [by eapply mem_ok_drop|cur].
Qed.

(** Operations on the fields of an owned request. *)
Lemma keeps_QGet r : keeps (QGet r).
Proof.
  start. destruct HK as (f & Hr & HK). simplify_eq. eexists. split; [|done]. apply HK.
  by destruct (mo_own1 _ _ _ _ _ _ (inv_mem _ _ _ _ HI) r f Hr) as ((Hd & _) & _).
Qed.

Lemma keeps_QHasReady r : keeps (QHasReady r).
Proof.
  start. destruct HK as (f & Hr & HK). unguard. eexists. split; [|done].
  destruct (mo_own1 _ _ _ _ _ _ (inv_mem _ _ _ _ HI) r f Hr) as ((_ & _ & Hd & _) & _).
  rewrite <- Hd in HK. unfold ready_of in *. destruct (cr_ready (sh_heap s r)), a; done.
Qed.

Lemma held_of s g1 g2 r f : Inv cfg s g1 g2 -> o_reqs g1 !! r = Some f -> held_ok (sh_heap s r) f.
Proof. intros HI Hr. by destruct (mo_own1 _ _ _ _ _ _ (inv_mem _ _ _ _ HI) r f Hr). Qed.

Lemma set_held_id g r f : o_reqs g !! r = Some f -> set_held r f g = g.
Proof. intros Hr. destruct g. unfold set_held. fields. by rewrite insert_id. Qed.

Lemma own_slots_id g : g <| o_body := o_body g |> <| o_bg := o_bg g |> = g.
Proof. by destruct g. Qed.

Lemma keeps_QSetHeldBody r : keeps (QSetHeldBody r).
Proof.
  start. destruct HK as (Hc & f & Hr & n & Hn & Hb & HK). simplify_eq. eexists. split; [exact HK|].
  destruct (held_of _ _ _ _ _ HI Hr) as ((H1 & H2 & H3 & H4) & H5 & H6 & H7).
  pose proof (inv_update cfg s g1 g2 r f (f <| h_body := true |>)
    (fun c => c <| cr_req ::= fun x => x <| rq_heldBody := true |> |>) n (o_bg g1) HI Hr) as H. fields.
  rewrite Hb in H. apply H; try done; simpl; first [lia|by left].
Qed.

Lemma keeps_QSetHeldBg r b : keeps (QSetHeldBg r b).
Proof.
  start. destruct HK as (Hc & f & Hr & Hb & HK). simplify_eq.
  destruct (held_of _ _ _ _ _ HI Hr) as ((H1 & H2 & H3 & H4) & H5 & H6 & H7).
  pose proof (fun n => inv_update cfg s g1 g2 r f (f <| h_bg := b |>)
    (fun c => c <| cr_req ::= fun x => x <| rq_heldBackgroundStat := b |> |>) (o_body g1) n HI Hr) as H.
  fields. rewrite Hb in H. destruct b.
  - destruct HK as (n & Hn & HK). eexists. split; [exact HK|].
    apply H; try done; simpl; first [lia|by left].
  - eexists. split; [exact HK|]. apply H; try done; simpl; first [lia|by left].
Qed.

(** A change that leaves the slots alone. *)
Lemma inv_update_calm s g1 g2 r f f' F :
  Inv cfg s g1 g2 -> o_reqs g1 !! r = Some f ->
  h_probe f' = h_probe f -> h_body f' = h_body f -> h_bg f' = h_bg f -> (slotted f -> slotted f') ->
  held_ok (F (sh_heap s r)) f' ->
  (is_open (cr_ch (sh_heap s r)) = false -> is_open (cr_ch (F (sh_heap s r))) = false) ->
  Inv cfg (s <| sh_heap := upd (sh_heap s) r F |>) (set_held r f' g1) g2.
Proof.
  intros HI Hr Hp Hb Hg Hsl Hok Hcl. rewrite <- (own_slots_id g1). eapply inv_update; try done; rewrite ?Hb, ?Hg; lia || by right.
Qed.

(** One the owner does not record. *)
Lemma inv_update_same s g1 g2 r f F :
  Inv cfg s g1 g2 -> o_reqs g1 !! r = Some f -> held_ok (F (sh_heap s r)) f ->
  (is_open (cr_ch (sh_heap s r)) = false -> is_open (cr_ch (F (sh_heap s r))) = false) ->
  Inv cfg (s <| sh_heap := upd (sh_heap s) r F |>) g1 g2.
Proof.
  intros HI Hr Hok Hcl. pose proof (inv_update_calm s g1 g2 r f f F HI Hr) as H. rewrite set_held_id in H by done. auto.
Qed.

Ltac same := start; match goal with H : with_held _ _ _ |- _ => destruct H as (? & Hr & ?) end; simplify_eq;
  match goal with HI : Inv _ _ _ _, Hr : _ !! _ = Some _ |- _ =>
    pose proof (held_of _ _ _ _ _ HI Hr) as (? & ? & ? & ?);
    eexists; split; [eassumption|]; eapply inv_update_same; [exact HI|exact Hr|done|done] end.

Lemma keeps_QSetHeldPipeline r b : keeps (QSetHeldPipeline r b). Proof. same. Qed.
Lemma keeps_QSetWritten r t : keeps (QSetWritten r t). Proof. same. Qed.
Lemma keeps_QSetHead r t : keeps (QSetHead r t). Proof. same. Qed.

Lemma keeps_QMakeReady r : keeps (QMakeReady r).
Proof.
  start. destruct HK as (f & Hr & HK). simplify_eq. eexists. split; [exact HK|].
  pose proof (held_of _ _ _ _ _ HI Hr) as (? & ? & ? & ?). by eapply inv_update_calm.
Qed.

Lemma keeps_QReadySend r e : keeps (QReadySend r e).
Proof.
  start. destruct HK as (f & Hr & Hf & Hs & HK). case_match; simplify_eq. eexists. split; [exact HK|].
  pose proof (held_of _ _ _ _ _ HI Hr) as (? & ? & Hm & ?). eapply inv_update_calm; try done.
Qed.

Lemma keeps_QFail r e : keeps (QFail r e).
Proof.
  start. destruct HK as (f & Hr & HK). simplify_eq. eexists. split; [exact HK|].
  pose proof (held_of _ _ _ _ _ HI Hr) as (? & ? & ? & ?).
  assert (Hc : forall ch, is_open (fail_ch e ch) = false) by (by intros [[]|]).
  eapply inv_update_calm; try done; [|by intros; apply Hc]. split_and!; try done. apply Hc.
Qed.

Lemma keeps_QClose r : keeps (QClose r).
Proof.
  start. destruct HK as (f & Hr & HK). simplify_eq. eexists. split; [exact HK|].
  pose proof (held_of _ _ _ _ _ HI Hr) as (? & ? & ? & ?).
  assert (Hc : forall ch, is_open (close_ch ch) = false) by (by intros [[]|]).
  eapply inv_update_calm; try done; [|by intros; apply Hc]. split_and!; try done. apply Hc.
Qed.

Lemma keeps_QDeliver r resp : keeps (QDeliver r resp).
Proof.
  start. destruct HK as (f & Hr & Ho & HK). eexists. split; [exact HK|].
  pose proof (held_of _ _ _ _ _ HI Hr) as (? & Hch & ? & ?). rewrite Ho in Hch.
  unfold ch_of in *. destruct (cr_ch (sh_heap s r)) as [[v|]|v] eqn:E; simplify_eq; [done|].
  eapply inv_update_same; [done|done| |by rewrite E].
  split_and!; try done.
Qed.

(** What others may do to a request. *)
Lemma keeps_QReady r : keeps (QReady r).
Proof.
  start. exists g1. split; [apply HK|]. unfold ready_of in *.
  destruct a; [destruct (cr_ready (sh_heap s r)) eqn:E; simplify_eq|by unguard].
  apply inv_frame; try done.
  - intros f (H1 & H2 & H3 & H4). split_and!; try done. by rewrite <- H3, E.
  - intros (_ & H & _). by rewrite E in H.
Qed.

Lemma inv_take s g1 g2 r :
  Inv cfg s g1 g2 ->
  Inv cfg (set_ch r (match ch_of s r with ChOpen _ => ChOpen None | ChClosed _ => ChClosed None end) s) g1 g2.
Proof.
  intros HI. unfold ch_of. apply inv_frame; try done.
  - intros f (H1 & H2 & H3 & H4). split_and!; try done. rewrite <- H2. by destruct (cr_ch _).
  - fields. by destruct (cr_ch _).
  - intros (H & ?). split; [|done]. fields. by rewrite H.
Qed.

Lemma keeps_QKeepaliveResp k : keeps (QKeepaliveResp k).
Proof.
  start. exists g1. split; [apply HK|]. pose proof (inv_take s g1 g2 k HI) as H.
  destruct a as [v|]; [|by unguard]. destruct (ch_of s k) as [[w|]|[w|]]; simplify_eq; done.
Qed.

(** Arrivals. *)
Lemma unknown_spec r s : unknown r s = true -> r ∉ sh_taken s ++ sh_probes s.
Proof.
  unfold unknown. intros H%negb_true_iff Hin. rewrite <- not_true_iff_false in H. apply H.
  apply existsb_exists. exists r. split; [by apply list_elem_of_In|apply Nat.eqb_refl].
Qed.

Definition as_arrived (probe : bool) (c : creq) : held :=
  mkHeld true false false false false probe (isCheapCommand (rq_Payload (cr_req c))) (rq_Priority (cr_req c)).

Lemma as_arrived_ok probe c : pristine c -> held_ok c (as_arrived probe c) /\ fresh_held (as_arrived probe c).
Proof. intros (H1 & H2 & H3 & H4). unfold held_ok. by rewrite H1, H2. Qed.

Lemma keeps_receive l r s s' g1 g2 (K : own -> Prop) :
  Inv cfg s g1 g2 -> arrives g1 l r K -> receive l r s = Some s' -> exists g, K g /\ Inv cfg s' g g2.
Proof.
  intros HI HK HR. apply guard_if_Some in HR as [[Hn Hp]%andb_true_iff ->].
  apply unknown_spec in Hn. pose proof (mo_new _ _ _ _ _ _ (inv_mem _ _ _ _ HI) r Hn) as Hnew.
  destruct (as_arrived_ok false _ Hnew) as [Hok Hf].
  destruct (inv_new cfg s g1 g2 r _ (sh_taken s ++ [r]) (sh_probes s) (sh_heap s) HI Hn Hf Hok) as [HI' Hr]; [done..|].
  exists (set_held r (as_arrived false (sh_heap s r)) g1). split.
  - apply HK; try done. fields. intros E. by rewrite E in Hp.
  - destruct HI'. split; fields; done.
Qed.

Lemma keeps_QPoll l : keeps (QPoll l).
Proof.
  start. destruct HK as (H1 & H2 & H3). destruct a as [[r|]|]; simplify_eq; [|by eexists; split; [|done]..].
  eapply keeps_receive; eauto.
Qed.

Lemma keeps_QSelect alts : keeps (QSelect alts).
Proof.
  start. unfold react_select in HR. case_bool_decide as Hin; [|done]. specialize (HK a Hin). simpl in HR.
  destruct a as [l [r|]| | | |]; unguard; simplify_eq; try (eexists; split; [exact HK|done]).
  - eapply keeps_receive; eauto.
  - eexists. split; [exact HK|]. destruct HI; split; fields; done.
Qed.

Lemma keeps_QNewKeepalive payload : keeps (QNewKeepalive payload).
Proof.
  start. unguard. apply unknown_spec in H as Hn.
  destruct (as_arrived_ok true (new_probe payload)) as [Hok Hf]; [done|].
  destruct (inv_new cfg s g1 g2 a _ (sh_taken s) (sh_probes s ++ [a]) (upd (sh_heap s) a (fun _ => new_probe payload)) HI Hn Hf)
    as [HI' Hr]; [by rewrite upd_eq|by rewrite upd_eq|by intros; apply upd_ne|done|].
  exists (set_held a (as_arrived true (new_probe payload)) g1). split; [by apply HK|]. destruct HI'. split; fields; done.
Qed.

(** The queue. *)
Lemma keeps_QWrite r : keeps (QWrite r).
Proof.
  start. destruct HK as [Hw HK]. simplify_eq. eexists. split; [apply HK|]. destruct (is_nil a); [|done].
  destruct HI. destruct inv_roles0 as (Hr & H1 & H2).
  assert (Hx : o_extra g2 = []) by (unfold role_ok in H2; rewrite Hw in Hr; destruct (o_writer g2); simpl in *; naive_solver).
  split; fields; try done.
  - by unfold role_ok in *; fields; rewrite Hw in *.
  - by rewrite inv_wire0, Hx, !app_nil_r, app_assoc.
Qed.

Lemma keeps_QPush r : keeps (QPush r).
Proof.
  start. destruct HK as (f & Hr & n & Hw & Ho & Hs & Hsl & Hn & He & HK). unguard. eexists. split; [exact HK|].
  destruct (held_of _ _ _ _ _ HI Hr) as ((D1 & D2 & D3 & D4) & _).
  pose proof (msum_delete h_body _ r f Hr) as Sb. pose proof (msum_delete h_bg _ r f Hr) as Sg.
  destruct HI. destruct inv_roles0 as (Hroles & H1 & H2).
  assert (Hd : o_drained g2 = false /\ o_extra g2 = []).
  { unfold role_ok in H2. rewrite Hw in Hroles. destruct (o_writer g2); simpl in *; naive_solver. }
  destruct Hd as [Hd Hxe].
  split; unfold slots_ok in *; fields; rewrite ?length_app, ?qsum_app; try done.
  - by eapply mem_ok_push.
  - simpl. lia.
  - unfold qsum in *. simpl. rewrite D1. lia.
  - unfold qsum in *. simpl. rewrite D2. lia.
  - intros x [Hx| ->%list_elem_of_singleton]%elem_of_app; [by apply inv_slots0|].
    destruct Hsl as [Hp|[Hb Hg]]; [left|right; split; unfold is_background, req_of; fields; congruence].
    pose proof (mo_own1 _ _ _ _ _ _ inv_mem0 r f Hr) as (_ & _ & Hx). by rewrite Hp in Hx.
  - unfold role_ok in H1. rewrite Hw in H1. cur.
  - unfold role_ok in *. fields. by rewrite Hw in *.
  - rewrite inv_wire0, He, Hxe. simpl. by rewrite !app_nil_r.
  - intros Hf Ha. destruct (inv_fifo0 Hf Ha) as (pre & -> & Hl & Hpre). exists pre. by rewrite <- !app_assoc.
  - intros Hsd x Hc. by apply lookup_app_l_Some, inv_sound0.
  - intros x i Hm. by apply lookup_app_l_Some, inv_matched0.
  - rewrite Hd. by intros [|].
Qed.

Definition as_queued (s : shared) (r : rid) : held :=
  let c := sh_heap s r in
  mkHeld true (rq_heldBody (cr_req c)) (rq_heldBackgroundStat (cr_req c)) (is_made (cr_ready c)) false
    (bool_decide (r ∈ sh_probes s)) (isCheapCommand (rq_Payload (cr_req c))) (rq_Priority (cr_req c)).

Lemma as_queued_ok s r : has_slots s r -> queued_held (as_queued s r).
Proof.
  intros Hs. split; [done|]. split; [done|]. destruct Hs as [Hp|[Hb Hg]]; [left; by apply bool_decide_eq_true_2|by right].
Qed.

(** A request leaves the queue, for one of the goroutines. *)
Lemma inv_pop r s s' g1 g2 :
  Inv cfg s g1 g2 -> pop (Some r) s = Some s' ->
  o_reqs g1 !! r = None /\ has_slots s r /\
  (forall failed sound cur,
    (failed = true \/ failed = sh_failed s /\ o_cur g1 = [] /\ o_cur g2 = [] /\ cur = [r]) ->
    (sound = sh_sound s /\ cur = o_cur g1 \/
     sound = sh_aligned s && negb (sh_failed s) /\ o_cur g1 = [] /\ o_cur g2 = [] /\ cur = [r]) ->
    (if o_writer g1 then cur = [] else True) ->
    Inv cfg (s' <| sh_failed := failed |> <| sh_sound := sound |>)
      (set_held r (as_queued s r) (g1 <| o_tok ::= S |> <| o_cur := cur |>)) g2).
Proof.
  intros HI HP. simpl in HP. destruct (sh_pending s) as [|p rest] eqn:Ep; [done|].
  apply guard_if_Some in HP as [->%Nat.eqb_eq ->]. destruct HI. rewrite Ep in *.
  pose proof (mo_open _ _ _ _ _ _ inv_mem0 p (list_elem_of_here _ _)) as [Ho Hf].
  assert (H1 : o_reqs g1 !! p = None).
  { destruct (o_reqs g1 !! p) as [x|] eqn:E; [|done]. exfalso. apply (mo_own1 _ _ _ _ _ _ inv_mem0 p x E). left. }
  assert (Hsl : has_slots s p) by (apply inv_slots0; rewrite Ep; left).
  split; [done|]. split; [done|]. intros failed sound cur Hfl Hsd Hcur. destruct inv_roles0 as (Hw & R1 & R2).
  split; unfold slots_ok in *; rewrite ?Ep in *; fields; try done.
  - eapply mem_ok_pop; [exact inv_mem0|done|]. simpl.
    pose proof (mo_known _ _ _ _ _ _ inv_mem0 p (list_elem_of_here _ _)) as [H|H]%elem_of_app; case_bool_decide; done.
  - simpl in *. lia.
  - rewrite msum_insert by done. unfold qsum in *. simpl in *. lia.
  - rewrite msum_insert by done. unfold qsum in *. simpl in *. lia.
  - eapply (slots_same s); [done|done|]. fields. rewrite Ep. intros x Hx. split; [by right|done].
  - destruct inv_cur0 as [Hc1 Hc2]. split; [|done].
    assert (Hold : cur_ok (o_cur g1) (<[p := as_queued s p]> (o_reqs g1)) (S (o_tok g1))).
    { apply cur_ok_insert; [eapply cur_ok_more; [exact Hc1|lia]|]. intros f0 Hf0. congruence. }
    destruct Hsd as [[_ ->]|(_ & _ & _ & ->)]; [exact Hold|]. right. exists p, (as_queued s p). rewrite lookup_insert_eq.
    split_and!; try done; [by apply as_queued_ok|lia].
  - split_and!; try done. unfold role_ok in *. fields. by destruct (o_writer g1).
  - destruct Hfl as [->|(-> & Hc1 & Hc2 & ->)]; [done|]. intros Hf' Ha.
    destruct (inv_fifo0 Hf' Ha) as (pre & -> & Hl & Hpre). exists pre. by rewrite Hc1, Hc2.
  - destruct Hsd as [[-> ->]|(-> & Hc1 & Hc2 & ->)]; [done|].
    intros [Ha Hn%negb_true_iff]%andb_true_iff x Hx. destruct (inv_fifo0 Hn Ha) as (pre & -> & Hl & Hpre).
    rewrite Hc1, Hc2 in *. simplify_eq/=. by rewrite lookup_app_r, <- Hl, Nat.sub_diag by lia.
  - intros [Hd|Hd]; exfalso; [assert (H : p :: rest = []) by auto|assert (H : p :: rest = []) by auto]; done.
Qed.

Lemma keeps_QPop : keeps QPop.
Proof.
  start. destruct HK as [H1 H2]. destruct a as [r|].
  - apply map_Some in HR as (s1 & Hp & ->). destruct (inv_pop _ _ _ _ _ HI Hp) as (Hn & Hsl & HI').
    exists (set_held r (as_queued s r) (g1 <| o_tok ::= S |>)). split; [by apply H2; [|apply as_queued_ok]|].
    specialize (HI' true (sh_sound s) (o_cur g1)). destruct HI. destruct inv_roles0 as (_ & Hr & _).
    assert (Hs : sh_sound s1 = sh_sound s).
    { cbn [pop] in Hp. destruct (sh_pending s); [done|]. by apply guard_if_Some in Hp as [_ ->]. }
    specialize (HI' (or_introl eq_refl) (or_introl (conj eq_refl eq_refl))).
    assert (HR1 : if o_writer g1 then o_cur g1 = [] else True).
    { unfold role_ok in Hr. by destruct (o_writer g1). }
    destruct (HI' HR1). split; fields; rewrite ?Hs; done.
  - unguard. eexists. split; [exact H1|]. destruct (sh_pending s) eqn:Ep; [|done].
    destruct HI. split; rewrite ?Ep in *; fields; try done. destruct inv_roles0 as (Hw & Hr1 & Hr2).
    split_and!; try done. unfold role_ok in *. fields. by destruct (o_writer g1); naive_solver.
Qed.

Lemma keeps_QPopWait : keeps QPopWait.
Proof.
  start. destruct HK as (Hw & Hc & H1 & H2). destruct a as [r|]; [|by unguard; eexists].
  apply map_Some in HR as (s1 & Hp & ->). destruct (inv_pop _ _ _ _ _ HI Hp) as (Hn & Hsl & HI').
  eexists. split; [exact (H2 r (as_queued s r) Hn (as_queued_ok s r Hsl))|]. specialize (HI' (sh_failed s) (sh_aligned s && negb (sh_failed s)) [r]).
  destruct HI. destruct inv_roles0 as (Hr & _ & Hr2).
  assert (Hc2 : o_cur g2 = []).
  { unfold role_ok in Hr2. rewrite Hw in Hr. by destruct (o_writer g2). }
  assert (Hs : sh_failed s1 = sh_failed s /\ sh_aligned s1 = sh_aligned s).
  { cbn [pop] in Hp. destruct (sh_pending s); [done|]. by apply guard_if_Some in Hp as [_ ->]. }
  destruct Hs as [Hs Ha]. rewrite Hw in HI'.
  destruct (HI' (or_intror (conj eq_refl (conj Hc (conj Hc2 eq_refl))))
              (or_intror (conj eq_refl (conj Hc (conj Hc2 eq_refl)))) I).
  split; fields; rewrite ?Hs, ?Ha in *; done.
Qed.

(** Reading. *)
Lemma keeps_QFeed r d : keeps (QFeed r d).
Proof.
  start. destruct HK as [Hc HK]. unguard. exists (g1 <| o_cur := [] |>).
  split; [by apply HK; intros E; rewrite E in H; destruct d|].
  destruct HI. destruct inv_roles0 as (Hr & R1 & R2). unfold role_ok in R1.
  destruct (o_writer g1) eqn:Hw; [by rewrite R1 in Hc|].
  assert (Hc2 : o_cur g2 = []) by (unfold role_ok in R2; by destruct (o_writer g2)).
  assert (HR1 : role_ok (g1 <| o_cur := [] |>)) by (unfold role_ok; fields; by rewrite Hw).
  assert (Hcur : cur_ok [] (o_reqs g1) (o_tok g1) /\ cur_ok (o_cur g2) (o_reqs g2) (o_tok g2)) by (split; [by left|apply inv_cur0]).
  destruct (is_nil (fd_err a)); split; fields; rewrite ?Hc, ?Hc2, ?Hw in *; try done.
  - intros Hf Ha. destruct (inv_fifo0 Hf Ha) as (pre & -> & Hl & Hpre). exists (pre ++ [r]).
    rewrite <- !app_assoc, length_app. unfold matched_reqs. fields. rewrite map_app, Hpre. split_and!; [done|simpl|done].
    rewrite <- Hl, Hpre. lia.
  - intros x i [Hm|[= -> -> Hs]%list_elem_of_singleton]%elem_of_app; auto.
Qed.

Lemma keeps_QFeedPost r d : keeps (QFeedPost r d).
Proof.
  start. unguard. exists g1. split; [by apply HK; intros E; rewrite E in H; destruct d|].
  destruct (is_nil (fd_err a)); [done|]. destruct HI. split; fields; done.
Qed.

#[local] Hint Resolve keeps_QCancelled keeps_QCancel keeps_QCloseConn keeps_QCloseDone keeps_QReqErr keeps_QCtxErr keeps_QGet
  keeps_QHasBody keeps_QDeadline keeps_QInflight keeps_QInflightDrain keeps_QInflightRecv keeps_QInflightTryRecv
  keeps_QBody keeps_QBodyRecv keeps_QBgTry keeps_QBgRecv keeps_QBgFull keeps_QFreed keeps_QSetHeldBody
  keeps_QSetHeldBg keeps_QSetHeldPipeline keeps_QSetWritten keeps_QSetHead keeps_QPoll keeps_QSelect
  keeps_QNewKeepalive keeps_QKeepaliveResp keeps_QWrite keeps_QFlush keeps_QBuffered keeps_QSetWriteDeadline
  keeps_QCopyBody keeps_QDiscardBody keeps_QMakeReady keeps_QReady keeps_QHasReady keeps_QReadySend keeps_QPush
  keeps_QPop keeps_QPopWait keeps_QFailLock keeps_QFailUnlock keeps_QFail keeps_QDeliver keeps_QClose keeps_QNow
  keeps_QStats keeps_QFeed keeps_QFeedPost : pipeline.

(** Every operation the logic allows keeps the invariant. *)
Lemma sem_sound q : keeps q.
Proof. destruct q; auto with pipeline. Qed.

(** So does everybody else. *)
Lemma env_sound s s' g1 g2 : Inv cfg s g1 g2 -> env s s' -> Inv cfg s' g1 g2.
Proof.
  intros HI He. destruct He as [s|s r t d e|s r].
  - destruct HI. split; fields; done.
  - by apply inv_frame.
  - by apply inv_take.
Qed.

(** Operations that must not wait. *)
Definition internal (q : cquery) : bool :=
  match q with
  | QInflightRecv | QBodyRecv | QBgRecv | QReadySend _ _ | QPush _ => true
  | _ => false
  end.

(** They do not. *)
Lemma internal_ready q s g1 g2 (K : cans q -> own -> Prop) :
  Inv cfg s g1 g2 -> qspec g1 q K -> internal q = true -> exists a s', react cfg q a s = Some s'.
Proof.
  intros HI HK Hq. destruct q; try done; cbn [cans react qspec] in *; exists tt.
  - destruct HK as (_ & n & Hn & _). destruct HI. destruct (sh_inflight s); [lia|]. by eexists.
  - destruct HK as (_ & r & f & Hr & _ & Hb & _). pose proof (msum_delete h_body _ r f Hr) as Hs. rewrite Hb in Hs.
    destruct HI. unfold slots_ok in *. destruct (sh_body s); [simpl in *; lia|]. by eexists.
  - destruct HK as (n & Hn & _). destruct HI. unfold slots_ok in *. destruct (sh_bg s); [lia|]. by eexists.
  - destruct HK as (f & Hr & Hf & Hs & _). pose proof (held_of _ _ _ _ _ HI Hr) as (_ & _ & Hm & Hful).
    unfold ready_of. rewrite Hf in Hm. destruct (cr_ready (sh_heap s r)) eqn:E; [done|by eexists|].
    by specialize (Hful Hs).
  - destruct HK as (f & Hr & n & _ & _ & _ & _ & Hn & _). destruct HI.
    destruct (Nat.ltb_spec (length (sh_pending s)) (cc_inflight cfg)); [by eexists|lia].
Qed.
End Sound.
