(* ===== verification/PipelineSafe.v ===== *)
(** The programs of a connection's two goroutines follow the logic of
    PipelineLogic.v: what the writer and the reader own at each point, and what
    follows for the whole connection. *)
From S2P Require Import Prelude Errors CircuitBreaker Reader Evidence Prog Dispatch Stats Pipeline PipelineSys PipelineLogic PipelineInv.
#[local] Open Scope prog_scope.

Ltac wbind := apply wp_bind; apply wp_ask; cbn [qspec cans].
Ltac wcall L := apply wp_bind; eapply wp_mono; [apply L|].

(** ** Releasing *)

Lemma with_own r f t b n m e c d wr (K : held -> Prop) :
  m !! r = Some f -> K f -> with_held (mkOwn t b n m e c d wr) r K.
Proof. intros. by exists f. Qed.

Lemma insert_bg_same (m : gmap rid held) r f :
  m !! r = Some f -> h_bg f = false -> <[r := f <| h_bg := false |>]> m = m.
Proof. intros Hr Hb. apply insert_id. rewrite Hr. f_equal. destruct f. simpl in *. by subst. Qed.

Lemma insert_body_same (m : gmap rid held) r f :
  m !! r = Some f -> h_body f = false -> <[r := f <| h_body := false |>]> m = m.
Proof. intros Hr Hb. apply insert_id. rewrite Hr. f_equal. destruct f. simpl in *. by subst. Qed.

Section Release.
Context (t b n : nat) (m : gmap rid held) (e : list rid) (d wr : bool).

Lemma wp_releaseBackgroundStat r f Q :
  m !! r = Some f ->
  Q tt (mkOwn t b n (<[r := f <| h_bg := false |>]> m) e [] d wr) ->
  wp (releaseBackgroundStat r) Q (mkOwn t b n m e [] d wr).
Proof.
  intros Hr HQ. unfold releaseBackgroundStat. wbind. apply (with_own r f); [done|]. intros a (_ & -> & _).
  destruct (h_bg f) eqn:Eb; cbn [negb].
  - wbind. split; [done|]. apply (with_own r f); [done|]. split; [done|]. wbind. exists n. split; [done|].
    wbind. intros []. apply wp_ask. intros []. exact HQ.
  - cbn [wp]. by rewrite insert_bg_same in HQ by done.
Qed.

Lemma wp_releaseRequestPending r f Q :
  m !! r = Some f ->
  Q tt (mkOwn t b n (<[r := f <| h_bg := false |>]> m) e [] d wr) ->
  wp (releaseRequestPending r) Q (mkOwn t b n m e [] d wr).
Proof.
  intros Hr HQ. unfold releaseRequestPending. apply wp_bind. apply (wp_releaseBackgroundStat r f); [done|].
  set (m' := <[r := _]> m). assert (Hr' : m' !! r = Some (f <| h_bg := false |>)) by apply lookup_insert_eq.
  wbind. eapply with_own; [done|]. intros a _. apply wp_bind.
  assert (H : wp (cask (QSetHeldPipeline r false)) Q (mkOwn t b n m' e [] d wr)).
  { apply wp_ask. by eapply with_own. }
  destruct (rq_heldPipeline a); [|done]. apply wp_ask. by intros [].
Qed.
End Release.

(** What a goroutine owns after [failOutstanding]: the same, and closed requests. *)
Definition only_closed (m m' : gmap rid held) : Prop :=
  m ⊆ m' /\ forall x f, m' !! x = Some f -> m !! x = Some f \/ h_open f = false.

Lemma only_closed_refl m : only_closed m m.
Proof. split; auto. Qed.

Lemma only_closed_trans m1 m2 m3 : only_closed m1 m2 -> only_closed m2 m3 -> only_closed m1 m3.
Proof.
  intros [H1 H2] [H3 H4]. split; [by etrans|]. intros x f Hx. destruct (H4 x f Hx) as [H|H]; auto.
Qed.

Lemma only_closed_insert m r f : m !! r = None -> h_open f = false -> only_closed m (<[r := f]> m).
Proof.
  intros Hr Hf. split; [by apply insert_subseteq|]. intros x g [(<- & <-)|(_ & Hx)]%lookup_insert_Some; auto.
Qed.

Lemma wp_fail_pending cfg fuel : forall t b n m e d wr,
  wp (fail_pending cfg fuel)
    (fun _ g => exists m', g = mkOwn t b n m' e [] wr wr /\ only_closed m m') (mkOwn t b n m e [] d wr).
Proof.
  induction fuel as [|fuel IH]; intros t b n m e d wr; [done|]. cbn [fail_pending]. wbind. split.
  - cbn [wp]. exists m. split; [done|]. apply only_closed_refl.
  - intros r f Hn (Ho & Hs & _). fields. apply wp_bind. eapply wp_releaseRequestPending; [apply lookup_insert_eq|].
    rewrite insert_insert_eq. wbind. eapply with_own; [apply lookup_insert_eq|]. fields. rewrite insert_insert_eq.
    wbind. split; [done|]. exists t. split; [done|]. fields. eapply wp_mono; [apply IH|]. intros _ g (m' & -> & Hm).
    exists m'. split; [done|]. eapply only_closed_trans; [|exact Hm]. by apply only_closed_insert.
Qed.

Lemma wp_failOutstanding cfg fuel t b n m e d wr :
  wp (failOutstanding cfg fuel)
    (fun _ g => exists m', g = mkOwn t b n m' e [] wr wr /\ only_closed m m') (mkOwn t b n m e [] d wr).
Proof.
  unfold failOutstanding. wbind. intros []. wcall wp_fail_pending. intros _ g (m' & -> & Hm).
  apply wp_ask. intros []. eauto.
Qed.

Lemma wp_close_and_fail cfg fuel t b n m e d wr :
  wp (close_and_fail cfg fuel)
    (fun _ g => exists m', g = mkOwn t b n m' e [] wr wr /\ only_closed m m') (mkOwn t b n m e [] d wr).
Proof. unfold close_and_fail. wbind. intros []. apply wp_failOutstanding. Qed.

(** ** The reader *)

Definition all_closed (m : gmap rid held) : Prop := forall x f, m !! x = Some f -> h_open f = false.

Lemma all_closed_only m m' : all_closed m -> only_closed m m' -> all_closed m'.
Proof. intros H1 [_ H2] x f Hx. destruct (H2 x f Hx); eauto. Qed.

(** The reader between responses. *)
Definition reader_rest (g : own) : Prop := exists m, g = mkOwn 0 0 0 m [] [] false false /\ all_closed m.

Section ReaderWp.
Context (cfg : conn_cfg).

Lemma wp_response_error r req f (Q : error * NNTPResponse -> own -> Prop) g :
  (forall p, Q p g) -> wp (response_error cfg r req f) Q g.
Proof.
  intros HQ. unfold response_error. destruct (if _ && _ then _ else _) as [err decoder]. apply wp_bind.
  destruct (is_nil err); [apply HQ|]. wbind. intros e. apply HQ.
Qed.

Lemma wp_post_result r f resp decoder deliver (Q : Response * bool -> own -> Prop) t b n m e c d wr :
  m !! r = Some f -> h_open f = true -> h_sent f = false ->
  (forall f' resp' deliver', h_open f' = true -> (deliver' = true -> deliver = true) ->
    Q (resp', deliver') (mkOwn t b n (<[r := f']> m) e c d wr)) ->
  wp (post_result cfg r resp decoder deliver) Q (mkOwn t b n m e c d wr).
Proof.
  intros Hr Ho Hs HQ. unfold post_result. wbind. eapply with_own; [exact Hr|].
  assert (Hsend : forall err (K : unit -> own -> Prop),
    (forall f', h_open f' = true -> K tt (mkOwn t b n (<[r := f']> m) e c d wr)) ->
    wp (if h_ready f then cask (QReadySend r err) else Ret tt) K (mkOwn t b n m e c d wr)).
  { intros err K HK. destruct (h_ready f) eqn:Er.
    - apply wp_ask. eapply with_own; [done|]. split_and!; [done..|]. by apply HK.
    - cbn [wp]. rewrite <- (insert_id m r f Hr). by apply HK. }
  destruct (StatusCode decoder =? 340).
  - apply wp_bind, Hsend. intros f' Hf'. wbind. intros a Ha. cbn [wp]. by apply HQ.
  - apply wp_bind, Hsend. intros f' Hf'. cbn [wp]. by apply HQ.
Qed.

Lemma wp_account r f resp decoder fb rs (Q : unit -> own -> Prop) t b n m e c d wr :
  m !! r = Some f -> Q tt (mkOwn t b n m e c d wr) ->
  wp (account r resp decoder fb rs) Q (mkOwn t b n m e c d wr).
Proof.
  intros Hr HQ. unfold account. wbind. eapply with_own; [done|]. intros a _. wbind. intros now.
  apply wp_ask. by intros [].
Qed.

(** A request taken from the queue is answered, and its slots are free. *)
Lemma wp_read_response fuel r f m :
  m !! r = Some f -> queued_held f -> (forall x g, m !! x = Some g -> x <> r -> h_open g = false) ->
  wp (read_response cfg fuel r) (fun _ g => reader_rest g) (mkOwn 1 0 0 m [] [r] false false).
Proof.
  intros Hr (Ho & Hs & _) Hc. unfold read_response. wbind. intros headAt.
  wbind. eapply with_own; [done|]. wbind. intros done_. wbind. eapply with_own; [done|]. intros req _.
  wbind. intros respStart. wbind. split; [done|]. intros fd Hfd. fields. apply wp_bind, wp_response_error.
  intros [err decoder]. apply wp_bind.
  assert (Hk : forall f' resp deliver, h_open f' = true -> 
    wp (account r resp decoder (fd_firstByteAt fd) respStart ;!
        let! req := cask (QGet r) in
        let! now := cask QNow in
        let resp := resp <| rs_Attempts := [buildAttemptEvidence req (cc_providerID cfg) resp now] |>
                         <| rs_Request := Some req |> in
        (if (deliver : bool) then cask (QDeliver r resp) else Ret tt) ;!
        cask (QClose r) ;!
        cask QInflightRecv ;!
        releaseRequestPending r ;!
        (let! req := cask (QGet r) in if rq_heldBody req then cask QBodyRecv else Ret tt) ;!
        if retires req resp decoder then close_and_fail cfg fuel ;! Ret false else Ret true)
      (fun _ g => reader_rest g) (mkOwn 1 0 0 (<[r := f']> m) [] [] false false)).
  { intros f' resp deliver Hf'. apply wp_bind. eapply wp_account; [apply lookup_insert_eq|].
    wbind. eapply with_own; [apply lookup_insert_eq|]. intros req' _. wbind. intros now. apply wp_bind.
    set (resp' := _ <| rs_Request := _ |>).
    assert (Hd : forall (K : unit -> own -> Prop) g, K tt g -> o_reqs g !! r = Some f' ->
      wp (if deliver then cask (QDeliver r resp') else Ret tt) K g).
    { intros K g HK Hg. destruct deliver; [|done]. apply wp_ask. by exists f'. }
    apply Hd; [|apply lookup_insert_eq]. wbind. eapply with_own; [apply lookup_insert_eq|]. fields.
    rewrite insert_insert_eq. wbind. split; [done|]. exists O. split; [done|]. fields. apply wp_bind.
    eapply wp_releaseRequestPending; [apply lookup_insert_eq|]. rewrite insert_insert_eq. apply wp_bind.
    wbind. eapply with_own; [apply lookup_insert_eq|]. intros req'' (-> & _). fields.
    set (fc := mkHeld _ _ _ _ _ _ _ _).
    assert (Hcl : all_closed (<[r := fc]> m)).
    { intros x g [(<- & <-)|(Hne & Hx)]%lookup_insert_Some; [done|eauto]. }
    assert (Hend : forall m', all_closed m' ->
      wp (if retires req' resp' decoder then close_and_fail cfg fuel ;! Ret false else Ret true)
        (fun _ g => reader_rest g) (mkOwn 0 0 0 m' [] [] false false)).
    { intros m' Hm'. destruct (retires _ _ _); [|by exists m'].
      wcall wp_close_and_fail. intros _ g (m'' & -> & Hm''). exists m''. split; [done|].
      by eapply all_closed_only. }
    destruct (h_body f') eqn:Eb.
    - apply wp_ask. split; [done|]. exists r, fc. split_and!; [apply lookup_insert_eq|done..|]. fields.
      apply Hend. intros x g [Hne Hx]%lookup_delete_Some. by eapply Hcl.
    - by apply Hend. }
  destruct (rq_PostMode req).
  - eapply wp_post_result; [done..|]. intros f' resp' deliver' Hf' _. by apply Hk.
  - cbn [wp]. rewrite <- (insert_id m r f Hr). by apply Hk.
Qed.
End ReaderWp.

(** ** The writer *)

(** What the variables of [Run] say of the requests it owns: those still open are
    in [L] or deferred. *)
Record wvars_ok (L : rid -> Prop) (w : wstate) (m : gmap rid held) : Prop := {
  wo_unsent : forall r, w_unsent w = Some r -> is_Some (m !! r);
  wo_deferred : forall r, w_deferred w = Some r -> exists f, m !! r = Some f /\ fresh_held f;
  wo_cover : forall r f, m !! r = Some f -> h_open f = true -> h_probe f = true \/ L r \/ w_deferred w = Some r
}.

Definition nobody (r : rid) : Prop := False.
Definition unsent (w : wstate) (r : rid) : Prop := w_unsent w = Some r.

(** [Run] between requests, and when it is about to end. *)
Definition at_rest (w : wstate) (m : gmap rid held) : Prop := wvars_ok nobody w m.
Definition stopping (w : wstate) (m : gmap rid held) : Prop := wvars_ok (unsent w) w m.

(** [Run] goes on with nothing but the deferred request, or stops. *)
Definition served (p : bool * wstate) (g : own) : Prop :=
  if p.1 then exists m d, g = mkOwn 0 0 0 m [] [] d true /\ at_rest p.2 m
  else o_writer g = true /\ o_cur g = [] /\ stopping p.2 (o_reqs g).

Lemma wvars_weaken (L L' : rid -> Prop) w m : wvars_ok L w m -> (forall r, L r -> L' r) -> wvars_ok L' w m.
Proof. intros [] HL. split; try done. intros r f Hr Ho. destruct (wo_cover0 r f Hr Ho) as [|[|]]; auto. Qed.

Lemma rest_stopping w m : at_rest w m -> stopping w m.
Proof. intros H. eapply wvars_weaken; [exact H|]. by intros r []. Qed.

Lemma wvars_only_closed L w m m' : wvars_ok L w m -> only_closed m m' -> wvars_ok L w m'.
Proof.
  intros [] [Hs Hc]. split.
  - intros r Hr. destruct (wo_unsent0 r Hr) as [f Hf]. exists f. by eapply lookup_weaken.
  - intros r Hr. destruct (wo_deferred0 r Hr) as (f & Hf & Hfr). exists f. split; [by eapply lookup_weaken|done].
  - intros r f Hr Ho. destruct (Hc r f Hr) as [H|H]; [by eapply wo_cover0|by rewrite H in Ho].
Qed.

(** A request is being served: it is owned and is not the deferred one; while
    another is deferred it has priority. *)
Record serving (r : rid) (f : held) (w : wstate) (m : gmap rid held) : Prop := {
  sv_vars : wvars_ok (eq r) w m;
  sv_unsent : w_unsent w = Some r;
  sv_held : m !! r = Some f;
  sv_other : w_deferred w <> Some r
}.

Lemma serving_update r f f' w m : serving r f w m -> h_probe f' = h_probe f -> serving r f' w (<[r := f']> m).
Proof.
  intros [] Hp. split; [|done|by rewrite lookup_insert_eq|done]. destruct sv_vars0. split.
  - intros x Hx. destruct (decide (x = r)) as [->|]; [by rewrite lookup_insert_eq; eexists|].
    rewrite lookup_insert_ne by done. auto.
  - intros x Hx. rewrite lookup_insert_ne by naive_solver. auto.
  - intros x g [(<- & <-)|(Hne & Hx)]%lookup_insert_Some Ho; [auto|eauto].
Qed.

(** The request was failed: nothing but the deferred one is left. *)
Lemma serving_failed r f w m : serving r f w m -> h_open f = false -> at_rest w m.
Proof.
  intros [] Ho. destruct sv_vars0. split; try done. intros x g Hx Hg.
  destruct (wo_cover0 x g Hx Hg) as [|[<-|]]; auto. rewrite sv_held0 in Hx. simplify_eq. by rewrite Hg in Ho.
Qed.

(** It was queued. *)
Lemma serving_queued r f w m : serving r f w m -> at_rest (w <| w_unsent := None |>) (delete r m).
Proof.
  intros []. destruct sv_vars0. split; cbn.
  - done.
  - intros x Hx. rewrite lookup_delete_ne by naive_solver. auto.
  - intros x g [Hne Hx]%lookup_delete_Some Ho. destruct (wo_cover0 x g Hx Ho) as [|[<-|]]; auto.
Qed.

(** It was deferred. *)
Lemma serving_deferred r f w m :
  serving r f w m -> w_deferred w = None -> fresh_held f ->
  at_rest (w <| w_deferred := Some r |> <| w_unsent := None |>) m.
Proof.
  intros [] Hd Hf. destruct sv_vars0. split; cbn.
  - done.
  - intros x [= <-]. eauto.
  - intros x g Hx Ho. destruct (wo_cover0 x g Hx Ho) as [|[<-|]]; auto. naive_solver.
Qed.

Lemma serving_stops r f w m : serving r f w m -> stopping w m.
Proof. intros []. eapply wvars_weaken; [exact sv_vars0|]. by intros x <-. Qed.

Lemma serving_only_closed r f w m m' : serving r f w m -> only_closed m m' -> serving r f w m'.
Proof.
  intros [] Hm. split; [by eapply wvars_only_closed|done| |done]. destruct Hm as [Hs _]. by eapply lookup_weaken.
Qed.

Lemma serving_deadline r f w m dl : serving r f w m -> serving r f (w <| w_deadline := dl |>) m.
Proof. intros []. split; try done. by destruct sv_vars0. Qed.

Section WriterWp.
Context (cfg : conn_cfg).

Lemma wp_setWriteDeadline w dl (Q : wstate -> own -> Prop) g :
  (forall d', Q (w <| w_deadline := d' |>) g) -> wp (setWriteDeadline w dl) Q g.
Proof.
  intros HQ. unfold setWriteDeadline. case_decide as E.
  - cbn [wp]. specialize (HQ (w_deadline w)). by destruct w.
  - wbind. intros []. apply HQ.
Qed.

Lemma wp_flush_buffered (Q : bool -> own -> Prop) g : (forall b, Q b g) -> wp flush_buffered Q g.
Proof.
  intros HQ. unfold flush_buffered. wbind. intros [|]; [|apply HQ]. wbind. intros e. apply HQ.
Qed.

Lemma wp_copy_body r (Q : error -> own -> Prop) g : (forall e, Q e g) -> wp (copy_body r) Q g.
Proof. intros HQ. unfold copy_body. wbind. intros [|]; [|apply HQ]. apply wp_ask. intros e. apply HQ. Qed.

Lemma wp_discard_body r (Q : unit -> own -> Prop) g : Q tt g -> wp (discard_body r) Q g.
Proof. intros HQ. unfold discard_body. wbind. intros [|]; [|apply HQ]. apply wp_ask. by intros []. Qed.

(** A failed write: the request is failed and the connection stops. *)
Lemma wp_write_failed fuel r f err (bg : bool) w t n m e d :
  serving r f w m -> 
  wp (write_failed cfg fuel r err bg w) served (mkOwn (S t) 0 n m e [] d true).
Proof.
  intros Hs. unfold write_failed. wbind. split; [done|]. exists t. split; [done|]. fields. apply wp_bind.
  assert (H : forall f' n m, serving r f' w m -> 
    wp (failRequest r err ;! close_and_fail cfg fuel ;! Ret (false, w)) served (mkOwn t 0 n m e [] d true)).
  { clear. intros f n m Hs. wbind. eapply with_own; [by destruct Hs|]. fields.
    wcall wp_close_and_fail. intros _ g (m' & -> & Hm). split_and!; try done. fields.
    eapply wvars_only_closed; [|exact Hm]. by eapply serving_stops, serving_update. }
  destruct bg; [|by eapply H].
  eapply wp_releaseBackgroundStat; [by destruct Hs|]. by eapply H, serving_update.
Qed.

Lemma wp_markRequestPending r f (Q : unit -> own -> Prop) g :
  o_reqs g !! r = Some f -> Q tt g -> wp (markRequestPending r) Q g.
Proof. intros Hr HQ. unfold markRequestPending. wbind. exists f. split; [done|]. apply wp_ask. by intros []. Qed.

Lemma wp_post_phase fuel r f w m d :
  serving r f w m -> h_open f = true -> h_sent f = false -> slotted f ->
  wp (post_phase cfg fuel r w) served (mkOwn 1 0 0 m [r] [] d true).
Proof.
  intros Hs Ho Hst Hsl. unfold post_phase. wbind. intros err. destruct (negb (is_nil err)); [by eapply wp_write_failed|].
  wbind. eapply with_own; [by destruct Hs|]. fields. apply wp_bind.
  eapply wp_markRequestPending; [apply lookup_insert_eq|]. wbind. eapply with_own; [apply lookup_insert_eq|].
  exists O. split_and!; try done. fields. rewrite delete_insert_eq.
  pose proof (serving_queued _ _ _ _ Hs) as Hq.
  wbind. intros [[e|]|].
  - apply wp_bind, wp_discard_body. cbn [wp]. by exists (delete r m), false.
  - apply wp_bind, wp_copy_body. intros e. destruct (is_nil e); [by exists (delete r m), false|].
    wcall wp_close_and_fail. intros _ g (m' & -> & Hm). split_and!; try done. fields.
    apply rest_stopping. by eapply wvars_only_closed.
  - apply wp_bind, wp_discard_body. cbn [wp]. split_and!; try done. by apply rest_stopping.
Qed.

(** A request that holds its slots is written, or failed. *)
Lemma wp_write_request fuel r f w m d :
  serving r f w m -> h_open f = true -> h_sent f = false -> slotted f ->
  wp (write_request cfg fuel r w) served (mkOwn 1 0 0 m [] [] d true).
Proof.
  intros Hs Ho Hst Hsl. unfold write_request. wbind. intros dl. apply wp_bind, wp_setWriteDeadline. intros d'.
  apply (serving_deadline _ _ _ _ d') in Hs. revert Hs. generalize (w <| w_deadline := d' |>). clear w. intros w Hs.
  wbind. split; [done|]. intros err. fields. destruct (is_nil err); cbn [negb app]; [|by eapply wp_write_failed].
  wbind. eapply with_own; [by destruct Hs|]. intros req _. destruct (rq_PostMode req).
  - by eapply wp_post_phase.
  - apply wp_bind, wp_copy_body. intros e. destruct (negb (is_nil e)); [by eapply wp_write_failed|].
    unfold markRequestWritten. apply wp_bind. wbind. intros now. apply wp_ask. eapply with_own; [by destruct Hs|].
    apply wp_bind. eapply wp_markRequestPending; [by destruct Hs|]. wbind. eapply with_own; [by destruct Hs|].
    exists O. split_and!; try done. fields. exists (delete r m), false. split; [done|].
    by eapply serving_queued.
Qed.

(** *** Taking slots *)

Lemma wp_body_slot r (cheap : bool) (Q : body_sel -> own -> Prop) t m e d :
  Q BodyReqDone (mkOwn t 0 0 m e [] d true) -> Q BodyCtxDone (mkOwn t 0 0 m e [] d true) ->
  Q BodyGot (mkOwn t (if cheap then 0 else 1)%nat 0 m e [] d true) ->
  wp (if cheap then Ret BodyGot else cask (QBody r) : cprog body_sel) Q (mkOwn t 0 0 m e [] d true).
Proof. intros H1 H2 H3. destruct cheap; [done|]. apply wp_ask. intros [| |]; done. Qed.

Lemma wp_hold_body r f (cheap : bool) (Q : unit -> own -> Prop) t m e d :
  m !! r = Some f -> h_body f = false ->
  Q tt (mkOwn t 0 0 (<[r := f <| h_body := negb cheap |>]> m) e [] d true) ->
  wp (if cheap then Ret tt else cask (QSetHeldBody r)) Q (mkOwn t (if cheap then 0 else 1)%nat 0 m e [] d true).
Proof.
  intros Hr Hb HQ. destruct cheap.
  - cbn [wp]. cbn [negb] in HQ. by rewrite insert_body_same in HQ by done.
  - apply wp_ask. split; [done|]. eapply with_own; [done|]. by exists O.
Qed.

Lemma wp_acquireBackgroundStat r f (Q : bool -> own -> Prop) t m e d :
  m !! r = Some f -> h_bg f = false ->
  Q true (mkOwn t 0 0 (<[r := f <| h_bg := h_cheap f && negb (h_prio f) |>]> m) e [] d true) ->
  (h_cheap f = true -> h_prio f = false -> Q false (mkOwn t 0 0 m e [] d true)) ->
  wp (acquireBackgroundStat r) Q (mkOwn t 0 0 m e [] d true).
Proof.
  intros Hr Hb HQ1 HQ2. unfold acquireBackgroundStat. wbind. eapply with_own; [done|].
  intros a (_ & _ & Hc & Hp). unfold is_background. rewrite Hc, Hp. destruct (h_cheap f) eqn:Ec, (h_prio f) eqn:Ep;
    cbn [andb negb] in *; try (by rewrite insert_bg_same in HQ1 by done).
  wbind. intros [|]; [|by apply HQ2]. wbind. split; [done|]. eapply with_own; [done|]. split; [done|]. exists O. split; [done|].
  wbind. intros []. apply HQ1.
Qed.

(** What follows once a request is picked; [bootstrap] and the main loop differ in
    what they do when the background window is full. *)
Lemma wp_slots fuel r f req w m d (kr kc kb : cprog (bool * wstate)) :
  serving r f w m -> fresh_held f -> describes f req ->
  (forall m', serving r f w m' -> wp kr served (mkOwn 1 0 0 m' [] [] d true)) ->
  (forall m', serving r f w m' -> wp kc served (mkOwn 1 0 0 m' [] [] d true)) ->
  (h_cheap f = true -> h_prio f = false ->
    forall m', serving r f w m' -> wp kb served (mkOwn 1 0 0 m' [] [] d true)) ->
  wp (let! b := (if isCheapCommand (rq_Payload req) then Ret BodyGot else cask (QBody r) : cprog body_sel) in
      match b with
      | BodyReqDone => kr
      | BodyCtxDone => kc
      | BodyGot =>
          (if isCheapCommand (rq_Payload req) then Ret tt else cask (QSetHeldBody r)) ;!
          let! bg := acquireBackgroundStat r in
          if negb bg then kb else write_request cfg fuel r w
      end) served (mkOwn 1 0 0 m [] [] d true).
Proof.
  intros Hs Hf (_ & _ & Hc & _) Hkr Hkc Hkb. pose proof Hf as (Ho & Hb & Hg & Hrd & Hst). apply wp_bind.
  apply wp_body_slot; [by apply Hkr|by apply Hkc|]. apply wp_bind.
  apply (wp_hold_body r f); [by destruct Hs|done|]. apply wp_bind.
  eapply wp_acquireBackgroundStat; [apply lookup_insert_eq|done|..].
  - cbn [negb]. rewrite insert_insert_eq. eapply wp_write_request; [by eapply serving_update|done..|]. right. fields. by rewrite Hc.
  - intros Hch Hp. change (h_cheap f = true) in Hch. cbn [negb]. apply Hkb; [done..|]. rewrite Hc, Hch. cbn [negb].
    rewrite insert_body_same by (done || by destruct Hs). done.
Qed.

(** A request that is failed before it is written. *)
Lemma wp_fail_serving r f err w m d :
  serving r f w m -> forall go, wp (failRequest r err ;! Ret (go, w)) served (mkOwn 0 0 0 m [] [] d true).
Proof.
  intros Hs go. wbind. eapply with_own; [by destruct Hs|]. fields.
  assert (Hr : at_rest w (<[r := f <| h_open := false |>]> m)).
  { eapply serving_failed; [by eapply serving_update|done]. }
  destruct go; [by eexists _, d|]. split_and!; try done. by apply rest_stopping.
Qed.

Lemma wp_fail_ctx r f w m d go :
  serving r f w m ->
  wp ((let! e := cask QCtxErr in failRequest r e) ;! Ret (go, w)) served (mkOwn 0 0 0 m [] [] d true).
Proof.
  intros Hs. apply wp_bind. wbind. intros err.
  pose proof (wp_fail_serving r f err w m d Hs go) as H. revert H. unfold failRequest. cbn [bind cask ask wp qspec].
  intros (f' & Hr & H). exists f'. split; [done|]. exact H.
Qed.

(** ... while it holds its inflight slot. *)
Lemma wp_release_fail r f err w m d go :
  serving r f w m ->
  wp (cask QInflightRecv ;! failRequest r err ;! Ret (go, w)) served (mkOwn 1 0 0 m [] [] d true).
Proof. intros Hs. wbind. split; [done|]. exists O. split; [done|]. by eapply wp_fail_serving. Qed.

Lemma wp_release_fail_err r f w m d go :
  serving r f w m ->
  wp (cask QInflightRecv ;! (let! e := cask (QReqErr r) in failRequest r e) ;! Ret (go, w)) served
    (mkOwn 1 0 0 m [] [] d true).
Proof.
  intros Hs. wbind. split; [done|]. exists O. split; [done|]. apply wp_bind. wbind. intros err.
  pose proof (wp_fail_serving r f err w m d Hs go) as H. revert H. unfold failRequest. cbn [bind cask ask wp qspec].
  intros (f' & Hr & H). exists f'. split; [done|]. exact H.
Qed.

(** The body slot is not held when the background window is full. *)
Lemma wp_no_body_slot r f (K : cprog (bool * wstate)) w t m d :
  serving r f w m -> h_body f = false ->
  wp K served (mkOwn t 0 0 m [] [] d true) ->
  wp ((let! req := cask (QGet r) in if rq_heldBody req then cask QBodyRecv else Ret tt) ;! K) served
    (mkOwn t 0 0 m [] [] d true).
Proof.
  intros Hs Hb HK. apply wp_bind. wbind. eapply with_own; [by destruct Hs|]. intros a (-> & _). by rewrite Hb.
Qed.

Lemma wp_bootstrap fuel r f w m d :
  serving r f (w <| w_unsent := Some r |>) m -> fresh_held f ->
  wp (bootstrap cfg fuel r w) served (mkOwn 0 0 0 m [] [] d true).
Proof.
  intros Hs Hf. unfold bootstrap. revert Hs. generalize (w <| w_unsent := Some r |>). clear w. intros w Hs. cbv zeta.
  wbind. eapply with_own; [by destruct Hs|]. intros req Hd. destruct (stale_transport cfg req).
  { by eapply wp_fail_serving. }
  wbind. intros e. destruct (negb (is_nil e)); [by eapply wp_fail_serving|].
  wbind. intros [|]; cbn [negb]; [|by eapply wp_fail_ctx]. fields.
  eapply wp_slots; [done..| | |].
  - intros m' Hs'. by eapply wp_release_fail_err.
  - intros m' Hs'. wbind. split; [done|]. exists O. split; [done|]. by eapply wp_fail_ctx.
  - intros _ _ m' Hs'. wbind. split; [done|]. exists O. split; [done|]. fields. eapply wp_no_body_slot; [done|by destruct Hf as (?&?&?)|].
    by eapply wp_fail_serving.
Qed.

Lemma wp_serve_request fuel r f w m d :
  serving r f (w <| w_unsent := Some r |>) m -> fresh_held f -> (w_deferred w <> None -> h_prio f = true) ->
  wp (serve_request cfg fuel r w) served (mkOwn 1 0 0 m [] [] d true).
Proof.
  intros Hs Hf Hp. unfold serve_request. assert (Hp' : w_deferred (w <| w_unsent := Some r |>) <> None -> h_prio f = true) by done.
  revert Hs Hp'. generalize (w <| w_unsent := Some r |>). clear w Hp. intros w Hs Hp. cbv zeta.
  wbind. intros e. destruct (negb (is_nil e)); [by eapply wp_release_fail|].
  wbind. eapply with_own; [by destruct Hs|]. intros req Hd. destruct (stale_transport cfg req).
  { by eapply wp_release_fail. }
  eapply wp_slots; [done..| | |].
  - intros m' Hs'. by eapply wp_release_fail_err.
  - intros m' Hs'. wbind. split; [done|]. exists O. split; [done|]. split_and!; try done. by eapply serving_stops.
  - intros _ Hpf m' Hs'. wbind. split; [done|]. exists O. split; [done|]. fields. eapply wp_no_body_slot; [done|by destruct Hf as (?&?&?)|].
    exists m', d. split; [done|]. eapply serving_deferred; [done| |done].
    destruct (w_deferred w); [|done]. rewrite Hp in Hpf by done. done.
Qed.

(** *** Picking a request *)

Definition serves (r : rid) (f : held) (w : wstate) (m : gmap rid held) : Prop :=
  serving r f (w <| w_unsent := Some r |>) m /\ fresh_held f /\ (w_deferred w <> None -> h_prio f = true) /\
  (forall x, w_unsent w = Some x -> is_Some (m !! x)).

Definition picked_ok (p : picked * wstate) (g : own) : Prop :=
  match p.1 with
  | PickReq (Some r) => exists m d f, g = mkOwn 1 0 0 m [] [] d true /\ serves r f p.2 m
  | PickReq None | PickKeepalive => exists m d, g = mkOwn 1 0 0 m [] [] d true /\ at_rest p.2 m
  | PickStop => o_writer g = true /\ o_cur g = [] /\ at_rest p.2 (o_reqs g)
  end.

Lemma serving_arrives r f w m :
  at_rest w m -> m !! r = None -> fresh_held f -> serving r f (w <| w_unsent := Some r |>) (<[r := f]> m).
Proof.
  intros [] Hr Hf.
  assert (Hne : forall x f, m !! x = Some f -> r <> x) by (intros x g Hx ->; by rewrite Hr in Hx).
  split; [|done|apply lookup_insert_eq|].
  - split; cbn.
    + intros x [= <-]. rewrite lookup_insert_eq. by eexists.
    + intros x Hx. destruct (wo_deferred0 x Hx) as (g & Hg & ?). exists g.
      by rewrite lookup_insert_ne by eauto.
    + intros x g [(<- & <-)|(_ & Hx)]%lookup_insert_Some Ho; [auto|].
      destruct (wo_cover0 x g Hx Ho) as [|[[]|]]; auto.
  - cbn. intros Hd. destruct (wo_deferred0 r Hd) as (g & Hg & _). by rewrite Hr in Hg.
Qed.

Lemma serves_arrives r f w m :
  at_rest w m -> m !! r = None -> fresh_held f -> (w_deferred w <> None -> h_prio f = true) ->
  serves r f w (<[r := f]> m).
Proof.
  intros Hw Hr Hf Hp. split_and!; [by apply serving_arrives|done..|]. intros x Hx.
  destruct (wo_unsent _ _ _ Hw x Hx) as [g Hg]. exists g. rewrite lookup_insert_ne; [done|]. intros ->.
  by rewrite Hr in Hg.
Qed.

(** Another request goes before the one that was picked. *)
Lemma serves_defer r f w m :
  serves r f w m -> w_deferred w = None -> at_rest (w <| w_deferred := Some r |>) m.
Proof.
  intros ([] & Hf & _ & Hu) Hd. destruct sv_vars0. split; cbn in *; [done| |].
  - intros x [= <-]. eauto.
  - intros x g Hx Ho. destruct (wo_cover0 x g Hx Ho) as [|[<-|]]; auto. naive_solver.
Qed.

(** The deferred request is picked. *)
Lemma serves_deferred r w m :
  at_rest w m -> w_deferred w = Some r -> exists f, serves r f (w <| w_deferred := None |>) m.
Proof.
  intros [] Hd. destruct (wo_deferred0 r Hd) as (f & Hr & Hf). exists f. split_and!; [|done|done|done].
  split; try done. split; cbn; [|done|].
  - intros x [= <-]. by eexists.
  - intros x g Hx Ho. destruct (wo_cover0 x g Hx Ho) as [|[[]|Hx']]; auto. naive_solver.
Qed.

Lemma wp_takePriority (Q : option (option rid) -> own -> Prop) g :
  (forall r f, o_reqs g !! r = None -> fresh_held f -> h_prio f = true -> Q (Some (Some r)) (set_held r f g)) ->
  Q (Some None) g -> Q None g -> wp takePriority Q g.
Proof.
  intros H1 H2 H3. unfold takePriority. wbind. split_and!.
  - intros r f Hr Hf _ Hp. cbn [wp]. auto.
  - done.
  - apply wp_ask. split_and!; [|done|done]. intros r f Hr Hf _ Hp. auto.
Qed.

(** A normal request was received, or its channel is closed. *)
Definition selected (r : option rid) (w : wstate) (m : gmap rid held) : Prop :=
  w_deferred w = None /\ match r with Some r => exists f, serves r f w m | None => at_rest w m end.

Lemma selected_defer r w m : selected r w m -> at_rest (w <| w_deferred := r |>) m.
Proof.
  intros [Hd Hr]. destruct r as [r|]; [destruct Hr as [f Hf]; by eapply serves_defer|].
  replace (w <| w_deferred := None |>) with w; [done|]. destruct w. simpl in *. by subst.
Qed.

Lemma wp_selected_normal r w m d :
  selected r w m -> wp (selected_normal r w) picked_ok (mkOwn 1 0 0 m [] [] d true).
Proof.
  intros Hs. pose proof (selected_defer _ _ _ Hs) as Hd. unfold selected_normal. apply wp_bind, wp_takePriority.
  - intros p f Hp Hf Hpr. cbn [wp]. exists (<[p := f]> m), d, f. split; [done|]. by apply serves_arrives.
  - cbn [wp]. by exists m, d.
  - cbn [wp]. destruct Hs as [_ Hr]. destruct r as [r|]; [destruct Hr as [f Hf]; by exists m, d, f|by exists m, d].
Qed.

Lemma wp_wait_drain n : forall g (Q : unit -> own -> Prop),
  (forall t, Q tt (g <| o_tok := t |>)) -> wp (wait_drain n) Q g.
Proof.
  induction n as [|n IH]; intros g Q HQ; [specialize (HQ (o_tok g)); by destruct g|]. cbn [wait_drain].
  wbind. intros [|]; [apply IH; intros t; specialize (HQ t); by destruct g|]. specialize (HQ (o_tok g)). by destruct g.
Qed.

Lemma wp_pick_stop s w m d :
  match s with SRecv _ _ | SKeepalive => False | _ => True end ->
  at_rest w m -> wp (pick_other cfg s w) picked_ok (mkOwn 1 0 0 m [] [] d true).
Proof.
  intros Hs Hw. destruct s; try done; cbn [pick_other].
  - wbind. split; [done|]. exists O. by split.
  - wbind. split; [done|]. exists O. split; [done|]. apply wp_bind. unfold waitForInflightDrain. apply wp_wait_drain. intros t. done.
Qed.

Definition received (r : option rid) (w : wstate) (m : gmap rid held) : Prop :=
  match r with Some r => exists f, serves r f w m | None => at_rest w m end.

(** The waits of [pick_request]: while a request is deferred only those with
    priority are received. *)
Lemma wp_select alts w m d (k : sel -> cprog (picked * wstate)) :
  at_rest w m ->
  (w_deferred w = None \/ forall l, ALane l ∈ alts -> is_prio l = true) ->
  (forall l r m', received r w m' -> wp (k (SRecv l r)) picked_ok (mkOwn 1 0 0 m' [] [] d true)) ->
  (forall s, sel_alt s ∈ alts -> match s with SRecv _ _ => False | _ => True end ->
     wp (k s) picked_ok (mkOwn 1 0 0 m [] [] d true)) ->
  wp (let! s := cask (QSelect alts) in k s) picked_ok (mkOwn 1 0 0 m [] [] d true).
Proof.
  intros Hw Hl Hrecv Hoth. wbind. intros s Hs. destruct s as [l [r|]| | | |]; try (by apply Hoth).
  - intros f Hr Hf _ Hp. apply Hrecv. exists f. apply serves_arrives; try done.
    intros Hd. apply Hp. destruct Hl as [Hl|Hl]; [done|by apply Hl].
  - by apply Hrecv.
Qed.

Lemma wp_pick_received l r w m d :
  received r w m -> wp (pick_other cfg (SRecv l r) w) picked_ok (mkOwn 1 0 0 m [] [] d true).
Proof. intros Hr. destruct r as [r|]; [destruct Hr as [f Hf]; by exists m, d, f|by exists m, d]. Qed.

(** A wait that ends without a request. *)
Lemma wp_pick_waited s w m d :
  match s with SRecv _ _ | SFreed => False | _ => True end ->
  at_rest w m -> wp (pick_other cfg s w) picked_ok (mkOwn 1 0 0 m [] [] d true).
Proof. intros Hs Hw. destruct s; try done; [by apply wp_pick_stop..|by exists m, d]. Qed.

Lemma wp_pick_normal w m d : at_rest w m -> wp (pick_normal cfg w) picked_ok (mkOwn 1 0 0 m [] [] d true).
Proof.
  intros Hw. unfold pick_normal. destruct (w_deferred w) as [x|] eqn:Ed.
  { apply wp_selected_normal. split; [done|]. by eapply serves_deferred. }
  assert (Harr : forall r f, m !! r = None -> fresh_held f -> selected (Some r) w (<[r := f]> m)).
  { intros r f Hr Hf. split; [done|]. exists f. apply serves_arrives; try done. }
  wbind. split_and!; [|by apply wp_selected_normal|].
  { intros r f Hr Hf _ _. by apply wp_selected_normal, Harr. }
  wbind. split_and!; [|by apply wp_selected_normal|].
  { intros r f Hr Hf _ _. by apply wp_selected_normal, Harr. }
  apply (wp_select _ w); [done|by left| |].
  - intros l r m' Hr. destruct l; [by apply (wp_pick_received HotPrio)|by apply (wp_pick_received Prio)|..];
      by apply wp_selected_normal.
  - intros s Hs Hn. destruct s; try done; try by apply wp_pick_waited.
Qed.

Lemma wp_blocked_deferred w m d (Q : bool -> own -> Prop) :
  at_rest w m -> (forall b, (b = true -> w_deferred w <> None) -> Q b (mkOwn 1 0 0 m [] [] d true)) ->
  wp (blocked_deferred w) Q (mkOwn 1 0 0 m [] [] d true).
Proof.
  intros Hw HQ. unfold blocked_deferred. destruct (w_deferred w) as [x|] eqn:Ed; [|by apply HQ].
  destruct (wo_deferred _ _ _ Hw x Ed) as (f & Hx & _). wbind. eapply with_own; [done|]. intros a _.
  destruct (is_background a); [|by apply HQ]. apply wp_ask. intros b. by apply HQ.
Qed.

(** The connection of a pool: it has a priority channel. *)
Hypothesis pooled : cc_standalone cfg = false.

Lemma wp_pick_request w m d : at_rest w m -> wp (pick_request cfg w) picked_ok (mkOwn 1 0 0 m [] [] d true).
Proof.
  intros Hw. unfold pick_request. rewrite pooled.
  apply wp_bind, wp_blocked_deferred; [done|]. intros b Hb. apply wp_bind, wp_takePriority.
  - intros r f Hr Hf Hp. exists (<[r := f]> m), d, f. split; [done|]. by apply serves_arrives.
  - by exists m, d.
  - destruct b; [|by apply wp_pick_normal]. apply (wp_select _ w); [done| | |].
    + right. intros l Hl. repeat (apply elem_of_cons in Hl as [Hl|Hl]; [by simplify_eq|]). by apply elem_of_nil in Hl.
    + intros l r m' Hr. by apply (wp_pick_received l).
    + intros s Hs Hn. destruct s; try done; try by apply wp_pick_waited. by apply wp_pick_normal.
Qed.

(** *** The main loop *)

Lemma wp_keepalive_probe fuel w m d :
  at_rest w m ->
  wp (keepalive_probe cfg fuel)
    (fun go g => served (go, w) g) (mkOwn 1 0 0 m [] [] d true).
Proof.
  intros Hw. unfold keepalive_probe. wbind. intros k f Hk Hf Hp. fields.
  assert (Hw' : at_rest w (<[k := f]> m)).
  { destruct Hw. split.
    - intros x Hx. destruct (wo_unsent0 x Hx) as [g Hg]. exists g. rewrite lookup_insert_ne; [done|].
      intros ->. by rewrite Hk in Hg.
    - intros x Hx. destruct (wo_deferred0 x Hx) as (g & Hg & ?). exists g. rewrite lookup_insert_ne; [done|].
      intros ->. by rewrite Hk in Hg.
    - intros x g [(<- & <-)|(_ & Hx)]%lookup_insert_Some Ho; [auto|]. eauto. }
  assert (Hfail : forall t m' e d', at_rest w m' ->
    wp (close_and_fail cfg fuel ;! Ret false) (fun go g => served (go, w) g) (mkOwn t 0 0 m' e [] d' true)).
  { intros t m' e d' Hm. wcall wp_close_and_fail. intros _ g (m'' & -> & Hc). split_and!; try done. fields.
    apply rest_stopping. by eapply wvars_only_closed. }
  wbind. split; [done|]. intros err. destruct (is_nil err); cbn [negb]; [|by apply Hfail].
  wbind. intros err'. destruct (is_nil err'); cbn [negb]; [|by apply Hfail]. fields.
  destruct Hf as (Ho & _ & _ & _ & Hs).
  wbind. eapply with_own; [apply lookup_insert_eq|]. exists O. split_and!; try done; [by left|]. fields.
  rewrite delete_insert_id by done. wbind. intros [resp|].
  - destruct (_ || _); [by apply Hfail|]. by exists m, false.
  - split_and!; try done. by apply rest_stopping.
Qed.

(** The end of [Run], whatever it still owns. *)
Definition stopped (w : wstate) (g : own) : Prop := o_writer g = true /\ o_cur g = [] /\ stopping w (o_reqs g).

Lemma wp_main_loop fuel : forall w m d,
  at_rest w m -> wp (main_loop cfg fuel w) stopped (mkOwn 0 0 0 m [] [] d true).
Proof.
  induction fuel as [|fuel IH]; intros w m d Hw; [done|]. cbn [main_loop].
  assert (Hend : forall t, stopped w (mkOwn t 0 0 m [] [] d true)).
  { intros t. split_and!; try done. by apply rest_stopping. }
  wbind. intros [|]; [by apply Hend|]. apply wp_bind, wp_flush_buffered. intros [|]; cbn [negb]; [|by apply Hend].
  wbind. intros [|]; cbn [negb]; [|by apply Hend]. apply wp_bind, wp_flush_buffered. intros [|]; cbn [negb]; fields.
  2: { wbind. split; [done|]. exists O. split; [done|]. apply Hend. }
  wcall wp_pick_request; [done|]. clear Hend Hw w m d. intros [p w] g Hp. destruct p as [[r|]| |]; cbn in Hp; cbv beta iota.
  - destruct Hp as (m & d & f & -> & Hs & Hf & Hpr & _). apply wp_bind. eapply wp_mono; [by eapply wp_serve_request|].
    intros [go w'] g Hg. destruct go; cbn in Hg; cbv beta iota; [|done]. destruct Hg as (m' & d' & -> & Hw). by apply IH.
  - destruct Hp as (m & d & -> & Hw). wbind. split; [done|]. exists O. split; [done|]. split_and!; try done. by apply rest_stopping.
  - destruct Hp as (m & d & -> & Hw). apply wp_bind. eapply wp_mono; [by apply (wp_keepalive_probe fuel w)|].
    intros go g Hg. destruct go; cbn in Hg; cbv beta iota; [|done]. destruct Hg as (m' & d' & -> & Hw'). by apply IH.
  - destruct Hp as (Hg & Hc & Hw). split_and!; try done. by apply rest_stopping.
Qed.

(** When [Run] is done it has answered what it owned, and the queue is empty. *)
Definition finished (g : own) : Prop :=
  o_writer g = true /\ o_drained g = true /\ forall r f, o_reqs g !! r = Some f -> h_open f = true -> h_probe f = true.

(** Failing a request that may be there closes it. *)
Definition closes (o : option rid) (m m' : gmap rid held) : Prop :=
  (forall x, is_Some (m !! x) -> is_Some (m' !! x)) /\
  forall x f, m' !! x = Some f -> h_open f = true -> m !! x = Some f /\ o <> Some x.

Lemma wp_fail_option o err (Q : unit -> own -> Prop) g :
  (forall r, o = Some r -> is_Some (o_reqs g !! r)) ->
  (forall m, closes o (o_reqs g) m -> Q tt (g <| o_reqs := m |>)) ->
  wp (match o with Some r => failRequest r err | None => Ret tt end) Q g.
Proof.
  intros Hr HQ. destruct o as [r|].
  - destruct (Hr r eq_refl) as [f Hf]. apply wp_ask. exists f. split; [done|]. apply HQ. split.
    + intros x Hx. destruct (decide (x = r)) as [->|]; [rewrite lookup_insert_eq; by eexists|by rewrite lookup_insert_ne].
    + intros x h [(<- & <-)|(Hne & Hx)]%lookup_insert_Some Ho; [done|]. split; [done|naive_solver].
  - cbn [wp]. specialize (HQ (o_reqs g)). destruct g. by apply HQ.
Qed.

Lemma wp_finish_run fuel w g :
  stopped w g -> wp (finish_run cfg fuel w) (fun _ g => finished g) g.
Proof.
  intros (Hg & Hc & []). unfold finish_run. apply wp_bind, wp_fail_option; [done|]. intros m1 [Hd1 Ho1].
  apply wp_bind, wp_fail_option.
  { intros r Hr. apply Hd1. destruct (wo_deferred0 r Hr) as (f & Hf & _). by eexists. }
  intros m2 [Hd2 Ho2]. wbind. intros []. wbind. intros []. fields.
  destruct g as [tk bd bg m e c d wr]. cbn [o_reqs o_cur o_writer] in *. subst. wcall wp_failOutstanding. intros _ g (m3 & -> & Hs & Hm3).
  apply wp_ask. intros []. split_and!; try done. fields. intros r f Hr Ho.
  destruct (Hm3 r f Hr) as [H|H]; [|by rewrite H in Ho]. apply Ho2 in H as [H Hnd]; [|done].
  apply Ho1 in H as [H Hnu]; [|done]. destruct (wo_cover0 r f H Ho) as [|[|]]; [done|..]; naive_solver.
Qed.

(** *** The whole of [Run] *)

Lemma wp_Run fuel first second m :
  (forall r, first = Some r \/ second = Some r -> exists f, m !! r = Some f /\ fresh_held f) ->
  (forall r f, m !! r = Some f -> first = Some r \/ second = Some r) ->
  (first <> None -> first <> second) ->
  wp (Run cfg fuel first second) (fun _ g => finished g) (mkOwn 0 0 0 m [] [] false true).
Proof.
  intros Hin Hout Hne. unfold Run. set (w := mkW None second None). apply wp_bind.
  assert (Hmain : forall go w' g, served (go, w') g ->
    wp (let! w := (if go then
               let! ok := flush_buffered in
               if (ok : bool) then main_loop cfg fuel w' else Ret w'
             else Ret w' : cprog wstate) in finish_run cfg fuel w) (fun _ g => finished g) g).
  { intros go w' g Hs. destruct go; cbn in Hs; apply wp_bind.
    - destruct Hs as (m' & d & -> & Hw). apply wp_bind, wp_flush_buffered. intros [|].
      + eapply wp_mono; [by apply wp_main_loop|]. intros w'' g Hg. by apply wp_finish_run.
      + apply wp_finish_run. split_and!; try done. by apply rest_stopping.
    - by apply wp_finish_run. }
  destruct first as [r|].
  - destruct (Hin r (or_introl eq_refl)) as (f & Hr & Hf). eapply wp_mono.
    + eapply (wp_bootstrap fuel r f); [|done]. split; [|done|done|cbn; naive_solver]. split; cbn.
      * intros x [= <-]. by eexists.
      * intros x ->. by apply Hin; right.
      * intros x g Hx Ho. destruct (Hout x g Hx); naive_solver.
    + intros [go w'] g Hg. by apply Hmain.
  - cbn [wp]. apply (Hmain true). exists m, false. split; [done|]. split; cbn; [done| |].
    + intros x ->. by apply Hin; right.
    + intros x g Hx Ho. destruct (Hout x g Hx); naive_solver.
Qed.
End WriterWp.

(** *** The whole of the reader *)

Lemma wp_reader cfg fuel :
  wp (reader cfg fuel) (fun _ g => all_closed (o_reqs g)) (mkOwn 0 0 0 ∅ [] [] false false).
Proof.
  assert (H : forall fuel m, all_closed m ->
    wp (readerLoop cfg fuel) (fun _ g => all_closed (o_reqs g)) (mkOwn 0 0 0 m [] [] false false)).
  { clear fuel. intros fuel. induction fuel as [|fuel IH]; intros m Hm; [done|]. cbn [readerLoop]. wbind. intros [|].
    - eapply wp_mono; [apply wp_failOutstanding|]. intros _ g (m' & -> & Hm'). by eapply all_closed_only.
    - wbind. split_and!; [done|done|by cbn [wp]|]. intros r f Hr Hf. fields. apply wp_bind.
      eapply wp_mono; [eapply (wp_read_response cfg fuel r f); [apply lookup_insert_eq|done|]|].
      + intros x g [(<- & <-)|(Hne & Hx)]%lookup_insert_Some Hxr; [done|by eapply Hm].
      + intros go g (m' & -> & Hm'). destruct go; [by apply IH|done]. }
  unfold reader. apply wp_bind. eapply wp_mono; [by apply H|]. intros [] g Hg. apply wp_ask. by intros [].
Qed.
