(* ===== verification/Connection.v ===== *)
(** What holds of a pooled connection whatever its callers, the server and the
    scheduler do, and runs of the two goroutines under a schedule. *)
From S2P Require Import Prelude Errors CircuitBreaker Reader Evidence Prog Dispatch Stats Pipeline PipelineSys PipelineLogic PipelineInv PipelineSafe.
#[local] Open Scope prog_scope.

(** ** The invariant of the system *)

Section System.
Context (cfg : conn_cfg) (pooled : cc_standalone cfg = false).

Definition sys_ok (y : sys) : Prop :=
  exists gw gr, Inv cfg (y_shared y) gw gr /\
    wp (y_run y) (fun _ g => finished g) gw /\ wp (y_reader y) (fun _ g => all_closed (o_reqs g)) gr.

(** The requests [runConnSlot] passes, as the writer owns them. *)
Definition opening_own (h : rid -> creq) (first second : option rid) : gmap rid held :=
  list_to_map (map (fun r => (r, as_arrived false (h r))) (option_list first ++ option_list second)).

Lemma opening_own_Some h first second r f :
  opening_own h first second !! r = Some f ->
  f = as_arrived false (h r) /\ (first = Some r \/ second = Some r).
Proof.
  intros Hr%elem_of_list_to_map_2. apply list_elem_of_fmap in Hr as (x & [= -> ->] & Hx). split; [done|].
  apply elem_of_app in Hx. destruct first, second; simpl in Hx; rewrite ?list_elem_of_singleton, ?elem_of_nil in Hx;
    naive_solver.
Qed.

Lemma opening_own_in h first second r :
  first = Some r \/ second = Some r -> NoDup (option_list first ++ option_list second) ->
  opening_own h first second !! r = Some (as_arrived false (h r)).
Proof.
  intros Hr Hnd. apply elem_of_list_to_map_1.
  - rewrite <- list_fmap_compose. cbn. by rewrite list_fmap_id.
  - apply list_elem_of_fmap. exists r. split; [done|]. apply elem_of_app.
    destruct Hr as [->| ->]; [left|right]; by apply list_elem_of_singleton.
Qed.

Lemma opening_ok fuel h stats first second :
  (forall r, pristine (h r)) -> NoDup (option_list first ++ option_list second) ->
  sys_ok (mkSys (opening h stats (option_list first ++ option_list second))
            (Run cfg fuel first second) (reader cfg fuel)).
Proof.
  intros Hp Hnd. set (m := opening_own h first second).
  exists (mkOwn 0 0 0 m [] [] false true), (mkOwn 0 0 0 ∅ [] [] false false).
  assert (Hm : forall r f, m !! r = Some f -> held_ok (h r) f /\ h_probe f = false /\ fresh_held f /\
                                            r ∈ option_list first ++ option_list second).
  { intros r f Hr. apply opening_own_Some in Hr as [-> Hr]. destruct (as_arrived_ok false (h r) (Hp r)).
    split_and!; try done. apply elem_of_app. destruct Hr as [->| ->]; [left|right]; by apply list_elem_of_singleton. }
  assert (Hsum : forall b, (forall f, fresh_held f -> b f = false) -> msum b m = 0%nat).
  { intros b Hb. unfold msum. 
    assert (Hall : forall r f, (r, f) ∈ map_to_list m -> b f = false).
    { intros r f Hr%elem_of_map_to_list. by apply Hb, (Hm r f). }
    revert Hall. generalize (map_to_list m) as l. induction l as [|[r f] l IH]; intros Hall; [done|].
    simpl. rewrite (Hall r f) by left. apply IH. intros x g Hx. apply (Hall x g). by right. }
  split_and!.
  - split; unfold slots_ok, role_ok; fields; try done.
    + split; try done.
      * constructor.
      * intros r Hr. by apply elem_of_nil in Hr.
      * intros r Hr. by apply elem_of_nil in Hr.
      * intros r f Hr. destruct (Hm r f Hr) as (H1 & H2 & H3 & H4). rewrite H2. split_and!; [done| |done].
        by intros ?%elem_of_nil.
      * apply map_disjoint_empty_r.
      * intros r Hr. right. left. unfold m. exists (as_arrived false (h r)). apply opening_own_in; [|done].
        apply elem_of_app in Hr. destruct first, second; simpl in Hr;
          rewrite ?list_elem_of_singleton, ?elem_of_nil in Hr; naive_solver.
      * by rewrite app_nil_r.
    + simpl. lia.
    + rewrite Hsum, msum_empty by (intros f (_ & Hf & _); done). simpl. lia.
    + rewrite Hsum, msum_empty by (intros f (_ & _ & Hf & _); done). simpl. lia.
    + intros r Hr. by apply elem_of_nil in Hr.
    + split; by left.
    + intros _ _. by exists [].
    + intros r i Hr. by apply elem_of_nil in Hr.
  - apply wp_Run; [done| | |].
    + intros r Hr. exists (as_arrived false (h r)). split; [by apply opening_own_in|]. by apply as_arrived_ok.
    + intros r f Hr. by apply opening_own_Some in Hr as [_ ?].
    + intros Hf Heq. subst second. destruct first as [r|]; [|done]. simpl in Hnd.
      apply list.NoDup_cons in Hnd as [Hnd _]. by apply Hnd, list_elem_of_singleton.
  - apply wp_reader.
Qed.

Lemma step_ok y y' : sys_ok y -> sstep cfg y y' -> sys_ok y'.
Proof.
  intros (gw & gr & HI & Hw & Hr) Hs. destruct Hs as [s w rd s' w' Hs|s w rd s' rd' Hs|s s' w rd Hs]; cbn in *.
  - destruct Hs as [s q k a s' Ho Ha]. destruct (sem_sound cfg q s s' gw gr _ a HI Hw Ho Ha) as (g & Hk & HI').
    by exists g, gr.
  - destruct Hs as [s q k a s' Ho Ha]. apply Inv_sym in HI.
    destruct (sem_sound cfg q s s' gr gw _ a HI Hr Ho Ha) as (g & Hk & HI').
    exists gw, g. split_and!; [by apply Inv_sym|done|done].
  - exists gw, gr. split_and!; [by eapply env_sound|done|done].
Qed.

Lemma reachable_ok fuel first second y : reachable cfg fuel first second y -> sys_ok y.
Proof. induction 1; [by apply opening_ok|by eapply step_ok]. Qed.

(** *** What the commands on the way take *)

(** Those of [l] of a kind, keepalive probes excepted. *)
Definition needing (P : Request -> bool) (s : shared) (l : list rid) : nat :=
  length (filter (fun r => P (req_of s r) = true /\ r ∉ sh_probes s) l).

(** Every command but a STAT counts against [Inflight] ([bodySem]). *)
Definition is_body_like (a : Request) : bool := negb (isCheapCommand (rq_Payload a)).

(** There are slots in use for the commands of [l]. *)
Definition within (s : shared) (l : list rid) : Prop :=
  (length l <= sh_inflight s /\ needing is_body_like s l <= sh_body s /\ needing is_background s l <= sh_bg s)%nat.

(** The commands that were queued and whose responses have not been read. *)
Definition outstanding (s : shared) : list rid := drop (sh_read s) (sh_pushed s).

Lemma needing_app P s l1 l2 : needing P s (l1 ++ l2) = (needing P s l1 + needing P s l2)%nat.
Proof. unfold needing. by rewrite list.filter_app, length_app. Qed.

Lemma within_suffix s l1 l2 : within s (l1 ++ l2) -> within s l2.
Proof. unfold within. rewrite length_app, !needing_app. lia. Qed.

Lemma needing_cons P s r l : needing P s (r :: l) = (needing P s [r] + needing P s l)%nat.
Proof. apply (needing_app P s [r] l). Qed.

Lemma needing_one P s r : needing P s [r] = 0%nat \/ (needing P s [r] = 1%nat /\ P (req_of s r) = true /\ r ∉ sh_probes s).
Proof. unfold needing. rewrite filter_cons. case_decide as H; simpl; [right; by destruct H|by left]. Qed.

Lemma needing_queued (P b : Request -> bool) s l :
  (forall a, took a -> b a = P a) -> (forall r, r ∈ l -> has_slots s r) -> (needing P s l <= qsum (sh_heap s) b l)%nat.
Proof.
  intros Hb. induction l as [|r l IH]; intros Hl; [done|]. rewrite needing_cons. unfold qsum in *. simpl.
  assert (IH' := IH (fun x Hx => Hl x (list_elem_of_further _ _ _ Hx))).
  destruct (needing_one P s r) as [->|(-> & Hp & Hn)]; [lia|]. destruct (Hl r (list_elem_of_here _ _)) as [?|Ht]; [done|].
  specialize (Hb _ Ht). unfold req_of in *. rewrite Hb, Hp. simpl. lia.
Qed.

Lemma needing_read (P : Request -> bool) (hb : held -> bool) s cur m tok :
  (forall f a, describes f a -> slotted f -> h_probe f = false -> hb f = P a) ->
  (forall r f, m !! r = Some f -> describes f (req_of s r) /\ (h_probe f = true -> r ∈ sh_probes s)) ->
  cur_ok cur m tok -> (length cur <= tok /\ needing P s cur <= msum hb m)%nat.
Proof.
  intros Hb Hm [->|(r & f & -> & Hr & Hs & Ht)]; [unfold needing; simpl; lia|]. split; [done|].
  destruct (Hm r f Hr) as [Hd Hp]. rewrite (msum_delete hb m r f Hr).
  destruct (needing_one P s r) as [->|(-> & HP & Hn)]; [lia|]. rewrite (Hb f _ Hd Hs), HP; [simpl; lia|].
  destruct (h_probe f); [by destruct Hn; apply Hp|done].
Qed.

(** The command being read and the queued ones. *)
Lemma live_within s g1 g2 : Inv cfg s g1 g2 -> within s ((o_cur g1 ++ o_cur g2) ++ sh_pending s).
Proof.
  intros []. unfold slots_ok in *. destruct inv_cur as [C1 C2].
  assert (Hm1 : forall r f, o_reqs g1 !! r = Some f -> describes f (req_of s r) /\ (h_probe f = true -> r ∈ sh_probes s)).
  { intros r f Hr. destruct (mo_own1 _ _ _ _ _ _ inv_mem r f Hr) as ((Hd & _) & _ & Hp). split; [done|]. intros E. by rewrite E in Hp. }
  assert (Hm2 : forall r f, o_reqs g2 !! r = Some f -> describes f (req_of s r) /\ (h_probe f = true -> r ∈ sh_probes s)).
  { intros r f Hr. destruct (mo_own2 _ _ _ _ _ _ inv_mem r f Hr) as ((Hd & _) & _ & Hp). split; [done|]. intros E. by rewrite E in Hp. }
  assert (Hb : forall f a, describes f a -> slotted f -> h_probe f = false -> h_body f = is_body_like a).
  { intros f a (_ & _ & D & _) [E|[E _]] Hp; [congruence|]. unfold is_body_like. by rewrite D. }
  assert (Hg : forall f a, describes f a -> slotted f -> h_probe f = false -> h_bg f = is_background a).
  { intros f a (_ & _ & D1 & D2) [E|[_ E]] Hp; [congruence|]. unfold is_background. by rewrite D1, D2. }
  destruct (needing_read _ _ s _ _ _ Hb Hm1 C1) as [L1 B1]. destruct (needing_read _ _ s _ _ _ Hb Hm2 C2) as [L2 B2].
  destruct (needing_read _ _ s _ _ _ Hg Hm1 C1) as [_ G1]. destruct (needing_read _ _ s _ _ _ Hg Hm2 C2) as [_ G2].
  assert (QB : (needing is_body_like s (sh_pending s) <= qsum (sh_heap s) rq_heldBody (sh_pending s))%nat)
    by (apply needing_queued; [by intros a [? _]|done]).
  assert (QG : (needing is_background s (sh_pending s) <= qsum (sh_heap s) rq_heldBackgroundStat (sh_pending s))%nat)
    by (apply needing_queued; [by intros a [_ ?]|done]).
  unfold within. rewrite !length_app, !needing_app. lia.
Qed.

(** The slots in use, and what they bound. *)
Lemma reachable_within fuel first second y :
  reachable cfg fuel first second y ->
  let s := y_shared y in
  (sh_inflight s <= cc_inflight cfg /\ sh_body s <= cc_body cfg /\ sh_bg s <= cc_background cfg)%nat /\
  within s (sh_pending s) /\
  (sh_failed s = false -> sh_aligned s = true -> within s (outstanding s)) /\
  sh_panicked s = false.
Proof.
  intros (gw & gr & HI & _)%reachable_ok. cbv zeta.
  pose proof (live_within _ _ _ HI) as Hl. destruct HI. unfold slots_ok in *. split_and!; try lia; [|intros Hf Ha|done].
  - eapply within_suffix, Hl.
  - destruct (inv_fifo Hf Ha) as (pre & Hp & Hn & _). unfold outstanding. by rewrite Hp, <- Hn, drop_app_length.
Qed.

(** ** Theorems *)

(** C9: The slots bound a pooled connection's pipeline.  The slots in use are within the
    pipeline depth, [Inflight] and the background window; every queued command holds an
    inflight slot, every one but a STAT a body slot, every STAT without priority a place
    in the background window (keepalive probes excepted), so there are never more of
    them; the same holds with the command whose response is being read counted in, as
    long as every response ended cleanly and no queued request was failed; and no
    response is sent on a closed channel. *)
Theorem pipeline_bounded fuel first second y :
  reachable cfg fuel first second y ->
  let s := y_shared y in
  (sh_inflight s <= cc_inflight cfg /\ sh_body s <= cc_body cfg /\ sh_bg s <= cc_background cfg)%nat /\
  within s (sh_pending s) /\
  (sh_failed s = false -> sh_aligned s = true -> within s (outstanding s)) /\
  sh_panicked s = false.
Proof. apply reachable_within. Qed.

(** C8: The responses read so far were given to the commands in the order they were
    written, as long as every response ended cleanly and no queued request was
    failed; and one given to a request before anything went wrong is the response
    of its own command. *)
Theorem responses_in_order fuel first second y :
  reachable cfg fuel first second y ->
  let s := y_shared y in
  (sh_failed s = false -> sh_aligned s = true -> matched_reqs s `prefix_of` sh_wire s) /\
  forall r i, (r, i, true) ∈ sh_matched s -> sh_wire s !! i = Some r.
Proof.
  intros (gw & gr & HI & _)%reachable_ok. cbv zeta. destruct HI. rewrite inv_wire. split.
  - intros Hf Ha. destruct (inv_fifo Hf Ha) as (pre & -> & _ & ->). rewrite <- !app_assoc. by eexists.
  - intros r i Hm. by apply lookup_app_l_Some, inv_matched.
Qed.

(** C7: Once both goroutines are done, every request the connection received has had
    its response channel closed. *)
Theorem all_answered fuel first second y :
  reachable cfg fuel first second y ->
  y_run y = Ret tt -> y_reader y = Ret tt ->
  forall r, r ∈ sh_taken (y_shared y) -> exists v, ch_of (y_shared y) r = ChClosed v.
Proof.
  intros (gw & gr & HI & Hw & Hr)%reachable_ok Ew Er r Hin. rewrite Ew in Hw. rewrite Er in Hr.
  destruct Hw as (_ & Hd & Hcl). cbn in Hr. destruct HI. destruct inv_mem.
  assert (Hgoal : is_open (cr_ch (sh_heap (y_shared y) r)) = false).
  { destruct (mo_cover r Hin) as [H|[[f Hf]|[[f Hf]|H]]].
    - rewrite inv_drained in H by auto. by apply elem_of_nil in H.
    - destruct (mo_own1 r f Hf) as ((_ & -> & _) & _ & Hp). destruct (h_open f) eqn:Eo; [|done].
      rewrite (Hcl r f Hf Eo) in Hp. apply list.NoDup_app in mo_apart as (_ & Hx & _). by destruct (Hx r Hin).
    - destruct (mo_own2 r f Hf) as ((_ & -> & _) & _). by eapply Hr.
    - done. }
  unfold ch_of. destruct (cr_ch _); [done|by eexists].
Qed.

(** What a program asks next. *)
Definition next (p : cprog unit) : option cquery := match p with Ask q _ => Some q | _ => None end.

(** C10: Releasing a slot, queueing a written command and answering a waiting POST
    never block. *)
Theorem internal_never_blocks fuel first second y q :
  reachable cfg fuel first second y ->
  next (y_run y) = Some q \/ next (y_reader y) = Some q -> internal q = true ->
  exists a s', react cfg q a (y_shared y) = Some s'.
Proof.
  intros (gw & gr & HI & Hw & Hr)%reachable_ok [E|E] Hq.
  - destruct (y_run y); simplify_eq/=. by eapply internal_ready.
  - destruct (y_reader y); simplify_eq/=. apply Inv_sym in HI. by eapply internal_ready.
Qed.
End System.

(** ** Schedules *)

(** What the environment answers: the requests that arrive, the outcome of waits
    and the responses, and whether the reader takes a queued request after the
    connection was cancelled; the rest follows from the state. *)
Record script := mkScript {
  sc_poll : lane -> option (option rid);
  sc_sel : sel;
  sc_feed : feed_result;
  sc_probe : rid;
  sc_last : bool
}.

Definition clean (code : Z) : feed_result :=
  mkFeed None ((newNNTPResponse false false) <| StatusCode := code |>) true [] (Some 5).

Definition idle_script : script := mkScript (fun _ => None) SIdle (clean 223) 99%nat false.

Section Play.
Context (cfg : conn_cfg).

(** The answer to a question, the first of two ways to go on where there is a
    choice and it is possible. *)
Definition answer (o : script) (q : cquery) : shared -> cans q :=
  match q return shared -> cans q with
  | QCancelled => fun s => sh_cancelled s
  | QReqErr r => fun s => rq_ctxErr (req_of s r)
  | QCtxErr => fun _ => Some (ESentinel ctxCanceled)
  | QGet r => fun s => req_of s r
  | QHasBody r => fun s => cr_hasBody (sh_heap s r)
  | QInflight | QInflightDrain => fun s => (sh_inflight s <? cc_inflight cfg)%nat
  | QBody _ => fun s => if (sh_body s <? cc_body cfg)%nat then BodyGot else BodyCtxDone
  | QBgTry => fun s => (sh_bg s <? cc_background cfg)%nat
  | QBgFull => fun s => Nat.eqb (sh_bg s) (cc_background cfg)
  | QPoll l => fun _ => sc_poll o l
  | QSelect _ => fun s => if sh_cancelled s then SCtx else sc_sel o
  | QNewKeepalive _ => fun _ => sc_probe o
  | QKeepaliveResp k => fun s =>
      match ch_of s k with ChOpen (Some v) | ChClosed (Some v) => Some v | _ => None end
  | QReady r => fun s => match ready_of s r with RFull e => ReadyMsg e | _ => ReadyCtx end
  | QHasReady r => fun s => is_made (ready_of s r)
  | QPop => fun s => head (sh_pending s)
  | QPopWait => fun s => if sh_cancelled s && negb (sc_last o) then None else head (sh_pending s)
  | QFeed _ d | QFeedPost _ d => fun _ =>
      let f := sc_feed o in mkFeed (fd_err f) (fd_decoder f) (d && fd_deliver f) (fd_body f) (fd_firstByteAt f)
  | QDeadline _ => fun _ => None
  | QWrite _ | QFlush | QCopyBody _ => fun _ => None
  | QBuffered => fun _ => true
  | QNow => fun _ => 1
  | QCancel | QCloseConn | QCloseDone | QInflightRecv | QInflightTryRecv | QBodyRecv | QBgRecv | QFreed
  | QSetHeldBody _ | QSetHeldBg _ _ | QSetHeldPipeline _ _ | QSetWritten _ _ | QSetHead _ _
  | QSetWriteDeadline _ | QDiscardBody _ | QMakeReady _ | QReadySend _ _ | QPush _ | QFailLock | QFailUnlock
  | QFail _ _ | QDeliver _ _ | QClose _ | QStats _ => fun _ => tt
  end.

Definition move (o : script) (s : shared) (p : cprog unit) : option (shared * cprog unit) :=
  match p with
  | Ask q k => let a := answer o q s in option_map (fun s' => (s', k a)) (react cfg q a s)
  | _ => None
  end.

(** At most [n] steps of one program. *)
Fixpoint moves (n : nat) (o : script) (s : shared) (p : cprog unit) : shared * cprog unit :=
  match n with
  | O => (s, p)
  | S n => match move o s p with Some (s', p') => moves n o s' p' | None => (s, p) end
  end.

Inductive turn := TRun (n : nat) (o : script) | TRead (n : nat) (o : script) | TCancel.

Definition take_turn (t : turn) (y : sys) : sys :=
  match t with
  | TRun n o => let (s, w) := moves n o (y_shared y) (y_run y) in mkSys s w (y_reader y)
  | TRead n o => let (s, rd) := moves n o (y_shared y) (y_reader y) in mkSys s (y_run y) rd
  | TCancel => mkSys ((y_shared y) <| sh_cancelled := true |>) (y_run y) (y_reader y)
  end.

Definition play (ts : list turn) (y : sys) : sys := fold_left (fun y t => take_turn t y) ts y.

Lemma move_pstep o s p s' p' : move o s p = Some (s', p') -> pstep cfg s p s' p'.
Proof.
  intros H. destruct p as [| |q k|]; try done. apply map_Some in H as (s1 & H & [= -> ->]).
  constructor; [by destruct q|done].
Qed.

Lemma moves_run fuel first second n o : forall s w rd,
  reachable cfg fuel first second (mkSys s w rd) ->
  reachable cfg fuel first second (let (s', w') := moves n o s w in mkSys s' w' rd).
Proof.
  induction n as [|n IH]; intros s w rd H; [done|]. cbn [moves]. destruct (move o s w) as [[s' w']|] eqn:E; [|done].
  apply IH. eapply reach_step; [exact H|]. by eapply step_run, move_pstep.
Qed.

Lemma moves_read fuel first second n o : forall s w rd,
  reachable cfg fuel first second (mkSys s w rd) ->
  reachable cfg fuel first second (let (s', rd') := moves n o s rd in mkSys s' w rd').
Proof.
  induction n as [|n IH]; intros s w rd H; [done|]. cbn [moves]. destruct (move o s rd) as [[s' rd']|] eqn:E; [|done].
  apply IH. eapply reach_step; [exact H|]. by eapply step_reader, move_pstep.
Qed.

(** Playing a schedule stays within what is reachable. *)
Lemma play_reachable fuel first second ts : forall y,
  reachable cfg fuel first second y -> reachable cfg fuel first second (play ts y).
Proof.
  induction ts as [|t ts IH]; intros y H; [done|]. cbn [play fold_left]. apply IH. destruct y as [s w rd].
  destruct t as [n o|n o|]; cbn [take_turn y_shared y_run y_reader].
  - by apply moves_run.
  - by apply moves_read.
  - eapply reach_step; [exact H|]. apply step_env, env_cancel.
Qed.

Definition start (h : rid -> creq) (fuel : nat) (first second : option rid) : sys :=
  mkSys (opening h None (option_list first ++ option_list second)) (Run cfg fuel first second) (reader cfg fuel).

Lemma play_start h fuel first second ts :
  (forall r, pristine (h r)) -> NoDup (option_list first ++ option_list second) ->
  reachable cfg fuel first second (play ts (start h fuel first second)).
Proof. intros. apply play_reachable. by apply reach_init. Qed.
End Play.

(** *** A connection at work *)

Definition stat_request : creq :=
  mkCreq (newRequest (bs "STAT <a@b>" ++ crlf) false) false (ChOpen None) RNil.
Definition body_request : creq :=
  mkCreq (newRequest (bs "BODY <a@b>" ++ crlf) false) false (ChOpen None) RNil.

(** Requests 0 and 1 are BODY commands, the others STATs. *)
Definition demo_heap (r : rid) : creq := if (r <? 2)%nat then body_request else stat_request.

Lemma demo_pristine r : pristine (demo_heap r).
Proof. unfold demo_heap. by destruct (r <? 2)%nat. Qed.

Definition demo_cfg (alone : bool) (inflight body background : nat) : conn_cfg :=
  mkConnCfg inflight body background alone true false [] "" "p" 0.

Definition arriving (r : rid) : script :=
  mkScript (fun l => match l with Cold => Some (Some r) | _ => None end) (SRecv Cold (Some r)) (clean 223) 99%nat false.

(** Nothing arrives; a closed channel ends a wait. *)
Definition quiet_script (last : bool) : script :=
  mkScript (fun _ => None) (SRecv Hot None) (clean 223) 99%nat last.

(** A connection that serves a BODY, the STAT deferred behind it and another STAT. *)
Definition demo_run : list turn :=
  [TRun 60 (arriving 3%nat); TRead 100 (quiet_script false); TRun 20 (arriving 4%nat); TCancel;
   TRun 100 (quiet_script false); TRead 100 (quiet_script false)].

Definition demo_end : sys :=
  let cfg := demo_cfg false 3 1 1 in play cfg demo_run (start cfg demo_heap 20 (Some 0%nat) (Some 2%nat)).

Lemma demo_nodup : NoDup (option_list (Some 0%nat) ++ option_list (Some 2%nat)).
Proof. apply (bool_decide_eq_true_1 _). vm_compute. reflexivity. Qed.

Lemma demo_reachable n :
  let cfg := demo_cfg false 3 1 1 in
  reachable cfg 20 (Some 0%nat) (Some 2%nat) (play cfg (take n demo_run) (start cfg demo_heap 20 (Some 0%nat) (Some 2%nat))).
Proof. apply play_start; [apply demo_pristine|exact demo_nodup]. Qed.

Lemma pipeline_bounded_witness :
  let s := y_shared (play (demo_cfg false 3 1 1) (take 1 demo_run)
                       (start (demo_cfg false 3 1 1) demo_heap 20 (Some 0%nat) (Some 2%nat))) in
  (length (sh_pending s) = 2 /\ sh_inflight s = 3 /\ needing is_body_like s (sh_pending s) = 1 /\
   needing is_background s (sh_pending s) = 1 /\ sh_body s = 1 /\ sh_bg s = 1)%nat /\
  within s (outstanding s).
Proof.
  split; [vm_compute; auto 10|].
  apply (pipeline_bounded (demo_cfg false 3 1 1) eq_refl _ _ _ _ (demo_reachable 1)); vm_compute; reflexivity.
Defined.

Lemma responses_in_order_witness :
  let s := y_shared (play (demo_cfg false 3 1 1) (take 2 demo_run)
                       (start (demo_cfg false 3 1 1) demo_heap 20 (Some 0%nat) (Some 2%nat))) in
  matched_reqs s `prefix_of` sh_wire s /\ sh_wire s !! 1%nat = Some 2%nat.
Proof.
  destruct (responses_in_order (demo_cfg false 3 1 1) eq_refl _ _ _ _ (demo_reachable 2)) as [H1 H2].
  split; [apply H1; vm_compute; reflexivity|apply H2].
  apply (bool_decide_eq_true_1 _). vm_compute. reflexivity.
Defined.

Lemma all_answered_witness : exists v, ch_of (y_shared demo_end) 3%nat = ChClosed v.
Proof.
  apply (all_answered (demo_cfg false 3 1 1) eq_refl _ _ _ _ (demo_reachable 6)); [reflexivity..|].
  apply (bool_decide_eq_true_1 _). vm_compute. reflexivity.
Defined.

(** The first command is about to be queued. *)
Lemma internal_never_blocks_witness :
  let cfg := demo_cfg false 3 1 1 in
  let y := play cfg [TRun 15 (arriving 3%nat)] (start cfg demo_heap 20 (Some 0%nat) (Some 2%nat)) in
  exists a s', react cfg (QPush 0%nat) a (y_shared y) = Some s'.
Proof.
  cbv zeta. eapply internal_never_blocks; [reflexivity| |left; vm_compute; reflexivity|reflexivity].
  apply (play_start _ _ 20 (Some 0%nat) (Some 2%nat)); [apply demo_pristine|exact demo_nodup].
Defined.

(** ** Behaviours that depart from the intention *)

(** Between two responses the reader may take a queued request after
    [failOutstanding] has taken an earlier one: it is given the earlier one's
    response. *)
Theorem failing_misdelivers :
  let cfg := demo_cfg false 3 1 1 in
  exists fuel y v, reachable cfg fuel (Some 0%nat) (Some 2%nat) y /\
    (2%nat, 0%nat, false) ∈ sh_matched (y_shared y) /\ sh_wire (y_shared y) !! 0%nat = Some 0%nat /\
    ch_of (y_shared y) 2%nat = ChClosed (Some v) /\ rs_Err v = None /\ rs_StatusCode v = 223.
Proof.
  cbv zeta. set (ts := [TRun 50 (arriving 3%nat); TRead 1 (quiet_script false); TCancel; TRun 17 (quiet_script false);
                        TRead 100 (quiet_script true)]).
  exists 20%nat, (play (demo_cfg false 3 1 1) ts (start (demo_cfg false 3 1 1) demo_heap 20 (Some 0%nat) (Some 2%nat))).
  eexists. split; [apply play_start; [apply demo_pristine|exact demo_nodup]|].
  split; [apply (bool_decide_eq_true_1 _); vm_compute; reflexivity|].
  split; [vm_compute; reflexivity|]. split; [vm_compute; reflexivity|]. split; reflexivity.
Qed.

(** A standalone connection does not look at the deferred request again: the
    second request deferred while the reader has freed the inflight slot of a STAT
    and not yet its place in the background window takes the place of the first,
    which is never answered. *)
Theorem standalone_request_lost :
  let cfg := demo_cfg true 1 1 1 in
  exists fuel y, reachable cfg fuel (Some 2%nat) None y /\
    y_run y = Ret tt /\ y_reader y = Ret tt /\
    3%nat ∈ sh_taken (y_shared y) /\ ch_of (y_shared y) 3%nat = ChOpen None.
Proof.
  cbv zeta. set (ts := [TRun 100 (arriving 3%nat); TRead 16 (quiet_script false); TRun 100 (arriving 3%nat);
                        TRun 100 (arriving 4%nat); TRead 100 (quiet_script false); TCancel;
                        TRun 100 (quiet_script false); TRead 100 (quiet_script false)]).
  exists 20%nat, (play (demo_cfg true 1 1 1) ts (start (demo_cfg true 1 1 1) demo_heap 20 (Some 2%nat) None)).
  split; [apply play_start; [apply demo_pristine|repeat constructor; by intros ?%elem_of_nil]|].
  split; [vm_compute; reflexivity|]. split; [vm_compute; reflexivity|].
  split; [apply (bool_decide_eq_true_1 _); vm_compute; reflexivity|vm_compute; reflexivity].
Qed.

(** The read error of a cancelled request is replaced by the context's: the
    connection is then kept after a read that timed out, unless the command was one
    with a body, and the late response is read as the next request's. *)
Theorem cancelled_timeout_kept name req (resp : Response) (decoder : NNTPResponse) :
  isBodyCommand (rq_Payload req) = false -> StatusCode decoder = 0 ->
  let failed e := resp <| rs_Err := Some (in_context name e) |> in
  retires req (failed (ENet true)) decoder = true /\
  retires req (failed (ESentinel ctxCanceled)) decoder = false.
Proof.
  intros Hb Hc. cbv zeta. unfold retires, in_context. unfold update_field. cbn [rs_Err]. rewrite Hb, Hc. by destruct (String.eqb name "").
Qed.
