(* ===== verification/Gate.v ===== *)
(** [connGate] ([nntp.go]): how many connection slots of a provider may be
    connecting or running, reduced for a while when the server reports too many
    connections.

    The gate is a monitor: each operation runs under its mutex.  [enter] waits on
    the condition variable; here it answers nothing when it would wait. *)
From S2P Require Import Prelude.

(** ** The gate *)

(** [restoreTimer] is the time the running timer fires. *)
Record connGate := mkGate {
  gt_maxSlots : Z;
  gt_allowed : Z;
  gt_held : Z;
  gt_running : Z;
  gt_restoreTimer : option Z;
  gt_restoreDur : Z;
  gt_available : Z
}.

#[export] Instance eta_connGate : Eta connGate := fun g =>
  mkGate (gt_maxSlots g) (gt_allowed g) (gt_held g) (gt_running g) (gt_restoreTimer g) (gt_restoreDur g)
    (gt_available g).

Definition defaultThrottleRestore : Z := 30 * 1000000000.

Definition newConnGate (max restoreDur : Z) : connGate :=
  mkGate max max 0 0 None (if restoreDur <=? 0 then defaultThrottleRestore else restoreDur) (wrap32 max).

(** [g.available.Store(int32(g.allowed - g.held))] *)
Definition store_available (g : connGate) : connGate := g <| gt_available := wrap32 (gt_allowed g - gt_held g) |>.

(** [enter]: whether the slot was granted; nothing while it waits.  [cancelled] is
    whether the slot's or the request's context is done. *)
Definition enter (cancelled : bool) (g : connGate) : option (bool * connGate) :=
  if gt_allowed g <=? gt_held g then if cancelled then Some (false, g) else None
  else Some (true, store_available (g <| gt_held ::= Z.succ |>)).

Definition exit (g : connGate) : connGate := store_available (g <| gt_held ::= Z.pred |>).
Definition markRunning (g : connGate) : connGate := g <| gt_running ::= Z.succ |>.
Definition markNotRunning (g : connGate) : connGate := g <| gt_running ::= Z.pred |>.

Definition throttle (now : Z) (g : connGate) : connGate :=
  let newAllowed := Z.max 1 (gt_running g) in
  let g := if newAllowed <? gt_allowed g then g <| gt_allowed := newAllowed |> else g in
  store_available (g <| gt_restoreTimer := Some (now + gt_restoreDur g) |>).

Definition restore (g : connGate) : connGate :=
  store_available (g <| gt_allowed := gt_maxSlots g |> <| gt_restoreTimer := None |>).

Definition stop (g : connGate) : connGate := g <| gt_restoreTimer := None |>.

Definition snapshot (g : connGate) : Z * Z := (gt_maxSlots g, gt_running g).

(** ** The slots of a provider *)

(** Where a slot's goroutine is: before [enter], between [enter] and [exit], inside
    [nc.Run()]. *)
Inductive phase := Outside | Inside | Active.

#[export] Instance phase_eq_dec : EqDecision phase.
Proof. solve_decision. Defined.

(** The gate operations of [runConnSlot]. *)
Inductive gate_op := GEnter (granted : bool) | GExit | GRunning | GNotRunning | GThrottle.

#[export] Instance gate_op_eq_dec : EqDecision gate_op.
Proof. solve_decision. Defined.

(** The order [runConnSlot] calls them in (Slot.v). *)
Definition phase_step (p : phase) (op : gate_op) : option phase :=
  match p, op with
  | Outside, GEnter true => Some Inside
  | Outside, GEnter false => Some Outside
  | Inside, GExit => Some Outside
  | Inside, GThrottle => Some Inside
  | Inside, GRunning => Some Active
  | Active, GNotRunning => Some Inside
  | _, _ => None
  end.

Record slots := mkSlots { sl_gate : connGate; sl_phases : list phase }.

(** One slot acts; the timer fires, also when it was just stopped; the provider is
    removed. *)
Inductive slots_step : slots -> slots -> Prop :=
| slot_enter g ps i cancelled granted g' p :
    ps !! i = Some Outside -> enter cancelled g = Some (granted, g') ->
    phase_step Outside (GEnter granted) = Some p ->
    slots_step (mkSlots g ps) (mkSlots g' (<[i := p]> ps))
| slot_exit g ps i : ps !! i = Some Inside -> slots_step (mkSlots g ps) (mkSlots (exit g) (<[i := Outside]> ps))
| slot_running g ps i :
    ps !! i = Some Inside -> slots_step (mkSlots g ps) (mkSlots (markRunning g) (<[i := Active]> ps))
| slot_not_running g ps i :
    ps !! i = Some Active -> slots_step (mkSlots g ps) (mkSlots (markNotRunning g) (<[i := Inside]> ps))
| slot_throttle g ps i now : ps !! i = Some Inside -> slots_step (mkSlots g ps) (mkSlots (throttle now g) ps)
| gate_restore g ps : slots_step (mkSlots g ps) (mkSlots (restore g) ps)
| gate_stop g ps : slots_step (mkSlots g ps) (mkSlots (stop g) ps).

(** The slots [startProviderGroup] starts. *)
Definition open_slots (connections : nat) (restoreDur : Z) : slots :=
  mkSlots (newConnGate (Z.of_nat connections) restoreDur) (replicate connections Outside).

Inductive slots_reach (connections : nat) (restoreDur : Z) : slots -> Prop :=
| slots_init : slots_reach connections restoreDur (open_slots connections restoreDur)
| slots_next s s' : slots_reach connections restoreDur s -> slots_step s s' -> slots_reach connections restoreDur s'.

(** ** Lemmas *)

Definition in_gate (p : phase) : bool := match p with Outside => false | _ => true end.
Definition in_run (p : phase) : bool := match p with Active => true | _ => false end.

Lemma count_replicate n : count in_gate (replicate n Outside) = 0 /\ count in_run (replicate n Outside) = 0.
Proof. unfold count. by induction n. Qed.

Lemma wrap32_id z : - 2 ^ 31 <= z < 2 ^ 31 -> wrap32 z = z.
Proof. intros. unfold wrap32. rewrite Z.mod_small; lia. Qed.

Record gate_inv (connections : nat) (s : slots) : Prop := {
  gi_slots : length (sl_phases s) = connections;
  gi_max : gt_maxSlots (sl_gate s) = Z.of_nat connections;
  gi_held : gt_held (sl_gate s) = count in_gate (sl_phases s);
  gi_running : gt_running (sl_gate s) = count in_run (sl_phases s);
  gi_allowed : 1 <= gt_allowed (sl_gate s) <= Z.of_nat connections;
  gi_available : gt_available (sl_gate s) = wrap32 (gt_allowed (sl_gate s) - gt_held (sl_gate s))
}.

Lemma gate_inv_step n s s' : (0 < n)%nat -> gate_inv n s -> slots_step s s' -> gate_inv n s'.
Proof.
  intros Hn [Hl Hm Hh Hr Ha Hv] Hs.
  destruct Hs as [g ps i c gr g' p Hi He Hp|g ps i Hi|g ps i Hi|g ps i Hi|g ps i now Hi|g ps|g ps];
    simpl sl_gate in *; simpl sl_phases in *; destruct g as [mx al hd rn tm du av]; simpl in *.
  - unfold enter in He. simpl in He. destruct (Z.leb_spec al hd).
    + destruct c; simplify_eq/=. split; simpl; rewrite ?length_insert, ?(count_update _ _ _ _ _ Hi); simpl; try done; lia.
    + simplify_eq/=. split; simpl; rewrite ?length_insert, ?(count_update _ _ _ _ _ Hi); simpl; try done; try lia.
  - split; simpl; rewrite ?length_insert, ?(count_update _ _ _ _ _ Hi); simpl; try done; try lia.
  - split; simpl; rewrite ?length_insert, ?(count_update _ _ _ _ _ Hi); simpl; try done; try lia.
  - split; simpl; rewrite ?length_insert, ?(count_update _ _ _ _ _ Hi); simpl; try done; try lia.
  - pose proof (count_le in_run in_gate ps) as Hle. unfold throttle. simpl.
    destruct (Z.ltb_spec (Z.max 1 rn) al); split; simpl; try done; lia.
  - split; simpl; try done; lia.
  - split; simpl; done.
Qed.

Lemma gate_inv_reach n dur s : (0 < n)%nat -> slots_reach n dur s -> gate_inv n s.
Proof.
  intros Hn. induction 1 as [|s s' _ IH Hs]; [|by eapply gate_inv_step].
  destruct (count_replicate n) as [H1 H2]. split; simpl; rewrite ?length_replicate, ?H1, ?H2; try done; [lia|].
  by rewrite Z.sub_0_r.
Qed.

Lemma gate_inv_counts n s : Z.of_nat n < 2 ^ 31 -> gate_inv n s ->
  let g := sl_gate s in
  gt_held g = count in_gate (sl_phases s) /\ gt_running g = count in_run (sl_phases s) /\
  0 <= gt_running g <= gt_held g /\ gt_held g <= Z.of_nat n /\
  1 <= gt_allowed g <= Z.of_nat n /\ gt_available g = gt_allowed g - gt_held g.
Proof.
  intros Hn [Hl Hm Hh Hr Ha Hv]. cbv zeta.
  pose proof (count_le in_run in_gate (sl_phases s) ltac:(by intros [])) as H1.
  pose proof (count_length in_gate (sl_phases s)) as H2. rewrite Hl in H2.
  rewrite Hv, wrap32_id by lia. split_and!; lia.
Qed.

(** ** Properties *)

(** C20: Connections: however the slots' goroutines, the timer and a removal interleave,
    the gate counts the slots past [enter] and those running, never more than
    [Connections] of them; the limit stays between one and [Connections]; and the
    figure the dispatcher reads is the limit less the slots held. *)
Theorem gate_counts n dur s :
  0 < Z.of_nat n < 2 ^ 31 -> slots_reach n dur s ->
  let g := sl_gate s in
  gt_held g = count in_gate (sl_phases s) /\ gt_running g = count in_run (sl_phases s) /\
  0 <= gt_running g <= gt_held g /\ gt_held g <= Z.of_nat n /\
  1 <= gt_allowed g <= Z.of_nat n /\ gt_available g = gt_allowed g - gt_held g.
Proof. intros Hn Hs. apply gate_inv_counts; [lia|]. eapply gate_inv_reach; [lia|done]. Qed.

(** Admission: a slot is granted only below the limit, a provider whose slots are
    all outside admits one at once, and throttling sets the limit to the running
    connections, at least one, and never raises it. *)
Theorem gate_admission n dur s :
  0 < Z.of_nat n < 2 ^ 31 -> slots_reach n dur s ->
  let g := sl_gate s in
  (forall c g', enter c g = Some (true, g') -> gt_held g' = gt_held g + 1 /\ gt_held g' <= gt_allowed g') /\
  ((forall i p, sl_phases s !! i = Some p -> p = Outside) -> forall c, exists g', enter c g = Some (true, g')) /\
  (forall now, gt_allowed (throttle now g) = Z.min (gt_allowed g) (Z.max 1 (gt_running g)) /\
               gt_restoreTimer (throttle now g) = Some (now + gt_restoreDur g)).
Proof.
  intros Hn Hs. cbv zeta. destruct (gate_inv_reach n dur s) as [Hl Hm Hh Hr Ha Hv]; [lia|done|].
  destruct s as [g ps]. cbn [sl_gate sl_phases] in *. split_and!.
  - intros c g' He. unfold enter in He. destruct (Z.leb_spec (gt_allowed g) (gt_held g)); [by destruct c|].
    simplify_eq. destruct g. simpl in *. lia.
  - intros Hout c. unfold enter. assert (count in_gate ps = 0) as H0.
    { apply count_none. intros i p Hi. by rewrite (Hout i p Hi). }
    destruct (Z.leb_spec (gt_allowed g) (gt_held g)); [lia|by eexists].
  - intros now. unfold throttle. destruct (Z.ltb_spec (Z.max 1 (gt_running g)) (gt_allowed g)); destruct g; simpl in *;
      split; try done; lia.
Qed.

(** One of two slots is running when the other is told that there are too many
    connections; the limit is lifted when the timer fires. *)
Definition throttled : slots := mkSlots (throttle 7 (exit (markRunning (mkGate 2 2 2 0 None 30 0)))) [Active; Outside].

Lemma gate_counts_witness :
  let s := mkSlots (mkGate 2 2 1 0 None 30 1) [Inside; Outside] in
  gt_held (sl_gate s) = count in_gate (sl_phases s) /\ gt_available (sl_gate s) = 1.
Proof.
  assert (Hr : slots_reach 2 30 (mkSlots (mkGate 2 2 1 0 None 30 1) [Inside; Outside])).
  { eapply slots_next; [apply slots_init|]. by apply (slot_enter (newConnGate 2 30) [Outside; Outside] 0%nat false true (mkGate 2 2 1 0 None 30 1) Inside). }
  destruct (gate_counts 2 30 _ ltac:(lia) Hr) as (H1 & _ & _ & _ & _ & H2). by split.
Defined.

Lemma gate_admission_witness : exists g', enter false (newConnGate 2 30) = Some (true, g') /\ gt_held g' <= gt_allowed g'.
Proof.
  destruct (gate_admission 2 30 _ ltac:(lia) (slots_init 2 30)) as (H1 & H2 & _).
  destruct (H2 ltac:(by intros [|[|i]] p Hp; simplify_eq/=) false) as [g' Hg]. exists g'. split; [exact Hg|].
  by destruct (H1 false g' Hg).
Defined.

(** Throttling to the one running connection and lifting the limit. *)
Example throttle_and_restore :
  (gt_allowed (sl_gate throttled), gt_available (sl_gate throttled), enter false (sl_gate throttled),
   enter true (sl_gate throttled), gt_allowed (restore (sl_gate throttled)), gt_available (restore (sl_gate throttled)))
  = (1, 0, None, Some (false, sl_gate throttled), 2, 1).
Proof. by vm_compute. Qed.
