(* ===== verification/Slot.v ===== *)
(** [runConnSlot] ([nntp.go]): the goroutine of one connection slot.  It waits for
    a request, enters the gate, dials, and runs the connection (Pipeline.v) with the
    request and the one it overtook.

    The program's questions are its channel operations, the gate's operations
    (Gate.v), dialling and the handshake, and the run of a connection. *)
From S2P Require Import Prelude Errors CircuitBreaker Reader Evidence Prog Dispatch Stats Pipeline Gate.
#[local] Open Scope prog_scope.

(** ** The program *)

(** The blocking [select] of an idle slot; a closed channel yields [None]. *)
Inductive slot_sel := GotPrio (r : option rid) | GotReq (r : option rid) | GotCtx.

Inductive squery :=
| SPollPrio
| SWait
| SReqErr (r : rid)
| SCtxErr
| SEnter (r : rid)
| SExit
| SRunning
| SNotRunning
| SThrottle
| SDial
| SHandshake
| SCloseConn
| SFail (r : rid) (e : error)
| SBackoff (d : Z)
| SServe (first : rid) (second : option rid).

Definition sans (q : squery) : Type :=
  match q with
  | SPollPrio => option (option rid)
  | SWait => slot_sel
  | SReqErr _ | SCtxErr | SDial | SHandshake => error
  | SEnter _ | SBackoff _ => bool
  | _ => unit
  end.

Definition sprog : Type -> Type := prog sans Empty_set Empty_set.
Definition sask (q : squery) : sprog (sans q) := ask q.

Definition connFailureBackoff : Z := 1000000000.
Definition maxConnsBackoff : Z := 5 * 1000000000.

Section Slot.
Context (providerName : string).

(** A priority request that is there goes before [r]; [None] ends the slot. *)
Definition before (r : rid) : sprog (option (rid * option rid)) :=
  let! p := sask SPollPrio in
  match p with
  | Some None => let! e := sask SCtxErr in sask (SFail r e) ;! Ret None
  | Some (Some pr) => Ret (Some (pr, Some r))
  | None => Ret (Some (r, None))
  end.

(** IDLE: the first request and the one deferred behind it. *)
Definition wait_request (carriedReq : option rid) : sprog (option (rid * option rid)) :=
  match carriedReq with
  | Some r => before r
  | None =>
      let! p := sask SPollPrio in
      match p with
      | Some r => Ret (option_map (fun r => (r, None)) r)
      | None =>
          let! s := sask SWait in
          match s with
          | GotPrio r => Ret (option_map (fun r => (r, None)) r)
          | GotReq None | GotCtx => Ret None
          | GotReq (Some r) => before r
          end
      end
  end.

(** The failure of a dial or a handshake. *)
Definition slot_failed (first : rid) (err : gerror) : sprog unit := sask (SFail first (Some (EWrap providerName err))).

Fixpoint runConnSlot (fuel : nat) (carriedReq : option rid) : sprog unit :=
  match fuel with
  | O => NoFuel
  | S fuel =>
      let! w := wait_request carriedReq in
      match w with
      | None => Ret tt
      | Some (first, second) =>
          let! e := sask (SReqErr first) in
          if negb (is_nil e) then sask (SFail first e) ;! runConnSlot fuel second
          else
            let! granted := sask (SEnter first) in
            if negb granted then sask (SFail first (Some (ESentinel ctxCanceled))) ;! runConnSlot fuel second
            else
              let! e := sask SDial in
              match e with
              | Some err =>
                  sask SExit ;!
                  slot_failed first err ;!
                  let! elapsed := sask (SBackoff connFailureBackoff) in
                  if (elapsed : bool) then runConnSlot fuel second else Ret tt
              | None =>
                  let! e := sask SHandshake in
                  match e with
                  | Some err =>
                      sask SCloseConn ;!
                      slot_failed first err ;!
                      if Is (Some err) (TSentinel ErrMaxConnections) then
                        sask SThrottle ;! sask SExit ;!
                        let! elapsed := sask (SBackoff maxConnsBackoff) in
                        if (elapsed : bool) then runConnSlot fuel second else Ret tt
                      else
                        sask SExit ;!
                        let! elapsed := sask (SBackoff connFailureBackoff) in
                        if (elapsed : bool) then runConnSlot fuel second else Ret tt
                  | None =>
                      sask SRunning ;! sask (SServe first second) ;! sask SNotRunning ;! sask SExit ;!
                      runConnSlot fuel None
                  end
              end
      end
  end.
End Slot.

(** ** What an execution shows *)

Definition sevent : Type := event sans.
Definition no_fork (p : Empty_set) (t : list sevent) (r : option Empty_set) : Prop := False.
Definition slot_exec {A} (p : sprog A) (t : list sevent) (r : option A) : Prop := exec no_fork p t r.

(** The requests it received. *)
Definition received_at (e : sevent) : list rid :=
  match e with
  | Ev q a =>
      match q return sans q -> list rid with
      | SPollPrio => fun a => match a with Some (Some r) => [r] | _ => [] end
      | SWait => fun a => match a with GotPrio (Some r) | GotReq (Some r) => [r] | _ => [] end
      | _ => fun _ => []
      end a
  end.

(** Those it failed or handed to a connection. *)
Definition settled_at (e : sevent) : list rid :=
  match e with
  | Ev q _ => match q with SFail r _ => [r] | SServe r s => r :: option_list s | _ => [] end
  end.

(** Where an event leaves the slot with respect to the gate: the gate's operations move
    it ([phase_step]); it looks for requests and waits outside only, dials and shakes
    hands inside only, and runs a connection only when it is counted as running. *)
Definition phase_at (p : phase) (e : sevent) : option phase :=
  let stays (q : phase) := if decide (p = q) then Some p else None in
  match e with
  | Ev q a =>
      match q return sans q -> option phase with
      | SEnter _ => fun b => phase_step p (GEnter b)
      | SExit => fun _ => phase_step p GExit
      | SRunning => fun _ => phase_step p GRunning
      | SNotRunning => fun _ => phase_step p GNotRunning
      | SThrottle => fun _ => phase_step p GThrottle
      | SPollPrio | SWait | SReqErr _ | SBackoff _ => fun _ => stays Outside
      | SDial | SHandshake => fun _ => stays Inside
      | SServe _ _ => fun _ => stays Active
      | SCtxErr | SCloseConn | SFail _ _ => fun _ => Some p
      end a
  end.

(** It was shut down while it waited to try again. *)
Definition gave_up (e : sevent) : bool :=
  match e with
  | Ev q a => match q return sans q -> bool with SBackoff _ => negb | _ => fun _ => false end a
  end.

Definition received (t : list sevent) : list rid := flat_map received_at t.
Definition settled (t : list sevent) : list rid := flat_map settled_at t.

(** The phases of an execution from phase [p]; nothing when it did something where it
    must not. *)
Fixpoint phases (p : phase) (t : list sevent) : option phase :=
  match t with
  | [] => Some p
  | e :: t => match phase_at p e with Some p' => phases p' t | None => None end
  end.

(** ** Lemmas *)

Lemma received_app t u : received (t ++ u) = received t ++ received u.
Proof. apply flat_map_app. Qed.
Lemma settled_app t u : settled (t ++ u) = settled t ++ settled u.
Proof. apply flat_map_app. Qed.
Lemma phases_app p t u :
  phases p (t ++ u) = match phases p t with Some p' => phases p' u | None => None end.
Proof. revert p. induction t as [|e t IH]; intros p; [done|]. simpl. destruct (phase_at p e); [apply IH|done]. Qed.

Lemma sat_sask {A} q (k : sans q -> sprog A) Q :
  (forall a, sat no_fork (k a) (fun t r => Q (Ev q a :: t) r)) -> sat no_fork (bind (sask q) k) Q.
Proof. intros H. by apply sat_ask. Qed.

(** Waiting takes no part in the gate; what was received is to be served, or it was
    failed and the slot ends. *)
Definition waited (carried : list rid) (t : list sevent) (r : option (option (rid * option rid))) : Prop :=
  phases Outside t = Some Outside /\
  match r with
  | Some (Some (f, s)) => settled t = [] /\ Permutation (f :: option_list s) (carried ++ received t)
  | Some None => Permutation (settled t) (carried ++ received t)
  | None => False
  end.

Lemma before_waited r : sat no_fork (before r) (waited [r]).
Proof.
  unfold before. apply sat_sask. intros [[p|]|].
  - apply sat_ret. split; [done|]. split; [done|]. simpl. apply perm_swap.
  - apply sat_sask. intros e. apply sat_sask. intros []. by apply sat_ret.
  - apply sat_ret. repeat (split; [reflexivity|]). simpl. reflexivity.
Qed.

Lemma wait_waited c : sat no_fork (wait_request c) (waited (option_list c)).
Proof.
  unfold wait_request. destruct c as [r|]; [apply before_waited|]. apply sat_sask. intros [r|].
  - apply sat_ret. destruct r; repeat (split; [reflexivity|]); simpl; reflexivity.
  - apply sat_sask. intros [r|[r|]|].
    + apply sat_ret. destruct r; repeat (split; [reflexivity|]); simpl; reflexivity.
    + eapply sat_conseq; [apply before_waited|]. intros t x [Hg H]. split; [done|]. by destruct x as [[[f s]|]|].
    + by apply sat_ret.
    + by apply sat_ret.
Qed.

(** From the start of a round: the gate's operations follow its phases and end
    outside; and every request is settled once, but for one at most, which is left
    when the slot was shut down while it waited to try again (or is still carried
    when the observation ends). *)
Definition slot_post (carried : list rid) (t : list sevent) (r : option unit) : Prop :=
  phases Outside t = Some Outside /\
  exists left, Permutation (settled t ++ left) (carried ++ received t) /\ (length left <= 1)%nat /\
    (r = Some tt -> left = [] \/ existsb gave_up t = true).

(** A part of a round, between two visits of the gate. *)
Lemma slot_post_after carried carried' u t r :
  Permutation (settled u ++ carried') (carried ++ received u) -> phases Outside u = Some Outside ->
  slot_post carried' t r -> slot_post carried (u ++ t) r.
Proof.
  intros Hu Hg (Hp & left & Hl & Hn & Hd). split; [by rewrite phases_app, Hg|].
  exists left. rewrite settled_app, received_app, app_assoc, <- Hu, <- !app_assoc, Hl. split_and!; [done|done|].
  intros E. destruct (Hd E) as [->|H]; [by left|]. right. by rewrite existsb_app, H, orb_true_r.
Qed.

Lemma slot_post_end carried u :
  Permutation (settled u) (carried ++ received u) -> phases Outside u = Some Outside ->
  slot_post carried u (Some tt).
Proof. intros Hu Hg. split; [done|]. exists []. rewrite app_nil_r. split_and!; [done|simpl; lia|by left]. Qed.

(** The slot gives up while it holds a second request. *)
Lemma slot_post_left carried s u :
  Permutation (settled u ++ option_list s) (carried ++ received u) -> phases Outside u = Some Outside ->
  existsb gave_up u = true -> slot_post carried u (Some tt).
Proof. intros Hu Hg Hb. split; [done|]. exists (option_list s). split_and!; [done|destruct s; simpl; lia|by right]. Qed.

Section Proofs.
Context (providerName : string).

(** What follows a failed attempt to connect: a wait, then the next round. *)
Lemma sat_backoff fuel d s carried u :
  (forall c, sat no_fork (runConnSlot providerName fuel c) (slot_post (option_list c))) ->
  Permutation (settled u ++ option_list s) (carried ++ received u) -> phases Outside u = Some Outside ->
  sat no_fork (let! elapsed := sask (SBackoff d) in if (elapsed : bool) then runConnSlot providerName fuel s else Ret tt)
    (fun t r => slot_post carried (u ++ t) r).
Proof.
  intros IH Hu Hg. apply sat_sask. intros [|].
  - eapply sat_conseq; [apply IH|]. intros t r Ht.
    rewrite (app_assoc u [Ev (SBackoff d) true] t : u ++ Ev (SBackoff d) true :: t = _).
    eapply slot_post_after; [|..|exact Ht]; rewrite ?settled_app, ?received_app, ?phases_app, ?Hg; simpl; by rewrite ?app_nil_r.
  - apply sat_ret. apply (slot_post_left _ s).
    + rewrite settled_app, received_app. simpl. by rewrite !app_nil_r.
    + by rewrite phases_app, Hg.
    + rewrite existsb_app. simpl. by rewrite orb_true_r.
Qed.

Lemma runConnSlot_spec fuel : forall c, sat no_fork (runConnSlot providerName fuel c) (slot_post (option_list c)).
Proof.
  induction fuel as [|fuel IH]; intros c; cbn [runConnSlot].
  { apply sat_nofuel. split; [done|]. exists (option_list c). simpl. rewrite app_nil_r.
    split_and!; [done|destruct c; simpl; lia|done]. }
  eapply sat_bind; [apply wait_waited| |by intros t (_ & [])].
  intros w [[first second]|] (Hg & Hw).
  2: { apply sat_ret. rewrite app_nil_r. by apply slot_post_end. }
  destruct Hw as [Hs Hw].
  (* [u]: the events of the round so far, after the wait. *)
  assert (Hpost : forall u carried', Permutation (settled u ++ carried') (first :: option_list second) ->
    received u = [] -> phases Outside u = Some Outside ->
    Permutation (settled (w ++ u) ++ carried') (option_list c ++ received (w ++ u)) /\ phases Outside (w ++ u) = Some Outside).
  { intros u carried' H1 H2 H3. rewrite settled_app, received_app, phases_app, Hs, Hg, H2, app_nil_r. simpl.
    split; [|done]. by rewrite H1. }
  assert (Hnext : forall u x, Permutation (settled u ++ option_list x) (first :: option_list second) ->
    received u = [] -> phases Outside u = Some Outside ->
    sat no_fork (runConnSlot providerName fuel x) (fun t r => slot_post (option_list c) (w ++ u ++ t) r)).
  { intros u x H1 H2 H3. destruct (Hpost u _ H1 H2 H3) as [P1 P2]. eapply sat_conseq; [apply IH|].
    intros t r Ht. rewrite app_assoc. by eapply slot_post_after. }
  assert (Hwait : forall u d, Permutation (settled u ++ option_list second) (first :: option_list second) ->
    received u = [] -> phases Outside u = Some Outside ->
    sat no_fork (let! elapsed := sask (SBackoff d) in
                 if (elapsed : bool) then runConnSlot providerName fuel second else Ret tt)
      (fun t r => slot_post (option_list c) (w ++ u ++ t) r)).
  { intros u d H1 H2 H3. destruct (Hpost u _ H1 H2 H3) as [P1 P2]. 
    eapply sat_conseq; [by apply (sat_backoff fuel d second (option_list c) (w ++ u))|].
    intros t r Ht. by rewrite app_assoc. }
  apply sat_sask. intros e. destruct (negb (is_nil e)).
  { apply sat_sask. intros []. by apply (Hnext [_; _]). }
  apply sat_sask. intros [|]; cbn [negb].
  2: { apply sat_sask. intros []. by apply (Hnext [_; _; _]). }
  apply sat_sask. intros [err|].
  { apply sat_sask. intros []. apply sat_sask. intros []. by apply (Hwait [_; _; _; _; _]). }
  apply sat_sask. intros [err|].
  - apply sat_sask. intros []. apply sat_sask. intros []. destruct (Is _ _).
    + apply sat_sask. intros []. apply sat_sask. intros []. by apply (Hwait [_; _; _; _; _; _; _; _]).
    + apply sat_sask. intros []. by apply (Hwait [_; _; _; _; _; _; _]).
  - apply sat_sask. intros []. apply sat_sask. intros []. apply sat_sask. intros []. apply sat_sask. intros [].
    apply (Hnext [_; _; _; _; _; _; _; _]); [|done|done]. simpl. by rewrite !app_nil_r.
Qed.
End Proofs.

(** ** Properties *)

(** C21: Requests and the gate: in every execution that ends, the slot's operations on
    the gate follow the phases of Gate.v and end outside it, so that each grant is
    returned and the counts of the gate are exact; it is outside the gate at every
    moment at which it looks for a request, waits for one or backs off after a
    failure, and inside it at every dial, handshake and run of a connection; and
    every request it received or was given is failed or handed to a connection
    exactly once, but for one at most, that only when the slot was shut down while it
    waited to try again. *)
Theorem slot_settles providerName fuel c t :
  slot_exec (runConnSlot providerName fuel c) t (Some tt) ->
  phases Outside t = Some Outside /\
  exists left, Permutation (settled t ++ left) (option_list c ++ received t) /\ (length left <= 1)%nat /\
    (left = [] \/ existsb gave_up t = true).
Proof.
  intros Ht. destruct (runConnSlot_spec providerName fuel c t _ Ht) as (Hp & left & Hl & Hn & Hd).
  split; [done|]. exists left. auto.
Qed.

(** A slot whose server cannot be reached, shut down during the wait: the [n]-th
    answer. *)
Definition unreachable (q : squery) (n : nat) : sans q * nat :=
  (match q return sans q with
   | SPollPrio => if Nat.eqb n 0 then None else Some (Some 2%nat)
   | SWait => GotReq (Some 1%nat)
   | SReqErr _ | SCtxErr | SHandshake => None
   | SDial => Some (ENet true)
   | SEnter _ => true
   | SBackoff _ => false
   | _ => tt
   end, S n).

Definition no_run (p : Empty_set) (n : nat) : list sevent * option Empty_set * nat := match p with end.

Definition shut_down_run : list sevent * option unit * nat :=
  run unreachable no_run (runConnSlot "p" 3 None) 0%nat.

Lemma shut_down_exec : slot_exec (runConnSlot "p" 3 None) (fst (fst shut_down_run)) (Some tt).
Proof.
  eapply (run_exec unreachable no_fork no_run) with (s := 0%nat) (s' := snd shut_down_run); [intros []|].
  vm_compute. reflexivity.
Qed.

Lemma slot_settles_witness : length (fst (fst shut_down_run)) = 9%nat /\
  phases Outside (fst (fst shut_down_run)) = Some Outside.
Proof. split; [vm_compute; reflexivity|]. by destruct (slot_settles "p" 3 None _ shut_down_exec). Defined.

(** The request that was overtaken is then dropped: nobody answers it.  Callers
    that wait on the provider's context notice, [doSendPost] does not. *)
Theorem shut_down_drops_overtaken :
  exists t, slot_exec (runConnSlot "p" 3 None) t (Some tt) /\ received t = [1; 2]%nat /\ settled t = [2]%nat.
Proof. exists (fst (fst shut_down_run)). split; [exact shut_down_exec|]. by vm_compute. Qed.
