(* ===== verification/Pool.v ===== *)
(** The request router ([nntp.go]: [tryGroupResilient], [raceCandidates],
    [doSendWithRetry], [dispatchWeights], [extractProbeMsgID]).

    The functions are programs in the sense of Prog.v.  Their questions are the
    places where they touch shared state or other goroutines: a provider's
    quota, gate, speed and breaker, one [tryGroup] attempt on a provider, the
    contexts, the clock, the retry delay, the provider lists, the round-robin
    counter, and the response channel.  The parallel STAT probes are forked
    programs. *)
From S2P Require Import Prelude Errors CircuitBreaker Reader Evidence Prog Dispatch.
#[local] Open Scope prog_scope.

(** ** Data *)

Definition maxConnDiedRetries : nat := 2.

(** The parts of [providerGroup] the router reads directly. *)
Record providerGroup := mkGroup {
  g_name : string;
  g_id : string;
  g_ReconnectDelay : Z
}.

#[export] Instance providerGroup_eq_dec : EqDecision providerGroup.
Proof. solve_decision. Defined.

(** The arguments of [tryGroup] besides the provider. *)
Record try_args := mkTry {
  ta_payload : bytes;
  ta_hasWriter : bool;
  ta_priority : bool;
  ta_validateBody : bool;
  ta_freshTransport : bool
}.

#[export] Instance eta_try_args : Eta try_args := fun a =>
  mkTry (ta_payload a) (ta_hasWriter a) (ta_priority a) (ta_validateBody a) (ta_freshTransport a).

Inductive DispatchStrategy := DispatchRoundRobin | DispatchFIFO.

(** The fields of [Client] that are fixed by [NewClient]. *)
Record client_cfg := mkClientCfg {
  c_dispatch : DispatchStrategy;
  c_statProbe : bool;
  c_speedAware : bool
}.

Inductive query :=
| QQuota (g : providerGroup)
| QAvailable (g : providerGroup)
| QSpeed (g : providerGroup)
| QAcquire (g : providerGroup)
| QComplete (g : providerGroup) (lease : circuitBreakerLease) (completion : circuitBreakerCompletion)
| QTry (g : providerGroup) (a : try_args)
| QCtxErr
| QPoolCtxErr
| QNow
| QBackoff
| QLoad (backup : bool)
| QNextIdx
| QRemove (name : string)
| QReconnect (g : providerGroup)
| QDeliver (resp : Response).

Definition presult : Type := Response * bool * bool.

Definition ans (q : query) : Type :=
  match q with
  | QQuota _ => bool
  | QAvailable _ => Z
  | QSpeed _ => float64
  | QAcquire _ => circuitBreakerLease * error
  | QTry _ _ => presult
  | QCtxErr | QPoolCtxErr => error
  | QNow | QNextIdx => Z
  | QBackoff => bool
  | QLoad _ => list providerGroup
  | QComplete _ _ _ | QRemove _ | QReconnect _ | QDeliver _ => unit
  end.

Abbreviation event := (event ans).

(** [fmt.Errorf("%s: %w", g.name, err)] *)
Definition named (g : providerGroup) (e : error) : error :=
  match e with
  | Some e => Some (EWrap (g_name g) e)
  | None => Some (EOpaque "%!w(<nil>)")
  end.

(** ** One provider *)

Section Group.
Context {P R : Type}.
Abbreviation prog := (prog ans P R).

(** The answer when the breaker refuses: the error as evidence. *)
Definition refused (g : providerGroup) (a : try_args) (err : error) (ok cancelled : bool) : prog presult :=
  let! now := ask QNow in
  Ret ((errResponse err) <| rs_ProviderID := g_id g |>
         <| rs_Attempts := [buildEligibilityEvidence (ta_payload a) (g_id g) err (ta_validateBody a) now] |>,
       ok, cancelled).

Definition maps451 (resp : Response) : bool :=
  match rs_Request resp with
  | Some req => requestMaps451ToAbsence req (rs_StatusCode resp)
  | None => false
  end.

(** The retry loop of [tryGroupResilient]. *)
Fixpoint resilient_loop (fuel : nat) (g : providerGroup) (a : try_args) (attempts : list AttemptEvidence)
    (connRetries : nat) (temporaryRetried mapped451Retry : bool) : prog presult :=
  match fuel with
  | O => NoFuel
  | S fuel =>
      let! (resp, ok, cancelled) := ask (QTry g a) in
      let attempts := attempts ++ rs_Attempts resp in
      let resp' := resp <| rs_Attempts := cloneAttempts attempts |> in
      if cancelled || negb ok then Ret (resp', ok, cancelled)
      else if ta_hasWriter a && attemptCommittedResp resp then Ret (resp', ok, cancelled)
      else if Is (rs_Err resp) (TSentinel errFreshTransportRequired)
      then resilient_loop fuel g a attempts connRetries temporaryRetried mapped451Retry
      else if negb temporaryRetried && is_nil (rs_Err resp) && (rs_StatusCode resp =? 451) then
        let mapped451Retry := maps451 resp in
        let! fired := ask QBackoff in
        if (fired : bool) then resilient_loop fuel g (a <| ta_freshTransport := true |>) attempts connRetries true mapped451Retry
        else Ret (resp', true, true)
      else if mapped451Retry && isConnectionDeathError (rs_Err resp) then Ret (resp', ok, cancelled)
      else if (connRetries <? maxConnDiedRetries)%nat && isConnectionDeathError (rs_Err resp)
      then resilient_loop fuel g a attempts (S connRetries) temporaryRetried mapped451Retry
      else Ret (resp', ok, cancelled)
  end.

Definition tryGroupResilient (fuel : nat) (g : providerGroup) (a : try_args) : prog presult :=
  let! (lease, breakerErr) := ask (QAcquire g) in
  match breakerErr with
  | Some _ =>
      let! (e : error) := ask QCtxErr in
      if negb (is_nil e) then refused g a e false true
      else
        let! e := ask QPoolCtxErr in
        if negb (is_nil e) then refused g a e false true
        else refused g a breakerErr true false
  | None =>
      let a := if lease_probe lease then a <| ta_freshTransport := true |> else a in
      let! (resp, ok, cancelled) := resilient_loop fuel g a [] 0 false false in
      ask (QComplete g lease (classifyCircuitBreakerCompletion resp ok cancelled)) ;!
      Ret (resp, ok, cancelled)
  end.
End Group.

(** ** The router *)

(** Programs that may fork attempts on providers. *)
Abbreviation probe := (prog ans Empty_set Empty_set presult).
Abbreviation router := (prog ans probe presult).

(** [c.RemoveProvider(g.name)] and the reconnect it schedules. *)
Definition remove_provider (g : providerGroup) : router unit :=
  ask (QRemove (g_name g)) ;!
  if 0 <? g_ReconnectDelay g then ask (QReconnect g) else Ret tt.

(** Evidence for a provider that is over its quota. *)
Definition quota_evidence (g : providerGroup) (a : try_args) : router (error * AttemptEvidence) :=
  let err := named g (Some (ESentinel ErrQuotaExceeded)) in
  let! now := ask QNow in
  Ret (err, buildEligibilityEvidence (ta_payload a) (g_id g) err (ta_validateBody a) now).

(** The first loop of [raceCandidates]. *)
Fixpoint live_candidates (candidates : list providerGroup) (a : try_args) (lastErr : error)
    (attempts : list AttemptEvidence) : router (list providerGroup * error * list AttemptEvidence) :=
  match candidates with
  | [] => Ret ([], lastErr, attempts)
  | g :: rest =>
      let! exceeded := ask (QQuota g) in
      if (exceeded : bool) then
        let! (err, ev) := quota_evidence g a in
        live_candidates rest a err (attempts ++ [ev])
      else
        let! (live, lastErr, attempts) := live_candidates rest a lastErr attempts in
        Ret (g :: live, lastErr, attempts)
  end.

(** What [raceCandidates] returns: delivered, cancelled, the last error; with
    the attempts so far. *)
Definition race_result : Type := bool * bool * error * list AttemptEvidence.

Definition deliver (resp : Response) (attempts : list AttemptEvidence) : router unit :=
  ask (QDeliver (resp <| rs_Attempts := cloneAttempts attempts |>)).

(** A single live candidate gets the payload without a probe. *)
Definition race_single (fuel : nat) (g : providerGroup) (a : try_args) (lastErr : error)
    (attempts : list AttemptEvidence) : router race_result :=
  let! (resp, ok, done_) := tryGroupResilient fuel g a in
  let attempts := attempts ++ rs_Attempts resp in
  if (done_ : bool) then Ret (false, true, lastErr, attempts)
  else if negb ok then Ret (false, false, lastErr, attempts)
  else if negb (is_nil (rs_Err resp)) then
    if ta_hasWriter a && attemptCommittedResp resp
    then deliver resp attempts ;! Ret (true, false, None, attempts)
    else Ret (false, false, rs_Err resp, attempts)
  else if rs_StatusCode resp =? 502 then
    remove_provider g ;!
    Ret (false, false, named g (Some ErrServiceUnavailable), attempts)
  else if responseIsHardArticleAbsence resp then
    ask QNextIdx ;! Ret (false, false, lastErr, attempts)
  else deliver resp attempts ;! Ret (true, false, lastErr, attempts).

(** The results of the probes, in configured order: the winners. *)
Fixpoint probe_results (gs : list providerGroup) (rs : list presult) (cancelled : bool)
    (lastErr : error) (attempts : list AttemptEvidence)
  : router (list providerGroup * bool * error * list AttemptEvidence) :=
  match gs, rs with
  | g :: gs, (resp, ok, cancelled_) :: rs =>
      let attempts := attempts ++ rs_Attempts resp in
      if (cancelled_ : bool) then probe_results gs rs true lastErr attempts
      else if negb ok then probe_results gs rs cancelled lastErr attempts
      else if negb (is_nil (rs_Err resp)) then probe_results gs rs cancelled (rs_Err resp) attempts
      else if rs_StatusCode resp =? 502 then
        remove_provider g ;!
        probe_results gs rs cancelled (named g (Some ErrServiceUnavailable)) attempts
      else if responseIsHardArticleAbsence resp then
        ask QNextIdx ;! probe_results gs rs cancelled lastErr attempts
      else if rs_StatusCode resp =? 223 then
        let! (winners, cancelled, lastErr, attempts) := probe_results gs rs cancelled lastErr attempts in
        Ret (g :: winners, cancelled, lastErr, attempts)
      else probe_results gs rs cancelled (named g (toError (rs_StatusCode resp) (rs_Status resp))) attempts
  | _, _ => Ret ([], cancelled, lastErr, attempts)
  end.

(** The providers that confirmed the article, in configured order. *)
Fixpoint try_winners (fuel : nat) (winners : list providerGroup) (a : try_args) (lastErr : error)
    (attempts : list AttemptEvidence) : router race_result :=
  match winners with
  | [] => Ret (false, false, lastErr, attempts)
  | g :: rest =>
      let! (resp, ok, done_) := tryGroupResilient fuel g a in
      let attempts := attempts ++ rs_Attempts resp in
      if (done_ : bool) then Ret (false, true, lastErr, attempts)
      else if negb ok then try_winners fuel rest a lastErr attempts
      else if negb (is_nil (rs_Err resp)) then
        if ta_hasWriter a && attemptCommittedResp resp
        then deliver resp attempts ;! Ret (true, false, None, attempts)
        else try_winners fuel rest a (rs_Err resp) attempts
      else if responseIsHardArticleAbsence resp then
        ask QNextIdx ;! try_winners fuel rest a lastErr attempts
      else if rs_StatusCode resp =? 502 then
        remove_provider g ;!
        try_winners fuel rest a (named g (Some ErrServiceUnavailable)) attempts
      else if (rs_StatusCode resp <? 200) || (400 <=? rs_StatusCode resp) then
        try_winners fuel rest a (named g (toError (rs_StatusCode resp) (rs_Status resp))) attempts
      else deliver resp attempts ;! Ret (true, false, lastErr, attempts)
  end.

(** The arguments of a STAT probe. *)
Definition probe_args (statPayload : bytes) : try_args := mkTry statPayload false true false false.

Definition raceCandidates (fuel : nat) (candidates : list providerGroup) (statPayload : bytes)
    (a : try_args) (attempts : list AttemptEvidence) : router race_result :=
  let a := a <| ta_priority := true |> <| ta_freshTransport := false |> in
  let! (live, lastErr, attempts) := live_candidates candidates a None attempts in
  match live with
  | [] => Ret (false, false, lastErr, attempts)
  | [g] => race_single fuel g a lastErr attempts
  | _ =>
      Fork ((fun g => tryGroupResilient fuel g (probe_args statPayload)) <$> live) (fun results =>
        let! (winners, cancelled, lastErr, attempts) := probe_results live results false lastErr attempts in
        if (cancelled : bool) then Ret (false, true, lastErr, attempts)
        else match winners with
             | [] => Ret (false, false, lastErr, attempts)
             | _ => try_winners fuel winners a lastErr attempts
             end)
  end.

(** *** Choosing the first provider *)

Fixpoint max_speed (gs : list providerGroup) (m : float64) : router float64 :=
  match gs with
  | [] => Ret m
  | g :: gs => let! s := ask (QSpeed g) in max_speed gs (if flt m s then s else m)
  end.

Fixpoint weights (gs : list providerGroup) (speedAware : bool) (maxSpeed : float64) : router (list Z) :=
  match gs with
  | [] => Ret []
  | g :: gs =>
      let! exceeded := ask (QQuota g) in
      let! w :=
        if (exceeded : bool) then Ret 0
        else
          let! available := ask (QAvailable g) in
          if speedAware && flt f0 maxSpeed then
            let! s := ask (QSpeed g) in
            Ret (provider_weight false available (Some (speedScore s maxSpeed)))
          else Ret (provider_weight false available None) in
      let! ws := weights gs speedAware maxSpeed in
      Ret (w :: ws)
  end.

(** [dispatchWeights]; the cumulative weights are [cumulate] of the result. *)
Definition dispatchWeights (mains : list providerGroup) (speedAware : bool) : router (list Z) :=
  let! maxSpeed := if (speedAware : bool) then max_speed mains f0 else Ret f0 in
  weights mains speedAware maxSpeed.

Fixpoint fifo_start (gs : list providerGroup) (i : nat) : router nat :=
  match gs with
  | [] => Ret 0%nat
  | g :: gs =>
      let! available := ask (QAvailable g) in
      if 0 <? available then
        let! exceeded := ask (QQuota g) in
        if (exceeded : bool) then fifo_start gs (S i) else Ret i
      else fifo_start gs (S i)
  end.

Definition choose_start (cfg : client_cfg) (mains : list providerGroup) : router nat :=
  match c_dispatch cfg with
  | DispatchFIFO => fifo_start mains 0
  | DispatchRoundRobin =>
      let! ws := dispatchWeights mains (c_speedAware cfg) in
      if total_weight ws =? 0 then Ret 0%nat
      else
        let! v := ask QNextIdx in
        Ret (pick ws (v mod total_weight ws))
  end.

(** [(start+attempt) % n] for [attempt] from 0. *)
Definition rotate (start : nat) (gs : list providerGroup) : list providerGroup := drop start gs ++ take start gs.

(** *** Sending *)

(** [extractProbeMsgID]; [None] is the nil slice. *)
Definition index_byte (b : byte) (s : bytes) : option nat := index_of [b] s.

Definition lower_is (s : bytes) (i : nat) (c : Z) : bool :=
  match nth_error s i with Some b => Z.lor (bval b) 32 =? c | None => false end.

Definition starts_with_word (s : bytes) (a b c d : Z) : bool :=
  (4 <=? zlen s) && lower_is s 0 a && lower_is s 1 b && lower_is s 2 c && lower_is s 3 d.

Definition extractProbeMsgID (payload : bytes) : option bytes :=
  if zlen payload =? 0 then None
  else if starts_with_word payload 115 116 97 116 then None
  else if starts_with_word payload 112 111 115 116 then None
  else match index_byte x3c payload with
       | None => None
       | Some open =>
           match index_byte x3e (drop open payload) with
           | None => None
           | Some close => Some (take (close + 1) (drop open payload))
           end
       end.

(** The variables of [doSendWithRetry]; [hasResp] is [lastResp] not being [None]. *)
Record send_state := mkSend {
  ss_lastResp : option Response;
  ss_lastErr : error;
  ss_attempts : list AttemptEvidence;
  ss_post430 : bool
}.

#[export] Instance eta_send_state : Eta send_state := fun s =>
  mkSend (ss_lastResp s) (ss_lastErr s) (ss_attempts s) (ss_post430 s).

(** [respCh <- cancellationResponse(attempts, err)], with whichever context is done. *)
Definition deliver_cancelled (attempts : list AttemptEvidence) : router unit :=
  let! (e : error) := ask QCtxErr in
  let! err := (if is_nil e then ask QPoolCtxErr else Ret e : router error) in
  ask (QDeliver (cancellationResponse attempts err)).

Section Send.
Context (fuel : nat) (cfg : client_cfg) (payload : bytes) (hasWriter priority validateBody : bool).

Definition send_args (prio : bool) : try_args := mkTry payload hasWriter prio validateBody false.

Definition msgID : option bytes := extractProbeMsgID payload.
Definition raceable : bool := c_statProbe cfg && match msgID with Some _ => true | None => false end.
Definition statPayload : bytes :=
  match msgID with Some id => bs "STAT " ++ id ++ crlf | None => [] end.

(** The race over [candidates]: [None] when the response has been delivered. *)
Definition race_and_continue (candidates : list providerGroup) (st : send_state) : router (option send_state) :=
  let! (delivered, cancelled, raceErr, attempts) :=
    raceCandidates fuel candidates statPayload (send_args priority) (ss_attempts st) in
  let st := st <| ss_attempts := attempts |> in
  if (cancelled : bool) then deliver_cancelled attempts ;! Ret None
  else if (delivered : bool) then Ret None
  else Ret (Some (if is_nil raceErr then st else st <| ss_lastErr := raceErr |>)).

(** The loop over the main providers, in rotated order; [None] when the response
    has been delivered. *)
Fixpoint send_mains (gs : list providerGroup) (st : send_state) : router (option send_state) :=
  match gs with
  | [] => Ret (Some st)
  | g :: rest =>
      let! exceeded := ask (QQuota g) in
      if (exceeded : bool) then
        let! (err, ev) := quota_evidence g (send_args priority) in
        send_mains rest (st <| ss_lastErr := err |> <| ss_attempts := ss_attempts st ++ [ev] |>)
      else
        let! (resp, ok, cancelled) := tryGroupResilient fuel g (send_args (priority || ss_post430 st)) in
        let attempts := ss_attempts st ++ rs_Attempts resp in
        let st := st <| ss_attempts := attempts |> in
        if (cancelled : bool) then deliver_cancelled attempts ;! Ret None
        else if negb ok then send_mains rest st
        else if negb (is_nil (rs_Err resp)) then
          if hasWriter && attemptCommittedResp resp then deliver resp attempts ;! Ret None
          else send_mains rest (st <| ss_lastErr := rs_Err resp |>)
        else if rs_StatusCode resp =? 502 then
          remove_provider g ;!
          send_mains rest (st <| ss_lastErr := named g (Some ErrServiceUnavailable) |>)
        else if responseIsHardArticleAbsence resp then
          ask QNextIdx ;!
          let st := st <| ss_lastResp := Some resp |> <| ss_post430 := true |> in
          if raceable then race_and_continue rest st
          else send_mains rest st
        else if (rs_StatusCode resp <? 200) || (400 <=? rs_StatusCode resp) then
          send_mains rest (st <| ss_lastErr := named g (toError (rs_StatusCode resp) (rs_Status resp)) |>)
        else deliver resp attempts ;! Ret None
  end.

(** The loop over the backup providers. *)
Fixpoint send_backups (gs : list providerGroup) (st : send_state) : router (option send_state) :=
  match gs with
  | [] => Ret (Some st)
  | g :: rest =>
      let! exceeded := ask (QQuota g) in
      if (exceeded : bool) then
        let! (err, ev) := quota_evidence g (send_args priority) in
        send_backups rest (st <| ss_lastErr := err |> <| ss_attempts := ss_attempts st ++ [ev] |>)
      else
        let! (resp, ok, cancelled) := tryGroupResilient fuel g (send_args (priority || ss_post430 st)) in
        let attempts := ss_attempts st ++ rs_Attempts resp in
        let st := st <| ss_attempts := attempts |> in
        if (cancelled : bool) then deliver_cancelled attempts ;! Ret None
        else if negb ok then send_backups rest st
        else if negb (is_nil (rs_Err resp)) then
          if hasWriter && attemptCommittedResp resp then deliver resp attempts ;! Ret None
          else send_backups rest (st <| ss_lastErr := rs_Err resp |>)
        else if rs_StatusCode resp =? 502 then
          remove_provider g ;!
          send_backups rest (st <| ss_lastErr := named g (Some ErrServiceUnavailable) |>)
        else
          let resp := resp <| rs_Attempts := cloneAttempts attempts |> in
          if responseIsHardArticleAbsence resp then send_backups rest (st <| ss_lastResp := Some resp |>)
          else if (rs_StatusCode resp <? 200) || (400 <=? rs_StatusCode resp) then
            send_backups rest (st <| ss_lastErr := named g (toError (rs_StatusCode resp) (rs_Status resp)) |>)
          else ask (QDeliver resp) ;! Ret None
  end.

(** The last section: nothing succeeded. *)
Definition deliver_exhausted (st : send_state) : router unit :=
  match ss_lastErr st with
  | Some _ =>
      deliver (errResponse (Some (newTransportError (ss_attempts st) (ss_lastErr st)))) (ss_attempts st)
  | None =>
      match ss_lastResp st with
      | Some resp => deliver resp (ss_attempts st)
      | None => ask (QDeliver (errResponse (Some (EOpaque "nntp: all providers exhausted"))))
      end
  end.

Definition send_after_mains (st : send_state) : router unit :=
  let! backups := ask (QLoad true) in
  let! st := if raceable && ss_post430 st then race_and_continue backups st else send_backups backups st in
  match st with
  | None => Ret tt
  | Some st => deliver_exhausted st
  end.

Definition doSendWithRetry : router unit :=
  let! mains := ask (QLoad false) in
  match mains with
  | [] => ask (QDeliver (errResponse (Some (EOpaque "nntp: no main providers"))))
  | _ =>
      let! start := choose_start cfg mains in
      let! st := send_mains (rotate start mains) (mkSend None None [] false) in
      match st with
      | None => Ret tt
      | Some st => send_after_mains st
      end
  end.
End Send.

(** *** Entry points

    Each starts a goroutine that runs the router with a response channel of its own;
    [onMeta] is not modelled. *)

Definition sendWithRetry (fuel : nat) (cfg : client_cfg) (payload : bytes) (hasWriter : bool) : router unit :=
  doSendWithRetry fuel cfg payload hasWriter false false.

Definition Send (fuel : nat) (cfg : client_cfg) (payload : bytes) (hasWriter : bool) : router unit :=
  sendWithRetry fuel cfg payload hasWriter.

Definition SendPriority (fuel : nat) (cfg : client_cfg) (payload : bytes) (hasWriter : bool) : router unit :=
  doSendWithRetry fuel cfg payload hasWriter true false.

Definition sendValidatedBody (fuel : nat) (cfg : client_cfg) (payload : bytes) (hasWriter priority : bool) : router unit :=
  doSendWithRetry fuel cfg payload hasWriter priority true.
