(* ===== verification/Registry.v ===== *)
(** The providers of a client ([nntp.go]: [NewClient], [startProviderGroup],
    [AddProvider], [RemoveProvider], [scheduleReconnect], [ResetProviderQuota],
    [Close]): validation and names, the limits of a provider's connections, and the
    lists of main and backup providers.

    Pings and the clock are arguments.  Calls of [AddProvider] and [RemoveProvider], and
    the reconnects, are step machines ([edit], [edit_step]) whose steps interleave
    ([registry_step]), one step per access to a shared list; the other operations
    change no list and are one step each. *)
From stdpp Require Import pretty.
From S2P Require Import Prelude Errors CircuitBreaker Reader ReadBuffer Evidence Framing Handshake ReaderControl Prog Dispatch Stats Pipeline PipelineSys Connection Gate Pool.

(** ** Configuration *)

(** [Provider]; [pv_Factory] is whether a factory is set, [pv_QuotaResetAt] is
    [None] for the zero time. *)
Record Provider := mkProvider {
  pv_ID : string;
  pv_Host : string;
  pv_Username : string;
  pv_Connections : Z;
  pv_Inflight : Z;
  pv_StatInflight : Z;
  pv_BackgroundStatInflight : Z;
  pv_PriorityHeadroom : Z;
  pv_Factory : bool;
  pv_Backup : bool;
  pv_SkipPing : bool;
  pv_ThrottleRestore : Z;
  pv_ReconnectDelay : Z;
  pv_Response451Policy : Z;
  pv_AttemptTimeout : Z;
  pv_StallTimeout : Z;
  pv_AbandonedBodyDrainBytes : Z;
  pv_AbandonedBodyDrainTimeout : Z;
  pv_KeepaliveInterval : Z;
  pv_KeepaliveCommand : string;
  pv_QuotaBytes : Z;
  pv_QuotaPeriod : Z;
  pv_QuotaUsed : Z;
  pv_QuotaResetAt : option Z
}.

#[export] Instance eta_Provider : Eta Provider := fun p =>
  mkProvider (pv_ID p) (pv_Host p) (pv_Username p) (pv_Connections p) (pv_Inflight p) (pv_StatInflight p)
    (pv_BackgroundStatInflight p) (pv_PriorityHeadroom p) (pv_Factory p) (pv_Backup p) (pv_SkipPing p)
    (pv_ThrottleRestore p) (pv_ReconnectDelay p) (pv_Response451Policy p) (pv_AttemptTimeout p)
    (pv_StallTimeout p) (pv_AbandonedBodyDrainBytes p) (pv_AbandonedBodyDrainTimeout p)
    (pv_KeepaliveInterval p) (pv_KeepaliveCommand p) (pv_QuotaBytes p) (pv_QuotaPeriod p) (pv_QuotaUsed p)
    (pv_QuotaResetAt p).

Definition resolveProviderName (p : Provider) (index : Z) : string :=
  if negb (String.eqb (pv_Host p) "") then
    if negb (String.eqb (pv_Username p) "") then (pv_Host p +:+ "+" +:+ pv_Username p)%string else pv_Host p
  else ("provider-" +:+ pretty index)%string.

Definition resolveProviderID (p : Provider) (index : Z) : string :=
  if negb (String.eqb (pv_ID p) "") then pv_ID p else resolveProviderName p index.

(** The known policies are 0 and 1. *)
Definition validateResponse451Policy (policy : Z) : error :=
  if decide (policy = 0 \/ policy = 1) then None
  else Some (EWrap "unknown 451 response policy" (ESentinel ErrInvalidProviderConfiguration)).

(** The checks [NewClient] and [AddProvider] share. *)
Definition checkProvider (p : Provider) : error :=
  match validateResponse451Policy (pv_Response451Policy p) with
  | Some e => Some e
  | None =>
      if pv_Connections p <=? 0 then Some (EOpaque "nntp: provider connections must be > 0")
      else if negb (pv_Factory p) && String.eqb (pv_Host p) ""
      then Some (EOpaque "nntp: provider must have Host or Factory")
      else None
  end.

(** *** Limits *)

(** What [startProviderGroup] passes to the slots of a provider. *)
Record slot_limits := mkLimits {
  sl_inflight : Z;
  sl_statInflight : Z;
  sl_backgroundStatInflight : Z;
  sl_priorityHeadroom : Z;
  sl_stall : Z;
  sl_drainBytes : Z;
  sl_drainTimeout : Z;
  sl_kaInterval : Z;
  sl_kaCommand : string
}.

Definition defaultStallTimeout : Z := 8 * 1000000000.

Definition resolveLimits (p : Provider) : slot_limits :=
  let inflight := if pv_Inflight p <=? 0 then 1 else pv_Inflight p in
  let statInflight := if pv_StatInflight p <? inflight then inflight else pv_StatInflight p in
  let headroom := Z.max (pv_PriorityHeadroom p) 0 in
  let headroom := if statInflight <=? headroom then statInflight - 1 else headroom in
  let background := if pv_BackgroundStatInflight p <=? 0 then statInflight else pv_BackgroundStatInflight p in
  let background := Z.min background (statInflight - headroom) in
  let stall := if pv_StallTimeout p =? 0 then defaultStallTimeout
               else if pv_StallTimeout p <? 0 then 0 else pv_StallTimeout p in
  let drainBytes := if pv_AbandonedBodyDrainBytes p <=? 0 then defaultAbandonedBodyDrainBytes
                    else pv_AbandonedBodyDrainBytes p in
  let drainTimeout := if pv_AbandonedBodyDrainTimeout p <=? 0 then defaultAbandonedBodyDrainTimeout
                      else pv_AbandonedBodyDrainTimeout p in
  let '(kaInterval, kaCommand) :=
    if (0 <? pv_KeepaliveInterval p) && String.eqb (pv_KeepaliveCommand p) "" then
      if pv_SkipPing p then (0, ""%string) else (pv_KeepaliveInterval p, "DATE"%string)
    else (pv_KeepaliveInterval p, pv_KeepaliveCommand p) in
  mkLimits inflight statInflight background headroom stall drainBytes drainTimeout kaInterval kaCommand.

(** ** Groups *)

(** [providerGroup]: its identity and configuration, its gate, breaker, counters
    and quota, and the limits shown in its statistics. *)
Record group := mkGroupState {
  gr_group : providerGroup;
  gr_p : Provider;
  gr_limits : slot_limits;
  gr_gate : connGate;
  gr_breaker : providerCircuitBreaker;
  gr_quota : groupQuota;
  gr_pipelineLimit : Z;
  gr_backgroundStatLimit : Z;
  gr_headroomLimit : Z;
  gr_Ping : PingResult;
  gr_stopped : bool
}.

#[export] Instance eta_group : Eta group := fun g =>
  mkGroupState (gr_group g) (gr_p g) (gr_limits g) (gr_gate g) (gr_breaker g) (gr_quota g) (gr_pipelineLimit g)
    (gr_backgroundStatLimit g) (gr_headroomLimit g) (gr_Ping g) (gr_stopped g).

Definition gr_name (g : group) : string := g_name (gr_group g).
Definition gr_id (g : group) : string := g_id (gr_group g).

(** The clock's readings, the outcome of the ping ([pingProvider]), and the breaker's
    address. *)
Record start_env := mkStart { se_now : Z; se_now' : Z; se_ping : PingResult; se_breaker : nat }.

(** The zero [PingResult], for a provider that is not pinged. *)
Definition no_ping : PingResult := mkPing 0 None None.

Definition startProviderGroup (breakerOn : bool) (p : Provider) (index : Z) (e : start_env) : group :=
  let l := resolveLimits p in
  let q := startQuota (pv_QuotaBytes p) (pv_QuotaUsed p) (pv_QuotaPeriod p) (pv_QuotaResetAt p) (se_now e) (se_now' e) in
  let ping := if pv_SkipPing p then no_ping else se_ping e in
  let q := if negb (pv_SkipPing p) && is_nil (pg_Err ping) && (0 <? pg_RTT ping)
           then q <| q_stats ::= fun s => s <| st_ttfbEWMA := pg_RTT ping |> |> else q in
  mkGroupState (mkGroup (resolveProviderName p index) (resolveProviderID p index) (pv_ReconnectDelay p)) p l
    (newConnGate (pv_Connections p) (pv_ThrottleRestore p)) (newProviderCircuitBreaker (se_breaker e) breakerOn) q
    (wrap64 (sl_statInflight l * pv_Connections p)) (wrap64 (sl_backgroundStatInflight l * pv_Connections p))
    (wrap64 (sl_priorityHeadroom l * pv_Connections p)) ping false.

(** ** The client's lists *)

(** The parts of [Client] its operations on providers use. *)
Record registry := mkRegistry {
  rg_cfg : client_cfg;
  rg_breakerOn : bool;
  rg_mains : list group;
  rg_backups : list group;
  rg_providerIdx : Z;
  rg_closed : bool
}.

#[export] Instance eta_registry : Eta registry := fun r =>
  mkRegistry (rg_cfg r) (rg_breakerOn r) (rg_mains r) (rg_backups r) (rg_providerIdx r) (rg_closed r).

Definition all_groups (r : registry) : list group := rg_mains r ++ rg_backups r.

(** [clientConfig] and its options. *)
Record clientConfig := mkConfig {
  cf_dispatch : DispatchStrategy;
  cf_statProbeOff : bool;
  cf_speedAwareOff : bool;
  cf_circuitBreakerEnabled : bool
}.

#[export] Instance eta_clientConfig : Eta clientConfig := fun c =>
  mkConfig (cf_dispatch c) (cf_statProbeOff c) (cf_speedAwareOff c) (cf_circuitBreakerEnabled c).

Definition WithDispatchStrategy (s : DispatchStrategy) (c : clientConfig) : clientConfig := c <| cf_dispatch := s |>.
Definition WithStatProbe (enabled : bool) (c : clientConfig) : clientConfig := c <| cf_statProbeOff := negb enabled |>.
Definition WithSpeedAwareDispatch (enabled : bool) (c : clientConfig) : clientConfig :=
  c <| cf_speedAwareOff := negb enabled |>.
Definition WithProviderCircuitBreaker (enabled : bool) (c : clientConfig) : clientConfig :=
  c <| cf_circuitBreakerEnabled := enabled |>.

Definition newConfig (opts : list (clientConfig -> clientConfig)) : clientConfig :=
  fold_left (fun c opt => opt c) opts (mkConfig DispatchRoundRobin false false false).

(** The validation loop of [NewClient], from index [i]. *)
Fixpoint validate_from (i : Z) (ps : list Provider) (seen seenIDs : gset string) : error :=
  match ps with
  | [] => None
  | p :: ps =>
      match checkProvider p with
      | Some e => Some e
      | None =>
          let name := resolveProviderName p i in
          if decide (name ∈ seen) then Some (EOpaque "nntp: provider already exists")
          else
            let id := resolveProviderID p i in
            if decide (id ∈ seenIDs) then Some (EOpaque "nntp: provider ID already exists")
            else validate_from (i + 1) ps ({[name]} ∪ seen) ({[id]} ∪ seenIDs)
      end
  end.

Fixpoint start_from (breakerOn : bool) (i : Z) (ps : list Provider) (env : Z -> start_env) : list group :=
  match ps with
  | [] => []
  | p :: ps => startProviderGroup breakerOn p i (env i) :: start_from breakerOn (i + 1) ps env
  end.

(** The client over its started groups. *)
Definition openRegistry (cfg : clientConfig) (gs : list group) : registry :=
  mkRegistry (mkClientCfg (cf_dispatch cfg) (negb (cf_statProbeOff cfg)) (negb (cf_speedAwareOff cfg)))
    (cf_circuitBreakerEnabled cfg)
    (List.filter (fun g => negb (pv_Backup (gr_p g))) gs) (List.filter (fun g => pv_Backup (gr_p g)) gs) 0 false.

(** [env] gives the clock and the ping for each provider. *)
Definition NewClient (providers : list Provider) (opts : list (clientConfig -> clientConfig)) (env : Z -> start_env)
  : registry + gerror :=
  match providers with
  | [] => inr (EOpaque "nntp: at least one provider is required")
  | _ =>
      if negb (existsb (fun p => negb (pv_Backup p)) providers)
      then inr (EOpaque "nntp: at least one non-backup provider is required")
      else match validate_from 0 providers ∅ ∅ with
      | Some e => inr e
      | None =>
          let cfg := newConfig opts in
          inl (openRegistry cfg (start_from (cf_circuitBreakerEnabled cfg) 0 providers env))
      end
  end.

(** The copy of a loaded list with the group at its end is stored. *)
Definition storeList (backup : bool) (gs : list group) (r : registry) : registry :=
  if backup then r <| rg_backups := gs |> else r <| rg_mains := gs |>.

Definition storeProvider (old : list group) (g : group) (r : registry) : registry :=
  storeList (pv_Backup (gr_p g)) (old ++ [g]) r.

Definition list_of (backup : bool) (r : registry) : list group := if backup then rg_backups r else rg_mains r.

(** The first group of that name is taken out. *)
Fixpoint remove_named (name : string) (gs : list group) : option (group * list group) :=
  match gs with
  | [] => None
  | g :: gs =>
      if String.eqb (gr_name g) name then Some (g, gs)
      else match remove_named name gs with Some (x, rest) => Some (x, g :: rest) | None => None end
  end.

(** The first group of that name is changed. *)
Fixpoint update_named (name : string) (f : group -> group) (gs : list group) : option (list group) :=
  match gs with
  | [] => None
  | g :: gs => if String.eqb (gr_name g) name then Some (f g :: gs) else option_map (cons g) (update_named name f gs)
  end.

Definition provider_not_found (name : string) : gerror := EOpaque ("nntp: provider not found: " +:+ name)%string.

(** [g.cancel()] and [g.gate.stop()]. *)
Definition stopGroup (g : group) : group := g <| gr_stopped := true |> <| gr_gate ::= stop |>.
Definition stop_named (name : string) (gs : list group) : list group :=
  default gs (update_named name stopGroup gs).

(** A group in [gs] has that name or that identity. *)
Definition clashes (name id : string) (gs : list group) : bool :=
  existsb (fun g => String.eqb (gr_name g) name || String.eqb (gr_id g) id) gs.

(** A call of [AddProvider] or [RemoveProvider] and the point it has reached.  The
    calls take no lock: what one does is split at each of its accesses to the shared
    lists and to the shared counter. *)
Inductive edit :=
| AddCalled (p : Provider)
| AddCounted (p : Provider) (idx : Z)
| AddMains (p : Provider) (idx : Z) (mains : list group)
| AddStarted (g : group)
| AddLoaded (g : group) (old : list group)
| RemoveCalled (name : string)
| RemoveMissed (name : string)
| RemoveFound (backup : bool) (rest : list group)
| EditDone (err : error).

(** A step of a call: it checks the configuration and draws a number; loads the main
    list; loads the backup list, looks for a clash and starts (and pings) the group;
    loads the list the group goes into; stores the longer copy.  A removal loads a
    list, finds the group and stops it; then it stores the shorter copy. *)
Definition edit_step (e : start_env) (c : edit) (r : registry) : edit * registry :=
  match c with
  | AddCalled p =>
      match checkProvider p with
      | Some err => (EditDone (Some err), r)
      | None => let idx := rg_providerIdx r + 1 in (AddCounted p idx, r <| rg_providerIdx := idx |>)
      end
  | AddCounted p idx => (AddMains p idx (rg_mains r), r)
  | AddMains p idx mains =>
      if clashes (resolveProviderName p idx) (resolveProviderID p idx) (mains ++ rg_backups r)
      then (EditDone (Some (EOpaque "nntp: provider already exists")), r)
      else (AddStarted (startProviderGroup (rg_breakerOn r) p idx e), r)
  | AddStarted g => (AddLoaded g (list_of (pv_Backup (gr_p g)) r), r)
  | AddLoaded g old => (EditDone None, storeProvider old g r)
  | RemoveCalled name =>
      match remove_named name (rg_mains r) with
      | Some (_, rest) => (RemoveFound false rest, r <| rg_mains ::= stop_named name |>)
      | None => (RemoveMissed name, r)
      end
  | RemoveMissed name =>
      match remove_named name (rg_backups r) with
      | Some (_, rest) => (RemoveFound true rest, r <| rg_backups ::= stop_named name |>)
      | None => (EditDone (Some (provider_not_found name)), r)
      end
  | RemoveFound backup rest => (EditDone None, storeList backup rest r)
  | EditDone err => (EditDone err, r)
  end.

(** A call nothing else happens during: five steps at most. *)
Fixpoint edit_alone (n : nat) (e : start_env) (c : edit) (r : registry) : error * registry :=
  match c, n with
  | EditDone err, _ => (err, r)
  | _, O => (Some (EOpaque "unfinished"), r)
  | _, S n => let (c, r) := edit_step e c r in edit_alone n e c r
  end.

Definition AddProvider (p : Provider) (e : start_env) (r : registry) : error * registry :=
  edit_alone 5 e (AddCalled p) r.
Definition RemoveProvider (name : string) (e : start_env) (r : registry) : error * registry :=
  edit_alone 5 e (RemoveCalled name) r.

(** The goroutine of [scheduleReconnect]: it adds the provider again after the delay;
    of a client that is closed meanwhile the wait may end without that. *)
Definition scheduleReconnect (g : group) (elapsed : bool) : option edit :=
  if elapsed then Some (AddCalled (gr_p g)) else None.

Definition ResetProviderQuota (name : string) (now : Z) (r : registry) : error * registry :=
  let reset g := g <| gr_quota ::= fun q => resetQuota q now |> in
  match update_named name reset (rg_mains r) with
  | Some gs => (None, r <| rg_mains := gs |>)
  | None =>
      match update_named name reset (rg_backups r) with
      | Some gs => (None, r <| rg_backups := gs |>)
      | None => (Some (provider_not_found name), r)
      end
  end.

(** [Client.Close]; it then waits for the slots. *)
Definition Close (r : registry) : registry :=
  let stop_all := map stopGroup in
  r <| rg_closed := true |> <| rg_mains ::= stop_all |> <| rg_backups ::= stop_all |>.

Definition NumProviders (r : registry) : nat := (length (rg_mains r) + length (rg_backups r))%nat.

(** ** Well-formed registries *)

Definition names (gs : list group) : list string := map gr_name gs.
Definition ids (gs : list group) : list string := map gr_id gs.

#[export] Instance names_perm : Proper (Permutation ==> Permutation) names.
Proof. intros gs gs' H. by apply Permutation_map. Qed.
#[export] Instance ids_perm : Proper (Permutation ==> Permutation) ids.
Proof. intros gs gs' H. by apply Permutation_map. Qed.

Record registry_ok (r : registry) : Prop := {
  ro_names : NoDup (names (all_groups r));
  ro_ids : NoDup (ids (all_groups r));
  ro_checked : Forall (fun g => checkProvider (gr_p g) = None /\ gr_limits g = resolveLimits (gr_p g)) (all_groups r);
  ro_main : Forall (fun g => pv_Backup (gr_p g) = false) (rg_mains r);
  ro_backup : Forall (fun g => pv_Backup (gr_p g) = true) (rg_backups r)
}.

(** Operations that change neither the identity nor the configuration of a group. *)
Definition same_group (g g' : group) : Prop :=
  gr_group g' = gr_group g /\ gr_p g' = gr_p g /\ gr_limits g' = gr_limits g.

Definition same_groups (gs gs' : list group) : Prop := Forall2 same_group gs gs'.

(** The lists a call has loaded share their groups with the client's. *)
Definition same_edit (c c' : edit) : Prop :=
  match c, c' with
  | AddMains p idx gs, AddMains p' idx' gs' => p' = p /\ idx' = idx /\ same_groups gs gs'
  | AddStarted g, AddStarted g' => same_group g g'
  | AddLoaded g gs, AddLoaded g' gs' => same_group g g' /\ same_groups gs gs'
  | RemoveFound b gs, RemoveFound b' gs' => b' = b /\ same_groups gs gs'
  | _, _ => c' = c
  end.

Definition finished_edit (c : edit) : bool := if c is EditDone _ then true else false.
Definition called (c : edit) : bool := match c with AddCalled _ | RemoveCalled _ => true | _ => false end.

(** What can happen to a client's providers, and the calls in progress; a reconnect is
    a call of [AddProvider].  Without [overlap] a call begins when the others are
    over.  [rs_work] is what requests do to the counters, gates and breakers of the
    groups, wherever they are listed. *)
Inductive registry_step (overlap : bool) : registry * list edit -> registry * list edit -> Prop :=
| rs_call r es c :
    called c = true -> (overlap = false -> Forall (fun c => finished_edit c = true) es) ->
    registry_step overlap (r, es) (r, es ++ [c])
| rs_move r es1 c es2 e c' r' :
    edit_step e c r = (c', r') -> registry_step overlap (r, es1 ++ c :: es2) (r', es1 ++ c' :: es2)
| rs_reset r es name now : registry_step overlap (r, es) (snd (ResetProviderQuota name now r), es)
| rs_close r es : registry_step overlap (r, es) (Close r, es)
| rs_work r es mains backups es' :
    same_groups (rg_mains r) mains -> same_groups (rg_backups r) backups -> Forall2 same_edit es es' ->
    registry_step overlap (r, es) (r <| rg_mains := mains |> <| rg_backups := backups |>, es').

Inductive registry_reach (overlap : bool) (providers : list Provider) (opts : list (clientConfig -> clientConfig))
  : registry * list edit -> Prop :=
| rr_new env r : NewClient providers opts env = inl r -> registry_reach overlap providers opts (r, [])
| rr_step st st' :
    registry_reach overlap providers opts st -> registry_step overlap st st' ->
    registry_reach overlap providers opts st'.

(** ** Lemmas *)

Lemma resolveLimits_spec p :
  let l := resolveLimits p in
  1 <= sl_inflight l <= sl_statInflight l /\ 0 <= sl_priorityHeadroom l < sl_statInflight l /\
  1 <= sl_backgroundStatInflight l <= sl_statInflight l - sl_priorityHeadroom l.
Proof.
  unfold resolveLimits. destruct (if _ && _ then _ else _) as [ki kc]. simpl.
  set (i := if pv_Inflight p <=? 0 then _ else _).
  assert (1 <= i) by (unfold i; destruct (Z.leb_spec (pv_Inflight p) 0); lia).
  set (s := if pv_StatInflight p <? i then _ else _).
  assert (i <= s) by (unfold s; destruct (Z.ltb_spec (pv_StatInflight p) i); lia).
  set (h := if s <=? _ then _ else _).
  assert (0 <= h < s) by (unfold h; destruct (Z.leb_spec s (Z.max (pv_PriorityHeadroom p) 0)); lia).
  destruct (Z.leb_spec (pv_BackgroundStatInflight p) 0); split_and!; lia.
Qed.

Lemma resolveLimits_configured p :
  let l := resolveLimits p in
  (0 < pv_Inflight p -> sl_inflight l = pv_Inflight p) /\
  (0 <= pv_PriorityHeadroom p < sl_statInflight l -> sl_priorityHeadroom l = pv_PriorityHeadroom p).
Proof.
  unfold resolveLimits. destruct (if _ && _ then _ else _) as [ki kc]. simpl. split.
  - intros H. destruct (Z.leb_spec (pv_Inflight p) 0); lia.
  - set (s := if _ <? _ then _ else _). intros H. destruct (Z.leb_spec s (Z.max (pv_PriorityHeadroom p) 0)); lia.
Qed.

Lemma start_from_length b i ps env : length (start_from b i ps env) = length ps.
Proof. revert i. induction ps as [|p ps IH]; intros i; [done|]. simpl. by rewrite IH. Qed.

(** The names of providers numbered from [i]. *)
Fixpoint names_from (i : Z) (ps : list Provider) : list string :=
  match ps with [] => [] | p :: ps => resolveProviderName p i :: names_from (i + 1) ps end.
Fixpoint ids_from (i : Z) (ps : list Provider) : list string :=
  match ps with [] => [] | p :: ps => resolveProviderID p i :: ids_from (i + 1) ps end.

Lemma start_from_spec b ps env : forall i,
  let gs := start_from b i ps env in
  names gs = names_from i ps /\ ids gs = ids_from i ps /\ map gr_p gs = ps /\
  Forall (fun g => gr_limits g = resolveLimits (gr_p g)) gs.
Proof.
  induction ps as [|p ps IH]; intros i; [done|]. destruct (IH (i + 1)) as (H1 & H2 & H3 & H4). cbn [start_from].
  split_and!; unfold names, ids in *; simpl; [by rewrite H1|by rewrite H2|by rewrite H3|by constructor].
Qed.

(** The validation loop accepts exactly checked providers with fresh, distinct names
    and identities. *)
Lemma validate_from_spec ps : forall i seen seenIDs,
  validate_from i ps seen seenIDs = None <->
  Forall (fun p => checkProvider p = None) ps /\
  NoDup (names_from i ps) /\ (forall n, n ∈ names_from i ps -> n ∉ seen) /\
  NoDup (ids_from i ps) /\ (forall n, n ∈ ids_from i ps -> n ∉ seenIDs).
Proof.
  induction ps as [|p ps IH]; intros i seen seenIDs; cbn [validate_from names_from ids_from].
  { split; [|done]. intros _. split_and!; try constructor; by intros n ?%elem_of_nil. }
  rewrite Forall_cons_iff, !list.NoDup_cons. destruct (checkProvider p); [naive_solver|].
  case_decide as Hn. { split; [done|]. intros (_ & _ & H & _). exfalso. eapply H; [left|done]. }
  case_decide as Hi. { split; [done|]. intros (_ & _ & _ & _ & H). exfalso. eapply H; [left|done]. }
  rewrite IH. split.
  - intros (H1 & H2 & H3 & H4 & H5). split_and!; try done.
    + intros H. apply (H3 _ H). set_solver.
    + intros n [->|H]%elem_of_cons; [done|]. specialize (H3 n H). set_solver.
    + intros H. apply (H5 _ H). set_solver.
    + intros n [->|H]%elem_of_cons; [done|]. specialize (H5 n H). set_solver.
  - intros ((_ & H1) & (H2 & H3) & H4 & (H5 & H6) & H7). split_and!; try done.
    + intros n H. rewrite elem_of_union, elem_of_singleton. intros [->|Hs]; [done|]. eapply H4; [right; exact H|done].
    + intros n H. rewrite elem_of_union, elem_of_singleton. intros [->|Hs]; [done|]. eapply H7; [right; exact H|done].
Qed.

Lemma filter_split {A} (b : A -> bool) l :
  Permutation (List.filter (fun x => negb (b x)) l ++ List.filter b l) l.
Proof.
  induction l as [|x l IH]; [done|]. simpl. destruct (b x); simpl; [|by constructor].
  rewrite <- Permutation_middle. by constructor.
Qed.

Lemma filter_main_p (b : Provider -> bool) gs : 
  map gr_p (List.filter (fun g => b (gr_p g)) gs) = List.filter b (map gr_p gs).
Proof. induction gs as [|g gs IH]; [done|]. simpl. destruct (b (gr_p g)); simpl; by rewrite IH. Qed.

Lemma remove_named_Some name gs g rest :
  remove_named name gs = Some (g, rest) ->
  gr_name g = name /\ exists l1 l2, gs = l1 ++ g :: l2 /\ rest = l1 ++ l2 /\ (name ∉ names l1).
Proof.
  revert rest. induction gs as [|x gs IH]; intros rest H; [done|]. simpl in H.
  destruct (String.eqb_spec (gr_name x) name) as [E|E].
  - simplify_eq. split; [done|]. exists [], rest. split_and!; try done. apply not_elem_of_nil.
  - destruct (remove_named name gs) as [[y l]|] eqn:Er; [|done]. simplify_eq.
    destruct (IH l eq_refl) as (Hn & l1 & l2 & -> & -> & Hl). split; [done|]. exists (x :: l1), l2.
    split_and!; try done. simpl. rewrite elem_of_cons. naive_solver.
Qed.

Lemma remove_named_None name gs : remove_named name gs = None <-> name ∉ names gs.
Proof.
  induction gs as [|x gs IH]; simpl; [split; [intros _; apply not_elem_of_nil|done]|].
  rewrite elem_of_cons. destruct (String.eqb_spec (gr_name x) name) as [E|E].
  - split; [done|]. intros H. exfalso. apply H. by left.
  - destruct (remove_named name gs) as [[y l]|]; [split; [done|]|]; naive_solver.
Qed.

Lemma update_named_spec name f gs gs' :
  update_named name f gs = Some gs' -> exists l1 g l2, gs = l1 ++ g :: l2 /\ gs' = l1 ++ f g :: l2.
Proof.
  revert gs'. induction gs as [|x gs IH]; intros gs' H; [done|]. simpl in H. destruct (String.eqb _ _).
  - simplify_eq. by exists [], x, gs.
  - destruct (update_named name f gs) as [l|]; [|done]. simplify_eq/=.
    destruct (IH l eq_refl) as (l1 & g & l2 & -> & ->). by exists (x :: l1), g, l2.
Qed.

Lemma same_groups_spec gs gs' :
  same_groups gs gs' ->
  names gs' = names gs /\ ids gs' = ids gs /\ map gr_p gs' = map gr_p gs /\ map gr_limits gs' = map gr_limits gs.
Proof.
  induction 1 as [|g g' gs gs' (H1 & H2 & H3) _ (IH1 & IH2 & IH3 & IH4)]; [done|]. unfold names, ids, gr_name, gr_id in *.
  simpl. by rewrite H1, H2, H3, IH1, IH2, IH3, IH4.
Qed.

Lemma Forall_gr_p (P : Provider -> Prop) gs : Forall (fun g => P (gr_p g)) gs <-> Forall P (map gr_p gs).
Proof. by rewrite Forall_fmap. Qed.

Lemma registry_ok_same r mains backups :
  registry_ok r -> Forall2 same_group (rg_mains r) mains -> Forall2 same_group (rg_backups r) backups ->
  registry_ok (r <| rg_mains := mains |> <| rg_backups := backups |>).
Proof.
  intros [] Hm Hb. pose proof (Forall2_app Hm Hb) as Ha.
  destruct (same_groups_spec _ _ Hm) as (_ & _ & M3 & _). destruct (same_groups_spec _ _ Hb) as (_ & _ & B3 & _).
  destruct (same_groups_spec _ _ Ha) as (A1 & A2 & A3 & A4). destruct r as [cfg bo ms bs idx cl]. unfold all_groups in *. simpl in *.
  split; simpl; unfold all_groups; simpl.
  - by rewrite A1.
  - by rewrite A2.
  - clear -Ha ro_checked0. induction Ha as [|g g' gs gs' (H1 & H2 & H3) _ IH]; [constructor|].
    apply Forall_cons_iff in ro_checked0 as [H ?]. constructor; [by rewrite H2, H3|auto].
  - apply (Forall_gr_p (fun p => pv_Backup p = false)). rewrite M3. by apply (Forall_gr_p (fun p => pv_Backup p = false)).
  - apply (Forall_gr_p (fun p => pv_Backup p = true)). rewrite B3. by apply (Forall_gr_p (fun p => pv_Backup p = true)).
Qed.

Lemma same_refl gs : same_groups gs gs.
Proof. induction gs; by constructor. Qed.

(** *** Operations keep a registry well formed *)

Lemma registry_ok_perm r gs :
  Permutation (all_groups r) gs -> NoDup (names gs) -> NoDup (ids gs) ->
  Forall (fun g => checkProvider (gr_p g) = None /\ gr_limits g = resolveLimits (gr_p g)) gs ->
  Forall (fun g => pv_Backup (gr_p g) = false) (rg_mains r) ->
  Forall (fun g => pv_Backup (gr_p g) = true) (rg_backups r) -> registry_ok r.
Proof. intros Hp H1 H2 H3 H4 H5. split; try done; by rewrite Hp. Qed.

(** [NewClient] accepts exactly the lists with a main provider whose members pass the
    checks and have distinct names and identities; it then starts them in order. *)
Lemma new_spec providers opts env r :
  NewClient providers opts env = inl r <->
  existsb (fun p => negb (pv_Backup p)) providers = true /\ Forall (fun p => checkProvider p = None) providers /\
  NoDup (names_from 0 providers) /\ NoDup (ids_from 0 providers) /\
  r = openRegistry (newConfig opts)
        (start_from (cf_circuitBreakerEnabled (newConfig opts)) 0 providers env).
Proof.
  unfold NewClient. destruct providers as [|p0 ps0]; [split; [done|by intros []]|].
  remember (p0 :: ps0) as ps eqn:Eps. clear Eps. destruct (existsb _ ps); simpl; [|split; [done|by intros []]].
  pose proof (validate_from_spec ps 0 ∅ ∅) as H. destruct (validate_from 0 ps ∅ ∅).
  - split; [done|]. intros (_ & H1 & H2 & H3 & _). exfalso. destruct H as [_ H]. 
    discriminate H. split_and!; try done; intros; apply not_elem_of_empty.
  - destruct H as [H _]. destruct (H eq_refl) as (H1 & H2 & _ & H3 & _). naive_solver.
Qed.

Lemma new_ok providers opts env r : NewClient providers opts env = inl r -> registry_ok r.
Proof.
  intros (_ & Hc & Hn & Hi & ->)%new_spec.
  set (gs := start_from _ 0 providers env).
  destruct (start_from_spec (cf_circuitBreakerEnabled (newConfig opts)) providers env 0) as (S1 & S2 & S3 & S4).
  fold gs in S1, S2, S3, S4. apply (registry_ok_perm _ gs).
  - apply (filter_split (fun g => pv_Backup (gr_p g))).
  - by rewrite S1.
  - by rewrite S2.
  - rewrite <- S3 in Hc. apply Forall_gr_p in Hc. by apply list.Forall_and.
  - apply Forall_forall. intros g [_ Hg]%filter_In. by apply negb_true_iff.
  - apply Forall_forall. by intros g [_ Hg]%filter_In.
Qed.

Lemma clashes_spec name id gs : clashes name id gs = false <-> (name ∉ names gs) /\ (id ∉ ids gs).
Proof.
  unfold clashes. induction gs as [|g gs IH]; simpl; [split; [intros _; split; apply not_elem_of_nil|done]|].
  rewrite !elem_of_cons, orb_false_iff, orb_false_iff, IH, !String.eqb_neq. naive_solver.
Qed.

Lemma remove_named_perm name gs g rest : remove_named name gs = Some (g, rest) -> Permutation gs (g :: rest).
Proof. intros (_ & l1 & l2 & -> & -> & _)%remove_named_Some. symmetry. apply Permutation_middle. Qed.

Lemma update_same name f gs gs' :
  (forall g, same_group g (f g)) -> update_named name f gs = Some gs' -> same_groups gs gs'.
Proof.
  intros Hf (l1 & g & l2 & -> & ->)%update_named_spec. apply Forall2_app; [apply same_refl|].
  constructor; [apply Hf|apply same_refl].
Qed.

Lemma stop_named_same name gs : same_groups gs (stop_named name gs).
Proof.
  unfold stop_named. destruct (update_named _ _ _) as [gs'|] eqn:E; [|apply same_refl].
  by eapply update_same, E.
Qed.

Lemma stop_all_same gs : same_groups gs (map stopGroup gs).
Proof. induction gs; by constructor. Qed.

(** *** Every listed provider is as its configuration says *)

Definition listed (backup : bool) (g : group) : Prop :=
  checkProvider (gr_p g) = None /\ gr_limits g = resolveLimits (gr_p g) /\ pv_Backup (gr_p g) = backup.

Definition sane (r : registry) : Prop := Forall (listed false) (rg_mains r) /\ Forall (listed true) (rg_backups r).

Definition edit_sane (c : edit) : Prop :=
  match c with
  | AddCounted p _ | AddMains p _ _ => checkProvider p = None
  | AddStarted g => listed (pv_Backup (gr_p g)) g
  | AddLoaded g old => listed (pv_Backup (gr_p g)) g /\ Forall (listed (pv_Backup (gr_p g))) old
  | RemoveFound backup rest => Forall (listed backup) rest
  | _ => True
  end.

Lemma listed_same b g g' : same_group g g' -> listed b g -> listed b g'.
Proof. intros (_ & H2 & H3) (? & ? & ?). unfold listed. by rewrite H2, H3. Qed.

Lemma listed_all_same b gs gs' : same_groups gs gs' -> Forall (listed b) gs -> Forall (listed b) gs'.
Proof.
  induction 1 as [|g g' gs gs' Hg _ IH]; [done|]. intros [? ?]%Forall_cons_iff. constructor; [by eapply listed_same|auto].
Qed.

Lemma listed_rest b name gs g rest : remove_named name gs = Some (g, rest) -> Forall (listed b) gs -> Forall (listed b) rest.
Proof. intros Hp%remove_named_perm H. rewrite Hp in H. by apply Forall_cons_iff in H as [_ ?]. Qed.

Lemma sane_list b r : sane r -> Forall (listed b) (list_of b r).
Proof. intros [? ?]. by destruct b. Qed.

Lemma sane_store b gs r : sane r -> Forall (listed b) gs -> sane (storeList b gs r).
Proof. intros [? ?] ?. destruct r, b; by split. Qed.

Lemma edit_step_sane e c r c' r' : sane r -> edit_sane c -> edit_step e c r = (c', r') -> sane r' /\ edit_sane c'.
Proof.
  intros Hr Hc. pose proof Hr as [Hm Hb].
  destruct c as [p|p idx|p idx ms|g|g old|name|name|b rest|err]; cbn [edit_step edit_sane] in *; intros Hs.
  - destruct (checkProvider p) eqn:E; simplify_eq; by repeat split.
  - by simplify_eq.
  - case_match; simplify_eq; by repeat split.
  - simplify_eq. split; [done|]. split; [done|by apply sane_list].
  - destruct Hc as [Hg Ho]. simplify_eq. split; [|done]. apply sane_store; [done|]. apply list.Forall_app. split; [done|]. by constructor.
  - destruct (remove_named name (rg_mains r)) as [[g rest]|] eqn:E; simplify_eq; [|done]. split; [|by eapply listed_rest].
    split; [|done]. destruct r. by eapply listed_all_same; [apply stop_named_same|].
  - destruct (remove_named name (rg_backups r)) as [[g rest]|] eqn:E; simplify_eq; [|done]. split; [|by eapply listed_rest].
    split; [done|]. destruct r. by eapply listed_all_same; [apply stop_named_same|].
  - simplify_eq. split; [|done]. by apply sane_store.
  - by simplify_eq.
Qed.

Lemma edit_same_sane c c' : same_edit c c' -> edit_sane c -> edit_sane c'.
Proof.
  destruct c, c'; simpl; try (intros H; congruence); try done.
  - by intros (-> & _).
  - intros H ?. pose proof H as (_ & -> & _). by eapply listed_same.
  - intros [H Hs] [? ?]. pose proof H as (_ & -> & _). split; [by eapply listed_same|by eapply listed_all_same].
  - intros [-> Hs] ?. by eapply listed_all_same.
Qed.

(** *** Names and identities stay distinct while calls do not overlap *)

Definition distinct (r : registry) : Prop := NoDup (names (all_groups r)) /\ NoDup (ids (all_groups r)).

Definition fresh_in (r : registry) (g : group) : Prop :=
  (gr_name g ∉ names (all_groups r)) /\ (gr_id g ∉ ids (all_groups r)).

Definition edit_distinct (r : registry) (c : edit) : Prop :=
  match c with
  | AddMains _ _ mains => names mains = names (rg_mains r) /\ ids mains = ids (rg_mains r)
  | AddStarted g => fresh_in r g
  | AddLoaded g old => distinct (storeProvider old g r)
  | RemoveFound backup rest => distinct (storeList backup rest r)
  | _ => True
  end.

(** Names and identities are the same in two states. *)
Definition alike (r r' : registry) : Prop :=
  same_groups (rg_mains r) (rg_mains r') /\ same_groups (rg_backups r) (rg_backups r').

Lemma alike_names r r' :
  alike r r' -> names (rg_mains r') = names (rg_mains r) /\ ids (rg_mains r') = ids (rg_mains r) /\
  names (all_groups r') = names (all_groups r) /\ ids (all_groups r') = ids (all_groups r).
Proof.
  intros [Hm Hb]. destruct (same_groups_spec _ _ Hm) as (M1 & M2 & _).
  assert (Ha : same_groups (all_groups r) (all_groups r')) by by apply Forall2_app.
  by destruct (same_groups_spec _ _ Ha) as (A1 & A2 & _).
Qed.

Lemma alike_distinct r r' : alike r r' -> distinct r -> distinct r'.
Proof. intros (_ & _ & H3 & H4)%alike_names [? ?]. unfold distinct. by rewrite H3, H4. Qed.

Lemma alike_store b gs gs' r r' : alike r r' -> same_groups gs gs' -> alike (storeList b gs r) (storeList b gs' r').
Proof. intros [? ?] ?. destruct r, r', b; by split. Qed.

Lemma alike_sane r r' : alike r r' -> sane r -> sane r'.
Proof. intros [? ?] [? ?]. split; by eapply listed_all_same. Qed.

Lemma alike_refl r : alike r r.
Proof. split; apply same_refl. Qed.

Lemma same_edit_refl c : same_edit c c.
Proof. destruct c; simpl; repeat split; apply same_refl. Qed.

Lemma edit_same_distinct r r' c c' : alike r r' -> same_edit c c' -> edit_distinct r c -> edit_distinct r' c'.
Proof.
  intros Ha. destruct (alike_names _ _ Ha) as (N1 & N2 & N3 & N4).
  destruct c, c'; simpl; try (intros H; congruence); try done.
  - intros (_ & _ & Hs). destruct (same_groups_spec _ _ Hs) as (-> & -> & _). by rewrite N1, N2.
  - intros (Hg & _) [? ?]. unfold fresh_in, gr_name, gr_id in *. by rewrite Hg, N3, N4.
  - intros [Hg Hs]. pose proof Hg as (_ & Hp & _). unfold storeProvider. rewrite Hp. apply alike_distinct, alike_store; [done|].
    apply Forall2_app; [done|]. by constructor.
  - intros [-> Hs]. by apply alike_distinct, alike_store.
Qed.

Lemma distinct_perm r gs : Permutation (all_groups r) gs -> NoDup (names gs) -> NoDup (ids gs) -> distinct r.
Proof. intros Hp H1 H2. split; by rewrite Hp. Qed.

Lemma distinct_store r g :
  distinct r -> fresh_in r g -> distinct (storeProvider (list_of (pv_Backup (gr_p g)) r) g r).
Proof.
  intros [? ?] [? ?]. apply (distinct_perm _ (g :: all_groups r)); [|by apply list.NoDup_cons..].
  destruct r. unfold storeProvider, storeList, list_of, all_groups. destruct (pv_Backup (gr_p g)); simpl.
  - by rewrite app_assoc, Permutation_app_comm.
  - rewrite <- app_assoc. symmetry. apply Permutation_middle.
Qed.

Lemma distinct_rest b r name g rest : 
  distinct r -> remove_named name (list_of b r) = Some (g, rest) -> distinct (storeList b rest r).
Proof.
  intros [H1 H2] Hp%remove_named_perm.
  assert (Hall : Permutation (all_groups r) (g :: all_groups (storeList b rest r))).
  { destruct r. unfold storeList, list_of, all_groups in *. destruct b; simpl in *; rewrite Hp; [|done].
    symmetry. apply Permutation_middle. }
  rewrite Hall in H1, H2. apply list.NoDup_cons in H1 as [_ ?]. apply list.NoDup_cons in H2 as [_ ?]. by split.
Qed.

Lemma edit_step_distinct e c r c' r' :
  distinct r -> edit_distinct r c -> edit_step e c r = (c', r') -> distinct r' /\ edit_distinct r' c'.
Proof.
  intros Hr Hc. destruct c as [p|p idx|p idx ms|g|g old|name|name|b rest|err]; cbn [edit_step edit_distinct] in *; intros Hs.
  - by destruct (checkProvider p); simplify_eq.
  - by simplify_eq.
  - destruct (clashes _ _ _) eqn:E; simplify_eq; [done|]. split; [done|]. apply clashes_spec in E as [E1 E2].
    destruct Hc as [C1 C2].
    assert (N1 : names (ms ++ rg_backups r') = names (all_groups r')) by (unfold all_groups, names in *; by rewrite !map_app, C1).
    assert (N2 : ids (ms ++ rg_backups r') = ids (all_groups r')) by (unfold all_groups, ids in *; by rewrite !map_app, C2).
    rewrite N1 in E1. rewrite N2 in E2. by split.
  - simplify_eq. split; [done|]. by apply distinct_store.
  - by simplify_eq.
  - destruct (remove_named name (rg_mains r)) as [[g rest]|] eqn:E; simplify_eq; [|done].
    assert (alike r (r <| rg_mains ::= stop_named name |>)) as Ha by (destruct r; split; [apply stop_named_same|apply same_refl]).
    split; [by eapply alike_distinct|]. apply (alike_distinct (storeList false rest r)); [|by apply (distinct_rest false _ _ _ _ Hr E)].
    apply alike_store; [done|apply same_refl].
  - destruct (remove_named name (rg_backups r)) as [[g rest]|] eqn:E; simplify_eq; [|done].
    assert (alike r (r <| rg_backups ::= stop_named name |>)) as Ha by (destruct r; split; [apply same_refl|apply stop_named_same]).
    split; [by eapply alike_distinct|]. apply (alike_distinct (storeList true rest r)); [|by apply (distinct_rest true _ _ _ _ Hr E)].
    apply alike_store; [done|apply same_refl].
  - by simplify_eq.
  - by simplify_eq.
Qed.

(** *** What is reachable *)

(** The number of calls that are not over. *)
Definition unfinished (es : list edit) : nat := length (List.filter (fun c => negb (finished_edit c)) es).

Definition edits_ok (overlap : bool) (st : registry * list edit) : Prop :=
  let (r, es) := st in
  sane r /\ Forall edit_sane es /\
  (overlap = false -> distinct r /\ Forall (edit_distinct r) es /\ (unfinished es <= 1)%nat).

Lemma Forall_listed b gs :
  Forall (listed b) gs <->
  Forall (fun g => checkProvider (gr_p g) = None /\ gr_limits g = resolveLimits (gr_p g)) gs /\
  Forall (fun g => pv_Backup (gr_p g) = b) gs.
Proof. rewrite <- list.Forall_and. apply Forall_iff. intros g. unfold listed. tauto. Qed.

Lemma registry_ok_split r : registry_ok r <-> sane r /\ distinct r.
Proof.
  unfold sane, distinct. rewrite !Forall_listed. split.
  - intros []. apply list.Forall_app in ro_checked0 as [Cm Cb]. auto 10.
  - intros [[[? ?] [? ?]] [? ?]]. split; try done. apply list.Forall_app. by split.
Qed.

Lemma unfinished_app es es' : unfinished (es ++ es') = (unfinished es + unfinished es')%nat.
Proof. unfold unfinished. by rewrite List.filter_app, length_app. Qed.

Lemma unfinished_none es : unfinished es = 0%nat <-> Forall (fun c => finished_edit c = true) es.
Proof.
  unfold unfinished. induction es as [|c es IH]; [done|]. rewrite list.Forall_cons, <- IH. simpl.
  destruct (finished_edit c); simpl; naive_solver.
Qed.

Lemma finished_distinct r c : finished_edit c = true -> edit_distinct r c.
Proof. by destruct c. Qed.

Lemma same_edits_unfinished es es' : Forall2 same_edit es es' -> unfinished es' = unfinished es.
Proof.
  unfold unfinished. induction 1 as [|c c' es es' Hc _ IH]; [done|]. simpl.
  assert (finished_edit c' = finished_edit c) as -> by (destruct c, c'; simpl in *; naive_solver).
  destruct (finished_edit c); simpl; by rewrite IH.
Qed.

Lemma edits_same overlap r r' es es' :
  alike r r' -> Forall2 same_edit es es' -> edits_ok overlap (r, es) -> edits_ok overlap (r', es').
Proof.
  intros Ha Hes (H1 & H2 & H3). split; [by eapply alike_sane|]. split.
  - clear -Hes H2. induction Hes as [|c c' es es' Hc _ IH]; [done|]. apply Forall_cons_iff in H2 as [? ?].
    constructor; [by eapply edit_same_sane|auto].
  - intros Ho. destruct (H3 Ho) as (D1 & D2 & D3). split; [by eapply alike_distinct|].
    rewrite (same_edits_unfinished _ _ Hes). split; [|done]. clear -Ha Hes D2.
    induction Hes as [|c c' es es' Hc _ IH]; [done|]. apply Forall_cons_iff in D2 as [? ?].
    constructor; [by eapply edit_same_distinct|auto].
Qed.

Lemma same_edits_refl es : Forall2 same_edit es es.
Proof. induction es; constructor; auto using same_edit_refl. Qed.

Lemma edits_call overlap r es c :
  called c = true -> (overlap = false -> Forall (fun c => finished_edit c = true) es) ->
  edits_ok overlap (r, es) -> edits_ok overlap (r, es ++ [c]).
Proof.
  intros Hc Hf (H1 & H2 & H3). split; [done|]. split.
  - apply list.Forall_app. split; [done|]. constructor; [by destruct c|done].
  - intros Ho. destruct (H3 Ho) as (D1 & D2 & D3). split; [done|]. split.
    + apply list.Forall_app. split; [done|]. constructor; [by destruct c|done].
    + rewrite unfinished_app, (proj2 (unfinished_none es) (Hf Ho)). by destruct c.
Qed.

Lemma edits_move overlap r es1 c es2 e c' r' :
  edit_step e c r = (c', r') -> edits_ok overlap (r, es1 ++ c :: es2) -> edits_ok overlap (r', es1 ++ c' :: es2).
Proof.
  intros Hs (H1 & H2 & H3). apply list.Forall_app in H2 as [A1 A2]. apply Forall_cons_iff in A2 as [Ac A2].
  destruct (edit_step_sane _ _ _ _ _ H1 Ac Hs) as [S1 S2]. split; [done|]. split.
  - apply list.Forall_app. split; [done|]. by constructor.
  - intros Ho. destruct (H3 Ho) as (D1 & D2 & D3). apply list.Forall_app in D2 as [B1 B2]. apply Forall_cons_iff in B2 as [Bc B2].
    destruct (edit_step_distinct _ _ _ _ _ D1 Bc Hs) as [E1 E2].
    destruct (finished_edit c) eqn:Ec.
    { destruct c; simplify_eq/=. split; [done|]. split; [|done]. apply list.Forall_app. split; [done|]. by constructor. }
    assert (Hc : unfinished (c :: es2) = S (unfinished es2)) by (unfold unfinished; simpl; by rewrite Ec).
    rewrite unfinished_app, Hc in D3.
    assert (F1 : unfinished es1 = 0%nat) by lia. assert (F2 : unfinished es2 = 0%nat) by lia. split; [done|]. split.
    + apply unfinished_none in F1, F2. apply list.Forall_app. split; [|constructor; [done|]];
        (eapply list.Forall_impl; [eassumption|intros x; apply finished_distinct]).
    + rewrite unfinished_app, F1. change (c' :: es2) with ([c'] ++ es2). rewrite unfinished_app, F2.
      unfold unfinished. simpl. destruct (finished_edit c'); simpl; lia.
Qed.

Lemma reset_alike name now r : alike r (snd (ResetProviderQuota name now r)).
Proof.
  unfold ResetProviderQuota. destruct (update_named name _ (rg_mains r)) as [gs|] eqn:Em;
    [|destruct (update_named name _ (rg_backups r)) as [gs|] eqn:Eb; [|apply alike_refl]];
    (split; [|]); destruct r; simpl in *; try apply same_refl; (eapply update_same; [|eassumption]); by intros g.
Qed.

Lemma registry_step_ok overlap st st' : edits_ok overlap st -> registry_step overlap st st' -> edits_ok overlap st'.
Proof.
  intros Hst Hs. destruct Hs as [r es c Hc Hf|r es1 c es2 e c' r' Hs|r es name now|r es|r es mains backups es' Hm Hb He].
  - by apply edits_call.
  - by eapply edits_move.
  - eapply edits_same; [apply reset_alike|apply same_edits_refl|done].
  - eapply edits_same; [|apply same_edits_refl|done]. split; destruct r; apply stop_all_same.
  - eapply edits_same; [|done..]. by destruct r.
Qed.

Lemma registry_reach_edits overlap providers opts st : registry_reach overlap providers opts st -> edits_ok overlap st.
Proof.
  induction 1 as [env r Hn|st st' _ IH Hs]; [|by eapply registry_step_ok].
  apply new_ok, registry_ok_split in Hn as [? ?]. split; [done|]. split; [constructor|]. intros _. split; [done|]. split; [constructor|]. by apply le_S.
Qed.

Lemma registry_reach_ok providers opts r es : registry_reach false providers opts (r, es) -> registry_ok r.
Proof.
  intros (H1 & _ & H3)%registry_reach_edits. apply registry_ok_split. split; [done|]. by apply H3.
Qed.

Lemma remove_named_snoc gs g :
  gr_name g ∉ names gs -> remove_named (gr_name g) (gs ++ [g]) = Some (g, gs).
Proof.
  induction gs as [|x gs IH]; simpl; intros Hn; [by rewrite String.eqb_refl|].
  rewrite elem_of_cons in Hn. destruct (String.eqb_spec (gr_name x) (gr_name g)) as [E|E]; [naive_solver|].
  by rewrite IH by naive_solver.
Qed.

(** ** Properties *)

(** C22: Providers: a client is created exactly from a list with a main provider whose
    members pass the checks and have distinct names and identities, and then holds
    one group for each, in order; anything else is an error. *)
Theorem NewClient_accepts providers opts env :
  (exists r, NewClient providers opts env = inl r) <->
  (exists p, p ∈ providers /\ pv_Backup p = false) /\ Forall (fun p => checkProvider p = None) providers /\
  NoDup (names_from 0 providers) /\ NoDup (ids_from 0 providers).
Proof.
  setoid_rewrite new_spec. split.
  - intros (r & (p & Hin & Hb)%existsb_exists & H1 & H2 & H3 & _). split_and!; try done. exists p.
    split; [by apply list_elem_of_In|by apply negb_true_iff].
  - intros ((p & Hin & Hb) & H1 & H2 & H3). eexists. split_and!; try done. apply existsb_exists. exists p.
    split; [by apply list_elem_of_In|by rewrite Hb].
Qed.

Lemma edit_alone_step n e c r :
  finished_edit c = false -> edit_alone (S n) e c r = let (c, r) := edit_step e c r in edit_alone n e c r.
Proof. by destruct c. Qed.

Lemma edit_alone_done n e err r : edit_alone n e (EditDone err) r = (err, r).
Proof. by destruct n. Qed.

#[local] Ltac alone_step := rewrite edit_alone_step by reflexivity; cbn [edit_step].

(** Calls of [AddProvider] and of [RemoveProvider] with nothing between their steps. *)
Lemma AddProvider_spec p e r :
  AddProvider p e r =
  match checkProvider p with
  | Some err => (Some err, r)
  | None =>
      let r := r <| rg_providerIdx := rg_providerIdx r + 1 |> in
      if clashes (resolveProviderName p (rg_providerIdx r)) (resolveProviderID p (rg_providerIdx r)) (all_groups r)
      then (Some (EOpaque "nntp: provider already exists"), r)
      else let g := startProviderGroup (rg_breakerOn r) p (rg_providerIdx r) e in
           (None, storeProvider (list_of (pv_Backup p) r) g r)
  end.
Proof.
  unfold AddProvider. alone_step. destruct (checkProvider p); [apply edit_alone_done|]. cbv zeta.
  alone_step. alone_step. unfold all_groups. destruct (clashes _ _ _); [apply edit_alone_done|].
  alone_step. alone_step. apply edit_alone_done.
Qed.

Lemma RemoveProvider_spec name e r :
  RemoveProvider name e r =
  match remove_named name (rg_mains r) with
  | Some (_, rest) => (None, r <| rg_mains := rest |>)
  | None =>
      match remove_named name (rg_backups r) with
      | Some (_, rest) => (None, r <| rg_backups := rest |>)
      | None => (Some (provider_not_found name), r)
      end
  end.
Proof.
  unfold RemoveProvider. alone_step. destruct (remove_named name (rg_mains r)) as [[g rest]|].
  { alone_step. rewrite edit_alone_done. by destruct r. }
  alone_step. destruct (remove_named name (rg_backups r)) as [[g rest]|]; [|apply edit_alone_done].
  alone_step. rewrite edit_alone_done. by destruct r.
Qed.

(** C23: Providers: however calls of [AddProvider] and [RemoveProvider], reconnects after
    a 502, quota resets, [Close] and the requests interleave, every listed provider
    has passed the checks (so has connections), runs with the limits of its
    configuration and is in the list its [Backup] flag says; and as long as no call of
    [AddProvider], [RemoveProvider] or reconnect begins while another is in progress,
    the names and the identities of the providers stay distinct across both lists. *)
Theorem providers_distinct overlap providers opts r es :
  registry_reach overlap providers opts (r, es) ->
  (forall g, g ∈ rg_mains r ++ rg_backups r ->
    checkProvider (gr_p g) = None /\ 0 < pv_Connections (gr_p g) /\ gr_limits g = resolveLimits (gr_p g) /\
    (pv_Backup (gr_p g) = true <-> g ∈ rg_backups r)) /\
  (overlap = false -> NoDup (names (rg_mains r ++ rg_backups r)) /\ NoDup (ids (rg_mains r ++ rg_backups r))).
Proof.
  intros ([Hm Hb] & _ & Hd)%registry_reach_edits. split; [|by intros [? _]%Hd].
  rewrite list.Forall_forall in Hm, Hb. intros g Hg.
  assert (checkProvider (gr_p g) = None -> 0 < pv_Connections (gr_p g)) as Hpos.
  { unfold checkProvider. destruct (validateResponse451Policy _); [done|].
    destruct (Z.leb_spec (pv_Connections (gr_p g)) 0); [done|lia]. }
  apply elem_of_app in Hg as [Hg|Hg].
  - destruct (Hm g Hg) as (? & ? & E). split_and!; try tauto. rewrite E. split; [done|]. intros Hg'.
    destruct (Hb g Hg') as (_ & _ & E'). congruence.
  - destruct (Hb g Hg) as (? & ? & ?). tauto.
Qed.

(** Providers: an added provider can be removed by its name, which leaves the lists
    as they were; and the name of a removed provider is no longer known. *)
Theorem add_then_remove providers opts r es p e r' :
  registry_reach false providers opts (r, es) -> AddProvider p e r = (None, r') ->
  let name := resolveProviderName p (rg_providerIdx r + 1) in
  RemoveProvider name e r = (Some (provider_not_found name), r) /\
  exists r'', RemoveProvider name e r' = (None, r'') /\ rg_mains r'' = rg_mains r /\ rg_backups r'' = rg_backups r.
Proof.
  intros []%registry_reach_ok Ha. rewrite AddProvider_spec in Ha.
  destruct (checkProvider p) eqn:Ec; [done|]. cbv zeta in *.
  destruct (clashes _ _ _) eqn:Ex; [done|]. apply clashes_spec in Ex as [Hn _].
  set (g := startProviderGroup _ p _ e) in *. change (pv_Backup p) with (pv_Backup (gr_p g)) in Ha. simplify_eq.
  change (resolveProviderName p (rg_providerIdx r + 1)) with (gr_name g).
  change (resolveProviderName p _) with (gr_name g) in Hn. clearbody g.
  destruct r as [cfg bo ms bs idx cl]. unfold all_groups in *. cbn [rg_mains rg_backups] in *.
  assert (Hms : (gr_name g ∉ names ms) /\ (gr_name g ∉ names bs)).
  { unfold names in *. simpl in Hn. rewrite map_app, elem_of_app in Hn. tauto. }
  destruct Hms as [Hms Hbs]. apply remove_named_None in Hms as Rm, Hbs as Rb. rewrite !RemoveProvider_spec. split.
  - simpl. by rewrite Rm, Rb.
  - unfold storeProvider, storeList, list_of. destruct (pv_Backup (gr_p g)); simpl.
    + rewrite Rm, remove_named_snoc by done. by eexists.
    + rewrite remove_named_snoc by done. by eexists.
Qed.

(** *** Limits of a connection *)

(** The connection [runConnSlot] makes for a provider. *)
Definition provider_conn (p : Provider) (index : Z) (idle : bool) (createdAt : Z) : conn_cfg :=
  let l := resolveLimits p in
  mkConnCfg (Z.to_nat (sl_statInflight l)) (Z.to_nat (sl_inflight l)) (Z.to_nat (sl_backgroundStatInflight l)) false
    idle (0 <? sl_kaInterval l) (bs (sl_kaCommand l)) (resolveProviderName p index)
    (resolveProviderID p index) createdAt.


(** ** Examples and departures *)

Definition plain (host : string) (backup : bool) : Provider :=
  mkProvider "" host "" 2 4 10 0 3 false backup false 0 0 0 0 0 0 0 60 "" 0 0 0 None.
Definition unnamed : Provider := (plain "" false) <| pv_Factory := true |>.
Definition no_env (i : Z) : start_env := mkStart 0 0 no_ping 0.

Definition demo_client (ps : list Provider) : registry :=
  match NewClient ps [] no_env with inl r => r | inr _ => openRegistry (newConfig []) [] end.

Example limits_example :
  resolveLimits (plain "h" false) =
  mkLimits 4 10 7 3 defaultStallTimeout defaultAbandonedBodyDrainBytes defaultAbandonedBodyDrainTimeout 60 "DATE".
Proof. by vm_compute. Qed.

Lemma demo_client_reach overlap ps :
  (if NewClient ps [] no_env is inl _ then True else False) -> registry_reach overlap ps [] (demo_client ps, []).
Proof. unfold demo_client. destruct (NewClient ps [] no_env) eqn:E; [|done]. intros _. by eapply rr_new. Qed.

(** A schedule of calls: a new one begins, or the [i]th makes a step. *)
Inductive edit_turn := TCall (c : edit) | TMove (i : nat).

Definition take_edit_turn (overlap : bool) (st : registry * list edit) (t : edit_turn) : registry * list edit :=
  let (r, es) := st in
  match t with
  | TCall c => if called c && (overlap || forallb finished_edit es) then (r, es ++ [c]) else (r, es)
  | TMove i =>
      match es !! i with
      | Some c => let (c, r) := edit_step (no_env 0) c r in (r, <[i := c]> es)
      | None => (r, es)
      end
  end.

Definition play_edits (overlap : bool) (ts : list edit_turn) (st : registry * list edit) : registry * list edit :=
  fold_left (take_edit_turn overlap) ts st.

Lemma play_edits_reach overlap providers opts ts : forall st,
  registry_reach overlap providers opts st -> registry_reach overlap providers opts (play_edits overlap ts st).
Proof.
  induction ts as [|t ts IH]; intros [r es] H; [done|]. cbn [play_edits fold_left]. apply IH. destruct t as [c|i]; cbn [take_edit_turn].
  - destruct (called c) eqn:Ec; [|done]. destruct overlap; simpl; [by eapply rr_step, rs_call|].
    destruct (forallb finished_edit es) eqn:Ef; [|done]. eapply rr_step; [done|]. apply rs_call; [done|]. intros _.
    apply list.Forall_forall. intros x Hx%list_elem_of_In. rewrite forallb_forall in Ef. by apply Ef.
  - destruct (es !! i) as [c|] eqn:Ei; [|done]. destruct (edit_step _ c r) as [c' r'] eqn:Es.
    eapply rr_step; [done|]. apply list_elem_of_split_length in Ei as (es1 & es2 & -> & ->).
    rewrite insert_app_r_alt, Nat.sub_diag by done. by eapply rs_move.
Qed.

(** A call from its beginning to its end. *)
Definition whole (i : nat) (c : edit) : list edit_turn := TCall c :: replicate 5 (TMove i).

(** One provider added, another removed, in turn. *)
Definition demo_edits : list edit_turn := whole 0 (AddCalled (plain "c" true)) ++ whole 1 (RemoveCalled "a").

Lemma providers_distinct_witness :
  let st := play_edits false demo_edits (demo_client [plain "a" false; plain "b" true; unnamed], []) in
  names (all_groups (fst st)) = ["provider-2"; "b"; "c"]%string /\ snd st = [EditDone None; EditDone None] /\
  NoDup (names (all_groups (fst st))).
Proof.
  split; [vm_compute; reflexivity|]. split; [vm_compute; reflexivity|].
  destruct (providers_distinct false [plain "a" false; plain "b" true; unnamed] []
    (fst (play_edits false demo_edits (demo_client [plain "a" false; plain "b" true; unnamed], [])))
    (snd (play_edits false demo_edits (demo_client [plain "a" false; plain "b" true; unnamed], [])))) as [_ H].
  - rewrite <- surjective_pairing. apply play_edits_reach, demo_client_reach. vm_compute. exact I.
  - exact (proj1 (H eq_refl)).
Defined.


(** [AddProvider] counts from one, [NewClient] from zero: an unnamed provider is
    refused because of the second unnamed provider of the client. *)
Theorem added_unnamed_refused e :
  let r := demo_client [unnamed; unnamed] in
  registry_reach false [unnamed; unnamed] [] (r, []) /\ fst (AddProvider unnamed e r) = Some (EOpaque "nntp: provider already exists").
Proof. split; [apply demo_client_reach; by vm_compute|by vm_compute]. Qed.

(** Two calls of [AddProvider] that loaded the same list: one provider is lost,
    though both calls succeeded and its slots run. *)
Theorem concurrent_add_lost :
  let st := play_edits true ([TCall (AddCalled (plain "b" false)); TCall (AddCalled (plain "c" false))] ++
              replicate 4 (TMove 0) ++ replicate 4 (TMove 1) ++ [TMove 0; TMove 1]) (demo_client [plain "a" false], []) in
  registry_reach true [plain "a" false] [] st /\
  names (rg_mains (fst st)) = ["a"; "c"]%string /\ snd st = [EditDone None; EditDone None].
Proof. split; [apply play_edits_reach, demo_client_reach; by vm_compute|by vm_compute]. Qed.

(** Two requests learn from a 502 that a provider is unavailable: both remove it (the
    second finds it gone) and both schedule a reconnect.  Each of the two reconnects
    looks for the name before the other one has stored its group, which takes as long
    as the ping: the provider is then listed twice, with twice its connections. *)
Theorem reconnects_duplicate :
  let p := (plain "a" false) <| pv_ReconnectDelay := 1000 |> in
  let g := startProviderGroup false p 0 (no_env 0) in
  let calls := option_list (scheduleReconnect g true) ++ option_list (scheduleReconnect g true) in
  let st := play_edits true (whole 0 (RemoveCalled "a") ++ whole 1 (RemoveCalled "a") ++ map TCall calls ++
              replicate 3 (TMove 2) ++ replicate 3 (TMove 3) ++ replicate 2 (TMove 2) ++ replicate 2 (TMove 3))
              (demo_client [p; plain "b" false], []) in
  registry_reach true [p; plain "b" false] [] st /\
  names (rg_mains (fst st)) = ["b"; "a"; "a"]%string /\
  snd st = [EditDone None; EditDone (Some (provider_not_found "a")); EditDone None; EditDone None].
Proof. split; [apply play_edits_reach, demo_client_reach; by vm_compute|by vm_compute]. Qed.

(** A provider that is registered again starts with the usage of its configuration,
    not with what it had used. *)
Theorem reconnect_forgets_usage :
  let p := (plain "a" false) <| pv_QuotaBytes := 100 |> <| pv_QuotaUsed := 10 |> in
  let used := map (fun g => st_quotaUsed (q_stats (gr_quota g))) in
  let spent g := g <| gr_quota ::= fun q => q <| q_stats ::= fun s => account_bytes s 80 |> |> in
  let r := demo_client [p; plain "b" false] in
  let r := r <| rg_mains ::= map spent |> in
  match rg_mains r with
  | g :: _ =>
      let again := option_list (scheduleReconnect g true) in
      used (rg_mains (fst (play_edits false (whole 0 (RemoveCalled "a") ++ (c ← again; whole 1 c)) (r, []))))
  | _ => []
  end = [0; 10] /\ used (rg_mains r) = [90; 0].
Proof. by vm_compute. Qed.
