(* ===== verification/Visit.v ===== *)
(** One provider at a time: what every execution of [tryGroupResilient] does,
    whatever its attempts return.

    The trace vocabulary ([tries], [grants], ...) projects an execution to the
    calls it made; the router's properties (Router.v) use it too. *)
From S2P Require Import Prelude Errors CircuitBreaker Reader Evidence Prog Dispatch Pool.
#[local] Open Scope prog_scope.

(** ** What a trace shows *)

Definition ev_try (e : event) : option (providerGroup * try_args * presult) :=
  match e with
  | Ev q a => match q return ans q -> option (providerGroup * try_args * presult) with
              | QTry g t => fun r => Some (g, t, r)
              | _ => fun _ => None
              end a
  end.

(** A lease the breaker granted. *)
Definition ev_grant (e : event) : option (providerGroup * circuitBreakerLease) :=
  match e with
  | Ev q a => match q return ans q -> option (providerGroup * circuitBreakerLease) with
              | QAcquire g => fun r => match r with (lease, None) => Some (g, lease) | _ => None end
              | _ => fun _ => None
              end a
  end.

Definition ev_complete (e : event) : option (providerGroup * circuitBreakerLease) :=
  match e with
  | Ev q _ => match q with QComplete g lease _ => Some (g, lease) | _ => None end
  end.

Definition ev_acquire (e : event) : option providerGroup :=
  match e with
  | Ev q _ => match q with QAcquire g => Some g | _ => None end
  end.

Definition tries (tr : list event) := omap ev_try tr.
Definition grants (tr : list event) := omap ev_grant tr.
Definition completes (tr : list event) := omap ev_complete tr.
Definition acquires (tr : list event) := omap ev_acquire tr.

(** The evidence of the attempts, in the order they ended. *)
Definition evidence (tr : list event) : list AttemptEvidence :=
  concat ((fun '(_, _, (resp, _, _)) => rs_Attempts resp) <$> tries tr).

(** The attempt met a connection older than the retry asks for, and did nothing. *)
Definition fresh_required (t : providerGroup * try_args * presult) : bool :=
  let '(_, _, (resp, _, _)) := t in Is (rs_Err resp) (TSentinel errFreshTransportRequired).

(** Attempts that reached a connection. *)
Definition real_tries (tr : list event) := List.filter (fun t => negb (fresh_required t)) (tries tr).
Definition stale_tries (tr : list event) := List.filter fresh_required (tries tr).

(** The attempt streamed bytes into the caller's writer and reported its end. *)
Definition streamed (t : providerGroup * try_args * presult) : bool :=
  let '(_, a, (resp, ok, _)) := t in ok && ta_hasWriter a && attemptCommittedResp resp.

Lemma tries_app t u : tries (t ++ u) = tries t ++ tries u.
Proof. apply omap_app. Qed.
Lemma grants_app t u : grants (t ++ u) = grants t ++ grants u.
Proof. apply omap_app. Qed.
Lemma completes_app t u : completes (t ++ u) = completes t ++ completes u.
Proof. apply omap_app. Qed.
Lemma acquires_app t u : acquires (t ++ u) = acquires t ++ acquires u.
Proof. apply omap_app. Qed.
Lemma evidence_app t u : evidence (t ++ u) = evidence t ++ evidence u.
Proof. unfold evidence. by rewrite tries_app, fmap_app, concat_app. Qed.
Lemma real_tries_app t u : real_tries (t ++ u) = real_tries t ++ real_tries u.
Proof. unfold real_tries. by rewrite tries_app, filter_app. Qed.
Lemma stale_tries_app t u : stale_tries (t ++ u) = stale_tries t ++ stale_tries u.
Proof. unfold stale_tries. by rewrite tries_app, filter_app. Qed.
Lemma tries_cons e t : tries (e :: t) = option_list (ev_try e) ++ tries t.
Proof. unfold tries. simpl. by destruct (ev_try e). Qed.
Lemma grants_cons e t : grants (e :: t) = option_list (ev_grant e) ++ grants t.
Proof. unfold grants. simpl. by destruct (ev_grant e). Qed.
Lemma completes_cons e t : completes (e :: t) = option_list (ev_complete e) ++ completes t.
Proof. unfold completes. simpl. by destruct (ev_complete e). Qed.
Lemma acquires_cons e t : acquires (e :: t) = option_list (ev_acquire e) ++ acquires t.
Proof. unfold acquires. simpl. by destruct (ev_acquire e). Qed.
Lemma evidence_cons e t :
  evidence (e :: t) = concat ((fun '(_, _, (resp, _, _)) => rs_Attempts resp) <$> option_list (ev_try e)) ++ evidence t.
Proof. unfold evidence. rewrite tries_cons. by destruct (ev_try e) as [[[? ?] [[? ?] ?]]|]; simpl; [rewrite app_nil_r|]. Qed.
Create Rewrite HintDb trace.
#[export] Hint Rewrite tries_cons grants_cons completes_cons acquires_cons evidence_cons
  tries_app grants_app completes_app acquires_app evidence_app
  real_tries_app stale_tries_app : trace.

Lemma tries_split tr : length (tries tr) = (length (real_tries tr) + length (stale_tries tr))%nat.
Proof.
  unfold real_tries, stale_tries. induction (tries tr) as [|t l IH]; [done|]. simpl.
  destruct (fresh_required t); simpl; lia.
Qed.

Definition try_fresh (t : providerGroup * try_args * presult) : bool := ta_freshTransport (snd (fst t)).

(** ** The retry loop *)

Section Visit.
Context {P R : Type} (execP : P -> list event -> option R -> Prop).
Abbreviation sat := (Prog.sat (A := presult) execP).

(** The same request, up to the demand for a fresh transport. *)
Definition same_request (a a' : try_args) : Prop :=
  a' = a \/ a' = a <| ta_freshTransport := true |>.

Lemma same_request_trans a b c : same_request a b -> same_request b c -> same_request a c.
Proof. unfold same_request. intros [->| ->] [->| ->]; auto. Qed.

(** An attempt after which the loop tries again. *)
Definition retried (t : providerGroup * try_args * presult) : Prop :=
  let '(_, _, (resp, ok, cancelled)) := t in
  ok = true /\ cancelled = false /\ streamed t = false /\ (rs_Err resp <> None \/ rs_StatusCode resp = 451).

(** Two answers 451, the second on a transport newer than the first. *)
Definition answered_451 (t : providerGroup * try_args * presult) : Prop :=
  let '(_, _, (resp, ok, _)) := t in ok = true /\ rs_Err resp = None /\ rs_StatusCode resp = 451.

Definition confirmed_451 (ts : list (providerGroup * try_args * presult)) : Prop :=
  exists ts1 x ts2 y, ts = ts1 ++ x :: ts2 ++ [y] /\ answered_451 x /\ answered_451 y /\
    ta_freshTransport (snd (fst y)) = true.

(** How many attempts that reach a connection are left. *)
Definition loop_budget (connRetries : nat) (temporaryRetried mapped451Retry : bool) : nat :=
  if mapped451Retry then 1
  else (maxConnDiedRetries - connRetries) + (if temporaryRetried then 0 else 1) + 1.

(** What the loop did: the attempts before the last one were all retried, the
    result is the last attempt's with all evidence, and only a caller that gave up
    during the retry delay changes its verdict. *)
Definition loop_result (g : providerGroup) (attempts : list AttemptEvidence) (tr : list event)
    (r : presult) : Prop :=
  exists ts a' resp0 ok0 cancelled0,
    tries tr = ts ++ [(g, a', (resp0, ok0, cancelled0))] /\ Forall retried ts /\
    let '(resp, ok, cancelled) := r in
    resp = resp0 <| rs_Attempts := attempts ++ evidence tr |> /\
    ((ok, cancelled) = (ok0, cancelled0) \/
     (ok, cancelled) = (true, true) /\ retried (g, a', (resp0, ok0, cancelled0)) /\
       answered_451 (g, a', (resp0, ok0, cancelled0))).

Record loop_spec (g : providerGroup) (a : try_args) (attempts : list AttemptEvidence)
    (connRetries : nat) (temporaryRetried mapped451Retry : bool)
    (tr : list event) (r : option presult) : Prop := {
  ls_events : Forall (fun e => (exists a' x, same_request a a' /\ e = Ev (QTry g a') x) \/
                               exists b, e = Ev QBackoff b) tr;
  ls_real : (length (real_tries tr) <= loop_budget connRetries temporaryRetried mapped451Retry)%nat;
  ls_result : match r with
    | None => Forall retried (tries tr)
    | Some r => loop_result g attempts tr r
    end;
  ls_451 : forall resp, temporaryRetried = false -> r = Some (resp, true, false) ->
    rs_Err resp = None -> rs_StatusCode resp = 451 ->
    ta_hasWriter a && attemptCommittedResp resp = false -> confirmed_451 (tries tr);
  ls_fresh : forall resp, r = Some (resp, true, false) ->
    ta_hasWriter a && attemptCommittedResp resp = false -> Is (rs_Err resp) (TSentinel errFreshTransportRequired) = false
}.

Lemma retry_spec g a attempts n b m n' b' m' resp0 ok0 c0 a2 tr1 pre r :
  pre = [] \/ (exists f, pre = [Ev QBackoff f]) ->
  let x := (g, a, (resp0, ok0, c0)) in
  retried x -> same_request a a2 ->
  (length (if fresh_required x then [] else [x]) + loop_budget n' b' m' <= loop_budget n b m)%nat ->
  (b = false -> b' = false \/ answered_451 x /\ ta_freshTransport a2 = true) ->
  loop_spec g a2 (attempts ++ rs_Attempts resp0) n' b' m' tr1 r ->
  loop_spec g a attempts n b m (Ev (QTry g a) (resp0, ok0, c0) :: pre ++ tr1) r.
Proof.
  intros Hpre x Hx Ha Hb Hf [He Hr Hres H4 Hfresh].
  assert (Ht : forall t, tries (Ev (QTry g a) (resp0, ok0, c0) :: pre ++ t) = x :: tries t).
  { intros t. by destruct Hpre as [->|[f ->]]. }
  split.
  - constructor; [left; exists a, (resp0, ok0, c0); split; [by left|done]|]. apply Forall_app. split.
    + destruct Hpre as [->|[f ->]]; [done|]. constructor; [right; by exists f|done].
    + eapply Forall_impl; [|exact He]. intros e [(a' & y & Hs & ->)|Hq]; [|by right].
      left. exists a', y. split; [|done]. by eapply same_request_trans.
  - unfold real_tries in *. rewrite Ht. cbn [List.filter]. clearbody x.
    destruct (fresh_required x); cbn [negb length] in *; lia.
  - assert (Hev : evidence (Ev (QTry g a) (resp0, ok0, c0) :: pre ++ tr1) = rs_Attempts resp0 ++ evidence tr1).
    { unfold evidence. by rewrite Ht. }
    destruct r as [[[resp ok] c]|]; [|rewrite Ht; by constructor].
    destruct Hres as (ts & a' & r1 & ok1 & c1 & Hts & Hall & Hresp & Hv).
    exists (x :: ts), a', r1, ok1, c1. rewrite Ht, Hts, Hev, app_assoc. split_and!; try done. by constructor.
  - intros resp Hb0 -> Hn Hc Hs. rewrite Ht. destruct (Hf Hb0) as [Hb'|[Hx4 Hfr]].
    + assert (Hs2 : ta_hasWriter a2 && attemptCommittedResp resp = false).
      { destruct Ha as [->| ->]; [done|]. by destruct a. }
      destruct (H4 resp Hb' eq_refl Hn Hc Hs2) as (l1 & y & l2 & z & -> & Hy).
      by exists (x :: l1), y, l2, z.
    + destruct Hres as (ts & a' & r1 & ok1 & c1 & Hts & Hall & Hresp & Hv).
      exists [], x, ts, (g, a', (r1, ok1, c1)). rewrite Hts. split_and!; try done.
      * assert (rs_Err r1 = None) by (subst resp; done).
        assert (rs_StatusCode r1 = 451) by (subst resp; done).
        by destruct Hv as [Hv|[Hv _]]; simplify_eq.
      * assert (Hin : (g, a', (r1, ok1, c1)) ∈ tries tr1) by (rewrite Hts; apply elem_of_app; right; by left).
        apply list_elem_of_omap in Hin as (e & Hin & Hee). rewrite list.Forall_forall in He.
        destruct (He e Hin) as [(a3 & y & Hs3 & ->)|[f ->]]; [|done]. simpl in Hee. simplify_eq.
        simpl. by destruct Hs3 as [->| ->].
  - intros resp Hr0 Hs. apply (Hfresh resp Hr0). destruct Ha as [->| ->]; [done|]. by destruct a.
Qed.

Lemma last_spec g a attempts n b m x r :
  (1 <= loop_budget n b m)%nat ->
  let '(resp0, ok0, c0) := x in
  let '(resp, ok, c) := r in
  resp = resp0 <| rs_Attempts := attempts ++ rs_Attempts resp0 |> ->
  ((ok, c) = (ok0, c0) \/ (ok, c) = (true, true) /\ retried (g, a, x) /\ answered_451 (g, a, x)) ->
  (b = false -> ok0 = true -> c0 = false -> answered_451 (g, a, x) -> streamed (g, a, x) = false -> c = true) ->
  (ok = true -> c = false -> ta_hasWriter a && attemptCommittedResp resp0 = false ->
   Is (rs_Err resp0) (TSentinel errFreshTransportRequired) = false) ->
  forall tr, tr = [Ev (QTry g a) x] \/ (exists f, tr = [Ev (QTry g a) x; Ev QBackoff f]) ->
  loop_spec g a attempts n b m tr (Some r).
Proof.
  intros Hb. destruct x as [[resp0 ok0] c0], r as [[resp ok] c]. intros -> Hv Hc Hfr tr Htr.
  assert (Ht : tries tr = [(g, a, (resp0, ok0, c0))]) by (by destruct Htr as [->|[f ->]]).
  split.
  - assert (Hl : forall P0 : event -> Prop, P0 (Ev (QTry g a) (resp0, ok0, c0)) ->
      (forall f, P0 (Ev QBackoff f)) -> Forall P0 tr).
    { intros P0 H1 H2. destruct Htr as [->|[f ->]]; auto. }
    apply Hl; [left|right; eauto]. exists a, (resp0, ok0, c0). by split; [left|].
  - unfold real_tries. rewrite Ht. simpl. destruct (negb _); simpl; lia.
  - exists [], a, resp0, ok0, c0. unfold evidence. rewrite Ht. simpl. rewrite app_nil_r.
    split_and!; try done.
  - intros resp1 Hb0 [= <- -> ->] Hn H4 Hs. simpl in Hn, H4, Hs.
    destruct Hv as [[= <- <-]|[[=] _]]. exfalso.
    enough (false = true) by done. by apply Hc.
  - intros resp1 [= <- -> ->] Hs. by apply Hfr.
Qed.

Lemma resilient_loop_spec fuel g : forall a attempts n b m, (m = true -> b = true) ->
  sat (resilient_loop fuel g a attempts n b m) (fun tr r =>
    loop_spec g a attempts n b m tr r /\ (r = None -> (fuel <= length (tries tr))%nat)).
Proof.
  induction fuel as [|fuel IH]; intros a attempts n b m Hm; simpl.
  - apply sat_nofuel. split; [|simpl; lia]. by split; simpl; try lia.
  - apply sat_ask. intros [[resp ok] c]. rewrite cloneAttempts_id.
    assert (Hb : (1 <= loop_budget n b m)%nat) by (unfold loop_budget; destruct m; lia).
    assert (Hlast : forall ok' c' tr,
      ((ok', c') = (ok, c) \/ (ok', c') = (true, true) /\ retried (g, a, (resp, ok, c)) /\ answered_451 (g, a, (resp, ok, c))) ->
      (b = false -> ok = true -> c = false -> answered_451 (g, a, (resp, ok, c)) ->
        streamed (g, a, (resp, ok, c)) = false -> c' = true) ->
      (ok' = true -> c' = false -> ta_hasWriter a && attemptCommittedResp resp = false ->
        Is (rs_Err resp) (TSentinel errFreshTransportRequired) = false) ->
      tr = [Ev (QTry g a) (resp, ok, c)] \/ (exists f, tr = [Ev (QTry g a) (resp, ok, c); Ev QBackoff f]) ->
      loop_spec g a attempts n b m tr
        (Some (resp <| rs_Attempts := attempts ++ rs_Attempts resp |>, ok', c'))).
    { intros ok' c' tr Hv H4 Hfr Htr.
      exact (last_spec g a attempts n b m (resp, ok, c) (_, ok', c') Hb eq_refl Hv H4 Hfr tr Htr). }
    destruct (c || negb ok) eqn:Hstop.
    { apply sat_ret. split; [|done]. apply Hlast; [by left|by intros _ -> ->| |by left]. intros -> ->. done. }
    apply orb_false_iff in Hstop as [-> Hok%negb_false_iff]. subst ok.
    destruct (ta_hasWriter a && attemptCommittedResp resp) eqn:Hcom.
    { apply sat_ret. split; [|done]. apply Hlast; [by left| |by intros _ _ ?; congruence|by left].
      intros _ _ _ _ Hs. simpl in Hs. by rewrite Hcom in Hs. }
    assert (Hagain : forall pre a2 n' b' m' tr r,
      pre = [] \/ (exists f, pre = [Ev QBackoff f]) ->
      rs_Err resp <> None \/ rs_StatusCode resp = 451 -> same_request a a2 ->
      ((if Is (rs_Err resp) (TSentinel errFreshTransportRequired) then 0 else 1) + loop_budget n' b' m'
         <= loop_budget n b m)%nat ->
      (b = false -> b' = false \/ answered_451 (g, a, (resp, true, false)) /\ ta_freshTransport a2 = true) ->
      loop_spec g a2 (attempts ++ rs_Attempts resp) n' b' m' tr r /\ (r = None -> (fuel <= length (tries tr))%nat) ->
      loop_spec g a attempts n b m (Ev (QTry g a) (resp, true, false) :: pre ++ tr) r /\
      (r = None -> (S fuel <= length (tries (Ev (QTry g a) (resp, true, false) :: pre ++ tr)))%nat)).
    { intros pre a2 n' b' m' tr r Hpre Hre Ha Hbud Hf [Hs Hl]. split.
      - eapply retry_spec; try done. simpl. by destruct (Is _ _).
      - intros Hr. specialize (Hl Hr). destruct Hpre as [->|[f ->]]; simpl; lia. }
    destruct (Is (rs_Err resp) (TSentinel errFreshTransportRequired)) eqn:Hfr.
    { eapply sat_conseq; [by apply IH|]. intros tr r Hs.
      apply (Hagain []) with (4 := le_n _) in Hs; [done|by left| |by left|by left].
      left. by intros He; rewrite He in Hfr. }
    assert (Hno4 : negb b && is_nil (rs_Err resp) && (rs_StatusCode resp =? 451) = false ->
      b = false -> true = true -> false = false -> answered_451 (g, a, (resp, true, false)) ->
      streamed (g, a, (resp, true, false)) = false -> false = true).
    { intros Hn -> _ _ (_ & He & Hc) _. by rewrite He, Hc in Hn. }
    destruct (negb b && is_nil (rs_Err resp) && (rs_StatusCode resp =? 451)) eqn:H4.
    { apply andb_true_iff in H4 as [[Hb0%negb_true_iff Hnil%is_nil_None]%andb_true_iff Hcode%Z.eqb_eq].
      assert (Ha4 : answered_451 (g, a, (resp, true, false))) by done.
      assert (Hm0 : m = false) by (destruct m; [by rewrite Hm in Hb0|done]). subst b m.
      apply sat_ask. intros fired. destruct fired.
      - eapply sat_conseq; [by apply IH|]. intros tr r Hs.
        apply (Hagain [Ev QBackoff true]) in Hs; [done|by right; exists true|by right|by right| |by right].
        unfold loop_budget. destruct (maps451 resp); lia.
      - apply sat_ret. split; [|done]. apply Hlast; [right|done|done|right; by exists false].
        split; [done|]. split; [|done]. simpl. rewrite Hcom. auto. }
    specialize (Hno4 eq_refl).
    destruct (m && isConnectionDeathError (rs_Err resp)) eqn:Hmd.
    { apply sat_ret. split; [|done]. by apply Hlast; [left| | |left]. }
    destruct ((n <? maxConnDiedRetries)%nat && isConnectionDeathError (rs_Err resp)) eqn:Hd.
    { apply andb_true_iff in Hd as [Hn%Nat.ltb_lt Hd].
      assert (Hm0 : m = false) by (destruct m; [by rewrite Hd in Hmd|done]). subst m.
      eapply sat_conseq; [by apply IH|]. intros tr r Hs.
      apply (Hagain []) in Hs; [done|by left| |by left| |by left].
      - left. by intros He; rewrite He in Hd.
      - unfold loop_budget. lia. }
    apply sat_ret. split; [|done]. by apply Hlast; [left| | |left].
Qed.

(** ** One provider *)

(** The events of a refusal: contexts and the clock. *)
Definition idle (e : event) : Prop :=
  match e with Ev q _ => match q with QCtxErr | QPoolCtxErr | QNow => True | _ => False end end.

(** The request the loop sends: a breaker probe needs a fresh transport. *)
Definition leased_args (a : try_args) (lease : circuitBreakerLease) : try_args :=
  if lease_probe lease then a <| ta_freshTransport := true |> else a.

(** What one call does: the breaker refuses, and the answer is one piece of
    eligibility evidence and no attempt; or it grants a lease, the loop runs, and
    the lease is returned with the verdict on the result. *)
Inductive visit (fuel : nat) (g : providerGroup) (a : try_args) : list event -> option presult -> Prop :=
| visit_refused lease e quiet err ok cancelled now :
    Forall idle quiet -> ok = negb cancelled -> err <> None -> (cancelled = false -> err = Some e) ->
    (cancelled = true -> (Ev QCtxErr err : event) ∈ quiet \/ (Ev QPoolCtxErr err : event) ∈ quiet) ->
    visit fuel g a (Ev (QAcquire g) (lease, Some e) :: quiet)
      (Some ((errResponse err) <| rs_ProviderID := g_id g |>
              <| rs_Attempts := [buildEligibilityEvidence (ta_payload a) (g_id g) err (ta_validateBody a) now] |>,
             ok, cancelled))
| visit_granted lease body resp ok cancelled :
    loop_spec g (leased_args a lease) [] 0 false false body (Some (resp, ok, cancelled)) ->
    visit fuel g a
      (Ev (QAcquire g) (lease, None) :: body ++
         [Ev (QComplete g lease (classifyCircuitBreakerCompletion resp ok cancelled)) tt])
      (Some (resp, ok, cancelled))
| visit_stuck lease body :
    loop_spec g (leased_args a lease) [] 0 false false body None ->
    (fuel <= length (tries body))%nat ->
    visit fuel g a (Ev (QAcquire g) (lease, None) :: body) None.

Lemma tryGroupResilient_visit fuel g a : sat (tryGroupResilient fuel g a) (visit fuel g a).
Proof.
  unfold tryGroupResilient, ask. simpl. apply sat_ask. intros [lease [e|]].
  - simpl. apply sat_ask. intros err. destruct err as [err|]; simpl.
    { apply sat_ask. intros now. apply sat_ret.
      by apply (visit_refused _ _ _ lease e [Ev QCtxErr (Some err); Ev QNow now] (Some err) false true now);
        first [by intros _; left; left | repeat constructor]. }
    apply sat_ask. intros err. destruct err as [err|]; simpl.
    { apply sat_ask. intros now. apply sat_ret.
      by apply (visit_refused _ _ _ lease e [Ev QCtxErr None; Ev QPoolCtxErr (Some err); Ev QNow now]
        (Some err) false true now); first [by intros _; right; right; left | repeat constructor]. }
    apply sat_ask. intros now. apply sat_ret.
    by apply (visit_refused _ _ _ lease e [Ev QCtxErr None; Ev QPoolCtxErr None; Ev QNow now] (Some e) true false now);
      repeat constructor.
  - simpl. eapply sat_bind; [by apply (resilient_loop_spec fuel g (leased_args a lease))| |].
    + intros body [[resp ok] c] [Hl _]. apply sat_ask. intros []. apply sat_ret. by apply visit_granted.
    + intros body [Hl Hn]. apply visit_stuck; auto.
Qed.

Lemma idle_silent tr : Forall idle tr ->
  tries tr = [] /\ grants tr = [] /\ completes tr = [] /\ acquires tr = [].
Proof.
  induction 1 as [|[q x] tr Hq _ (IH1 & IH2 & IH3 & IH4)]; [done|].
  unfold tries, grants, completes, acquires in *. by destruct q; simpl in *.
Qed.

Lemma loop_silent g a attempts n b m tr r : loop_spec g a attempts n b m tr r ->
  grants tr = [] /\ completes tr = [] /\ acquires tr = [].
Proof.
  intros [He _ _ _]. induction He as [|e tr He _ (IH1 & IH2 & IH3)]; [done|].
  autorewrite with trace. rewrite IH1, IH2, IH3. by destruct He as [(a' & x & _ & ->)|[f ->]].
Qed.

(** *** Why the loop goes round again *)

(** The attempt lost its connection. *)
Definition lost (t : providerGroup * try_args * presult) : bool :=
  let '(_, _, (resp, _, _)) := t in negb (fresh_required t) && isConnectionDeathError (rs_Err resp).
(** The server answered 451. *)
Definition said_451 (t : providerGroup * try_args * presult) : bool :=
  let '(_, _, (resp, _, _)) := t in negb (fresh_required t) && is_nil (rs_Err resp) && (rs_StatusCode resp =? 451).

(** The attempts another attempt followed: the result is the last one's. *)
Definition repeated (tr : list event) (r : option presult) : list (providerGroup * try_args * presult) :=
  if r is Some _ then removelast (tries tr) else tries tr.

Definition turns (n : nat) (b : bool) (tr : list event) (r : option presult) : Prop :=
  Forall (fun t => fresh_required t || lost t || said_451 t = true) (repeated tr r) /\
  (length (List.filter lost (repeated tr r)) <= maxConnDiedRetries - n)%nat /\
  (length (List.filter said_451 (repeated tr r)) <= if b then 0 else 1)%nat /\
  (r <> None -> tries tr <> []).

Lemma turns_end n b tr r x : tries tr = [x] -> turns n b tr (Some r).
Proof. intros Ht. unfold turns, repeated. rewrite Ht. simpl. split_and!; [by constructor|lia|lia|done]. Qed.

Lemma turns_again n (b : bool) n' (b' : bool) (t : providerGroup * try_args * presult) (pre tr : list event) r :
  (forall u, tries (pre ++ u) = t :: tries u) -> fresh_required t || lost t || said_451 t = true ->
  ((if lost t then 1 else 0) + (maxConnDiedRetries - n') <= maxConnDiedRetries - n)%nat ->
  ((if said_451 t then 1 else 0) + (if b' then 0 else 1) <= if b then 0 else 1)%nat ->
  turns n' b' tr r -> turns n b (pre ++ tr) r.
Proof.
  intros Hpre Hr H1 H2 (Hf & Hl & Hs & Hn).
  assert (E : repeated (pre ++ tr) r = t :: repeated tr r).
  { unfold repeated. rewrite Hpre. destruct r as [r|]; [|done]. assert (Ht : tries tr <> []) by (by apply Hn). by destruct (tries tr). }
  unfold turns. rewrite E, Hpre. split_and!; try done; [by constructor|..]; cbn [List.filter].
  - destruct (lost t); simpl; lia.
  - destruct (said_451 t); simpl; lia.
Qed.

Lemma resilient_loop_turns fuel g : forall a attempts n b m,
  sat (resilient_loop fuel g a attempts n b m) (turns n b).
Proof.
  induction fuel as [|fuel IH]; intros a attempts n b m; simpl.
  { apply sat_nofuel. unfold turns, repeated. simpl. split_and!; [by constructor|lia|lia|done]. }
  apply sat_ask. intros [[resp ok] c].
  set (t := (g, a, (resp, ok, c)) : providerGroup * try_args * presult).
  assert (Hend : forall r, turns n b [Ev (QTry g a) (resp, ok, c)] (Some r)) by (intros r; by apply (turns_end _ _ _ _ t)).
  destruct (c || negb ok); [by apply sat_ret|].
  destruct (ta_hasWriter a && attemptCommittedResp resp); [by apply sat_ret|].
  destruct (Is (rs_Err resp) (TSentinel errFreshTransportRequired)) eqn:Hfr.
  { eapply sat_conseq; [apply IH|]. intros tr r. apply (turns_again _ _ _ _ t [Ev (QTry g a) (resp, ok, c)]); [done|..];
      unfold t; simpl; rewrite Hfr; simpl; [done|lia|lia]. }
  destruct (negb b && is_nil (rs_Err resp) && (rs_StatusCode resp =? 451)) eqn:H4.
  { apply andb_true_iff in H4 as [[Hb%negb_true_iff Hnil]%andb_true_iff Hcode]. subst b.
    assert (Hl : isConnectionDeathError (rs_Err resp) = false) by (by apply is_nil_None in Hnil as ->).
    apply sat_ask. intros [|].
    - eapply sat_conseq; [apply IH|]. intros tr r.
      apply (turns_again _ _ _ _ t [Ev (QTry g a) (resp, ok, c); Ev QBackoff true]); [done|..];
        unfold t; simpl; rewrite Hfr, ?Hl, ?Hnil, ?Hcode; simpl; [done|lia|lia].
    - apply sat_ret. by apply (turns_end _ _ _ _ t). }
  destruct (m && isConnectionDeathError (rs_Err resp)); [by apply sat_ret|].
  destruct ((n <? maxConnDiedRetries)%nat && isConnectionDeathError (rs_Err resp)) eqn:Hd; [|by apply sat_ret].
  apply andb_true_iff in Hd as [Hn%Nat.ltb_lt Hd].
  assert (Hnn : is_nil (rs_Err resp) = false) by (by destruct (rs_Err resp)).
  eapply sat_conseq; [apply IH|]. intros tr r.
  apply (turns_again _ _ _ _ t [Ev (QTry g a) (resp, ok, c)]); [done|..]; unfold t; simpl; rewrite Hfr, ?Hd, ?Hnn; simpl; [done|unfold maxConnDiedRetries in *; lia|destruct b; lia].
Qed.

Lemma turns_framed (e1 e2 : event) n b (tr : list event) (x : presult) :
  ev_try e1 = None -> ev_try e2 = None -> turns n b tr (Some x) -> turns n b (e1 :: tr ++ [e2]) (Some x).
Proof.
  intros H1 H2. unfold turns, repeated. rewrite tries_cons, tries_app, tries_cons, H1, H2. simpl. by rewrite app_nil_r.
Qed.

Lemma tryGroupResilient_turns fuel g a : sat (tryGroupResilient fuel g a) (fun tr r => tries tr = [] \/ turns 0 false tr r).
Proof.
  unfold tryGroupResilient, ask. simpl. apply sat_ask. intros [lease [e|]]; simpl.
  - apply sat_ask. intros [err|]; simpl; [apply sat_ask; intros now; apply sat_ret; by left|].
    apply sat_ask. intros [err|]; simpl; (apply sat_ask; intros now; apply sat_ret; by left).
  - eapply sat_bind; [apply resilient_loop_turns| |].
    + intros body [[resp ok] c] Ht. apply sat_ask. intros []. apply sat_ret. right. by apply turns_framed.
    + intros body Ht. right. unfold turns, repeated in *. by rewrite tries_cons.
Qed.

(** C29: One provider's attempts: a call makes at most four that reach a connection,
    whatever they return.  It tries again only after an attempt that lost its
    connection, at most twice; after an answer 451, at most once; or after one
    that the connection refused because it was older than the attempt asks for.
    Those refusals are not counted: every turn of the loop past the fourth is
    due to one more of them ([refusals_unbounded]). *)
Theorem attempts_bounded (fuel : nat) (g : providerGroup) (a : try_args) :
  sat (tryGroupResilient fuel g a) (fun tr r =>
    (length (real_tries tr) <= maxConnDiedRetries + 2)%nat /\
    Forall (fun t => fresh_required t || lost t || said_451 t = true) (repeated tr r) /\
    (length (List.filter lost (repeated tr r)) <= maxConnDiedRetries)%nat /\
    (length (List.filter said_451 (repeated tr r)) <= 1)%nat /\
    (r = None -> (fuel <= length (real_tries tr) + length (stale_tries tr))%nat)).
Proof.
  intros tr r He. assert (Hb := tryGroupResilient_turns fuel g a tr r He).
  assert (Hrep : Forall (fun t => fresh_required t || lost t || said_451 t = true) (repeated tr r) /\
    (length (List.filter lost (repeated tr r)) <= maxConnDiedRetries)%nat /\
    (length (List.filter said_451 (repeated tr r)) <= 1)%nat).
  { destruct Hb as [Ht|(H1 & H2 & H3 & _)]; [|by rewrite Nat.sub_0_r in H2].
    unfold repeated. rewrite Ht. destruct r; simpl; split_and!; try lia; by constructor. }
  assert (Hv := tryGroupResilient_visit fuel g a tr r He).
  enough ((length (real_tries tr) <= maxConnDiedRetries + 2)%nat /\
          (r = None -> (fuel <= length (real_tries tr) + length (stale_tries tr))%nat)) by tauto.
  destruct Hv as [lease e quiet err ok c now Hq|lease body resp ok c [_ Hr _ _]|lease body [_ Hr _ _] Hn].
  - unfold real_tries. autorewrite with trace. destruct (idle_silent quiet Hq) as (-> & _). simpl. split; [lia|done].
  - unfold real_tries in *. autorewrite with trace. simpl. rewrite app_nil_r. split; [exact Hr|done].
  - rewrite tries_split in Hn. simpl in Hr. unfold real_tries, stale_tries in *. autorewrite with trace. simpl. split; [exact Hr|by intros].
Qed.

(** Nothing but the caller's context ends the refusals: however long the loop is
    watched, it may not have returned and have made no attempt that reached a
    connection (each refusal closes a connection that worked, in [Run]). *)
Theorem refusals_unbounded (fuel : nat) (g : providerGroup) (a : try_args) :
  exists tr, exec execP (tryGroupResilient fuel g a) tr None /\ real_tries tr = [] /\ length (stale_tries tr) = fuel.
Proof.
  set (x := (errResponse (Some (ESentinel errFreshTransportRequired)), true, false) : presult).
  assert (Hl : forall fuel a attempts n b m,
    exec execP (resilient_loop fuel g a attempts n b m) (replicate fuel (Ev (QTry g a) x)) None).
  { intros f. induction f as [|f IH]; intros a' attempts n b m; [done|]. simpl. exists x, (replicate f (Ev (QTry g a') x)).
    split; [done|]. cbn. rewrite andb_false_r. apply IH. }
  assert (Ht : tries (Ev (QAcquire g) (zero_lease, None) :: replicate fuel (Ev (QTry g a) x)) = replicate fuel (g, a, x)).
  { rewrite tries_cons. clear. induction fuel as [|f IH]; [done|]. cbn [replicate]. rewrite tries_cons. simpl in *. by rewrite IH. }
  exists (Ev (QAcquire g) (zero_lease, None) :: replicate fuel (Ev (QTry g a) x)). split_and!.
  - simpl. eexists _, _. split; [done|]. cbn. apply exec_bind_None, Hl.
  - unfold real_tries. rewrite Ht. clear. by induction fuel.
  - unfold stale_tries. rewrite Ht. clear. induction fuel as [|f IH]; [done|]. simpl in *. by rewrite IH.
Qed.

(** Every lease the breaker grants is returned to it exactly once, after the
    last attempt, with the verdict on the response the caller gets; a refusal
    takes no lease and makes no attempt. *)
Theorem lease_returned (fuel : nat) (g : providerGroup) (a : try_args) :
  sat (tryGroupResilient fuel g a) (fun tr r =>
    match r with
    | None => exists lease, grants tr = [(g, lease)] /\ completes tr = []
    | Some (resp, ok, cancelled) =>
        (grants tr = [] /\ completes tr = [] /\ tries tr = []) \/
        (exists lease tr', tr = tr' ++ [Ev (QComplete g lease (classifyCircuitBreakerCompletion resp ok cancelled)) tt] /\
           grants tr = [(g, lease)] /\ completes tr = [(g, lease)])
    end).
Proof.
  eapply sat_conseq; [apply tryGroupResilient_visit|]. intros tr r Hv.
  destruct Hv as [lease e quiet err ok c now Hq|lease body resp ok c Hl|lease body Hl _].
  - left. autorewrite with trace.
    destruct (idle_silent quiet Hq) as (Ht & Hg & Hc & _). by split_and!.
  - right. destruct (loop_silent _ _ _ _ _ _ _ _ Hl) as (Hg & Hc & _).
    eexists lease, (_ :: body). split; [done|]. autorewrite with trace. by rewrite Hg, Hc.
  - destruct (loop_silent _ _ _ _ _ _ _ _ Hl) as (Hg & Hc & _). exists lease.
    autorewrite with trace. by rewrite Hg, Hc.
Qed.

Lemma visit_streamed_last fuel g a tr r : visit fuel g a tr r ->
  forall ts t ts', tries tr = ts ++ t :: ts' -> streamed t = true -> ts' = [].
Proof.
  intros Hv.
  assert (Hlast : forall l, (exists l0 x, l = l0 ++ [x] /\ Forall retried l0) \/ Forall retried l ->
    forall ts t ts', l = ts ++ t :: ts' -> streamed t = true -> ts' = []).
  { intros l Hl ts t ts' -> Hs. destruct ts' as [|u us _] using rev_ind; [done|exfalso].
    assert (Ht : retried t).
    { destruct Hl as [(l0 & x & He & Hl)|Hl].
      - rewrite app_comm_cons, app_assoc in He. apply app_inj_tail in He as [<- <-].
        rewrite list.Forall_forall in Hl. apply Hl, elem_of_app. right. by left.
      - rewrite list.Forall_forall in Hl. apply Hl, elem_of_app. right. by left. }
    destruct t as [[? ?] [[? ?] ?]]. destruct Ht as (_ & _ & Ht & _). congruence. }
  destruct Hv as [lease e quiet err ok c now Hq|lease body resp ok c [_ _ Hr _]|lease body [_ _ Hr _] _].
  - apply Hlast. right. autorewrite with trace. by destruct (idle_silent quiet Hq) as (-> & _).
  - apply Hlast. left. autorewrite with trace. simpl. rewrite app_nil_r.
    destruct Hr as (ts & a' & r0 & ok0 & c0 & Ht & Hf & _). eauto.
  - apply Hlast. by right.
Qed.

(** An attempt that streamed bytes into the caller's writer is the last one:
    the caller never receives the start of the body twice from one provider. *)
Theorem streamed_is_last (fuel : nat) (g : providerGroup) (a : try_args) :
  sat (tryGroupResilient fuel g a) (fun tr r =>
    forall ts t ts', tries tr = ts ++ t :: ts' -> streamed t = true -> ts' = []).
Proof.
  eapply sat_conseq; [apply tryGroupResilient_visit|]. intros tr r Hv. by eapply visit_streamed_last.
Qed.

(** The evidence of a call: the response carries the evidence of all its
    attempts in order, or, when the breaker refused, one eligibility record with
    the refusal as its cause.  Its verdict and reply are those of the last attempt,
    except that a caller that gives up during the retry delay is told so. *)
Theorem visit_evidence (fuel : nat) (g : providerGroup) (a : try_args) :
  sat (tryGroupResilient fuel g a) (fun tr r =>
    forall resp ok cancelled, r = Some (resp, ok, cancelled) ->
    match rev (tries tr) with
    | [] => exists ev, rs_Attempts resp = [ev] /\ rs_Err resp <> None /\ ae_ProviderID ev = g_id g /\
              ae_Cause ev = rs_Err resp /\ ae_ResponseCode ev = 0 /\ ok = negb cancelled
    | (_, _, (resp0, ok0, cancelled0)) :: _ =>
        resp = resp0 <| rs_Attempts := evidence tr |> /\
        ((ok, cancelled) = (ok0, cancelled0) \/
         (ok, cancelled) = (true, true) /\ rs_Err resp0 = None /\ rs_StatusCode resp0 = 451)
    end).
Proof.
  eapply sat_conseq; [apply tryGroupResilient_visit|]. intros tr r Hv.
  destruct Hv as [lease e quiet err ok c now Hq Hok Herr|lease body resp ok c [_ _ Hr _]|lease body [_ _ Hr _] _].
  - intros ? ? ? [= <- <- <-]. autorewrite with trace. destruct (idle_silent quiet Hq) as (-> & _). simpl.
    eexists. split; [done|]. split; [by destruct err|]. unfold buildEligibilityEvidence. by destruct err.
  - intros ? ? ? [= <- <- <-]. autorewrite with trace. simpl. rewrite !app_nil_r.
    destruct Hr as (ts & a' & r0 & ok0 & c0 & Ht & Hf & -> & Hcase). rewrite Ht, rev_app_distr. simpl.
    split; [by destruct r0|]. destruct Hcase as [?|(? & _ & _ & ? & ?)]; [by left|by right].
  - done.
Qed.

(** C30: A 451 is a provider's final answer only when it was given twice, the
    second time over a transport newer than the first (unless bytes already
    reached the caller's writer); and an attempt that probes a half-open breaker
    always demands a fresh transport. *)
Theorem absence_451_confirmed (fuel : nat) (g : providerGroup) (a : try_args) :
  sat (tryGroupResilient fuel g a) (fun tr r =>
    (forall resp, r = Some (resp, true, false) -> rs_Err resp = None -> rs_StatusCode resp = 451 ->
       ta_hasWriter a && attemptCommittedResp resp = false -> confirmed_451 (tries tr)) /\
    (forall lease, (g, lease) ∈ grants tr -> lease_probe lease = true ->
       Forall (fun t => try_fresh t = true) (tries tr))).
Proof.
  eapply sat_conseq; [apply tryGroupResilient_visit|]. intros tr r Hv.
  assert (Hfresh : forall lease tr r, lease_probe lease = true ->
    loop_spec g (leased_args a lease) [] 0 false false tr r -> Forall (fun t => try_fresh t = true) (tries tr)).
  { intros lease tr0 r0 Hp [He _ _ _]. unfold leased_args in He. rewrite Hp in He.
    induction He as [|e tr0 He _ IH]; [by constructor|]. autorewrite with trace.
    destruct He as [(a' & x & Hs & ->)|[f ->]]; [|done]. constructor; [|done]. by destruct Hs as [->| ->]. }
  destruct Hv as [lease e quiet err ok c now Hq Hok Herr|lease body resp ok c Hl|lease body Hl _].
  - autorewrite with trace. destruct (idle_silent quiet Hq) as (-> & -> & _). split; [|done].
    intros ? [= <- ? ?] He. by simpl in He.
  - destruct (loop_silent _ _ _ _ _ _ _ _ Hl) as (Hg & _). autorewrite with trace. simpl.
    rewrite Hg. simpl. rewrite app_nil_r. split.
    + intros ? [= <- -> ->] He Hc Hs. eapply ls_451; try done. unfold leased_args. by destruct (lease_probe _).
    + intros l Hin%list_elem_of_singleton Hp. simplify_eq. by eapply Hfresh.
  - destruct (loop_silent _ _ _ _ _ _ _ _ Hl) as (Hg & _). autorewrite with trace. simpl. rewrite Hg. simpl.
    split; [done|]. intros l Hin%list_elem_of_singleton Hp. simplify_eq. by eapply Hfresh.
Qed.
End Visit.
