(* ===== verification/Contract.v ===== *)
(** The routing contract: what an execution of [doSendWithRetry] may do, whatever the
    providers answer and whatever other goroutines do to the pool.

    [attempt_ok] and [told] say what the answers of the environment are; [ok_at
    before e] says what the code may rely on when it does [e] after [before], and
    [good] that every step of a trace was allowed.  [outcome] is the contract of one
    call of [tryGroupResilient], read off its executions (Visit.v). *)
From S2P Require Import Prelude Errors CircuitBreaker Reader Evidence Prog Dispatch Pool Visit.
#[local] Open Scope prog_scope.

(** ** More of what a trace shows *)

(** A provider's quota was asked for, and the answer. *)
Definition ev_quota (e : event) : option (providerGroup * bool) :=
  match e with
  | Ev q a => match q return ans q -> option (providerGroup * bool) with
              | QQuota g => fun b => Some (g, b)
              | _ => fun _ => None
              end a
  end.

(** A provider list was loaded: backup or main, and what it held. *)
Definition ev_load (e : event) : option (bool * list providerGroup) :=
  match e with
  | Ev q a => match q return ans q -> option (bool * list providerGroup) with
              | QLoad b => fun gs => Some (b, gs)
              | _ => fun _ => None
              end a
  end.

Definition ev_remove (e : event) : option string :=
  match e with Ev q _ => match q with QRemove n => Some n | _ => None end end.

Definition ev_deliver (e : event) : option Response :=
  match e with Ev q _ => match q with QDeliver resp => Some resp | _ => None end end.

Definition quotas (tr : list event) := omap ev_quota tr.
Definition loads (tr : list event) := omap ev_load tr.
Definition removes (tr : list event) := omap ev_remove tr.
Definition delivers (tr : list event) := omap ev_deliver tr.

Lemma quotas_app t u : quotas (t ++ u) = quotas t ++ quotas u.
Proof. apply omap_app. Qed.
Lemma loads_app t u : loads (t ++ u) = loads t ++ loads u.
Proof. apply omap_app. Qed.
Lemma removes_app t u : removes (t ++ u) = removes t ++ removes u.
Proof. apply omap_app. Qed.
Lemma delivers_app t u : delivers (t ++ u) = delivers t ++ delivers u.
Proof. apply omap_app. Qed.
#[export] Hint Rewrite quotas_app loads_app removes_app delivers_app : trace.

(** A reply from a provider, without an error. *)
Definition replied (g : providerGroup) (codes : list Z) (t : list event) : Prop :=
  exists a resp cancelled, (g, a, (resp, true, cancelled)) ∈ tries t /\ rs_Err resp = None /\
    rs_StatusCode resp ∈ codes.

(** The provider has no say left on the article: it answered 423 or 430, or 451 on
    a retry over a fresh transport, or its group was shut down. *)
Definition concluded (g : providerGroup) (t : list event) : Prop :=
  (exists a resp cancelled, (g, a, (resp, true, cancelled)) ∈ tries t /\ rs_StatusCode resp ∈ [423; 430]) \/
  (exists a resp cancelled, (g, a, (resp, true, cancelled)) ∈ tries t /\ rs_Err resp = None /\
    rs_StatusCode resp = 451 /\ ta_freshTransport a = true) \/
  (exists a resp cancelled, (g, a, (resp, false, cancelled)) ∈ tries t).

(** The provider answered a request with a success that is not taken for one: a STAT
    probe with a code other than 223. *)
Definition odd_success (g : providerGroup) (t : list event) : Prop :=
  exists a resp cancelled, (g, a, (resp, true, cancelled)) ∈ tries t /\ ta_hasWriter a = false /\
    rs_Err resp = None /\ code_ok (rs_StatusCode resp) = true /\ rs_StatusCode resp <> 223.

Definition unstreamed (t : list event) : Prop := Forall (fun x => streamed x = false) (tries t).

(** Every provider that answered 502 was taken out of the pool. *)
Definition removed (t : list event) : Prop :=
  forall g a resp, (g, a, (resp, true, false)) ∈ tries t -> rs_Err resp = None ->
    rs_StatusCode resp = 502 -> g_name g ∈ removes t.

(** The errors of contexts and circuit breakers are none of [ErrArticleNotFound]. *)
Definition told_at (e : event) : Prop :=
  match e with
  | Ev q x => match q return ans q -> Prop with
              | QAcquire _ => fun x => Is (snd x) IsArticleNotFound = false
              | QCtxErr | QPoolCtxErr => fun x => Is x IsArticleNotFound = false
              | _ => fun _ => True
              end x
  end.
Definition told (t : list event) : Prop := Forall told_at t.

(** A breaker's refusal is one of its own errors. *)
Lemma acquire_told g b id now : told_at (Ev (QAcquire g) (snd (fst (acquire b id now)), snd (acquire b id now))).
Proof. unfold acquire. simpl. repeat (case_match; try done). Qed.

(** A success, or an answer that the article is absent. *)
Definition says_verdict (resp : Response) : Prop :=
  (rs_Err resp = None /\ code_ok (rs_StatusCode resp) = true) \/
  rs_StatusCode resp = 423 \/ rs_StatusCode resp = 430 \/
  (rs_Err resp = None /\ responseIsHardArticleAbsence resp = true).

(** What [tryGroup] answers: it reports the caller's cancellation only without a
    response; bytes reach the caller's writer only as the body of a 2xx or 3xx
    reply; its evidence is coherent, and left out only for a connection that is too
    old; and a reply whose evidence has no fault is a verdict on the article. *)
Record attempt_answer (streamed : bool) (resp : Response) (ok cancelled : bool) : Prop := {
  aa_cancelled : cancelled = true -> ok = false;
  aa_streamed : streamed = true -> rs_Err resp <> None \/ code_ok (rs_StatusCode resp) = true;
  aa_body : streamed = true -> rs_Attempts resp <> [] /\ rs_StatusCode resp <> 423 /\ rs_StatusCode resp <> 430;
  aa_evidence : ok = true -> rs_Attempts resp = [] -> Is (rs_Err resp) (TSentinel errFreshTransportRequired) = true;
  aa_error : ok = true -> Is (rs_Err resp) IsArticleNotFound = false;
  aa_coherent : Forall coherent_attempt (rs_Attempts resp);
  aa_verdict : ok = true -> rs_Attempts resp <> [] -> Forall faultless (rs_Attempts resp) -> says_verdict resp
}.
Definition attempt_ok (t : providerGroup * try_args * presult) : Prop :=
  let '(_, _, (resp, ok, cancelled)) := t in attempt_answer (streamed t) resp ok cancelled.

(** "No such article": by the error the client makes of the response, or by its
    code (423, 430, or a 451 whose evidence says that the provider means absence). *)
Definition not_found (resp : Response) : Prop :=
  Is (responseError resp) IsArticleNotFound = true \/
  (rs_Err resp = None /\ responseIsHardArticleAbsence resp = true).

(** Why a provider does not stand against "no such article": it concluded, or, when
    an error is to be reported, it gave a success that was not taken for one. *)
Definition ruled_out (lastErr : error) (g : providerGroup) (t : list event) : Prop :=
  concluded g t \/ (lastErr <> None /\ odd_success g t).

Definition exhausted : Response := errResponse (Some (EOpaque "nntp: all providers exhausted")).

(** What holds when the response is delivered. *)
Record final_at (t : list event) (resp : Response) : Prop := {
  fa_removed : removed t;
  fa_balanced : Permutation (completes t) (grants t);
  fa_evidence : evidence t ⊆+ rs_Attempts resp \/ resp = exhausted;
  fa_absent : told t -> not_found resp -> exists mains backups,
    loads t = [(false, mains); (true, backups)] /\
    forall g, g ∈ mains ++ backups -> ruled_out (rs_Err resp) g t
}.

Record ok_at (t : list event) (e : event) : Prop := {
  oa_open : delivers t = [];
  oa_quota : forall g, ev_acquire e = Some g -> (g, false) ∈ quotas t;
  oa_try : forall g a x, ev_try e = Some (g, a, x) -> (g, false) ∈ quotas t;
  oa_writer : forall g a x, ev_try e = Some (g, a, x) -> ta_hasWriter a = true -> unstreamed t;
  oa_backup : forall gs mains g, ev_load e = Some (true, gs) -> (false, mains) ∈ loads t -> g ∈ mains ->
    exists b, (g, b) ∈ quotas t;
  oa_remove : forall n, ev_remove e = Some n -> exists g, g_name g = n /\ replied g [502] t;
  oa_final : forall resp, ev_deliver e = Some resp -> final_at t resp
}.

Definition good (t : list event) : Prop := forall t1 e t2, t = t1 ++ e :: t2 -> ok_at t1 e.

Lemma good_nil : good [].
Proof. intros t1 e t2 Ht. by destruct t1. Qed.

Lemma good_snoc t e : good t -> ok_at t e -> good (t ++ [e]).
Proof.
  intros Hg He t1 e' t2 Ht. destruct t2 as [|e2 t2 _] using rev_ind.
  - apply app_inj_tail in Ht as [-> ->]. done.
  - rewrite app_comm_cons, app_assoc in Ht. apply app_inj_tail in Ht as [-> _]. by apply (Hg t1 e' t2).
Qed.

Lemma good_app t u : good t -> (forall u1 e u2, u = u1 ++ e :: u2 -> ok_at (t ++ u1) e) -> good (t ++ u).
Proof.
  intros Hg. induction u as [|e u IH] using rev_ind; intros Hu; [by rewrite app_nil_r|].
  rewrite app_assoc. apply good_snoc.
  - apply IH. intros u1 e' u2 ->. apply (Hu u1 e' (u2 ++ [e])). by rewrite <- app_assoc.
  - by apply (Hu u e []).
Qed.

Lemma replied_incl g codes t u : (forall x, x ∈ tries t -> x ∈ tries u) -> replied g codes t -> replied g codes u.
Proof. intros Hi (a & resp & c & Hin & H). exists a, resp, c. auto. Qed.

Lemma concluded_incl g t u : (forall x, x ∈ tries t -> x ∈ tries u) -> concluded g t -> concluded g u.
Proof.
  intros Hi [(a & resp & c & Hin & H)|[(a & resp & c & Hin & H)|(a & resp & c & Hin)]].
  - left. exists a, resp, c. auto.
  - right. left. exists a, resp, c. auto.
  - right. right. exists a, resp, c. auto.
Qed.

Lemma odd_success_incl g t u : (forall x, x ∈ tries t -> x ∈ tries u) -> odd_success g t -> odd_success g u.
Proof. intros Hi (a & resp & c & Hin & H). exists a, resp, c. auto. Qed.

Lemma tries_in_l x t u : x ∈ tries t -> x ∈ tries (t ++ u).
Proof. intros H. autorewrite with trace. apply elem_of_app. by left. Qed.
Lemma tries_in_r x t u : x ∈ tries u -> x ∈ tries (t ++ u).
Proof. intros H. autorewrite with trace. apply elem_of_app. by right. Qed.

Lemma replied_mono g codes t u : replied g codes t -> replied g codes (t ++ u).
Proof. apply replied_incl. intros. by apply tries_in_l. Qed.
Lemma concluded_mono g t u : concluded g t -> concluded g (t ++ u).
Proof. apply concluded_incl. intros. by apply tries_in_l. Qed.
Lemma ruled_out_mono lastErr lastErr' g t u : (lastErr' = None -> lastErr = None) ->
  ruled_out lastErr g t -> ruled_out lastErr' g (t ++ u).
Proof.
  intros He [H|[Hn H]]; [left; by apply concluded_mono|right]. split; [by intros ?%He|].
  eapply odd_success_incl; [|exact H]. intros. by apply tries_in_l.
Qed.

(** What holds between two providers: nothing delivered, nothing owed, and the
    evidence so far collected in [attempts]. *)
Record clean (ls : list (bool * list providerGroup)) (t : list event) (attempts : list AttemptEvidence) : Prop := {
  cl_good : good t;
  cl_open : delivers t = [];
  cl_loads : loads t = ls;
  cl_removed : removed t;
  cl_balanced : Permutation (completes t) (grants t);
  cl_unstreamed : unstreamed t;
  cl_evidence : evidence t ⊆+ attempts;
  cl_coherent : told t -> Forall coherent_attempt attempts
}.

(** Nothing so far speaks against the article's absence: no error is to be
    reported, or at least no attempt has a fault. *)
Definition unfaulted (lastErr : error) (attempts : list AttemptEvidence) (t : list event) : Prop :=
  lastErr = None \/ (told t /\ Forall faultless attempts).

(** Then the providers in [done] are all ruled out. *)
Definition verdicts (done : list providerGroup) (t : list event) (lastErr : error)
    (attempts : list AttemptEvidence) : Prop :=
  unfaulted lastErr attempts t -> forall g, g ∈ done -> ruled_out lastErr g t.

(** The providers in [done] were all asked for their quota. *)
Definition considered (done : list providerGroup) (t : list event) : Prop :=
  forall g, g ∈ done -> exists b, (g, b) ∈ quotas t.

Lemma told_app t u : told (t ++ u) <-> told t /\ told u.
Proof. apply Forall_app. Qed.

(** Later in a request: an error stays, and evidence is only added. *)
Definition later (lastErr : error) (attempts : list AttemptEvidence) (lastErr' : error)
    (attempts' : list AttemptEvidence) : Prop :=
  (lastErr' = None -> lastErr = None) /\ attempts `prefix_of` attempts'.

Lemma later_refl lastErr attempts : later lastErr attempts lastErr attempts.
Proof. by split. Qed.
Lemma later_trans e1 a1 e2 a2 e3 a3 : later e1 a1 e2 a2 -> later e2 a2 e3 a3 -> later e1 a1 e3 a3.
Proof. intros [H1 H2] [H3 H4]. split; [auto|by etransitivity]. Qed.
Lemma later_more lastErr attempts more : later lastErr attempts lastErr (attempts ++ more).
Proof. split; [done|by apply prefix_app_r]. Qed.
Lemma later_error lastErr attempts (e : error) more : e <> None -> later lastErr attempts e (attempts ++ more).
Proof. intros He. split; [by intros ?|by apply prefix_app_r]. Qed.
#[export] Hint Resolve later_refl later_more later_error : core.

Lemma unfaulted_back lastErr lastErr' attempts attempts' t u : later lastErr attempts lastErr' attempts' ->
  unfaulted lastErr' attempts' (t ++ u) -> unfaulted lastErr attempts t.
Proof.
  intros [He [more ->]] [Hn|[[Ht _]%told_app [Hf _]%Forall_app]]; [left; by apply He|by right].
Qed.

Lemma verdicts_mono done t u lastErr attempts : verdicts done t lastErr attempts -> verdicts done (t ++ u) lastErr attempts.
Proof. intros H He%(unfaulted_back lastErr lastErr attempts attempts); [|done]. intros g Hg. apply (ruled_out_mono lastErr); [done|]. by apply H. Qed.

Lemma considered_mono done t u : considered done t -> considered done (t ++ u).
Proof.
  intros H g Hg. destruct (H g Hg) as [b Hb]. exists b. autorewrite with trace. apply elem_of_app. by left.
Qed.

Lemma considered_add done t g b : considered done t -> (g, b) ∈ quotas t -> considered (done ++ [g]) t.
Proof. intros H Hg g' [Hd|Hs%list_elem_of_singleton]%elem_of_app; [by apply H|subst; eauto]. Qed.

(** Questions that change nothing the contract is about. *)
Definition inert (e : event) : Prop :=
  match e with
  | Ev q _ => match q with
              | QQuota _ | QAvailable _ | QSpeed _ | QCtxErr | QPoolCtxErr | QNow | QNextIdx
              | QReconnect _ => True
              | _ => False
              end
  end.

Lemma inert_silent e : inert e ->
  ev_try e = None /\ ev_grant e = None /\ ev_complete e = None /\ ev_acquire e = None /\
  ev_load e = None /\ ev_remove e = None /\ ev_deliver e = None.
Proof. destruct e as [q x]. by destruct q. Qed.

Lemma inert_ok t e : inert e -> delivers t = [] -> ok_at t e.
Proof.
  intros (Ht & _ & _ & Ha & Hl & Hr & Hd)%inert_silent Ho. split; try done; intros *.
  - by rewrite Ha.
  - by rewrite Ht.
  - by rewrite Ht.
  - by rewrite Hl.
  - by rewrite Hr.
  - by rewrite Hd.
Qed.

Lemma omap_snoc_None {A B} (f : A -> option B) l x : f x = None -> omap f (l ++ [x]) = omap f l.
Proof. intros H. rewrite omap_app. simpl. by rewrite H, app_nil_r. Qed.

Lemma clean_inert ls t attempts e : inert e -> clean ls t attempts -> clean ls (t ++ [e]) attempts.
Proof.
  intros Hi [Hg Ho Hl Hr Hb Hu Hev Hco]. pose proof (inert_ok t e Hi Ho) as Hok.
  destruct (inert_silent e Hi) as (Et & Eg & Ec & Ea & El & Er & Ed).
  assert (Ht : tries (t ++ [e]) = tries t) by by apply omap_snoc_None.
  split.
  - by apply good_snoc.
  - unfold delivers. by rewrite omap_snoc_None.
  - unfold loads. by rewrite omap_snoc_None.
  - intros g a resp. unfold removes. rewrite Ht, omap_snoc_None by done. apply Hr.
  - unfold completes, grants. by rewrite !omap_snoc_None.
  - unfold unstreamed. by rewrite Ht.
  - unfold evidence. by rewrite Ht.
  - intros [Hto _]%told_app. by apply Hco.
Qed.

Lemma clean_more ls t attempts more : clean ls t attempts -> (told t -> Forall coherent_attempt more) ->
  clean ls t (attempts ++ more).
Proof.
  intros [Hg Ho Hl Hr Hb Hu Hev Hco] Hm. split; try done.
  - etransitivity; [exact Hev|]. by apply submseteq_inserts_r.
  - intros Ht. apply Forall_app. auto.
Qed.

(** ** One provider *)

(** What the events of a call on [g] with [a] can be. *)
Definition visit_event (g : providerGroup) (a : try_args) (e : event) : Prop :=
  ev_deliver e = None /\ ev_load e = None /\ ev_remove e = None /\ ev_quota e = None /\
  (forall g', ev_acquire e = Some g' -> g' = g) /\
  (forall g' a' x, ev_try e = Some (g', a', x) -> g' = g /\ ta_hasWriter a' = ta_hasWriter a).

Lemma visit_events fuel g a tr r : visit fuel g a tr r -> Forall (visit_event g a) tr.
Proof.
  assert (Hloop : forall lease n b m body r, loop_spec g (leased_args a lease) [] n b m body r ->
    Forall (visit_event g a) body).
  { intros lease n b m body r0 [He _ _ _ _]. eapply Forall_impl; [|exact He].
    intros e [(a' & x & Hs & ->)|[f ->]]; [|done]. split_and!; try done. intros g' a2 y. simpl. intros. simplify_eq.
    split; [done|]. unfold leased_args in Hs. by destruct Hs as [->| ->], (lease_probe lease). }
  assert (Hacq : forall x, visit_event g a (Ev (QAcquire g) x)).
  { intros [l e]. split_and!; try done. by intros g' [= ->]. }
  intros Hv. destruct Hv as [lease e quiet err ok c now Hq|lease body resp ok c Hl|lease body Hl _];
    constructor; try done.
  - eapply Forall_impl; [|exact Hq]. intros [q x] Hi. by destruct q.
  - apply Forall_app. split; [by eapply Hloop|]. by repeat constructor.
  - by eapply Hloop.
Qed.

(** The result of a call, as far as the router is concerned. *)
Record outcome (g : providerGroup) (a : try_args) (tr : list event) (resp : Response) (ok cancelled : bool) : Prop := {
  oc_evidence : evidence tr ⊆+ rs_Attempts resp;
  oc_balanced : Permutation (completes tr) (grants tr);
  oc_502 : forall g' a' resp', (g', a', (resp', true, false)) ∈ tries tr -> rs_Err resp' = None ->
    rs_StatusCode resp' = 502 -> g' = g /\ ok = true /\ cancelled = false /\ rs_Err resp = None /\
    rs_StatusCode resp = 502;
  oc_reply : ok = true -> rs_Err resp = None -> exists a' r c, (g, a', (r, true, c)) ∈ tries tr /\
    ta_hasWriter a' = ta_hasWriter a /\ rs_Err r = None /\ rs_StatusCode r = rs_StatusCode resp;
  oc_streamed : unstreamed tr \/ (ok = true /\ cancelled = false /\
    ta_hasWriter a && attemptCommittedResp resp = true /\
    (rs_Err resp <> None \/ code_ok (rs_StatusCode resp) = true));
  oc_gone : ok = false -> cancelled = false -> concluded g tr;
  oc_absent : ok = true -> cancelled = false ->
    rs_StatusCode resp = 423 \/ rs_StatusCode resp = 430 \/ (rs_Err resp = None /\ rs_StatusCode resp = 451) ->
    concluded g tr;
  oc_said : ok = true -> cancelled = false -> rs_Attempts resp <> [];
  oc_body : ok = true -> cancelled = false -> ta_hasWriter a && attemptCommittedResp resp = true ->
    rs_StatusCode resp <> 423 /\ rs_StatusCode resp <> 430;
  oc_error : told tr -> ok = true -> Is (rs_Err resp) IsArticleNotFound = false;
  oc_coherent : told tr -> Forall coherent_attempt (rs_Attempts resp);
  oc_verdict : told tr -> ok = true -> cancelled = false -> Forall faultless (rs_Attempts resp) -> says_verdict resp
}.

Lemma absence_codes resp : responseIsHardArticleAbsence resp = true ->
  rs_StatusCode resp = 423 \/ rs_StatusCode resp = 430 \/ rs_StatusCode resp = 451.
Proof.
  unfold responseIsHardArticleAbsence.
  destruct (Z.eqb_spec (rs_StatusCode resp) 423); [auto|].
  destruct (Z.eqb_spec (rs_StatusCode resp) 430); [auto|].
  destruct (Z.eqb_spec (rs_StatusCode resp) 451); [auto|done].
Qed.

Lemma retried_quiet ts : Forall retried ts -> Forall (fun x => streamed x = false) ts.
Proof. intros H. eapply Forall_impl; [|exact H]. by intros [[? ?] [[? ?] ?]] (_ & _ & ? & _). Qed.

Lemma leased_writer a lease a' : same_request (leased_args a lease) a' -> ta_hasWriter a' = ta_hasWriter a.
Proof. unfold leased_args. by intros [->| ->]; destruct (lease_probe lease). Qed.

Lemma loop_last g a lease body r0 a' ok0 c0 ts r :
  loop_spec g (leased_args a lease) [] 0 false false body r ->
  tries body = ts ++ [(g, a', (r0, ok0, c0))] -> ta_hasWriter a' = ta_hasWriter a.
Proof.
  intros [He _ _ _ _] Ht. assert (Hin : (g, a', (r0, ok0, c0)) ∈ tries body).
  { rewrite Ht. apply elem_of_app. right. by left. }
  apply list_elem_of_omap in Hin as (e & Hin & Hee). rewrite list.Forall_forall in He.
  destruct (He e Hin) as [(a3 & y & Hs3 & ->)|[f ->]]; [|done]. simpl in Hee. simplify_eq. by eapply leased_writer.
Qed.

(** More evidence in front does not change what a reply says of the article. *)
Lemma absence_attempts resp attempts : rs_Attempts resp <> [] ->
  responseIsHardArticleAbsence (resp <| rs_Attempts := attempts ++ rs_Attempts resp |>) =
  responseIsHardArticleAbsence resp.
Proof.
  intros Hne. unfold responseIsHardArticleAbsence. simpl.
  destruct (rs_Attempts resp) as [|ev evs _] using rev_ind; [done|]. by rewrite app_assoc, !last_elem_snoc.
Qed.

(** The evidence of a provider that was not asked. *)
Lemma eligibility_evidence payload id err v now : Is err IsArticleNotFound = false ->
  coherent_attempt (buildEligibilityEvidence payload id err v now) /\
  ~ faultless (buildEligibilityEvidence payload id err v now).
Proof.
  intros He. split; [by apply buildAttemptEvidence_outcome|]. intros Hf.
  by destruct (faultless_reply (newRequest payload v) id (errResponse err) now He Hf) as [[_ ?]|[?|[?|(_ & ? & _)]]].
Qed.

Lemma refused_told g lease e quiet err (c : bool) : (c = false -> err = Some e) ->
  (c = true -> (Ev QCtxErr err : event) ∈ quiet \/ (Ev QPoolCtxErr err : event) ∈ quiet) ->
  told (Ev (QAcquire g) (lease, Some e) :: quiet) -> Is err IsArticleNotFound = false.
Proof.
  intros H1 H2 [Ht Hq]%Forall_cons_iff. rewrite list.Forall_forall in Hq. destruct c.
  - by destruct (H2 eq_refl) as [Hin|Hin]; apply Hq in Hin.
  - by rewrite (H1 eq_refl).
Qed.

Lemma refused_outcome g a lease e quiet err c now : Forall idle quiet -> err <> None ->
  (c = false -> err = Some e) ->
  (c = true -> (Ev QCtxErr err : event) ∈ quiet \/ (Ev QPoolCtxErr err : event) ∈ quiet) ->
  outcome g a (Ev (QAcquire g) (lease, Some e) :: quiet)
    ((errResponse err) <| rs_ProviderID := g_id g |>
       <| rs_Attempts := [buildEligibilityEvidence (ta_payload a) (g_id g) err (ta_validateBody a) now] |>) (negb c) c.
Proof.
  intros Hq He H1 H2. pose proof (refused_told g lease e quiet err c H1 H2) as Htold.
  destruct (idle_silent quiet Hq) as (Ht & Hgr & Hc & _).
  split; unfold evidence, unstreamed; autorewrite with trace; rewrite ?Ht, ?Hgr, ?Hc; simpl; try done;
    try apply submseteq_nil_l.
  - intros ? ? ? Hin. by apply elem_of_nil in Hin.
  - by left.
  - by destruct c.
  - by intros _ _ [?|[?|[_ ?]]].
  - intros Hx _. by apply Htold.
  - intros Hx%Htold. apply Forall_cons_2; [|apply Forall_nil_2]. by apply eligibility_evidence.
  - intros Hx%Htold _ _ [Hf _]%Forall_cons_iff. by apply eligibility_evidence in Hf.
Qed.

(** The evidence of the loop: that of its last attempt comes last. *)
Lemma loop_evidence (ts : list (providerGroup * try_args * presult)) g a (r0 : Response) (ok0 c0 : bool) body :
  tries body = ts ++ [(g, a, (r0, ok0, c0))] -> exists before, evidence body = before ++ rs_Attempts r0.
Proof. intros Ht. unfold evidence. rewrite Ht, fmap_app, concat_app. simpl. rewrite app_nil_r. eauto. Qed.

Lemma evidence_coherent body : Forall attempt_ok (tries body) -> Forall coherent_attempt (evidence body).
Proof.
  unfold evidence. induction 1 as [|[[g a] [[resp ok] c]] ts Ha _ IH]; [done|]. simpl. apply Forall_app.
  split; [apply Ha|done].
Qed.

(** What the evidence of the loop's result says. *)
Lemma loop_verdict g a body resp :
  loop_spec g a [] 0 false false body (Some (resp, true, false)) -> Forall attempt_ok (tries body) ->
  rs_Attempts resp <> [] /\
  (ta_hasWriter a && attemptCommittedResp resp = true -> rs_StatusCode resp <> 423 /\ rs_StatusCode resp <> 430) /\
  (Forall faultless (rs_Attempts resp) -> says_verdict resp).
Proof.
  intros [Hev _ (ts & a' & r0 & ok0 & c0 & Ht & _ & -> & Hcase) _ Hfresh] Hok.
  destruct Hcase as [[= <- <-]|[[=] _]]. rewrite Ht in Hok. apply Forall_app in Hok as [_ [Ha _]%Forall_cons_iff].
  destruct (loop_evidence _ _ _ _ _ _ _ Ht) as [before Hb]. rewrite Hb. simpl.
  assert (Hw : ta_hasWriter a' = ta_hasWriter a).
  { assert (Hin : (g, a', (r0, true, false)) ∈ tries body) by (rewrite Ht; apply elem_of_app; right; by left).
    apply list_elem_of_omap in Hin as (e & Hin & Hee). rewrite list.Forall_forall in Hev.
    destruct (Hev e Hin) as [(a3 & y & Hs3 & ->)|[f ->]]; [|done]. simpl in Hee. simplify_eq. by destruct Hs3 as [->| ->]. }
  assert (Hne : rs_Attempts r0 <> []).
  { intros Hn. pose proof (aa_evidence _ _ _ _ Ha eq_refl Hn) as Hf. destruct (ta_hasWriter a && attemptCommittedResp r0) eqn:Hs.
    - destruct (aa_body _ _ _ _ Ha) as [Hx _]; [|done]. simpl. by rewrite Hw.
    - specialize (Hfresh _ eq_refl Hs). simpl in Hfresh. congruence. }
  split_and!.
  - by intros [_ Hn]%app_eq_nil.
  - intros Hs. destruct (aa_body _ _ _ _ Ha) as [_ Hx]; [simpl; by rewrite Hw|exact Hx].
  - intros [_ Hf]%Forall_app. destruct (aa_verdict _ _ _ _ Ha eq_refl Hne Hf) as [?|[?|[?|[? Hx]]]]; unfold says_verdict; auto.
    do 3 right. split; [done|]. by rewrite absence_attempts.
Qed.

Lemma leased_hasWriter a lease : ta_hasWriter (leased_args a lease) = ta_hasWriter a.
Proof. unfold leased_args. by destruct (lease_probe lease). Qed.

(** An answer that the article is absent settles the provider; its 451 is the second. *)
Lemma granted_absent g a lease body r0 evs ts a' t :
  loop_spec g (leased_args a lease) [] 0 false false body (Some (r0 <| rs_Attempts := evs |>, true, false)) ->
  tries body = ts ++ [(g, a', (r0, true, false))] -> (g, a', (r0, true, false)) ∈ tries t ->
  (streamed (g, a', (r0, true, false)) = true -> rs_Err r0 <> None \/ code_ok (rs_StatusCode r0) = true) ->
  rs_StatusCode r0 = 423 \/ rs_StatusCode r0 = 430 \/ (rs_Err r0 = None /\ rs_StatusCode r0 = 451) ->
  concluded g t.
Proof.
  intros Hl Ht Hin Hs0 Ha. pose proof Hl as [_ _ _ H451 _].
  destruct Ha as [Hco|[Hco|[He Hco]]]; [left; exists a', r0, false; rewrite Hco; split; [done|set_solver]..|].
  right. left. exists a', r0, false. split_and!; try done.
  pose proof (loop_last _ _ _ _ _ _ _ _ _ _ Hl Ht) as Hw.
  assert (Hs : streamed (g, a', (r0, true, false)) = false).
  { destruct (streamed _); [|done]. destruct (Hs0 eq_refl) as [?|Hx]; [done|by rewrite Hco in Hx]. }
  destruct (H451 _ eq_refl eq_refl He Hco) as (l1 & x & l2 & y & Hy & _ & _ & Hf).
  { rewrite leased_hasWriter, <- Hw. exact Hs. }
  rewrite Ht in Hy. rewrite app_comm_cons, app_assoc in Hy. by apply app_inj_tail in Hy as [_ <-].
Qed.

Lemma granted_outcome g a lease body resp ok c comp :
  loop_spec g (leased_args a lease) [] 0 false false body (Some (resp, ok, c)) -> Forall attempt_ok (tries body) ->
  outcome g a (Ev (QAcquire g) (lease, None) :: body ++ [Ev (QComplete g lease comp) tt]) resp ok c.
Proof.
  intros Hl Hok. destruct (loop_silent _ _ _ _ _ _ _ _ Hl) as (Hgr & Hc & _). pose proof Hl as [_ _ Hr H451 _].
  assert (Hverdict : ok = true -> c = false -> rs_Attempts resp <> [] /\
    (ta_hasWriter a && attemptCommittedResp resp = true -> rs_StatusCode resp <> 423 /\ rs_StatusCode resp <> 430) /\
    (Forall faultless (rs_Attempts resp) -> says_verdict resp)).
  { intros -> ->. rewrite <- (leased_hasWriter a lease). by eapply loop_verdict. }
  destruct Hr as (ts & a' & r0 & ok0 & c0 & Ht & Hret & -> & Hcase).
  pose proof (loop_last _ _ _ _ _ _ _ _ _ _ Hl Ht) as Hw. pose proof (evidence_coherent _ Hok) as Hcoh.
  rewrite Ht in Hok. apply Forall_app in Hok as [_ [[Hc0 Hs0 _ _ Herr _ _] _]%Forall_cons_iff].
  assert (Htr : tries (Ev (QAcquire g) (lease, None) :: body ++ [Ev (QComplete g lease comp) tt]) = ts ++ [(g, a', (r0, ok0, c0))]).
  { autorewrite with trace. simpl. by rewrite app_nil_r. }
  assert (Hlast : (g, a', (r0, ok0, c0)) ∈ ts ++ [(g, a', (r0, ok0, c0))]) by (apply elem_of_app; right; by left).
  assert (Hok0 : ok = true -> ok0 = true) by (intros ->; destruct Hcase as [[= <- _]|(_ & _ & Ha)]; [done|apply Ha]).
  split; rewrite ?Htr; try (intros; apply Hverdict; done).
  - unfold evidence at 1. rewrite Htr. simpl. unfold evidence. by rewrite Ht.
  - autorewrite with trace. simpl. by rewrite Hgr, Hc.
  - intros g2 a2 r2 [Hin|Hs%list_elem_of_singleton]%elem_of_app He Hco.
    { rewrite list.Forall_forall in Hret. destruct (Hret _ Hin) as (_ & _ & _ & [?|Hx]); [done|by rewrite Hco in Hx]. }
    simplify_eq. destruct Hcase as [[= -> ->]|(_ & _ & _ & _ & Hx)]; [done|by rewrite Hco in Hx].
  - intros -> He. simpl in He. specialize (Hok0 eq_refl). subst ok0. exists a', r0, c0. by split_and!.
  - unfold unstreamed. rewrite Htr. destruct (streamed (g, a', (r0, ok0, c0))) eqn:Es.
    + right. destruct Hcase as [[= -> ->]|(_ & (_ & _ & Hx & _) & _)]; [|by rewrite Es in Hx].
      specialize (Hs0 eq_refl). simpl in Es. apply andb_true_iff in Es as [[-> Ew]%andb_true_iff Ec].
      rewrite <- Hw, Ew. simpl. split_and!; [done|by destruct c0; [apply Hc0|]|done|done].
    + left. apply Forall_app. split; [by apply retried_quiet|by repeat constructor].
  - intros -> ->. destruct Hcase as [[= <- <-]|[[=] _]]. right. right. exists a', r0, false. by rewrite Htr.
  - intros -> -> Ha. destruct Hcase as [[= <- <-]|[[=] _]].
    eapply granted_absent; [exact Hl|exact Ht|rewrite Htr; exact Hlast|exact Hs0|exact Ha].
  - intros _ Ho. by apply Herr, Hok0.
  - by intros _.
Qed.

Lemma visit_outcome fuel g a tr resp ok c :
  visit fuel g a tr (Some (resp, ok, c)) -> Forall attempt_ok (tries tr) -> outcome g a tr resp ok c.
Proof.
  intros Hv Hok. inversion Hv as [lease e quiet err ok1 c1 now Hq Ho Herr|lease body r1 ok1 c1 Hl|]; subst.
  - by apply refused_outcome.
  - apply granted_outcome; [done|]. autorewrite with trace in Hok. simpl in Hok. by rewrite app_nil_r in Hok.
Qed.

Lemma visit_stuck_fuel fuel g a tr : visit fuel g a tr None -> (fuel <= 4 + length (stale_tries tr))%nat.
Proof.
  intros Hv. inversion Hv as [| |lease body [_ Hr _ _ _] Hn]; subst. rewrite tries_split in Hn. simpl in Hr.
  unfold stale_tries in *. autorewrite with trace. simpl. lia.
Qed.
