(* ===== verification/Router.v ===== *)
(** The router keeps its contract (Contract.v): one pass over the functions of
    [doSendWithRetry] ([spec] and its rules) shows that all its executions are good.
    Between two providers a trace is [clean]; [verdicts] says what is known of the
    providers that were asked, as long as nothing speaks against the article's
    absence ([unfaulted]). *)
From S2P Require Import Prelude Errors CircuitBreaker Reader Evidence Prog Dispatch Pool Visit Contract.
#[local] Open Scope prog_scope.

(** ** Programs of the router *)

Definition probe_exec (p : probe) (tr : list event) (r : option presult) : Prop :=
  exec (fun (_ : Empty_set) _ _ => False) p tr r.

Definition router_exec {A} (p : router A) (tr : list event) (r : option A) : Prop := exec probe_exec p tr r.

(** A trace cut short for want of fuel. *)
Definition starved (fuel : nat) (t : list event) : Prop := good t /\ (fuel <= 4 + length (stale_tries t))%nat.

Section Spec.
Context (fuel : nat).

(** From the trace [pre], every execution of [p] ends in [Q]. *)
Definition spec {A} (p : router A) (pre : list event) (Q : A -> list event -> Prop) : Prop :=
  forall tr r, router_exec p tr r -> Forall attempt_ok (tries tr) ->
    match r with Some a => Q a (pre ++ tr) | None => starved fuel (pre ++ tr) end.

Lemma spec_ret {A} (a : A) pre (Q : A -> list event -> Prop) : Q a pre -> spec (Ret a) pre Q.
Proof. intros HQ tr r [-> ->] _. by rewrite app_nil_r. Qed.

Lemma spec_ask {A} q (k : ans q -> router A) pre Q :
  (forall a, spec (k a) (pre ++ [Ev q a]) Q) -> spec (Ask q k) pre Q.
Proof.
  intros H tr r (a & tr' & -> & He) Hok. autorewrite with trace in Hok. apply Forall_app in Hok as [_ Hok].
  specialize (H a tr' r He Hok). by rewrite <- app_assoc in H.
Qed.

Lemma spec_bind_ask {A} q (f : ans q -> router A) pre Q :
  (forall a, spec (f a) (pre ++ [Ev q a]) Q) -> spec (bind (ask q) f) pre Q.
Proof. apply spec_ask. Qed.

Lemma spec_bind {A B} (p : router A) (f : A -> router B) pre Q1 Q :
  spec p pre Q1 -> (forall a t, Q1 a t -> spec (f a) t Q) -> spec (bind p f) pre Q.
Proof.
  intros H1 H2 tr r He Hok. apply exec_bind in He as [(t1 & t2 & a & -> & Ha & Hb)|[Ha ->]].
  - autorewrite with trace in Hok. apply Forall_app in Hok as [Hok1 Hok2].
    specialize (H1 t1 (Some a) Ha Hok1). specialize (H2 a _ H1 t2 r Hb Hok2). by rewrite <- app_assoc in H2.
  - exact (H1 tr None Ha Hok).
Qed.

Lemma spec_conseq {A} (p : router A) pre (Q Q' : A -> list event -> Prop) :
  spec p pre Q -> (forall a t, Q a t -> Q' a t) -> spec p pre Q'.
Proof. intros H HQ tr r He Hok. specialize (H tr r He Hok). destruct r; [by apply HQ|done]. Qed.

(** The calls add to a clean trace events of their own, and leave the rest. *)
Lemma visits_ok ls t attempts u :
  clean ls t attempts ->
  Forall (fun e => exists g a, visit_event g a e /\ (g, false) ∈ quotas t) u ->
  (forall u1 e u2, u = u1 ++ e :: u2 -> forall g a x, ev_try e = Some (g, a, x) -> ta_hasWriter a = true ->
     unstreamed u1) ->
  good (t ++ u) /\ delivers (t ++ u) = [] /\ loads (t ++ u) = ls /\ removes (t ++ u) = removes t /\
  quotas (t ++ u) = quotas t.
Proof.
  intros [Hg Ho Hl Hr Hb Hu Hev] Hall Hw.
  assert (Hsil : forall B (f : event -> option B), (forall g a e, visit_event g a e -> f e = None) ->
    forall v, Forall (fun e => exists g a, visit_event g a e /\ (g, false) ∈ quotas t) v -> omap f v = []).
  { intros B f Hf v Hv. induction Hv as [|e v (g & a & He & _) _ IH]; [done|].
    change (omap f (e :: v)) with (match f e with Some y => y :: omap f v | None => omap f v end).
    by rewrite (Hf _ _ _ He), IH. }
  assert (Hd : forall v, Forall (fun e => exists g a, visit_event g a e /\ (g, false) ∈ quotas t) v -> delivers v = []).
  { apply Hsil. by intros g a e (? & _). }
  split_and!.
  - apply good_app; [done|]. intros u1 e u2 ->. apply Forall_app in Hall as [Hall1 [(g & a & He & Hq) _]%Forall_cons_iff].
    destruct He as (Ed & El & Er & Eq & Ea & Et). split.
    + autorewrite with trace. by rewrite Ho, (Hd u1).
    + intros g' Hg'. rewrite (Ea _ Hg'). autorewrite with trace. apply elem_of_app. by left.
    + intros g' a' x Hx. destruct (Et _ _ _ Hx) as [-> _]. autorewrite with trace. apply elem_of_app. by left.
    + intros g' a' x Hx Hwa. unfold unstreamed. autorewrite with trace. apply Forall_app. split; [done|].
      by eapply Hw.
    + by rewrite El.
    + by rewrite Er.
    + by rewrite Ed.
  - autorewrite with trace. by rewrite Ho, Hd.
  - autorewrite with trace. rewrite Hl. unfold loads at 1. rewrite Hsil; [by rewrite app_nil_r| |done].
    by intros g a e (_ & ? & _).
  - autorewrite with trace. unfold removes at 2. rewrite Hsil; [by rewrite app_nil_r| |done].
    by intros g a e (_ & _ & ? & _).
  - autorewrite with trace. unfold quotas at 2. rewrite Hsil; [by rewrite app_nil_r| |done].
    by intros g a e (_ & _ & _ & ? & _).
Qed.

(** [t] is [pre] and a call on [g] with its result. *)
Record visited (ls : list (bool * list providerGroup)) (pre : list event) (g : providerGroup) (a : try_args)
    (attempts : list AttemptEvidence) (t : list event) (resp : Response) (ok cancelled : bool) : Prop := {
  vd_pre : clean ls pre attempts;
  vd_trace : exists tr, t = pre ++ tr /\ outcome g a tr resp ok cancelled;
  vd_good : good t;
  vd_open : delivers t = [];
  vd_loads : loads t = ls;
  vd_removes : removes t = removes pre;
  vd_quotas : quotas t = quotas pre
}.

Lemma spec_visit ls g a attempts pre :
  clean ls pre attempts -> (g, false) ∈ quotas pre ->
  spec (tryGroupResilient fuel g a) pre (fun '(resp, ok, c) t => visited ls pre g a attempts t resp ok c).
Proof.
  intros Hcl Hq tr r He Hok. apply tryGroupResilient_visit in He.
  assert (Hev : Forall (fun e => exists g a, visit_event g a e /\ (g, false) ∈ quotas pre) tr).
  { eapply Forall_impl; [|by eapply visit_events]. eauto. }
  destruct (visits_ok ls pre attempts tr Hcl Hev) as (Hg & Ho & Hl & Hr & Hqs).
  { intros u1 e u2 Hu g' a' x Hx Hw. apply list.Forall_forall. intros y Hy.
    apply list_elem_of_split in Hy as (l1 & l2 & Hy). destruct (streamed y) eqn:Es; [|done]. exfalso.
    assert (Ht : tries tr = l1 ++ y :: (l2 ++ (g', a', x) :: tries u2)).
    { rewrite Hu. autorewrite with trace. rewrite Hx, Hy. simpl. by rewrite <- app_assoc. }
    pose proof (visit_streamed_last _ _ _ _ _ He _ _ _ Ht Es) as Hnil. by destruct l2. }
  destruct r as [[[resp ok] c]|].
  - split; try done. exists tr. split; [done|]. by eapply visit_outcome.
  - split; [done|]. autorewrite with trace. rewrite length_app. apply visit_stuck_fuel in He. lia.
Qed.

(** Everything but the caller's writer is in order: a response may be delivered. *)
Record settled (ls : list (bool * list providerGroup)) (t : list event) (attempts : list AttemptEvidence) : Prop := {
  st_good : good t;
  st_open : delivers t = [];
  st_loads : loads t = ls;
  st_removed : removed t;
  st_balanced : Permutation (completes t) (grants t);
  st_evidence : evidence t ⊆+ attempts;
  st_coherent : told t -> Forall coherent_attempt attempts
}.

Lemma clean_settled ls t attempts : clean ls t attempts -> settled ls t attempts.
Proof. by intros [? ? ? ? ? ? ? ?]. Qed.

Lemma visited_settled ls pre g a attempts t resp ok c :
  visited ls pre g a attempts t resp ok c ->
  ~ (ok = true /\ c = false /\ rs_Err resp = None /\ rs_StatusCode resp = 502) ->
  settled ls t (attempts ++ rs_Attempts resp).
Proof.
  intros [[Hg Ho Hl Hr Hb Hu Hev Hcoh] (tr & -> & [Hoe Hob H5 _ _ _ _ _ _ _ Hoc _]) Hgt Hot Hlt Hrt Hqt] Hno. split; try done.
  - intros g' a' r'. rewrite Hrt. autorewrite with trace. intros [Hin|Hin]%elem_of_app He Hc; [by eapply Hr|].
    exfalso. apply Hno. destruct (H5 _ _ _ Hin He Hc) as (_ & ? & ? & ? & ?). done.
  - autorewrite with trace. by rewrite Hb, Hob.
  - autorewrite with trace. by apply submseteq_app.
  - intros [H1 H2]%told_app. apply Forall_app. auto.
Qed.

Lemma visited_clean ls pre g a attempts t resp ok c :
  visited ls pre g a attempts t resp ok c ->
  ~ (ok = true /\ c = false /\ rs_Err resp = None /\ rs_StatusCode resp = 502) ->
  c = true \/ ok = false \/ ta_hasWriter a && attemptCommittedResp resp = false \/
    (rs_Err resp = None /\ code_ok (rs_StatusCode resp) = false) ->
  clean ls t (attempts ++ rs_Attempts resp).
Proof.
  intros Hv Hno Hs. destruct (visited_settled _ _ _ _ _ _ _ _ _ Hv Hno). split; try done.
  destruct Hv as [[_ _ _ _ _ Hu _] (tr & -> & [_ _ _ _ Hst _ _ _ _ _ _ _]) _ _ _ _ _].
  unfold unstreamed. autorewrite with trace. apply Forall_app. split; [done|].
  destruct Hst as [?|(-> & -> & Hw & Hc)]; [done|exfalso].
  destruct Hs as [?|[?|[?|[He Hk]]]]; [done|done|congruence|]. destruct Hc; congruence.
Qed.

(** A 502 is settled by the removal of its provider. *)
Lemma visited_removed ls pre g a attempts t resp :
  visited ls pre g a attempts t resp true false -> rs_Err resp = None -> rs_StatusCode resp = 502 ->
  clean ls (t ++ [Ev (QRemove (g_name g)) tt]) (attempts ++ rs_Attempts resp).
Proof.
  intros [[Hg Ho Hl Hr Hb Hu Hev Hcoh] (tr & -> & [Hoe Hob H5 Hsaid Hst _ _ _ _ _ Hoc _]) Hgt Hot Hlt Hrt Hqt] He Hc. split.
  - apply good_snoc; [done|]. split; try done. intros n [= <-]. exists g. split; [done|].
    destruct (Hsaid eq_refl He) as (a' & r' & c' & Hin & _ & Hn & Hk). exists a', r', c'. rewrite Hk, Hc.
    split_and!; [by apply tries_in_r|done|by left].
  - autorewrite with trace. rewrite <- delivers_app. by rewrite Hot.
  - autorewrite with trace. rewrite <- loads_app. by rewrite Hlt, app_nil_r.
  - intros g' a' r'. autorewrite with trace. rewrite <- removes_app, Hrt. simpl. rewrite app_nil_r.
    intros [Hin|Hin]%elem_of_app He' Hc'; apply elem_of_app; [left; by eapply Hr|].
    right. destruct (H5 _ _ _ Hin He' Hc') as (-> & _). by left.
  - autorewrite with trace. simpl. rewrite !app_nil_r. by rewrite Hb, Hob.
  - unfold unstreamed. autorewrite with trace. simpl. rewrite app_nil_r. apply Forall_app. split; [done|].
    destruct Hst as [?|(_ & _ & _ & [?|Hk])]; [done|done|by rewrite Hc in Hk].
  - autorewrite with trace. simpl. rewrite app_nil_r. by apply submseteq_app.
  - intros [[H1 H2]%told_app _]%told_app. apply Forall_app. auto.
Qed.

(** The response was delivered, and nothing came after. *)
Definition finished (t : list event) : Prop := good t /\ exists t0 resp, t = t0 ++ [Ev (QDeliver resp) tt].

Lemma settled_deliver ls t attempts resp :
  settled ls t attempts -> rs_Attempts resp = attempts \/ resp = exhausted ->
  (told t -> not_found resp -> exists mains backups,
     ls = [(false, mains); (true, backups)] /\ forall g, g ∈ mains ++ backups -> ruled_out (rs_Err resp) g t) ->
  finished (t ++ [Ev (QDeliver resp) tt]).
Proof.
  intros [Hg Ho Hl Hr Hb Hev _] Ha Hn. split; [|eauto]. apply good_snoc; [done|]. split; try done.
  intros r [= <-]. split; try done; [destruct Ha as [<-|?]; [by left|by right]|]. by rewrite Hl.
Qed.

Lemma spec_inert {A} ls attempts q (f : ans q -> router A) pre Q :
  (forall a, inert (Ev q a)) -> clean ls pre attempts ->
  (forall a, clean ls (pre ++ [Ev q a]) attempts -> spec (f a) (pre ++ [Ev q a]) Q) ->
  spec (bind (ask q) f) pre Q.
Proof. intros Hi Hc H. apply spec_bind_ask. intros a. by apply H, clean_inert. Qed.

Lemma spec_inert_last ls attempts q pre (Q : ans q -> list event -> Prop) :
  (forall a, inert (Ev q a)) -> clean ls pre attempts ->
  (forall a, clean ls (pre ++ [Ev q a]) attempts -> Q a (pre ++ [Ev q a])) -> spec (ask q) pre Q.
Proof. intros Hi Hc H. apply spec_ask. intros a. apply spec_ret. by apply H, clean_inert. Qed.

Definition ext (pre t : list event) : Prop := exists u, t = pre ++ u.

Lemma ext_refl t : ext t t.
Proof. exists []. by rewrite app_nil_r. Qed.
Lemma ext_snoc t e : ext t (t ++ [e]).
Proof. by exists [e]. Qed.
Lemma ext_trans t u v : ext t u -> ext u v -> ext t v.
Proof. intros [x ->] [y ->]. exists (x ++ y). by rewrite app_assoc. Qed.
Lemma ext_quota t u g b : ext t u -> (g, b) ∈ quotas t -> (g, b) ∈ quotas u.
Proof. intros [x ->] H. autorewrite with trace. apply elem_of_app. by left. Qed.
Lemma ext_concluded t u g : ext t u -> concluded g t -> concluded g u.
Proof. intros [x ->]. apply concluded_mono. Qed.
Lemma ext_ruled_out lastErr lastErr' t u g : (lastErr' = None -> lastErr = None) -> ext t u ->
  ruled_out lastErr g t -> ruled_out lastErr' g u.
Proof. intros He [x ->]. by apply ruled_out_mono. Qed.
Lemma ext_replied t u g codes : ext t u -> replied g codes t -> replied g codes u.
Proof. intros [x ->]. apply replied_mono. Qed.
Lemma ext_verdicts t u done e attempts : ext t u -> verdicts done t e attempts -> verdicts done u e attempts.
Proof. intros [x ->]. apply verdicts_mono. Qed.
Lemma ext_told t u : ext t u -> told u -> told t.
Proof. by intros [x ->] [? _]%told_app. Qed.
Lemma ext_unfaulted t u lastErr lastErr' attempts attempts' : ext t u -> later lastErr attempts lastErr' attempts' ->
  unfaulted lastErr' attempts' u -> unfaulted lastErr attempts t.
Proof. intros [x ->]. apply unfaulted_back. Qed.
Lemma ext_considered t u done : ext t u -> considered done t -> considered done u.
Proof. intros [x ->]. apply considered_mono. Qed.
#[local] Hint Resolve ext_refl ext_snoc ext_quota ext_concluded ext_replied ext_verdicts ext_considered : core.
(** Follows the extensions in the context. *)
Ltac extends :=
  repeat match goal with H : ext _ _ |- _ => destruct H as [? ->] end;
  first [apply ext_refl | eexists; rewrite <- ?app_assoc; reflexivity].
#[local] Hint Extern 2 (ext _ _) => extends : core.

Lemma visited_ext ls pre g a attempts t resp ok c : visited ls pre g a attempts t resp ok c -> ext pre t.
Proof. intros [_ (tr & -> & _) _ _ _ _ _]. by exists tr. Qed.

Lemma visited_gone ls pre g a attempts t resp : visited ls pre g a attempts t resp false false -> concluded g t.
Proof.
  intros [_ (tr & -> & Ho) _ _ _ _ _]. eapply concluded_incl; [|exact (oc_gone _ _ _ _ _ _ Ho eq_refl eq_refl)].
  intros. by apply tries_in_r.
Qed.

Lemma visited_absent ls pre g a attempts t resp :
  visited ls pre g a attempts t resp true false ->
  rs_StatusCode resp = 423 \/ rs_StatusCode resp = 430 \/ (rs_Err resp = None /\ rs_StatusCode resp = 451) ->
  concluded g t.
Proof.
  intros [_ (tr & -> & Ho) _ _ _ _ _] Ha.
  eapply concluded_incl; [|exact (oc_absent _ _ _ _ _ _ Ho eq_refl eq_refl Ha)]. intros. by apply tries_in_r.
Qed.

Lemma absence_concluded resp : rs_Err resp = None -> responseIsHardArticleAbsence resp = true ->
  rs_StatusCode resp = 423 \/ rs_StatusCode resp = 430 \/ (rs_Err resp = None /\ rs_StatusCode resp = 451).
Proof. intros He [?|[?|?]]%absence_codes; auto. Qed.

(** A reply whose evidence has no fault is a verdict. *)
Lemma visited_verdict ls pre g a attempts t resp :
  visited ls pre g a attempts t resp true false -> told t -> Forall faultless (rs_Attempts resp) -> says_verdict resp.
Proof. intros [_ (tr & -> & Ho) _ _ _ _ _] [_ Ht]%told_app. by apply Ho. Qed.

Lemma visited_said ls pre g a attempts t resp :
  visited ls pre g a attempts t resp true false -> rs_Attempts resp <> [].
Proof. intros [_ (tr & _ & Ho) _ _ _ _ _]. by apply Ho. Qed.

(** An error is to be reported after a reply; without a fault in its evidence it is
    an answer that the article is absent all the same. *)
Lemma fault_verdict resp attempts e u : (told u -> Forall faultless (rs_Attempts resp) -> says_verdict resp) ->
  rs_Err resp <> None \/ code_ok (rs_StatusCode resp) = false ->
  unfaulted (Some e) (attempts ++ rs_Attempts resp) u ->
  rs_StatusCode resp = 423 \/ rs_StatusCode resp = 430 \/ (rs_Err resp = None /\ rs_StatusCode resp = 451).
Proof.
  intros Hv Hc [?|[Ht [Hf1 Hf2]%Forall_app]]; [done|].
  destruct (Hv Ht Hf2) as [[Hn Hk]|[?|[?|[Hn Ha]]]]; [|auto..|by apply absence_concluded]. destruct Hc; congruence.
Qed.

Lemma visited_fault ls pre g a attempts t resp e u :
  visited ls pre g a attempts t resp true false -> rs_Err resp <> None \/ code_ok (rs_StatusCode resp) = false ->
  ext t u -> unfaulted (Some e) (attempts ++ rs_Attempts resp) u -> concluded g u.
Proof.
  intros Hv Hc He Hu. eapply ext_concluded; [exact He|].
  eapply visited_absent; [exact Hv|]. eapply fault_verdict; [|exact Hc|exact Hu].
  intros Ht. eapply visited_verdict; [exact Hv|by eapply ext_told].
Qed.

(** *** The steps between providers *)

Lemma spec_remove ls pre g a attempts t resp :
  visited ls pre g a attempts t resp true false -> rs_Err resp = None -> rs_StatusCode resp = 502 ->
  spec (remove_provider g) t (fun _ u => clean ls u (attempts ++ rs_Attempts resp) /\ ext t u).
Proof.
  intros Hv He Hc. pose proof (visited_removed _ _ _ _ _ _ _ Hv He Hc) as Hcl.
  unfold remove_provider. apply spec_bind_ask. intros []. destruct (_ <? _).
  - apply (spec_inert_last ls (attempts ++ rs_Attempts resp) (QReconnect g)); [done|exact Hcl|]. eauto.
  - apply spec_ret. eauto.
Qed.

Lemma spec_quota_evidence ls attempts g a pre : clean ls pre attempts ->
  spec (quota_evidence g a) pre (fun '(err, ev) t =>
    clean ls t (attempts ++ [ev]) /\ ext pre t /\ err <> None /\ ~ faultless ev).
Proof.
  intros Hcl. unfold quota_evidence. eapply spec_inert; [done|exact Hcl|]. intros now Hcl'. apply spec_ret.
  destruct (eligibility_evidence (ta_payload a) (g_id g) (named g (Some (ESentinel ErrQuotaExceeded)))
    (ta_validateBody a) now eq_refl) as [H1 H2].
  split_and!; [|apply ext_snoc|done|done]. apply clean_more; [done|]. intros _. by repeat constructor.
Qed.

(** A provider over its quota stands against "no such article". *)
Lemma quota_faults (err : error) attempts ev t : err <> None -> ~ faultless ev -> ~ unfaulted err (attempts ++ [ev]) t.
Proof. intros He Hev [?|[_ [_ [Hf _]%Forall_cons_iff]%Forall_app]]; [done|]. by apply Hev. Qed.

Lemma cancellation_told attempts err : Is err IsArticleNotFound = false -> ~ not_found (cancellationResponse attempts err).
Proof. by intros He [Hn|[[=] _]]; simpl in Hn; destruct err; simpl in *; congruence. Qed.

Lemma spec_cancelled ls attempts pre : clean ls pre attempts ->
  spec (deliver_cancelled attempts) pre (fun _ => finished).
Proof.
  intros Hcl. unfold deliver_cancelled. apply spec_bind_ask. intros e.
  assert (Hcl' : clean ls (pre ++ [Ev QCtxErr e]) attempts) by by apply clean_inert.
  eapply (spec_bind _ _ _ (fun err u => clean ls u attempts /\ (told u -> Is err IsArticleNotFound = false))).
  - destruct (is_nil e).
    + apply spec_ask. intros e2. apply spec_ret. split; [by apply clean_inert|]. by intros [_ [? _]%Forall_cons_iff]%told_app.
    + apply spec_ret. split; [done|]. by intros [_ [? _]%Forall_cons_iff]%told_app.
  - intros err u [Hu Ht]. apply spec_ask. intros []. apply spec_ret. eapply settled_deliver.
    + by apply clean_settled.
    + left. simpl. apply cloneAttempts_id.
    + intros Htu Hn. exfalso. by eapply cancellation_told; [apply Ht|].
Qed.

Lemma spec_live candidates a : forall lastErr attempts ls pre, clean ls pre attempts ->
  spec (live_candidates candidates a lastErr attempts) pre (fun '(live, lastErr', attempts') t =>
    clean ls t attempts' /\ ext pre t /\ considered candidates t /\
    (forall g, g ∈ live -> (g, false) ∈ quotas t) /\ later lastErr attempts lastErr' attempts' /\
    (unfaulted lastErr' attempts' t -> live = candidates)).
Proof.
  induction candidates as [|g rest IH]; intros lastErr attempts ls pre Hcl; cbn [live_candidates].
  - apply spec_ret. split_and!; try done; try apply ext_refl; intros g Hg; by apply elem_of_nil in Hg.
  - eapply spec_inert; [done|exact Hcl|]. intros exceeded Hcl1.
    assert (Hq : (g, exceeded) ∈ quotas (pre ++ [Ev (QQuota g) exceeded])).
    { autorewrite with trace. apply elem_of_app. right. by left. }
    assert (Hcons : forall t, ext (pre ++ [Ev (QQuota g) exceeded]) t -> considered rest t -> considered (g :: rest) t).
    { intros t He Hr g' [->|Hg']%elem_of_cons; [|by apply Hr]. eauto. }
    destruct exceeded.
    + eapply spec_bind; [by apply (spec_quota_evidence _ _ g a _ Hcl1)|].
      intros [err ev] t (Hcl2 & He & Herr & Hev). eapply spec_conseq; [by apply IH, Hcl2|].
      intros [[live lastErr'] attempts'] u (Hcl3 & Heu & Hco & Hlv & Hl & Hun). split_and!; try done.
      * extends.
      * apply Hcons; [extends|done].
      * by eapply later_trans; [apply later_error|].
      * intros Hx. exfalso. eapply quota_faults; [exact Herr|exact Hev|]. by eapply ext_unfaulted; [apply ext_refl| |].
    + eapply spec_bind; [by apply IH, Hcl1|]. intros [[live lastErr'] attempts'] u (Hcl3 & Heu & Hco & Hlv & Hl & Hun).
      apply spec_ret. split_and!; try done.
      * extends.
      * by apply Hcons.
      * intros g' [->|Hg']%elem_of_cons; eauto.
      * by intros ->%Hun.
Qed.

(** The ways out that end a request: cancelled, with the attempts so far, or
    delivered; otherwise [Q] of the last error and the attempts. *)
Definition race_post (ls : list (bool * list providerGroup)) (pre : list event)
    (Q : error -> list AttemptEvidence -> list event -> Prop) (r : race_result) (t : list event) : Prop :=
  let '(delivered, cancelled, lastErr, attempts) := r in
  if (delivered : bool) then finished t /\ cancelled = false
  else clean ls t attempts /\ ext pre t /\ (cancelled = false -> Q lastErr attempts t).

(** A reply that is delivered for what it says does not read as "no such article". *)
Lemma reply_not_found resp attempts :
  Forall coherent_attempt (attempts ++ rs_Attempts resp) -> rs_Attempts resp <> [] ->
  Is (rs_Err resp) IsArticleNotFound = false -> (Forall faultless (rs_Attempts resp) -> says_verdict resp) ->
  (rs_Err resp <> None /\ rs_StatusCode resp <> 423 /\ rs_StatusCode resp <> 430) \/
    (rs_Err resp = None /\ responseIsHardArticleAbsence resp = false) ->
  ~ not_found (resp <| rs_Attempts := cloneAttempts (attempts ++ rs_Attempts resp) |>).
Proof.
  intros Hco Hne Herr Hv Hc. rewrite cloneAttempts_id. intros [Hf|[Hn Ha]].
  2:{ rewrite absence_attempts in Ha by done. simpl in Hn. destruct Hc as [[? _]|[_ ?]]; congruence. }
  unfold responseError in Hf. simpl in Hf.
  set (cause := if is_nil (rs_Err resp) then toError (rs_StatusCode resp) (rs_Status resp) else rs_Err resp) in *.
  assert (Hcause : Is cause IsArticleNotFound = false).
  { unfold cause. destruct (is_nil (rs_Err resp)) eqn:Hnil; [|done]. apply is_nil_None in Hnil.
    destruct (toError _ _) as [e|] eqn:He; [|done]. destruct (Is (Some e) IsArticleNotFound) eqn:Hi; [|done].
    destruct Hc as [[? _]|[_ Ha]]; [done|]. unfold responseIsHardArticleAbsence in Ha.
    by destruct (toError_absence _ _ _ He Hi) as [Hx|Hx]; rewrite Hx in Ha. }
  destruct (attempts ++ rs_Attempts resp) as [|ev evs] eqn:Hevs; [by apply app_eq_nil in Hevs as [_ ?]|].
  destruct cause as [e|] eqn:Hce; [|done].
  assert (Hff : Forall faultless (attempts ++ rs_Attempts resp)).
  { rewrite Hevs. apply (absence_faultless _ e); [done|]. by destruct e; simpl in *; congruence. }
  apply Forall_app in Hff as [_ Hff]. destruct (Hv Hff) as [[Hn Hk]|[Hx|[Hx|[Hn Hx]]]].
  - unfold cause in Hce. rewrite Hn in Hce. simpl in Hce. apply (toError_nil _ (rs_Status resp)) in Hk. congruence.
  - destruct Hc as [(_ & ? & _)|[_ Ha]]; [done|]. unfold responseIsHardArticleAbsence in Ha. by rewrite Hx in Ha.
  - destruct Hc as [(_ & _ & ?)|[_ Ha]]; [done|]. unfold responseIsHardArticleAbsence in Ha. by rewrite Hx in Ha.
  - destruct Hc as [[? _]|[_ ?]]; congruence.
Qed.

(** The verdict on the result of a call that ends it, whatever comes next. *)
Lemma visited_deliver ls pre g a attempts t resp :
  visited ls pre g a attempts t resp true false ->
  (rs_Err resp <> None /\ ta_hasWriter a && attemptCommittedResp resp = true) \/
    (rs_Err resp = None /\ rs_StatusCode resp <> 502 /\ responseIsHardArticleAbsence resp = false) ->
  finished (t ++ [Ev (QDeliver (resp <| rs_Attempts := cloneAttempts (attempts ++ rs_Attempts resp) |>)) tt]).
Proof.
  intros Hv Hc. assert (Hs : settled ls t (attempts ++ rs_Attempts resp)).
  { eapply visited_settled; [exact Hv|]. intros (_ & _ & ? & ?). destruct Hc as [[? _]|(_ & ? & _)]; done. }
  eapply settled_deliver; [exact Hs|left; apply cloneAttempts_id|].
  intros Ht Hf. exfalso. revert Hf. destruct Hv as [_ (tr & -> & Ho) _ _ _ _ _]. pose proof Ht as [_ Htr]%told_app.
  apply reply_not_found.
  - by apply (st_coherent _ _ _ Hs).
  - by apply (oc_said _ _ _ _ _ _ Ho).
  - by apply (oc_error _ _ _ _ _ _ Ho).
  - by apply (oc_verdict _ _ _ _ _ _ Ho).
  - destruct Hc as [[? Hw]|(? & _ & ?)]; [left; split; [done|by apply (oc_body _ _ _ _ _ _ Ho)]|by right].
Qed.

Lemma absence_not_ok resp : responseIsHardArticleAbsence resp = true ->
  code_ok (rs_StatusCode resp) = false /\ rs_StatusCode resp <> 502.
Proof. intros [->|[->| ->]]%absence_codes; done. Qed.

Lemma range_not_ok resp : (rs_StatusCode resp <? 200) || (400 <=? rs_StatusCode resp) = negb (code_ok (rs_StatusCode resp)).
Proof. unfold code_ok. destruct (Z.ltb_spec (rs_StatusCode resp) 200), (Z.leb_spec 400 (rs_StatusCode resp)),
  (Z.leb_spec 200 (rs_StatusCode resp)), (Z.ltb_spec (rs_StatusCode resp) 400); simpl; lia. Qed.

(** [visited_clean] in the branches of the router. *)
Ltac settle Hv :=
  eapply visited_clean; [exact Hv| |];
  [ intros (? & ? & ? & ?); congruence
  | solve [by left | by right; left | by right; right; left
          | by right; right; right; split; [|apply absence_not_ok]
          | by right; right; right; split ] ].

Lemma spec_race_single ls pre g a lastErr attempts :
  clean ls pre attempts -> (g, false) ∈ quotas pre ->
  spec (race_single fuel g a lastErr attempts) pre
    (race_post ls pre (fun lastErr' attempts' t =>
       later lastErr attempts lastErr' attempts' /\ (unfaulted lastErr' attempts' t -> concluded g t))).
Proof.
  intros Hcl Hq. unfold race_single. eapply spec_bind; [by apply (spec_visit ls g a attempts)|].
  intros [[resp ok] c] t Hv. pose proof (visited_ext _ _ _ _ _ _ _ _ _ Hv) as He.
  destruct c; [apply spec_ret; simpl; split_and!; [settle Hv|done|done]|].
  destruct ok; cbn [negb].
  2:{ apply spec_ret; simpl; split_and!; [settle Hv|done|]. intros _. split; [done|intros _; by eapply visited_gone]. }
  destruct (is_nil (rs_Err resp)) eqn:Hnil; cbn [negb].
  - apply is_nil_None in Hnil. destruct (Z.eqb_spec (rs_StatusCode resp) 502) as [Hc|Hc].
    + eapply spec_bind; [by eapply spec_remove|]. intros [] u [Hcl' He']. apply spec_ret. simpl.
      split_and!; [done|extends|]. intros _. split; [by apply later_error|]. eapply visited_fault; [exact Hv|right; by rewrite Hc|done].
    + destruct (responseIsHardArticleAbsence resp) eqn:Ha.
      * eapply spec_inert; [done|settle Hv|]. intros v Hcl'. apply spec_ret. simpl. split_and!; [done|extends|].
        intros _. split; [done|]. intros _. apply concluded_mono. eapply visited_absent; [done|by apply absence_concluded].
      * unfold deliver. apply spec_bind_ask. intros []. apply spec_ret. simpl. split; [|done].
        eapply visited_deliver; [exact Hv|by right].
  - assert (Hn : rs_Err resp <> None) by (intros Hn; by rewrite Hn in Hnil).
    destruct (ta_hasWriter a && attemptCommittedResp resp) eqn:Hw.
    + unfold deliver. apply spec_bind_ask. intros []. apply spec_ret. simpl. split; [|done].
      eapply visited_deliver; [exact Hv|by left].
    + apply spec_ret. simpl. split_and!; [settle Hv|done|]. intros _. destruct (rs_Err resp) as [e|] eqn:Hre; [|done].
      split; [by apply later_error|]. eapply visited_fault; [exact Hv|left; by rewrite Hre|done].
Qed.

Lemma race_post_weaken ls pre pre' (Q Q' : error -> list AttemptEvidence -> list event -> Prop) r t :
  ext pre pre' -> (forall e att, ext pre' t -> Q e att t -> Q' e att t) -> race_post ls pre' Q r t -> race_post ls pre Q' r t.
Proof.
  intros He HQ. destruct r as [[[d c] e] att]. simpl. destruct d; [done|]. intros (Hcl & Het & H).
  split_and!; [done|extends|]. auto.
Qed.

Lemma named_err g e : named g e <> None.
Proof. by destruct e. Qed.

(** [gs] have concluded, unless something speaks against it. *)
Definition all_concluded (gs : list providerGroup) (lastErr : error) (attempts : list AttemptEvidence)
    (lastErr' : error) (attempts' : list AttemptEvidence) (t : list event) : Prop :=
  later lastErr attempts lastErr' attempts' /\
  (unfaulted lastErr' attempts' t -> forall g, g ∈ gs -> concluded g t).

(** One more provider has concluded, or the error is set. *)
Lemma all_concluded_cons g gs lastErr lastErr1 lastErr2 attempts attempts1 attempts2 u t :
  later lastErr attempts lastErr1 attempts1 -> (unfaulted lastErr1 attempts1 u -> concluded g u) -> ext u t ->
  all_concluded gs lastErr1 attempts1 lastErr2 attempts2 t ->
  all_concluded (g :: gs) lastErr attempts lastErr2 attempts2 t.
Proof.
  intros He Hg Hu [He2 H]. split; [by eapply later_trans|]. intros Hun.
  intros g' [->|Hg']%elem_of_cons; [|by apply H]. eapply ext_concluded; [exact Hu|]. by eapply Hg, ext_unfaulted.
Qed.

Lemma spec_try_winners a : forall winners ls pre lastErr attempts,
  clean ls pre attempts -> (forall g, g ∈ winners -> (g, false) ∈ quotas pre) ->
  spec (try_winners fuel winners a lastErr attempts) pre
    (race_post ls pre (all_concluded winners lastErr attempts)).
Proof.
  induction winners as [|g rest IH]; intros ls pre lastErr attempts Hcl Hq; cbn [try_winners].
  { apply spec_ret. simpl. split_and!; [done|apply ext_refl|]. intros _. split; [done|]. intros _ g Hg. by apply elem_of_nil in Hg. }
  eapply spec_bind; [apply (spec_visit ls g a attempts); [done|by apply Hq; left]|].
  intros [[resp ok] c] t Hv. pose proof (visited_ext _ _ _ _ _ _ _ _ _ Hv) as He.
  assert (Hrest : forall u lastErr1, clean ls u (attempts ++ rs_Attempts resp) -> ext t u ->
    later lastErr attempts lastErr1 (attempts ++ rs_Attempts resp) ->
    (unfaulted lastErr1 (attempts ++ rs_Attempts resp) u -> concluded g u) ->
    spec (try_winners fuel rest a lastErr1 (attempts ++ rs_Attempts resp)) u
      (race_post ls pre (all_concluded (g :: rest) lastErr attempts))).
  { intros u lastErr1 Hu Htu He1 Hc. eapply spec_conseq.
    - apply IH; [exact Hu|]. intros g' Hg'. eapply ext_quota; [|by apply Hq; right]. by eapply ext_trans.
    - intros r v. apply race_post_weaken; [by eapply ext_trans|]. intros e att Huv Hac. by eapply all_concluded_cons. }
  destruct c; [apply spec_ret; simpl; split_and!; [settle Hv|done|done]|].
  destruct ok; cbn [negb].
  2:{ apply Hrest; [settle Hv|apply ext_refl|done|]. intros _. by eapply visited_gone. }
  destruct (is_nil (rs_Err resp)) eqn:Hnil; cbn [negb].
  - apply is_nil_None in Hnil. destruct (responseIsHardArticleAbsence resp) eqn:Ha.
    + destruct (absence_not_ok _ Ha) as [_ Hc]. eapply spec_inert; [done|settle Hv|]. intros v Hcl'.
      apply Hrest; [done|apply ext_snoc|done|].
      intros _. apply concluded_mono. eapply visited_absent; [done|by apply absence_concluded].
    + destruct (Z.eqb_spec (rs_StatusCode resp) 502) as [Hc|Hc].
      * eapply spec_bind; [by eapply spec_remove|]. intros [] u [Hcl' He']. apply Hrest; [done|done|by apply later_error|].
        eapply visited_fault; [exact Hv|right; by rewrite Hc|done].
      * rewrite range_not_ok. destruct (code_ok (rs_StatusCode resp)) eqn:Hk; cbn [negb].
        -- unfold deliver. apply spec_bind_ask. intros []. apply spec_ret. simpl. split; [|done].
           eapply visited_deliver; [exact Hv|by right].
        -- destruct (named g _) as [e|] eqn:Hne; [|by apply named_err in Hne].
           apply Hrest; [settle Hv|apply ext_refl|by apply later_error|]. eapply visited_fault; [exact Hv|by right|apply ext_refl].
  - destruct (rs_Err resp) as [e|] eqn:Hre; [|done].
    destruct (ta_hasWriter a && attemptCommittedResp resp) eqn:Hw.
    + unfold deliver. apply spec_bind_ask. intros []. apply spec_ret. simpl. split; [|done].
      eapply visited_deliver; [exact Hv|left; by rewrite Hre].
    + apply Hrest; [settle Hv|apply ext_refl|by apply later_error|]. eapply visited_fault; [exact Hv|left; by rewrite Hre|apply ext_refl].
Qed.

(** *** The parallel probes *)

(** What the result of a probe says of its provider. *)
Record result_of (t : list event) (g : providerGroup) (resp : Response) (ok c : bool) : Prop := {
  ro_gone : ok = false -> c = false -> concluded g t;
  ro_absent : ok = true -> c = false ->
    rs_StatusCode resp = 423 \/ rs_StatusCode resp = 430 \/ (rs_Err resp = None /\ rs_StatusCode resp = 451) ->
    concluded g t;
  ro_502 : ok = true -> rs_Err resp = None -> rs_StatusCode resp = 502 -> replied g [502] t;
  ro_odd : ok = true -> rs_Err resp = None -> code_ok (rs_StatusCode resp) = true -> rs_StatusCode resp <> 223 ->
    odd_success g t;
  ro_verdict : told t -> ok = true -> c = false -> Forall faultless (rs_Attempts resp) -> says_verdict resp
}.

Lemma outcome_result g a tr resp ok c t : ta_hasWriter a = false -> outcome g a tr resp ok c ->
  (forall x, x ∈ tries tr -> x ∈ tries t) -> (told t -> told tr) -> result_of t g resp ok c.
Proof.
  intros Hw Ho Hi Ht. split.
  - intros H1 H2. eapply concluded_incl; [exact Hi|]. by apply (oc_gone _ _ _ _ _ _ Ho).
  - intros H1 H2 H3. eapply concluded_incl; [exact Hi|]. by apply (oc_absent _ _ _ _ _ _ Ho).
  - intros H1 H2 H3. destruct (oc_reply _ _ _ _ _ _ Ho H1 H2) as (a' & r & c' & Hin & _ & Hn & Hk).
    exists a', r, c'. rewrite Hk, H3. split_and!; [by apply Hi|done|by left].
  - intros H1 H2 H3 H4. destruct (oc_reply _ _ _ _ _ _ Ho H1 H2) as (a' & r & c' & Hin & Hwa & Hn & Hk).
    exists a', r, c'. rewrite Hk, Hwa. split_and!; try done. by apply Hi.
  - intros H1 H2 H3 H4. by apply (oc_verdict _ _ _ _ _ _ Ho); [apply Ht| | |].
Qed.

Lemma result_mono t u g resp ok c : result_of t g resp ok c -> result_of (t ++ u) g resp ok c.
Proof.
  intros [H1 H2 H3 H4 H5]. split; intros.
  - by apply concluded_mono, H1.
  - by apply concluded_mono, H2.
  - by apply replied_mono, H3.
  - eapply odd_success_incl; [|by apply H4]. intros. by apply tries_in_l.
  - match goal with H : told _ |- _ => apply told_app in H as [? _] end. by apply H5.
Qed.

(** After the probes, before their results are read: only their evidence and
    the removals they ask for are outstanding. *)
Record pending (ls : list (bool * list providerGroup)) (t : list event) (attempts : list AttemptEvidence)
    (prs : list (providerGroup * presult)) : Prop := {
  pd_good : good t;
  pd_open : delivers t = [];
  pd_loads : loads t = ls;
  pd_balanced : Permutation (completes t) (grants t);
  pd_unstreamed : unstreamed t;
  pd_evidence : evidence t ⊆+ attempts ++ concat ((fun pr => rs_Attempts (fst (fst (snd pr)))) <$> prs);
  pd_removed : forall g a resp, (g, a, (resp, true, false)) ∈ tries t -> rs_Err resp = None ->
    rs_StatusCode resp = 502 -> g_name g ∈ removes t \/
    exists resp', (g, (resp', true, false)) ∈ prs /\ rs_Err resp' = None /\ rs_StatusCode resp' = 502;
  pd_results : forall g resp ok c, (g, (resp, ok, c)) ∈ prs -> result_of t g resp ok c;
  pd_coherent : told t -> Forall coherent_attempt (attempts ++ concat ((fun pr => rs_Attempts (fst (fst (snd pr)))) <$> prs))
}.

Lemma pending_clean ls t attempts : pending ls t attempts [] -> clean ls t attempts.
Proof.
  intros [Hg Ho Hl Hb Hu He Hr _ Hco]. simpl in He, Hco. rewrite app_nil_r in He, Hco. split; try done.
  intros g a resp Hin Hn Hc. destruct (Hr _ _ _ Hin Hn Hc) as [?|(r & Hr' & _)]; [done|]. by apply elem_of_nil in Hr'.
Qed.

(** A result that asks for no removal is read. *)
Lemma pending_read ls t attempts g resp ok c prs :
  pending ls t attempts ((g, (resp, ok, c)) :: prs) ->
  ~ (ok = true /\ c = false /\ rs_Err resp = None /\ rs_StatusCode resp = 502) ->
  pending ls t (attempts ++ rs_Attempts resp) prs.
Proof.
  intros [Hg Ho Hl Hb Hu He Hr Hres Hco] Hn. simpl in He, Hco. rewrite app_assoc in He, Hco. split; try done.
  - intros g' a r' Hin Hnil Hc. destruct (Hr _ _ _ Hin Hnil Hc) as [?|(r & [Heq|Hr']%elem_of_cons & H)]; [by left| |].
    + simplify_eq. exfalso. by apply Hn.
    + right. eauto.
  - intros g' r' ok' c' Hin. apply Hres. by right.
Qed.

(** The events that may come between two results. *)
Lemma pending_snoc ls t attempts prs e :
  pending ls t attempts prs -> inert e -> pending ls (t ++ [e]) attempts prs.
Proof.
  intros [Hg Ho Hl Hb Hu He Hr Hres Hco] Hi. pose proof (inert_ok t e Hi Ho) as Hok.
  destruct (inert_silent e Hi) as (Et & Eg & Ec & Ea & El & Er & Ed).
  assert (Ht : tries (t ++ [e]) = tries t) by by apply omap_snoc_None. split.
  - by apply good_snoc.
  - unfold delivers. by rewrite omap_snoc_None.
  - unfold loads. by rewrite omap_snoc_None.
  - unfold completes, grants. by rewrite !omap_snoc_None.
  - unfold unstreamed. by rewrite Ht.
  - unfold evidence. by rewrite Ht.
  - intros g a resp. unfold removes. rewrite Ht, omap_snoc_None by done. apply Hr.
  - intros g resp ok c Hin. by apply result_mono, Hres.
  - intros [Hto _]%told_app. by apply Hco.
Qed.

Lemma pending_remove ls t attempts g resp prs :
  pending ls t attempts ((g, (resp, true, false)) :: prs) -> rs_Err resp = None -> rs_StatusCode resp = 502 ->
  pending ls (t ++ [Ev (QRemove (g_name g)) tt]) (attempts ++ rs_Attempts resp) prs.
Proof.
  intros [Hg Ho Hl Hb Hu He Hr Hres Hco] Hnil Hc. simpl in He, Hco. rewrite app_assoc in He, Hco.
  assert (Hin : g_name g ∈ removes (t ++ [Ev (QRemove (g_name g)) tt])).
  { autorewrite with trace. apply elem_of_app. right. by left. }
  split; unfold unstreamed in *; autorewrite with trace; simpl; rewrite ?app_nil_r; try done.
  - apply good_snoc; [done|]. split; try done. intros n [= <-]. exists g. split; [done|].
    by apply (Hres g resp true false); [left| | |].
  - intros g' a r' Hin' Hn' Hc'. autorewrite with trace in Hin.
    destruct (Hr _ _ _ Hin' Hn' Hc') as [?|(r & [Heq|Hr']%elem_of_cons & H)].
    + left. apply elem_of_app. by left.
    + simplify_eq. by left.
    + right. eauto.
  - intros g' r' ok' c' Hin'. apply result_mono, Hres. by right.
  - intros [Hto _]%told_app. by apply Hco.
Qed.

(** [g] is ruled out by its result, unless something speaks against it. *)
Definition step_ruled (g : providerGroup) (lastErr : error) (attempts : list AttemptEvidence)
    (lastErr' : error) (attempts' : list AttemptEvidence) (t : list event) : Prop :=
  later lastErr attempts lastErr' attempts' /\ (unfaulted lastErr' attempts' t -> ruled_out lastErr' g t).

Definition probed_post (ls : list (bool * list providerGroup)) (pre : list event) (gs : list providerGroup)
    (cancelled : bool) (lastErr : error) (attempts : list AttemptEvidence)
    (r : list providerGroup * bool * error * list AttemptEvidence) (t : list event) : Prop :=
  let '(winners, cancelled', lastErr', attempts') := r in
  clean ls t attempts' /\ ext pre t /\ (forall g, g ∈ winners -> g ∈ gs) /\
  (cancelled' = false -> cancelled = false /\ later lastErr attempts lastErr' attempts' /\
     (unfaulted lastErr' attempts' t -> forall g, g ∈ gs -> ruled_out lastErr' g t \/ g ∈ winners)).

Lemma probed_skip ls pre pre' g gs cancelled cancelled2 lastErr lastErr2 attempts attempts2 r t :
  ext pre pre' ->
  (cancelled2 = false -> cancelled = false /\ step_ruled g lastErr attempts lastErr2 attempts2 pre') ->
  probed_post ls pre' gs cancelled2 lastErr2 attempts2 r t -> probed_post ls pre (g :: gs) cancelled lastErr attempts r t.
Proof.
  intros He Hc. destruct r as [[[w c] e] att]. intros (Hcl & Het & Hw & H).
  split_and!; [done|extends|intros g' Hg'; right; by apply Hw|]. intros Hc'.
  destruct (H Hc') as (H1 & H2 & H3). destruct (Hc H1) as [H4 [H5 H6]]. split_and!; [done|by eapply later_trans|].
  intros Hu g' [->|Hg']%elem_of_cons; [left|by apply H3].
  eapply ext_ruled_out; [apply H2|exact Het|]. by eapply H6, ext_unfaulted.
Qed.

(** Results that do not speak against the absence, and results that report an error. *)
Lemma step_quiet g lastErr attempts more t : concluded g t -> step_ruled g lastErr attempts lastErr (attempts ++ more) t.
Proof. intros Hg. split; [done|]. intros _. by left. Qed.

Lemma step_fault g resp lastErr e attempts pre t :
  result_of pre g resp true false -> ext pre t -> rs_Err resp <> None \/ code_ok (rs_StatusCode resp) = false ->
  step_ruled g lastErr attempts (Some e) (attempts ++ rs_Attempts resp) t.
Proof.
  intros Hr He Hc. split; [by apply later_error|]. intros Hu. left. eapply ext_concluded; [exact He|].
  apply (ro_absent _ _ _ _ _ Hr); [done|done|]. eapply fault_verdict; [|exact Hc|exact Hu].
  intros Ht. apply (ro_verdict _ _ _ _ _ Hr); [by eapply ext_told|done|done].
Qed.

Lemma spec_probe_remove ls t attempts g resp prs :
  pending ls t attempts ((g, (resp, true, false)) :: prs) -> rs_Err resp = None -> rs_StatusCode resp = 502 ->
  spec (remove_provider g) t (fun _ u => pending ls u (attempts ++ rs_Attempts resp) prs /\ ext t u).
Proof.
  intros Hp Hnil Hc. unfold remove_provider. apply spec_bind_ask. intros [].
  pose proof (pending_remove _ _ _ _ _ _ Hp Hnil Hc) as Hp'.
  destruct (_ <? _); [|apply spec_ret; split; [done|apply ext_snoc]].
  apply spec_ask. intros []. apply spec_ret. split; [by apply pending_snoc|extends].
Qed.

Lemma spec_probe_results : forall gs rs ls pre cancelled lastErr attempts,
  length gs = length rs -> pending ls pre attempts (zip gs rs) ->
  spec (probe_results gs rs cancelled lastErr attempts) pre (probed_post ls pre gs cancelled lastErr attempts).
Proof.
  induction gs as [|g gs IH]; intros [|[[resp ok] c] rs] ls pre cancelled lastErr attempts Hlen Hp; try done.
  { apply spec_ret. simpl. split_and!; [by apply pending_clean|apply ext_refl|intros g Hg; by apply elem_of_nil in Hg|].
    intros ->. split_and!; [done|done|]. intros _ g Hg. by apply elem_of_nil in Hg. }
  cbn [probe_results]. simpl in Hlen. injection Hlen as Hlen. cbn [zip zip_with] in Hp.
  assert (Hres : result_of pre g resp ok c) by (apply (pd_results _ _ _ _ Hp); by left).
  assert (Hgo : forall u cancelled2 lastErr2, pending ls u (attempts ++ rs_Attempts resp) (zip gs rs) -> ext pre u ->
    (cancelled2 = false -> cancelled = false /\ step_ruled g lastErr attempts lastErr2 (attempts ++ rs_Attempts resp) u) ->
    spec (probe_results gs rs cancelled2 lastErr2 (attempts ++ rs_Attempts resp)) u
      (probed_post ls pre (g :: gs) cancelled lastErr attempts)).
  { intros u c2 e2 Hu He Hc. eapply spec_conseq; [by apply IH|]. intros r t. by apply probed_skip. }
  destruct c; [apply Hgo; [eapply pending_read; [exact Hp|by intros (_ & ? & _)]|apply ext_refl|done]|].
  destruct ok; cbn [negb].
  2:{ apply Hgo; [eapply pending_read; [exact Hp|by intros (? & _)]|apply ext_refl|].
      intros ->. split; [done|]. by apply step_quiet, (ro_gone _ _ _ _ _ Hres). }
  destruct (is_nil (rs_Err resp)) eqn:Hnil; cbn [negb].
  2:{ destruct (rs_Err resp) as [e|] eqn:Hre; [|done]. apply Hgo; [eapply pending_read; [exact Hp|]|apply ext_refl|].
      - intros (_ & _ & Hn & _). congruence.
      - intros ->. split; [done|]. eapply step_fault; [exact Hres|apply ext_refl|left; by rewrite Hre]. }
  apply is_nil_None in Hnil. destruct (Z.eqb_spec (rs_StatusCode resp) 502) as [Hc|Hc].
  { eapply spec_bind; [by apply spec_probe_remove|]. intros [] u [Hu He]. apply Hgo; [done|done|].
    intros ->. split; [done|]. eapply step_fault; [exact Hres|done|right; by rewrite Hc]. }
  assert (Hread : pending ls pre (attempts ++ rs_Attempts resp) (zip gs rs)).
  { eapply pending_read; [exact Hp|]. by intros (_ & _ & _ & ?). }
  destruct (responseIsHardArticleAbsence resp) eqn:Ha.
  { apply spec_bind_ask. intros v. apply Hgo; [by apply pending_snoc|apply ext_snoc|]. intros ->. split; [done|].
    apply step_quiet, concluded_mono, (ro_absent _ _ _ _ _ Hres); [done|done|by apply absence_concluded]. }
  destruct (Z.eqb_spec (rs_StatusCode resp) 223) as [Hw|Hw].
  - eapply spec_bind; [by apply IH|]. intros [[[w c'] e'] att] t (Hcl & He & Hsub & H). apply spec_ret.
    split_and!; [done|done|by intros g' [->|Hg']%elem_of_cons; [left|right; apply Hsub]|].
    intros Hc'. destruct (H Hc') as (-> & H2 & H3). split_and!; [done|by eapply later_trans; [apply later_more|]|].
    intros Hu g' [->|Hg']%elem_of_cons; [right; by left|]. destruct (H3 Hu g' Hg'); [by left|right; by right].
  - apply Hgo; [done|apply ext_refl|]. intros ->. split; [done|].
    destruct (named g _) as [e|] eqn:Hne; [|by apply named_err in Hne].
    destruct (code_ok (rs_StatusCode resp)) eqn:Hk; [|apply (step_fault g resp lastErr e attempts pre); [done|apply ext_refl|by right]].
    split; [by apply later_error|]. intros _. right. split; [done|]. by apply (ro_odd _ _ _ _ _ Hres).
Qed.

(** What an interleaving of traces shows is what its parts show. *)
Lemma concat_perm {A} (a b : list (list A)) : Permutation a b -> Permutation (concat a) (concat b).
Proof.
  induction 1 as [|x a b _ IH|x y a|a b c _ IH1 _ IH2]; simpl.
  - done.
  - by apply Permutation_app.
  - rewrite !app_assoc. apply Permutation_app_tail, Permutation_app_comm.
  - by etransitivity.
Qed.

Lemma tries_perm t u : Permutation t u -> Permutation (tries t) (tries u).
Proof. intros H. unfold tries. by rewrite H. Qed.

Lemma evidence_perm t u : Permutation t u -> Permutation (evidence t) (evidence u).
Proof. intros H. unfold evidence. apply concat_perm, fmap_Permutation, tries_perm, H. Qed.

Lemma stale_tries_perm t u : Permutation t u -> length (stale_tries t) = length (stale_tries u).
Proof.
  intros H. unfold stale_tries. pose proof (tries_perm _ _ H) as Ht. induction Ht as [|x a b _ IH|x y a|a b c _ IH1 _ IH2].
  - done.
  - simpl. destruct (fresh_required x); simpl; by rewrite IH.
  - simpl. destruct (fresh_required x), (fresh_required y); done.
  - by rewrite IH1.
Qed.

Lemma interleave_tries trs t x : interleave trs t -> x ∈ tries t <-> exists u, u ∈ trs /\ x ∈ tries u.
Proof.
  intros Hi. unfold tries. setoid_rewrite list_elem_of_omap. split.
  - intros (e & He & Hx). apply (interleave_elem _ _ _ Hi) in He as (u & Hu & He). eauto.
  - intros (u & Hu & e & He & Hx). exists e. split; [|done]. apply (interleave_elem _ _ _ Hi). eauto.
Qed.

(** One probe: its provider, its trace and its result. *)
Definition probed (sp : bytes) (g : providerGroup) (tr : list event) (r : option presult) : Prop :=
  visit fuel g (probe_args sp) tr r /\ Forall attempt_ok (tries tr).

Lemma probes_probed sp live trs rs t :
  Forall3 probe_exec ((fun g => tryGroupResilient fuel g (probe_args sp)) <$> live) trs rs ->
  interleave trs t -> Forall attempt_ok (tries t) -> Forall3 (probed sp) live trs rs.
Proof.
  intros Hf Hi Hok. assert (Hall : forall u, u ∈ trs -> Forall attempt_ok (tries u)).
  { intros u Hu. rewrite list.Forall_forall in Hok |- *. intros x Hx. apply Hok.
    apply (interleave_tries _ _ _ Hi). eauto. }
  clear Hi Hok. remember ((fun g => tryGroupResilient fuel g (probe_args sp)) <$> live) as ps eqn:Eps.
  revert live Eps. induction Hf as [|p tr r ps trs rs Hp _ IH]; intros [|g live] Eps; simplify_eq/=; [by constructor|].
  constructor.
  - split; [|apply Hall; by left]. by apply tryGroupResilient_visit in Hp.
  - apply IH; [|done]. intros u Hu. apply Hall. by right.
Qed.

Lemma probes_events sp live trs rs t pre :
  Forall3 (probed sp) live trs rs -> interleave trs t -> (forall g, g ∈ live -> (g, false) ∈ quotas pre) ->
  Forall (fun e => exists g a, visit_event g a e /\ (g, false) ∈ quotas pre) t /\
  Forall (fun x => ta_hasWriter (snd (fst x)) = false) (tries t).
Proof.
  intros Hf Hi Hq.
  assert (Hev : forall e, e ∈ t -> exists g, g ∈ live /\ visit_event g (probe_args sp) e).
  { intros e He. apply (interleave_elem _ _ _ Hi) in He as (u & Hu & He). clear Hi Hq.
    induction Hf as [|g tr r live trs rs [Hp _] _ IH]; [by apply elem_of_nil in Hu|].
    apply elem_of_cons in Hu as [->|Hu].
    - exists g. split; [by left|]. apply visit_events in Hp. rewrite list.Forall_forall in Hp. by apply Hp.
    - destruct (IH Hu) as (g' & Hg' & Hv). exists g'. split; [by right|done]. }
  split; apply list.Forall_forall.
  - intros e He. destruct (Hev e He) as (g & Hg & Hv). eauto.
  - intros [[g a] x] Hx. apply list_elem_of_omap in Hx as (e & He & Hee). destruct (Hev e He) as (g' & _ & Hv).
    destruct Hv as (_ & _ & _ & _ & _ & Hv). destruct (Hv _ _ _ Hee) as [_ Hw]. simpl. by rewrite Hw.
Qed.

(** When every probe came back, what is outstanding are their results. *)
Lemma probes_collect sp live trs l :
  Forall3 (probed sp) live trs (Some <$> l) ->
  Permutation (completes (concat trs)) (grants (concat trs)) /\
  evidence (concat trs) ⊆+ concat ((fun pr => rs_Attempts (fst (fst (snd pr)))) <$> zip live l) /\
  (forall g a resp, (g, a, (resp, true, false)) ∈ tries (concat trs) -> rs_Err resp = None ->
     rs_StatusCode resp = 502 ->
     exists resp', (g, (resp', true, false)) ∈ zip live l /\ rs_Err resp' = None /\ rs_StatusCode resp' = 502) /\
  (forall g resp ok c, (g, (resp, ok, c)) ∈ zip live l ->
     exists tr, tr ∈ trs /\ outcome g (probe_args sp) tr resp ok c).
Proof.
  remember (Some <$> l) as rs eqn:Ers. intros Hf. revert l Ers.
  induction Hf as [|g tr r live trs rs [Hv Hok] _ IH]; intros l Ers.
  { destruct l; [|done]. split_and!; try done; intros *; by intros ?%elem_of_nil. }
  destruct l as [|[[resp ok] c] l]; simplify_eq/=. pose proof (visit_outcome _ _ _ _ _ _ _ Hv Hok) as Ho.
  destruct (IH l eq_refl) as (Hb & He & H5 & Hr). pose proof Ho as [Hoe Hob Ho5 _ _ _ _ _ _ _ _ _].
  autorewrite with trace. split_and!.
  - by apply Permutation_app.
  - by apply submseteq_app.
  - intros g' a' r' [Hin|Hin]%elem_of_app Hn Hc.
    + destruct (Ho5 _ _ _ Hin Hn Hc) as (-> & -> & -> & Hn' & Hc'). exists resp. split; [by left|done].
    + destruct (H5 _ _ _ Hin Hn Hc) as (r2 & Hin2 & H2). exists r2. split; [by right|done].
  - intros g' r' ok' c' [Heq|Hin]%elem_of_cons; simplify_eq.
    + exists tr. split; [by left|done].
    + destruct (Hr _ _ _ _ Hin) as (u & Hu & H'). exists u. split; [by right|done].
Qed.

(** What was told to one of the probes was told; their evidence is coherent. *)
Lemma told_part trs t u : interleave trs t -> u ∈ trs -> told t -> told u.
Proof.
  intros Hi Hu Ht. apply list.Forall_forall. intros e He. unfold told in Ht. rewrite list.Forall_forall in Ht.
  apply Ht, (interleave_elem _ _ _ Hi). eauto.
Qed.

Lemma probes_coherent sp live trs l t :
  Forall3 (probed sp) live trs (Some <$> l) -> interleave trs t -> told t ->
  Forall coherent_attempt (concat ((fun pr => rs_Attempts (fst (fst (snd pr)))) <$> zip live l)).
Proof.
  intros Hp Hi Ht. destruct (probes_collect _ _ _ _ Hp) as (_ & _ & _ & Hres).
  apply list.Forall_forall. intros ev Hev. apply list_elem_of_In, in_concat in Hev as (evs & Hin & Hev).
  apply list_elem_of_In, list_elem_of_fmap in Hin as ([g [[resp ok] c]] & -> & Hin).
  destruct (Hres _ _ _ _ Hin) as (u & Hu & Ho). pose proof (oc_coherent _ _ _ _ _ _ Ho (told_part _ _ _ Hi Hu Ht)) as Hco.
  rewrite list.Forall_forall in Hco. apply Hco. by apply list_elem_of_In.
Qed.

Lemma probes_starved sp live trs rs :
  Forall3 (probed sp) live trs rs -> all_some rs = None -> (fuel <= 4 + length (stale_tries (concat trs)))%nat.
Proof.
  induction 1 as [|g tr r live trs rs [Hv _] _ IH]; [done|]. simpl. intros Hn. autorewrite with trace. rewrite length_app.
  destruct r as [x|].
  - destruct (all_some rs); [done|]. specialize (IH eq_refl). lia.
  - apply visit_stuck_fuel in Hv. lia.
Qed.

Lemma all_some_fmap {A} (rs : list (option A)) l : all_some rs = Some l -> rs = Some <$> l.
Proof.
  revert l. induction rs as [|[a|] rs IH]; intros l H; simplify_eq/=; [done|].
  destruct (all_some rs) as [l'|]; simplify_eq. simpl. f_equal. by apply IH.
Qed.

Lemma Forall3_len {A B C} (Rel : A -> B -> C -> Prop) a b c : Forall3 Rel a b c -> length a = length c.
Proof. induction 1; simpl; congruence. Qed.

(** Bytes are streamed only by an attempt with a writer. *)
Lemma no_writer_unstreamed (ts : list (providerGroup * try_args * presult)) :
  Forall (fun x => ta_hasWriter (snd (fst x)) = false) ts -> Forall (fun x => streamed x = false) ts.
Proof.
  intros H. eapply Forall_impl; [|exact H]. intros [[g a] [[r ok] c]]. simpl. intros ->. by rewrite andb_false_r.
Qed.

Lemma spec_probes {A} ls pre attempts sp live (k : list presult -> router A) Q :
  clean ls pre attempts -> (forall g, g ∈ live -> (g, false) ∈ quotas pre) ->
  (forall results t, length live = length results -> pending ls t attempts (zip live results) -> ext pre t ->
     quotas t = quotas pre -> spec (k results) t Q) ->
  spec (Fork ((fun g => tryGroupResilient fuel g (probe_args sp)) <$> live) k) pre Q.
Proof.
  intros Hcl Hq Hk tr r (trs & rs & t1 & t2 & Hf & Hi & -> & Hrest) Hok.
  autorewrite with trace in Hok. apply Forall_app in Hok as [Hok1 Hok2].
  pose proof (probes_probed _ _ _ _ _ Hf Hi Hok1) as Hp.
  destruct (probes_events _ _ _ _ _ pre Hp Hi Hq) as [Hev Hnw].
  destruct (visits_ok ls pre attempts t1 Hcl Hev) as (Hg & Ho & Hl & Hr & Hqs).
  { intros u1 e u2 -> g a x Hx Hw. exfalso. autorewrite with trace in Hnw. rewrite Hx in Hnw.
    apply Forall_app in Hnw as [_ [Hnw _]%Forall_cons_iff]. simpl in Hnw. congruence. }
  pose proof (interleave_Permutation _ _ Hi) as Hperm. destruct (all_some rs) as [l|] eqn:Ers.
  - apply all_some_fmap in Ers as ->. destruct (probes_collect _ _ _ _ Hp) as (Hb & He & H5 & Hres).
    rewrite app_assoc. apply (Hk l (pre ++ t1)); try done.
    + apply Forall3_len in Hp. by rewrite length_fmap in Hp.
    + destruct Hcl as [Hg0 Ho0 Hl0 Hr0 Hb0 Hu0 He0 Hc0]. split; try done.
      * autorewrite with trace. apply Permutation_app; [done|]. unfold completes, grants. by rewrite Hperm.
      * unfold unstreamed. autorewrite with trace. apply Forall_app. split; [done|by apply no_writer_unstreamed].
      * autorewrite with trace. apply submseteq_app; [done|]. by rewrite (evidence_perm _ _ Hperm).
      * intros g a resp. rewrite Hr. autorewrite with trace. intros [Hin|Hin]%elem_of_app Hn Hc.
        -- left. by eapply Hr0.
        -- right. eapply H5; [|done|done]. by rewrite <- (tries_perm _ _ Hperm).
      * intros g resp ok c Hin. destruct (Hres _ _ _ _ Hin) as (u & Hu & Ho1). eapply outcome_result; [|exact Ho1| |].
        -- done.
        -- intros x Hx. apply tries_in_r. apply (interleave_tries _ _ _ Hi). eauto.
        -- intros [_ Ht]%told_app. by eapply told_part.
      * intros [Ht0 Ht1]%told_app. apply Forall_app. split; [by apply Hc0|]. by eapply probes_coherent.
    + by exists t1.
  - destruct Hrest as [-> ->]. rewrite app_nil_r. split; [done|]. autorewrite with trace. rewrite length_app.
    rewrite (stale_tries_perm _ _ Hperm). pose proof (probes_starved _ _ _ _ Hp Ers). lia.
Qed.

(** Where a race over [candidates] ends without an answer. *)
Definition raced (candidates : list providerGroup) (attempts : list AttemptEvidence) (lastErr' : error)
    (attempts' : list AttemptEvidence) (t : list event) : Prop :=
  considered candidates t /\ later None attempts lastErr' attempts' /\ verdicts candidates t lastErr' attempts'.

Lemma spec_race candidates sp a ls pre attempts : clean ls pre attempts ->
  spec (raceCandidates fuel candidates sp a attempts) pre (race_post ls pre (raced candidates attempts)).
Proof.
  intros Hcl. unfold raceCandidates. eapply spec_bind; [by apply spec_live|].
  intros [[live lastErr] attempts'] t (Hcl1 & He & Hco & Hlive & Hl & Hun). unfold raced.
  assert (Hsub : forall u e att, ext t u -> later lastErr attempts' e att -> unfaulted e att u -> candidates = live).
  { intros u e att Hu Hla Hf. symmetry. by eapply Hun, ext_unfaulted. }
  destruct live as [|g [|g2 live]].
  - apply spec_ret. simpl. split_and!; [done..|]. intros _. split_and!; [done|done|].
    intros <-%Hun g Hg. by apply elem_of_nil in Hg.
  - eapply spec_conseq; [apply (spec_race_single ls); [done|by apply Hlive; left]|].
    intros r u. apply race_post_weaken; [done|]. intros e att Heu [Hla H].
    split_and!; [by eapply ext_considered|by eapply later_trans|].
    intros Hf. rewrite (Hsub u e att) by done. intros g' ->%list_elem_of_singleton. left. by apply H.
  - remember (g :: g2 :: live) as lv eqn:Elv. apply (spec_probes ls _ attempts'); [done|done|].
    intros results u Hlen Hp Heu Hqs. eapply spec_bind; [by apply spec_probe_results|].
    intros [[[winners c] lastErr'] att] v (Hcl2 & Hev & Hw & Hres).
    destruct c; [apply spec_ret; simpl; split_and!; [done|extends|done]|].
    destruct (Hres eq_refl) as (_ & Hla & Hru). assert (Htv : ext t v) by extends.
    assert (Hcv : considered candidates v) by by eapply ext_considered.
    assert (Hla1 : later None attempts lastErr' att) by by eapply later_trans.
    destruct winners as [|w ws].
    + apply spec_ret. simpl. split_and!; [done|extends|]. intros _. split_and!; [done|done|].
      intros Hf. rewrite (Hsub v lastErr' att) by done. intros g' Hg'.
      destruct (Hru Hf g' Hg') as [?|Hx]; [done|by apply elem_of_nil in Hx].
    + remember (w :: ws) as wl eqn:Ewl. eapply spec_conseq; [apply (spec_try_winners _ wl ls); [done|]|].
      * intros g' Hg'. eapply ext_quota; [exact Hev|]. rewrite Hqs. by apply Hlive, Hw.
      * intros r x. apply race_post_weaken; [extends|]. intros e att2 Hvx [Hla2 Hc].
        split_and!; [by eapply ext_considered|by eapply later_trans|].
        intros Hf. rewrite (Hsub x e att2) by (done || extends || by eapply later_trans). intros g' Hg'.
        destruct (Hru (ext_unfaulted _ _ _ _ _ _ Hvx Hla2 Hf) g' Hg') as [?|?]; [|left; by apply Hc].
        eapply ext_ruled_out; [apply Hla2|exact Hvx|done].
Qed.

(** *** The provider loops *)

(** Where a loop over [gs] ends, having begun with [done] done: delivered, or all
    of [done ++ gs] considered and concluded. *)
Definition loop_post (ls : list (bool * list providerGroup)) (pre : list event) (done : list providerGroup)
    (r : option send_state) (t : list event) : Prop :=
  match r with
  | None => finished t
  | Some st => clean ls t (ss_attempts st) /\ ext pre t /\ considered done t /\
      verdicts done t (ss_lastErr st) (ss_attempts st)
  end.

Lemma app_cons_assoc {A} (l : list A) x l' : l ++ x :: l' = (l ++ [x]) ++ l'.
Proof. by rewrite <- app_assoc. Qed.

(** The verdicts stand while the request goes on. *)
Lemma verdicts_later done t u e e' attempts attempts' : later e attempts e' attempts' -> ext t u ->
  verdicts done t e attempts -> verdicts done u e' attempts'.
Proof. intros Hl He H Hu g Hg. eapply ext_ruled_out; [apply Hl|exact He|]. by eapply H; [eapply ext_unfaulted|]. Qed.

Lemma verdicts_app done more t e attempts :
  verdicts done t e attempts -> verdicts more t e attempts -> verdicts (done ++ more) t e attempts.
Proof. intros H1 H2 Hu g [Hg|Hg]%elem_of_app; [by apply H1|by apply H2]. Qed.

Section Loops.
Context (cfg : client_cfg) (payload : bytes) (hasWriter priority validateBody : bool).

Lemma spec_race_and_continue gs st ls pre done : clean ls pre (ss_attempts st) ->
  considered done pre -> verdicts done pre (ss_lastErr st) (ss_attempts st) ->
  spec (race_and_continue fuel payload hasWriter priority validateBody gs st) pre (loop_post ls pre (done ++ gs)).
Proof.
  intros Hcl Hco Hv. unfold race_and_continue. eapply spec_bind; [by apply spec_race|].
  intros [[[d c] e] att] t Hr. simpl in Hr. destruct d.
  - destruct Hr as [Hf ->]. by apply spec_ret.
  - destruct Hr as (Hcl' & He & Hq). destruct c.
    + eapply spec_bind; [by eapply spec_cancelled|]. intros [] u Hu. by apply spec_ret.
    + apply spec_ret. destruct (Hq eq_refl) as (Hco' & [_ Hpre] & Hv'). unfold loop_post.
      assert (H : ss_attempts (if is_nil e then st <| ss_attempts := att |> else st <| ss_attempts := att |> <| ss_lastErr := e |>) = att
        /\ ss_lastErr (if is_nil e then st <| ss_attempts := att |> else st <| ss_attempts := att |> <| ss_lastErr := e |>)
           = if is_nil e then ss_lastErr st else e) by (by destruct e).
      destruct H as [-> ->]. split_and!; [done|done| |].
      * intros g [Hg|Hg]%elem_of_app; [by apply (ext_considered pre t done)|by apply Hco'].
      * apply verdicts_app.
        -- eapply verdicts_later; [|exact He|exact Hv]. split; [by destruct e|done].
        -- eapply verdicts_later; [|apply ext_refl|exact Hv']. split; [by destruct e|done].
Qed.

Lemma loop_post_from ls pre pre' done done' r t :
  ext pre pre' -> done' = done -> loop_post ls pre' done' r t -> loop_post ls pre done r t.
Proof. intros He ->. destruct r as [st|]; [|done]. intros (? & ? & ? & ?). split_and!; try done. extends. Qed.

Definition later_state (st st' : send_state) : Prop :=
  later (ss_lastErr st) (ss_attempts st) (ss_lastErr st') (ss_attempts st').

(** What both loops do with a provider, up to its reply: [next] goes on with the
    other providers, [reply] handles a reply without an error. *)
Lemma spec_provider ls g st pre done a a' (next : send_state -> router (option send_state))
    (reply : Response -> router (option send_state)) Q :
  ta_hasWriter a' = hasWriter ->
  clean ls pre (ss_attempts st) -> considered done pre -> verdicts done pre (ss_lastErr st) (ss_attempts st) ->
  (forall u st', clean ls u (ss_attempts st') -> ext pre u -> considered (done ++ [g]) u ->
     verdicts (done ++ [g]) u (ss_lastErr st') (ss_attempts st') -> spec (next st') u Q) ->
  (forall t resp, visited ls (pre ++ [Ev (QQuota g) false]) g a' (ss_attempts st) t resp true false ->
     rs_Err resp = None ->
     (forall u st', clean ls u (ss_attempts st') -> ext t u -> later_state st st' ->
        (unfaulted (ss_lastErr st') (ss_attempts st') u -> concluded g u) ->
        ext pre u /\ considered (done ++ [g]) u /\ verdicts (done ++ [g]) u (ss_lastErr st') (ss_attempts st')) ->
     spec (reply resp) t Q) ->
  (forall t, finished t -> Q None t) ->
  spec (let! exceeded := ask (QQuota g) in
        if (exceeded : bool) then
          let! (err, ev) := quota_evidence g a in
          next (st <| ss_lastErr := err |> <| ss_attempts := ss_attempts st ++ [ev] |>)
        else
          let! (resp, ok, cancelled) := tryGroupResilient fuel g a' in
          if (cancelled : bool) then deliver_cancelled (ss_attempts st ++ rs_Attempts resp) ;! Ret None
          else if negb ok then next (st <| ss_attempts := ss_attempts st ++ rs_Attempts resp |>)
          else if negb (is_nil (rs_Err resp)) then
            if hasWriter && attemptCommittedResp resp
            then deliver resp (ss_attempts st ++ rs_Attempts resp) ;! Ret None
            else next (st <| ss_attempts := ss_attempts st ++ rs_Attempts resp |> <| ss_lastErr := rs_Err resp |>)
          else reply resp) pre Q.
Proof.
  intros Hw Hcl Hco Hv Hnext Hreply HQ. eapply spec_inert; [done|exact Hcl|]. intros exceeded Hcl1.
  remember (pre ++ [Ev (QQuota g) exceeded]) as pre1 eqn:Epre.
  assert (He1 : ext pre pre1) by (subst; apply ext_snoc).
  assert (Hq : (g, exceeded) ∈ quotas pre1) by (subst; autorewrite with trace; apply elem_of_app; right; by left).
  assert (Hrest : forall u st', clean ls u (ss_attempts st') -> ext pre1 u -> later_state st st' ->
    (unfaulted (ss_lastErr st') (ss_attempts st') u -> concluded g u) ->
    ext pre u /\ considered (done ++ [g]) u /\ verdicts (done ++ [g]) u (ss_lastErr st') (ss_attempts st')).
  { intros u st' Hu Heu Hl Hc. assert (Hpu : ext pre u) by by eapply ext_trans. split_and!; [done| |].
    - eapply considered_add; [by eapply ext_considered|exact (ext_quota _ _ _ _ Heu Hq)].
    - apply verdicts_app; [by eapply verdicts_later|]. intros Hf g' ->%list_elem_of_singleton. left. by apply Hc. }
  assert (Hgo : forall u st', clean ls u (ss_attempts st') -> ext pre1 u -> later_state st st' ->
    (unfaulted (ss_lastErr st') (ss_attempts st') u -> concluded g u) -> spec (next st') u Q).
  { intros u st' Hu Heu Hl Hc. destruct (Hrest u st' Hu Heu Hl Hc) as (H1 & H2 & H3). by apply Hnext. }
  destruct exceeded.
  { eapply spec_bind; [by apply spec_quota_evidence|]. intros [err ev] t (Hcl2 & He & Herr & Hev).
    apply Hgo; [done|done|by apply later_error|]. simpl. intros Hf. exfalso. by eapply quota_faults. }
  eapply spec_bind; [apply (spec_visit ls g _ (ss_attempts st)); [done|exact Hq]|].
  intros [[resp ok] c] t Hvis. pose proof (visited_ext _ _ _ _ _ _ _ _ _ Hvis) as He.
  destruct c.
  { eapply spec_bind; [eapply spec_cancelled; settle Hvis|]. intros [] u Hu. by apply spec_ret, HQ. }
  destruct ok; cbn [negb].
  2:{ apply Hgo; [settle Hvis|done|apply later_more|]. intros _. by eapply visited_gone. }
  destruct (is_nil (rs_Err resp)) eqn:Hnil; cbn [negb].
  - apply is_nil_None in Hnil. apply Hreply; [by subst|done|]. intros u st' Hu Heu. apply Hrest; [done|by eapply ext_trans].
  - destruct (rs_Err resp) as [e|] eqn:Hre; [|done]. rewrite <- Hw.
    destruct (ta_hasWriter a' && attemptCommittedResp resp) eqn:Hcom.
    + unfold deliver. apply spec_bind_ask. intros []. apply spec_ret, HQ.
      eapply visited_deliver; [exact Hvis|left; by rewrite Hre].
    + apply Hgo; [settle Hvis|done|by apply later_error|]. eapply visited_fault; [exact Hvis|left; by rewrite Hre|apply ext_refl].
Qed.

Lemma spec_send_mains gs : forall ls pre done st, clean ls pre (ss_attempts st) ->
  considered done pre -> verdicts done pre (ss_lastErr st) (ss_attempts st) ->
  spec (send_mains fuel cfg payload hasWriter priority validateBody gs st) pre (loop_post ls pre (done ++ gs)).
Proof.
  induction gs as [|g rest IH]; intros ls pre done st Hcl Hco Hv; cbn [send_mains].
  { rewrite app_nil_r. apply spec_ret. by split_and!; try apply ext_refl. }
  rewrite app_cons_assoc. eapply spec_provider; [|exact Hcl|exact Hco|exact Hv| | |done]; [done| |].
  { intros u st' Hu He Hco' Hv'. eapply spec_conseq; [by apply IH|]. intros r t. by apply loop_post_from. }
  intros t resp Hvis Hnil Hrest. cbn beta.
  assert (Hgo : forall u st', clean ls u (ss_attempts st') -> ext t u -> later_state st st' ->
    (unfaulted (ss_lastErr st') (ss_attempts st') u -> concluded g u) ->
    spec (send_mains fuel cfg payload hasWriter priority validateBody rest st') u (loop_post ls pre ((done ++ [g]) ++ rest))).
  { intros u st' Hu Heu Hl Hc. destruct (Hrest u st' Hu Heu Hl Hc) as (H1 & H2 & H3).
    eapply spec_conseq; [by apply (IH ls u (done ++ [g]))|]. intros r w. by apply loop_post_from. }
  destruct (Z.eqb_spec (rs_StatusCode resp) 502) as [Hc|Hc].
  { eapply spec_bind; [by eapply spec_remove|]. intros [] u [Hcl' He'].
    apply Hgo; [done|done|by apply later_error|]. eapply visited_fault; [exact Hvis|right; by rewrite Hc|done]. }
  destruct (responseIsHardArticleAbsence resp) eqn:Ha.
  { destruct (absence_not_ok _ Ha) as [Hk _]. eapply spec_inert; [done|settle Hvis|]. intros v Hcl'.
    assert (Hcon : concluded g (t ++ [Ev QNextIdx v])).
    { apply concluded_mono. eapply visited_absent; [done|by apply absence_concluded]. }
    destruct (raceable cfg payload); [|by apply Hgo; [|apply ext_snoc|apply later_more|]].
    match goal with |- spec (race_and_continue _ _ _ _ _ _ ?st2) _ _ =>
      destruct (Hrest (t ++ [Ev QNextIdx v]) st2 Hcl' (ext_snoc _ _)) as (H0 & H1 & H2); [apply later_more|done|] end.
    eapply spec_conseq; [by eapply (spec_race_and_continue rest _ ls _ (done ++ [g]))|]. intros r w. by apply loop_post_from. }
  rewrite range_not_ok. destruct (code_ok (rs_StatusCode resp)) eqn:Hk; cbn [negb].
  - unfold deliver. apply spec_bind_ask. intros []. apply spec_ret.
    eapply visited_deliver; [exact Hvis|by right].
  - destruct (named g _) as [e|] eqn:Hne; [|by apply named_err in Hne].
    apply Hgo; [settle Hvis|apply ext_refl|by apply later_error|]. eapply visited_fault; [exact Hvis|by right|apply ext_refl].
Qed.

Lemma spec_send_backups gs : forall ls pre done st, clean ls pre (ss_attempts st) ->
  considered done pre -> verdicts done pre (ss_lastErr st) (ss_attempts st) ->
  spec (send_backups fuel payload hasWriter priority validateBody gs st) pre (loop_post ls pre (done ++ gs)).
Proof.
  induction gs as [|g rest IH]; intros ls pre done st Hcl Hco Hv; cbn [send_backups].
  { rewrite app_nil_r. apply spec_ret. by split_and!; try apply ext_refl. }
  rewrite app_cons_assoc. eapply spec_provider; [|exact Hcl|exact Hco|exact Hv| | |done]; [done| |].
  { intros u st' Hu He Hco' Hv'. eapply spec_conseq; [by apply IH|]. intros r t. by apply loop_post_from. }
  intros t resp Hvis Hnil Hrest. cbn beta.
  assert (Hgo : forall u st', clean ls u (ss_attempts st') -> ext t u -> later_state st st' ->
    (unfaulted (ss_lastErr st') (ss_attempts st') u -> concluded g u) ->
    spec (send_backups fuel payload hasWriter priority validateBody rest st') u (loop_post ls pre ((done ++ [g]) ++ rest))).
  { intros u st' Hu Heu Hl Hc. destruct (Hrest u st' Hu Heu Hl Hc) as (H1 & H2 & H3).
    eapply spec_conseq; [by apply (IH ls u (done ++ [g]))|]. intros r w. by apply loop_post_from. }
  destruct (Z.eqb_spec (rs_StatusCode resp) 502) as [Hc|Hc].
  { eapply spec_bind; [by eapply spec_remove|]. intros [] u [Hcl' He'].
    apply Hgo; [done|done|by apply later_error|]. eapply visited_fault; [exact Hvis|right; by rewrite Hc|done]. }
  rewrite cloneAttempts_id, absence_attempts by by eapply visited_said. destruct (responseIsHardArticleAbsence resp) eqn:Ha.
  { destruct (absence_not_ok _ Ha) as [Hk _]. apply Hgo; [settle Hvis|apply ext_refl|apply later_more|].
    intros _. eapply visited_absent; [done|by apply absence_concluded]. }
  set (resp' := resp <| rs_Attempts := _ |>). change (rs_StatusCode resp') with (rs_StatusCode resp).
  rewrite range_not_ok. destruct (code_ok (rs_StatusCode resp)) eqn:Hk; cbn [negb].
  - apply spec_bind_ask. intros []. apply spec_ret. unfold resp'. rewrite <- (cloneAttempts_id (_ ++ _)).
    eapply visited_deliver; [exact Hvis|by right].
  - destruct (named g _) as [e|] eqn:Hne; [|by apply named_err in Hne].
    apply Hgo; [settle Hvis|apply ext_refl|by apply later_error|]. eapply visited_fault; [exact Hvis|by right|apply ext_refl].
Qed.

Lemma exhausted_faultless attempts e : Forall coherent_attempt attempts ->
  not_found ((errResponse (Some (newTransportError attempts (Some e)))) <| rs_Attempts := attempts |>) ->
  Forall faultless attempts.
Proof.
  intros Hco [Hf|[[=] _]]. apply (absence_faultless _ e); [done|].
  unfold responseError in Hf. simpl in Hf. unfold newTransportError in *.
  destruct (aggregate_kind attempts) as [[kind k] mixed]. by destruct (if mixed then _ else _) as [[? ?] ?].
Qed.

Lemma spec_deliver_exhausted mains backups st pre :
  clean [(false, mains); (true, backups)] pre (ss_attempts st) ->
  verdicts (mains ++ backups) pre (ss_lastErr st) (ss_attempts st) ->
  spec (deliver_exhausted st) pre (fun _ => finished).
Proof.
  intros Hcl%clean_settled Hv. unfold deliver_exhausted, deliver. destruct (ss_lastErr st) as [e|] eqn:He.
  - apply spec_ask. intros []. apply spec_ret. rewrite cloneAttempts_id. eapply settled_deliver; [exact Hcl|by left|].
    intros Ht Hf%exhausted_faultless; [|by apply Hcl]. exists mains, backups. split; [done|]. intros g Hg.
    apply (ext_ruled_out (Some e) _ pre); [done|apply ext_refl|]. apply Hv; [by right|done].
  - destruct (ss_lastResp st) as [resp|].
    + apply spec_ask. intros []. apply spec_ret. eapply settled_deliver; [exact Hcl|left; apply cloneAttempts_id|].
      intros _ _. exists mains, backups. split; [done|]. intros g Hg.
      apply (ext_ruled_out None _ pre); [done|apply ext_refl|]. apply Hv; [by left|done].
    + apply spec_ask. intros []. apply spec_ret. eapply settled_deliver; [exact Hcl|by right|]. by intros _ [[=]|[[=] _]].
Qed.

(** Loading a provider list. *)
Lemma clean_load ls pre attempts b gs : clean ls pre attempts ->
  (b = true -> forall mains g, (false, mains) ∈ ls -> g ∈ mains -> exists q, (g, q) ∈ quotas pre) ->
  clean (ls ++ [(b, gs)]) (pre ++ [Ev (QLoad b) gs]) attempts.
Proof.
  intros [Hg Ho Hl Hr Hb Hu He Hco] Hback.
  assert (Ht : tries (pre ++ [Ev (QLoad b) gs]) = tries pre) by by apply omap_snoc_None.
  split.
  - apply good_snoc; [done|]. split; try done. intros gs' mains g [= -> <-]. rewrite Hl. by apply Hback.
  - autorewrite with trace. by rewrite Ho.
  - autorewrite with trace. by rewrite Hl.
  - intros g a resp. unfold removes. rewrite Ht, omap_snoc_None by done. apply Hr.
  - unfold completes, grants. by rewrite !omap_snoc_None.
  - unfold unstreamed. by rewrite Ht.
  - unfold evidence. by rewrite Ht.
  - intros [Hto _]%told_app. by apply Hco.
Qed.

Lemma spec_send_after_mains mains st pre :
  clean [(false, mains)] pre (ss_attempts st) -> considered mains pre -> verdicts mains pre (ss_lastErr st) (ss_attempts st) ->
  spec (send_after_mains fuel cfg payload hasWriter priority validateBody st) pre (fun _ => finished).
Proof.
  intros Hcl Hco Hv. unfold send_after_mains. apply spec_bind_ask. intros backups.
  assert (Hcl1 : clean [(false, mains); (true, backups)] (pre ++ [Ev (QLoad true) backups]) (ss_attempts st)).
  { apply (clean_load [(false, mains)]); [done|]. intros _ ms g Hin%list_elem_of_singleton. simplify_eq. apply Hco. }
  assert (Hco1 : considered mains (pre ++ [Ev (QLoad true) backups])) by by apply considered_mono.
  assert (Hv1 : verdicts mains (pre ++ [Ev (QLoad true) backups]) (ss_lastErr st) (ss_attempts st)) by by apply verdicts_mono.
  eapply (spec_bind _ _ _ (loop_post [(false, mains); (true, backups)] (pre ++ [Ev (QLoad true) backups]) (mains ++ backups))).
  - destruct (raceable cfg payload && ss_post430 st); [by apply spec_race_and_continue|by apply spec_send_backups].
  - intros [st'|] t Ht; [|by apply spec_ret]. destruct Ht as (Hcl2 & _ & _ & Hv2). by eapply spec_deliver_exhausted.
Qed.
End Loops.

(** *** Choosing the first provider *)

Definition quiet_post {A} (ls : list (bool * list providerGroup)) (attempts : list AttemptEvidence) (_ : A) (t : list event) : Prop :=
  clean ls t attempts.

Lemma spec_quiet {A} ls attempts q (f : ans q -> router A) pre :
  (forall a, inert (Ev q a)) -> clean ls pre attempts ->
  (forall a u, clean ls u attempts -> spec (f a) u (quiet_post ls attempts)) ->
  spec (bind (ask q) f) pre (quiet_post ls attempts).
Proof. intros Hi Hc H. eapply spec_inert; [exact Hi|exact Hc|]. intros a Hu. by apply H. Qed.

Lemma spec_max_speed gs : forall m ls attempts pre, clean ls pre attempts ->
  spec (max_speed gs m) pre (quiet_post ls attempts).
Proof.
  induction gs as [|g gs IH]; intros m ls attempts pre Hcl; cbn [max_speed]; [by apply spec_ret|].
  apply spec_quiet; [done..|]. intros s u Hu. by apply IH.
Qed.

Lemma spec_weights gs sa m : forall ls attempts pre, clean ls pre attempts ->
  spec (weights gs sa m) pre (quiet_post ls attempts).
Proof.
  induction gs as [|g gs IH]; intros ls attempts pre Hcl; cbn [weights]; [by apply spec_ret|].
  apply spec_quiet; [done..|]. intros e u Hu.
  eapply (spec_bind _ _ _ (quiet_post ls attempts)).
  - destruct e; [by apply spec_ret|]. apply spec_quiet; [done..|]. intros av v Hv.
    destruct (sa && _); [|by apply spec_ret]. apply spec_quiet; [done..|]. intros s w Hw. by apply spec_ret.
  - intros w v Hv. eapply (spec_bind _ _ _ (quiet_post ls attempts)); [by apply IH|]. intros ws x Hx. by apply spec_ret.
Qed.

Lemma spec_fifo gs : forall i ls attempts pre, clean ls pre attempts ->
  spec (fifo_start gs i) pre (quiet_post ls attempts).
Proof.
  induction gs as [|g gs IH]; intros i ls attempts pre Hcl; cbn [fifo_start]; [by apply spec_ret|].
  apply spec_quiet; [done..|]. intros av u Hu. destruct (0 <? av); [|by apply IH].
  apply spec_quiet; [done..|]. intros e v Hv. destruct e; [by apply IH|by apply spec_ret].
Qed.

Lemma spec_choose_start cfg mains ls attempts pre : clean ls pre attempts ->
  spec (choose_start cfg mains) pre (quiet_post ls attempts).
Proof.
  intros Hcl. unfold choose_start, dispatchWeights. destruct (c_dispatch cfg); [|by apply spec_fifo].
  eapply (spec_bind _ _ _ (quiet_post ls attempts)).
  - eapply (spec_bind _ _ _ (quiet_post ls attempts)).
    + destruct (c_speedAware cfg); [by apply spec_max_speed|by apply spec_ret].
    + intros m u Hu. by apply spec_weights.
  - intros ws u Hu. destruct (total_weight ws =? 0); [by apply spec_ret|].
    apply spec_quiet; [done..|]. intros v w Hw. by apply spec_ret.
Qed.

Lemma rotate_elem start (gs : list providerGroup) g : g ∈ rotate start gs <-> g ∈ gs.
Proof.
  unfold rotate. rewrite (Permutation_app_comm (drop start gs)). by rewrite take_drop.
Qed.

Lemma spec_send cfg payload hasWriter priority validateBody :
  spec (doSendWithRetry fuel cfg payload hasWriter priority validateBody) [] (fun _ => finished).
Proof.
  assert (Hnil : clean [] [] []).
  { split; try done; [apply good_nil|intros ? ? ? Hin; by apply elem_of_nil in Hin|apply List.Forall_nil]. }
  unfold doSendWithRetry. apply spec_bind_ask. intros mains.
  pose proof (clean_load [] [] [] false mains Hnil) as Hcl. simpl in Hcl. specialize (Hcl ltac:(done)).
  destruct mains as [|m ms].
  { apply spec_ask. intros []. apply spec_ret. eapply settled_deliver; [by apply clean_settled|by left|by intros _ [[=]|[[=] _]]]. }
  remember (m :: ms) as mains eqn:Em.
  eapply spec_bind; [by apply spec_choose_start|]. intros start t Ht.
  eapply spec_bind; [apply (spec_send_mains cfg payload hasWriter priority validateBody _ [(false, mains)] t []);
    [exact Ht|intros g Hg; by apply elem_of_nil in Hg|intros _ g Hg; by apply elem_of_nil in Hg]|].
  intros [st|] u Hu; [|by apply spec_ret]. destruct Hu as (Hcl2 & _ & Hco & Hv). simpl in Hco, Hv.
  apply (spec_send_after_mains _ _ _ _ _ mains); [done| |].
  - intros g Hg. by apply Hco, rotate_elem.
  - intros Hn g Hg. by apply Hv, rotate_elem.
Qed.
End Spec.
