(* ===== verification/Attempt.v ===== *)
(** One attempt on one provider ([tryGroup] in [nntp.go]), and why it keeps the
    contract that the router's properties assume of it ([attempt_ok] in Contract.v).

    The reply an attempt waits for is built by [readerLoop] (Pipeline.v) from what
    the read loop (ReadBuffer.v, ReaderControl.v) did with the decoder (Reader.v);
    the lemmas follow that chain. *)
From S2P Require Import Prelude Errors CircuitBreaker Reader ReadBuffer Evidence ReaderControl Prog Dispatch Stats Pipeline Pool Visit Contract Router.
#[local] Open Scope prog_scope.

(** ** The program *)

(** How the [select] that submits the request to the cold channel ends, and the one
    that waits for the reply; [RepMsg None] is a closed channel. *)
Inductive submit_sel := SubPool | SubReq | SubGroup | SubSent.
Inductive reply_sel := RepMsg (resp : option Response) | RepPool | RepGroup | RepReq.

Inductive tquery :=
| TNow
| TTimeout
| THot (priority : bool)
| TCold (priority : bool)
| TReply
| TPoolErr
| TReqErr
| TCallerErr
| TRequest (fixed : Request).

(** [TRequest]: what the other goroutines have recorded on the request. *)
Definition tans (q : tquery) : Type :=
  match q with
  | TNow | TTimeout => Z
  | THot _ => bool
  | TCold _ => submit_sel
  | TReply => reply_sel
  | TPoolErr | TReqErr | TCallerErr => error
  | TRequest _ => Request
  end.

Definition tprog : Type -> Type := prog tans Empty_set Empty_set.
Definition task (q : tquery) : tprog (tans q) := ask q.

(** The request as [tryGroup] makes it. *)
Definition attempt_request (policy : Response451Policy) (a : try_args) (submittedAt timeout : Z) : Request :=
  mkRequest (ta_payload a) (ta_validateBody a) (ta_freshTransport a) policy false timeout attemptPending false
    submittedAt 0 0 false false false (ta_priority a) None.

(** [failAttempt] *)
Definition failAttempt (g : providerGroup) (fixed : Request) (cause : error) : tprog Response :=
  let! req := task (TRequest fixed) in
  let! now := task TNow in
  let resp := (errResponse cause) <| rs_Request := Some req |> <| rs_ProviderID := g_id g |> in
  Ret (resp <| rs_Attempts := [buildAttemptEvidence req (g_id g) resp now] |>).

(** The ways an attempt ends without a reply. *)
Definition pool_closed (g : providerGroup) (fixed : Request) : tprog presult :=
  let! e := task TPoolErr in
  let! resp := failAttempt g fixed e in Ret (resp, false, true).

Definition caller_left (g : providerGroup) (fixed : Request) : tprog presult :=
  let! e := task TReqErr in
  let! resp := failAttempt g fixed e in
  let! c := task TCallerErr in
  Ret (resp, false, negb (is_nil c)).

Definition group_gone (g : providerGroup) (fixed : Request) : tprog presult :=
  let! resp := failAttempt g fixed (Some (ESentinel ErrConnectionDied)) in Ret (resp, false, false).

(** The reply; evidence is added where the connection gave none. *)
Definition await_reply (g : providerGroup) (fixed : Request) : tprog presult :=
  let! s := task TReply in
  match s with
  | RepMsg None => Ret (errResponse None, false, false)
  | RepMsg (Some resp) =>
      match rs_Attempts resp with
      | [] =>
          if Is (rs_Err resp) (TSentinel errFreshTransportRequired) then Ret (resp, true, false)
          else
            let! req := task (TRequest fixed) in
            let! now := task TNow in
            let resp := resp <| rs_Request := Some req |> <| rs_ProviderID := g_id g |> in
            Ret (resp <| rs_Attempts := [buildAttemptEvidence req (g_id g) resp now] |>, true, false)
      | _ => Ret (resp, true, false)
      end
  | RepPool => pool_closed g fixed
  | RepGroup => group_gone g fixed
  | RepReq => caller_left g fixed
  end.

Definition tryGroup (policy : Response451Policy) (g : providerGroup) (a : try_args) : tprog presult :=
  let! submittedAt := task TNow in
  let! timeout := task TTimeout in
  let fixed := attempt_request policy a submittedAt timeout in
  let! hot := task (THot (ta_priority a)) in
  if (hot : bool) then await_reply g fixed
  else
    let! s := task (TCold (ta_priority a)) in
    match s with
    | SubPool => pool_closed g fixed
    | SubReq => caller_left g fixed
    | SubGroup => group_gone g fixed
    | SubSent => await_reply g fixed
    end.

(** ** Executions *)

Definition tevent : Type := Prog.event tans.
Definition none_forked {E} (p : Empty_set) (t : list E) (r : option Empty_set) : Prop := False.
Definition t_exec {A} (p : tprog A) (t : list tevent) (r : option A) : Prop := exec none_forked p t r.
Definition c_exec {A} (p : cprog A) (t : list (Prog.event cans)) (r : option A) : Prop := exec none_forked p t r.

(** The replies an execution received. *)
Definition reply_at (e : tevent) : list Response :=
  match e with
  | Ev q x => match q return tans q -> list Response with
              | TReply => fun x => match x with RepMsg (Some resp) => [resp] | _ => [] end
              | _ => fun _ => []
              end x
  end.
(** What it saw of the request; the errors of the contexts; its submissions. *)
Definition seen_at (e : tevent) : list Request :=
  match e with
  | Ev q x => match q return tans q -> list Request with TRequest _ => fun x => [x] | _ => fun _ => [] end x
  end.
Definition done_at (e : tevent) : list error :=
  match e with
  | Ev q x => match q return tans q -> list error with TPoolErr | TReqErr => fun x => [x] | _ => fun _ => [] end x
  end.
Definition submitted_at (e : tevent) : list bool :=
  match e with
  | Ev q x => match q return tans q -> list bool with
              | THot p => fun x => if x then [p] else []
              | TCold p => fun x => match x with SubSent => [p] | _ => [] end
              | _ => fun _ => []
              end x
  end.

Definition replies (t : list tevent) : list Response := flat_map reply_at t.
Definition seen (t : list tevent) : list Request := flat_map seen_at t.
Definition dones (t : list tevent) : list error := flat_map done_at t.
Definition submissions (t : list tevent) : list bool := flat_map submitted_at t.

(** An error of a context or of a connection: it is none of [ErrArticleNotFound]. *)
Definition proper (e : error) : Prop := e <> None /\ Is e IsArticleNotFound = false.

(** A reply of [readerLoop]: one attempt's evidence, built from what is returned;
    bytes reach the caller's writer only as the body of a 2xx or 3xx reply. *)
Definition read_reply (resp : Response) : Prop :=
  Is (rs_Err resp) IsArticleNotFound = false /\
  (attemptCommittedResp resp = true -> code_ok (rs_StatusCode resp) = true) /\
  exists req id r now, rs_Attempts resp = [buildAttemptEvidence req id r now] /\
    rs_Err r = rs_Err resp /\ rs_StatusCode r = rs_StatusCode resp.

(** A reply of [failRequest]: nothing but an error. *)
Definition failed_reply (resp : Response) : Prop := exists e, proper e /\ resp = errResponse e.

(** The surroundings of an attempt: the error of a context that is done, and the
    replies of a connection. *)
Definition surroundings (t : list tevent) : Prop :=
  Forall proper (dones t) /\ forall resp, resp ∈ replies t -> read_reply resp \/ failed_reply resp.

(** A failure the attempt recorded itself. *)
Definition failed (g : providerGroup) (x : presult) : Prop :=
  let '(resp, ok, _) := x in
  ok = false /\ rs_Err resp <> None /\ rs_StatusCode resp = 0 /\
  exists ev, rs_Attempts resp = [ev] /\ ae_ProviderID ev = g_id g /\ coherent_attempt ev.

(** A reply without evidence, with the evidence of the attempt. *)
Definition completed (g : providerGroup) (reply : Response) (req : Request) (now : Z) : Response :=
  let resp := reply <| rs_Request := Some req |> <| rs_ProviderID := g_id g |> in
  resp <| rs_Attempts := [buildAttemptEvidence req (g_id g) resp now] |>.

(** What an attempt returns, by how it ended: the reply, with evidence unless the
    connection was too old; nothing, when the channel was closed; or a failure. *)
Definition ended (g : providerGroup) (t : list tevent) (x : presult) : Prop :=
  match replies t with
  | [] => failed g x \/ x = (errResponse None, false, false)
  | [reply] =>
      (rs_Attempts reply <> [] \/ Is (rs_Err reply) (TSentinel errFreshTransportRequired) = true) /\
        x = (reply, true, false) \/
      rs_Attempts reply = [] /\ Is (rs_Err reply) (TSentinel errFreshTransportRequired) = false /\
        exists req now, req ∈ seen t /\ x = (completed g reply req now, true, false)
  | _ => False
  end.

Lemma evidence_provider req id resp now : ae_ProviderID (buildAttemptEvidence req id resp now) = id.
Proof. unfold buildAttemptEvidence. by destruct (attempt_durations req now) as [[? ?] ?]. Qed.

Lemma dones_cons e t : Forall proper (dones (e :: t)) -> Forall proper (dones t).
Proof. unfold dones. cbn [flat_map]. by intros [_ H]%Forall_app. Qed.

(** The steps of an execution of a program that is given explicitly. *)
Ltac steps H :=
  unfold t_exec in H; cbn [exec bind task ask] in H;
  repeat match type of H with
  | exists _, _ => let a := fresh "x" in let t := fresh "t" in destruct H as (a & t & -> & H); cbn [exec bind task ask] in H
  end.

(** The ways to end without a reply. *)
Definition gives_up (g : providerGroup) (p : tprog presult) : Prop :=
  forall t x, Forall proper (dones t) -> t_exec p t (Some x) ->
    failed g x /\ replies t = [] /\ submissions t = [].

Ltac give_up_by p :=
  let Hd := fresh in let H := fresh in intros t x Hd H; unfold p, failAttempt in H; steps H; destruct H as [-> [= ->]];
  unfold dones in Hd; simpl in Hd; rewrite ?Forall_cons_iff in Hd; unfold failed, proper in *; split_and!; try done; simpl; try tauto;
  eexists; split_and!; [reflexivity|apply evidence_provider|apply buildAttemptEvidence_outcome; simpl; tauto].

Lemma pool_closed_gives_up g fixed : gives_up g (pool_closed g fixed).
Proof. give_up_by pool_closed. Qed.
Lemma caller_left_gives_up g fixed : gives_up g (caller_left g fixed).
Proof. give_up_by caller_left. Qed.
Lemma group_gone_gives_up g fixed : gives_up g (group_gone g fixed).
Proof. give_up_by group_gone. Qed.

Lemma await_ended g fixed t x : Forall proper (dones t) ->
  t_exec (await_reply g fixed) t (Some x) -> ended g t x /\ submissions t = [].
Proof.
  intros Hd H. unfold await_reply, t_exec in H. cbn [exec bind task ask] in H.
  destruct H as (s & u & -> & H). apply dones_cons in Hd. unfold ended.
  assert (Hg : forall p, gives_up g p -> t_exec p u (Some x) -> reply_at (Ev TReply s) = [] ->
    match replies (Ev TReply s :: u) with [] => failed g x \/ x = (errResponse None, false, false) | _ => False end /\
    submissions (Ev TReply s :: u) = []).
  { intros p Hp He Hs. destruct (Hp u x Hd He) as (H1 & H2 & H3). unfold replies, submissions in *. cbn [flat_map].
    rewrite Hs, H2. simpl. auto. }
  destruct s as [[reply|]| | |].
  - destruct (rs_Attempts reply) as [|ev evs] eqn:Ea.
    + destruct (Is _ _) eqn:Ef.
      * destruct H as [-> [= ->]]. simpl. split; [|done]. left. split; [by right|done].
      * steps H. destruct H as [-> [= ->]]. simpl. split; [|done]. right. split_and!; try done.
        eexists _, _. split; [by left|done].
    + destruct H as [-> [= ->]]. simpl. split; [|done]. left. rewrite Ea. split; [by left|done].
  - destruct H as [-> [= ->]]. simpl. auto.
  - destruct (Hg _ (pool_closed_gives_up g fixed) H eq_refl) as [H1 H2]. split; [by destruct (replies _)|done].
  - destruct (Hg _ (group_gone_gives_up g fixed) H eq_refl) as [H1 H2]. split; [by destruct (replies _)|done].
  - destruct (Hg _ (caller_left_gives_up g fixed) H eq_refl) as [H1 H2]. split; [by destruct (replies _)|done].
Qed.

Lemma tryGroup_ended policy g a t x : Forall proper (dones t) ->
  t_exec (tryGroup policy g a) t (Some x) ->
  ended g t x /\ (submissions t = [ta_priority a] \/ submissions t = [] /\ replies t = []).
Proof.
  intros Hd H. unfold tryGroup, t_exec in H. cbn [exec bind task ask] in H.
  destruct H as (now & t1 & -> & to & t2 & -> & hot & t3 & -> & H). do 3 apply dones_cons in Hd.
  set (fixed := attempt_request policy a now to) in *.
  assert (Hg : forall p u, gives_up g p -> t_exec p u (Some x) -> Forall proper (dones u) ->
    ended g u x /\ submissions u = [] /\ replies u = []).
  { intros p u Hp He Hu. destruct (Hp u x Hu He) as (H1 & H2 & H3). unfold ended. rewrite H2. auto. }
  destruct hot.
  - destruct (await_ended g fixed t3 x Hd H) as [H1 H2]. split; [exact H1|left]. unfold submissions in *. simpl. by rewrite H2.
  - destruct H as (s & t4 & -> & H). apply dones_cons in Hd. destruct s.
    + destruct (Hg _ _ (pool_closed_gives_up g fixed) H Hd) as (H1 & H2 & H3). auto.
    + destruct (Hg _ _ (caller_left_gives_up g fixed) H Hd) as (H1 & H2 & H3). auto.
    + destruct (Hg _ _ (group_gone_gives_up g fixed) H Hd) as (H1 & H2 & H3). auto.
    + destruct (await_ended g fixed t4 x Hd H) as [H1 H2]. split; [exact H1|left]. unfold submissions in *. simpl. by rewrite H2.
Qed.

(** What each kind of reply is to the router. *)
Lemma read_reply_ok g a resp : read_reply resp -> attempt_ok (g, a, (resp, true, false)).
Proof.
  intros (He & Hc & req & id & r & now & Ha & Hre & Hrs).
  destruct (buildAttemptEvidence_outcome req id r now) as [_ Hco]. rewrite Hre in Hco. specialize (Hco He).
  assert (Hbody : streamed (g, a, (resp, true, false)) = true -> code_ok (rs_StatusCode resp) = true).
  { intros [_ Hs]%andb_true_iff. by apply Hc. }
  split; rewrite ?Ha; try done.
  - intros Hs. right. by apply Hbody.
  - intros Hs%Hbody. split_and!; [done|by intros Hx; rewrite Hx in Hs..].
  - by repeat constructor.
  - intros _ _ [Hf _]%Forall_cons_iff. rewrite <- Hre in He.
    destruct (faultless_reply req id r now He Hf) as [[Hn Hk]|[Hk|[Hk|(Hn & Hk & Hae & Hao)]]];
      rewrite Hrs in Hk; try rewrite Hre in Hn; unfold says_verdict; auto.
    do 3 right. split; [done|]. unfold responseIsHardArticleAbsence. rewrite Ha, Hk, (last_elem_snoc [] (buildAttemptEvidence req id r now) : last_elem [_] = _).
    by rewrite Hae, Hao.
Qed.

Lemma stale_reply_ok g a e : proper e -> Is e (TSentinel errFreshTransportRequired) = true ->
  attempt_ok (g, a, (errResponse e, true, false)).
Proof. intros [Hn He] Hf. split; try done; try (simpl; rewrite andb_false_r; done). Qed.

Lemma completed_ok g a e req now : proper e -> attempt_ok (g, a, (completed g (errResponse e) req now, true, false)).
Proof.
  intros [Hn He]. destruct (buildAttemptEvidence_outcome req (g_id g) (completed g (errResponse e) req now) now) as [_ Hco].
  split; try done; [by left|by apply List.Forall_cons; [apply Hco|apply List.Forall_nil]|].
  intros _ _ [Hf _]%Forall_cons_iff.
  by destruct (faultless_reply req (g_id g) (completed g (errResponse e) req now) now He Hf) as [[? _]|[?|[?|(_ & ? & _)]]].
Qed.

Lemma ended_attempt_ok g a t x : surroundings t -> ended g t x -> attempt_ok (g, a, x).
Proof.
  intros [_ Hr] He. unfold ended in He.
  destruct (replies t) as [|reply [|]]; [|specialize (Hr reply ltac:(by left))|done].
  - destruct He as [Hf| ->]; [|by split; try done; apply List.Forall_nil].
    destruct x as [[resp ok] c]. destruct Hf as (-> & He & _ & ev & Ha & _ & Hco).
    split; try done. rewrite Ha. by repeat constructor.
  - destruct He as [[Hx ->]|(Ha & Hf & req & now & _ & ->)].
    + destruct Hr as [Hr|(e & Hp & ->)]; [by apply read_reply_ok|]. destruct Hx as [?|Hx]; [done|by apply stale_reply_ok].
    + destruct Hr as [(_ & _ & q & id & r & n & Hev & _)|(e & Hp & ->)]; [by rewrite Hev in Ha|by apply completed_ok].
Qed.

(** ** Replies of the reader *)

(** Bytes reach the caller's writer only as the body of an article. *)
Section Article.
Context (decodeFn : bytes -> YState -> yenc_result).
#[local] Instance article_feeder : byteFeeder NNTPResponse sink := NNTPResponse_feeder sink_write decodeFn.

Definition is_article (r : NNTPResponse) : Prop := StatusCode r = nntpBody \/ StatusCode r = nntpArtiicle.

(** yEnc is recognised in the body of an article only, and only yEnc is written. *)
Definition article_only (r : NNTPResponse) (w : sink) : Prop :=
  (Format_ r = FormatYenc -> is_article r) /\ (sk_committed w = true -> Format_ r = FormatYenc).

Lemma fire_meta_status r : StatusCode (fire_meta r) = StatusCode r.
Proof. unfold fire_meta. by destruct (onMeta r). Qed.

Lemma header_status r line : StatusCode (processYencHeader r line) = StatusCode r.
Proof.
  unfold processYencHeader, process_ybegin, process_ypart, process_yend, set_headerErr. cbv zeta.
  repeat (destruct (has_prefix _ _); [header_cases; simpl; rewrite ?fire_meta_status; reflexivity|]). done.
Qed.

Lemma detect_status r line : StatusCode (detectFormat r line) = StatusCode r.
Proof. unfold detectFormat. repeat (case_match; try done). Qed.

Lemma detect_yenc r line : Format_ r = FormatUnknown -> Format_ (detectFormat r line) = FormatYenc -> is_article r.
Proof.
  intros Hu. unfold detectFormat, is_article. destruct (Z.eqb_spec (StatusCode r) nntpBody); [by left|].
  destruct (Z.eqb_spec (StatusCode r) nntpArtiicle); [by right|]. simpl. congruence.
Qed.

Lemma decodeYenc_status r buf (out : sink) :
  match decodeYenc sink_write decodeFn r buf out with Done (_, _, r', _, _) => StatusCode r' = StatusCode r | _ => True end.
Proof.
  unfold decodeYenc. destruct buf as [|c buf]; [done|]. cbv zeta. set (d := decodeFn (c :: buf) (State r)).
  assert (Hfin : match decodeYenc_finish sink_write (r <| State := yr_state d |>) d (overwrite (yr_buf d) (c :: buf)) out with
                 | Done (_, _, r', _, _) => StatusCode r' = StatusCode r | _ => True end).
  { unfold decodeYenc_finish. destruct (0 <? yr_produced d); cbn [outcome_bind].
    - destruct (_ <? _); [done|]. destruct (sink_write out _) as [out' [e|]]; [done|]. cbn [outcome_bind]. by destruct (yr_end d); [case_decide|..].
    - by destruct (yr_end d); [case_decide|..]. }
  destruct (yr_err d); [by destruct (strictDecodeErrors _)|exact Hfin].
Qed.

Lemma decode_article r buf w d :
  decode sink_write decodeFn r buf w = Done d -> article_only r w -> article_only (d_resp d) (d_out d).
Proof.
  apply (decode_preserves sink_write decodeFn article_only).
  - intros r0 line w0 r' e s Hst [_ H2]. unfold status_line in Hst. case_decide as Hf; [|done].
    assert (Hf' : Format_ r' = FormatUnknown) by (repeat (case_match; try done); by simplify_eq/=).
    split; [congruence|]. intros Hc%H2. congruence.
  - intros r0 line w0 Hu [_ H2]. split.
    + intros Hy. unfold is_article. rewrite detect_status. by apply (detect_yenc r0 line).
    + intros Hc%H2. congruence.
  - done.
  - done.
  - intros r0 line w0 Hy [H1 H2]. split; [unfold is_article; by rewrite header_status, processYencHeader_format|].
    by rewrite processYencHeader_format.
  - intros r0 b w0 Hy [H1 H2]. pose proof (decodeYenc_format sink_write decodeFn r0 b w0 Hy) as Hf.
    pose proof (decodeYenc_status r0 b w0) as Hs.
    destruct (decodeYenc sink_write decodeFn r0 b w0) as [[[[[? ?] r1] w1] ?]| | |]; try done. split; [|done].
    unfold is_article. rewrite Hs. by intros _; apply H1.
Qed.

(** An error of someone else: none of [ErrArticleNotFound]. *)
Definition foreign (e : error) : Prop := Is e IsArticleNotFound = false.

(** The errors of the read loop come from the connection, from the caller's writer, from
    the yEnc decoder, or are its own. *)
Definition foreign_writer (w : sink) : Prop := Forall (fun a => foreign (snd <$> a)) (sk_answers w).
Definition foreign_conn (c : Conn) : Prop := Forall (fun p : bytes * error => foreign (snd p)) (conn_script c).
Definition foreign_decoder : Prop := forall buf st, foreign (yr_err (decodeFn buf st)).

Lemma sink_write_foreign w p : foreign_writer w -> foreign_writer (fst (sink_write w p)) /\ foreign (snd (sink_write w p)).
Proof.
  unfold foreign_writer, sink_write. intros H. destruct (sk_discard w); [done|]. cbv zeta.
  set (w1 := if _ && _ then _ else w).
  assert (E : sk_answers w1 = sk_answers w) by (unfold w1; by destruct (_ && _)).
  rewrite E. destruct (sk_answers w) as [|[[n e]|] rest]; [by split|..];
    apply Forall_cons_iff in H as [H1 H2]; by split.
Qed.

Hypothesis decoder : foreign_decoder.

Lemma decodeYenc_foreign r buf w : foreign_writer w ->
  match decodeYenc sink_write decodeFn r buf w with Done (_, e, _, w', _) => foreign_writer w' /\ foreign e | _ => True end.
Proof.
  intros Hw. unfold decodeYenc. destruct buf as [|c buf]; [done|]. cbv zeta. set (d := decodeFn (c :: buf) (State r)).
  assert (Hfin : match decodeYenc_finish sink_write (r <| State := yr_state d |>) d (overwrite (yr_buf d) (c :: buf)) w with
                 | Done (_, e, _, w', _) => foreign_writer w' /\ foreign e | _ => True end).
  { unfold decodeYenc_finish. destruct (0 <? yr_produced d); cbn [outcome_bind].
    - destruct (_ <? _); [done|]. set (q := take _ _). destruct (sink_write_foreign w q Hw) as [H1 H2].
      destruct (sink_write w q) as [w' [e|]]; [done|]. cbn [outcome_bind]. by destruct (yr_end d); [case_decide|..].
    - by destruct (yr_end d); [case_decide|..]. }
  pose proof (decoder (c :: buf) (State r)) as Hd. fold d in Hd.
  destruct (yr_err d) as [e|]; [|exact Hfin]. destruct (strictDecodeErrors _); [|exact Hfin].
  split; [done|]. unfold foreign in *. simpl in *. exact Hd.
Qed.

Lemma decode_lines_foreign fuel : forall r pre buf w read d, foreign_writer w ->
  decode_lines sink_write decodeFn fuel r pre buf w read = Done d -> foreign_writer (d_out d) /\ foreign (d_err d).
Proof.
  induction fuel as [|fuel IH]; intros r pre buf w read d Hw Hd; [done|]. cbn [decode_lines] in Hd.
  destruct (cut_at crlf buf) as [[line rest]|]; [|by simplify_eq].
  case_bool_decide; [by simplify_eq|].
  destruct (status_line r line) as [[[r1 e] stop]|] eqn:Hst.
  { destruct stop; [|by eapply IH]. simplify_eq. split; [done|]. revert Hst. unfold status_line.
    repeat (case_match; try done); intros; by simplify_eq. }
  set (r1 := if decide _ then _ else _) in *. destruct (Format_ r1); [by eapply IH| |by eapply IH].
  destruct (body (processYencHeader r1 line)); [|by eapply IH].
  pose proof (decodeYenc_foreign (processYencHeader r1 line) rest w Hw) as Hy.
  destruct (decodeYenc sink_write decodeFn _ rest w) as [[[[[n err] r2] w2] buf2]| | |]; try done.
  destruct Hy as [Hw2 He]. cbn [outcome_bind] in Hd. destruct (slice_from n buf2); [|done].
  destruct (_ || _); [by simplify_eq|by eapply IH].
Qed.

Lemma decode_foreign r buf w d : foreign_writer w -> decode sink_write decodeFn r buf w = Done d ->
  foreign_writer (d_out d) /\ foreign (d_err d).
Proof.
  intros Hw. unfold decode. destruct (body r && _).
  - pose proof (decodeYenc_foreign r buf w Hw) as Hy.
    destruct (decodeYenc sink_write decodeFn r buf w) as [[[[[n err] r2] w2] buf2]| | |]; try done.
    destruct Hy as [Hw2 He]. cbn [outcome_bind]. destruct err as [e|]; [by intros [= <-]|].
    destruct (slice_from n buf2); [|done]. destruct (body r2); [by intros [= <-]|by apply decode_lines_foreign].
  - destruct (negb (body r)); [by apply decode_lines_foreign|by intros [= <-]].
Qed.

Lemma readMore_foreign rb conn dl h n e rb' conn' : foreign_conn conn ->
  readMore rb conn dl h = Done (n, e, rb', conn') -> foreign_conn conn' /\ foreign e.
Proof.
  intros Hc. unfold readMore. destruct (setDeadline rb conn dl h) as [rb0 conn0] eqn:Hsd.
  assert (Hc0 : foreign_conn conn0).
  { apply setDeadline_fields in Hsd as (_ & _ & _ & E & _). unfold foreign_conn. by rewrite E. }
  destruct (ensureWriteSpace rb0) as [[e1 rb1]| | |] eqn:Hens; try done. cbn [outcome_bind].
  destruct e1 as [e1|].
  { intros [= <- <- <- <-]. split; [done|]. by apply ensureWriteSpace_error in Hens as ->. }
  destruct (slice_range _ _ _) as [room| | |]; try done. cbn [outcome_bind].
  destruct (conn_read conn0 (length room)) as [[[data e2] c2]| | |] eqn:Hr; try done. cbn [outcome_bind].
  intros [= <- <- <- <-]. revert Hr. unfold conn_read, foreign_conn in *.
  destruct (conn_script conn0) as [|[dat er] rest] eqn:E.
  - destruct (conn_silent conn0); [destruct (rev _) as [|[] ?]|]; intros; simplify_eq; by rewrite E.
  - apply Forall_cons_iff in Hc0 as [H1 H2]. case_decide; intros [= <- <- <-]; (split; [|done]); [done|by apply Forall_cons_iff].
Qed.

(** What a connection's read loop did to a response, as [readerLoop] starts it, with a
    connection and a writer whose errors are their own. *)
Definition loop_read (f : feed_result) (committed : bool) : Prop :=
  exists rcfg rb conn withMeta strict answers isBody deliver samples s,
    feedUntilDoneControlled (reader_control rcfg) rb conn (newNNTPResponse withMeta strict)
      (new_sink answers isBody deliver) (new_reader_ctl samples deliver) = Done (fd_err f, s) /\
    fd_decoder f = l_feeder s /\ committed = sk_committed (l_out s) /\
    foreign_conn conn /\ foreign_writer (new_sink answers isBody deliver).

Lemma loop_read_ok f c : loop_read f c ->
  foreign (fd_err f) /\ (c = true -> is_article (fd_decoder f)).
Proof.
  intros (rcfg & rb & conn & m & st & ans & b & d & samples & s & Hs & -> & -> & Hfc & Hfw). unfold feedUntilDoneControlled in Hs.
  pose (Q := fun (r : NNTPResponse) (_ : reader_ctl) (w : sink) (c : Conn) => article_only r w /\ foreign_conn c /\ foreign_writer w).
  cut (out_inv Q s /\ foreign (fd_err f)).
  { intros [([H1 H2] & _) He]. split; [done|]. intros Hc. by apply H1, H2. }
  refine (feed_loop_out (reader_control rcfg) Q foreign _ _ _ _ _ _ _ _ Hs).
  - done.
  - intros r c w conn0 x k (Ha & Hc & Hw). unfold reader_control. destruct (next_sample c) as [sm c0].
    set (cw := if _ && _ then _ else _).
    assert (Hq : forall conn1, foreign_conn conn1 -> Q r (fst cw) (snd cw) conn1) by (unfold cw; by destruct (_ && _)).
    destruct cw as [c1 w1]. cbn [fst snd] in Hq.
    set (ac := if _ && _ then _ else _).
    assert (Hq2 : (forall conn1, foreign_conn conn1 -> Q r (snd ac) w1 conn1) /\ foreign (ctl_err (fst ac))).
    { split; [exact Hq|]. unfold ac. destruct (_ && _).
      - unfold drain_control. destruct (_ && _); [done|]. destruct (_ && _); [done|]. by destruct (0 <? _).
      - pose proof (progress_control_runs rcfg (sm_now sm) c1 x k) as Hp.
        destruct (progress_control _ _ _ _ _) as [a c2]. destruct Hp as (E & _). simpl. by rewrite E. }
    destruct ac as [a c2]. destruct Hq2 as [Hq2 He]. split; [by apply Hq2|]. split; [done|].
    intros rb0 n e rb' conn' Hm. apply readMore_foreign in Hm as [Hm1 Hm2]; [|done]. split; [by apply Hq2|done].
  - intros r buf w c conn0 (Ha & Hc & Hw). change (feeder_feed r buf w) with (Feed sink_write decodeFn r buf w). unfold Feed.
    destruct (decode sink_write decodeFn r buf w) as [dd| | |] eqn:Hd; try done. cbn [outcome_bind].
    destruct (decode_foreign r buf w dd Hw Hd) as [Hw' He]. split; [|done].
    split; [|by split]. by apply (decode_article r buf w dd Hd).
  - split; [by split|by split].
Qed.
End Article.

(** The replies a connection sent. *)
Definition said_at (e : Prog.event cans) : list Response :=
  match e with Ev q _ => match q with Pipeline.QDeliver _ resp => [resp] | _ => [] end end.
Definition said (t : list (Prog.event cans)) : list Response := flat_map said_at t.

Lemma said_app t u : said (t ++ u) = said t ++ said u.
Proof. apply flat_map_app. Qed.

(** Programs that send no reply. *)
Definition quiet {A} (p : cprog A) : Prop := forall t r, c_exec p t r -> said t = [].

Lemma quiet_ret {A} (a : A) : quiet (Ret a).
Proof. by intros t r [-> _]. Qed.
Lemma quiet_nofuel {A} : quiet (NoFuel : cprog A).
Proof. by intros t r [-> _]. Qed.
Lemma quiet_ask q : (match q with Pipeline.QDeliver _ _ => False | _ => True end) -> quiet (cask q).
Proof. intros Hq t r (a & u & -> & -> & _). by destruct q. Qed.
Lemma quiet_bind {A B} (p : cprog A) (f : A -> cprog B) : quiet p -> (forall a, quiet (f a)) -> quiet (bind p f).
Proof.
  intros Hp Hf t r H. apply exec_bind in H as [(t1 & t2 & a & -> & H1 & H2)|[H ->]].
  - rewrite said_app, (Hp _ _ H1). by apply (Hf a _ _ H2).
  - by apply (Hp _ _ H).
Qed.
Ltac quiet :=
  repeat first [apply quiet_ret|apply quiet_nofuel|apply quiet_bind; [|intros]
    |match goal with |- quiet (cask ?q) => exact (quiet_ask q I) end|progress case_match|done].

Lemma quiet_releaseBackground r : quiet (releaseBackgroundStat r).
Proof. unfold releaseBackgroundStat. quiet. Qed.
Lemma quiet_release r : quiet (releaseRequestPending r).
Proof. unfold releaseRequestPending. apply quiet_bind; [apply quiet_releaseBackground|intros]. quiet. Qed.

Section Reader.
Context (cfg : conn_cfg).

Lemma quiet_fail fuel : quiet (fail_pending cfg fuel).
Proof.
  induction fuel as [|fuel IH]; cbn [fail_pending]; [quiet|]. apply quiet_bind; [by apply quiet_ask|]. intros [r|]; [|quiet].
  apply quiet_bind; [apply quiet_release|intros]. unfold failRequest. quiet.
Qed.
Lemma quiet_close fuel : quiet (close_and_fail cfg fuel).
Proof. unfold close_and_fail, failOutstanding. quiet. apply quiet_fail. Qed.
Lemma quiet_account r resp d fb rs : quiet (account r resp d fb rs).
Proof. unfold account. quiet. Qed.
Lemma quiet_post r resp d dl : quiet (post_result cfg r resp d dl).
Proof. unfold post_result. quiet. Qed.

Lemma quiet_response_error r req f : quiet (response_error cfg r req f).
Proof. unfold response_error. quiet. Qed.

Lemma validateBody_status d : StatusCode (snd (validateBody d)) = StatusCode d.
Proof. unfold validateBody. repeat (case_match; try done). Qed.

Lemma response_error_status r req f t x : c_exec (response_error cfg r req f) t (Some x) ->
  StatusCode (snd x) = StatusCode (fd_decoder f).
Proof.
  unfold response_error. set (v := if _ && _ then _ else _).
  assert (Hv : StatusCode (snd v) = StatusCode (fd_decoder f)).
  { unfold v. destruct (_ && _); [apply validateBody_status|done]. }
  destruct v as [err dec]. simpl in Hv. intros H. destruct err as [e|]; simpl in H.
  - destruct H as (a & u & -> & -> & [= ->]). by destruct a.
  - destruct H as (-> & [= ->]). done.
Qed.

Lemma validateBody_proper d : Is (fst (validateBody d)) IsArticleNotFound = false.
Proof.
  assert (Hs : Is (validate_sizes d) IsArticleNotFound = false) by (unfold validate_sizes; repeat (case_match; try done)).
  unfold validateBody. destruct (validate_sizes d); repeat (case_match; try done).
Qed.

Lemma response_error_proper r req f t x : c_exec (response_error cfg r req f) t (Some x) ->
  Is (fd_err f) IsArticleNotFound = false -> (forall e : error, Ev (QReqErr r) e ∈ t -> Is e IsArticleNotFound = false) ->
  Is (fst x) IsArticleNotFound = false.
Proof.
  unfold response_error. intros H Hf. set (v := if _ && _ then _ else _) in H.
  assert (Hv : Is (fst v) IsArticleNotFound = false).
  { unfold v. destruct (_ && _); [apply validateBody_proper|done]. }
  assert (Hctx : forall e, errors_is (in_context (cc_providerName cfg) e) IsArticleNotFound = errors_is e IsArticleNotFound).
  { intros e. unfold in_context. by destruct (String.eqb _ _). }
  destruct v as [err dec]. simpl in Hv. destruct err as [e|]; simpl in H.
  - destruct H as (a & u & -> & -> & [= ->]). intros Ha. simpl in *. destruct a as [a|]; simpl; rewrite Hctx; [|done].
    apply (Ha (Some a)). by left.
  - by destruct H as (-> & [= ->]).
Qed.

(** What follows a reply. *)
Lemma quiet_rest fuel r req resp dec :
  quiet (Ask (QClose r) (fun _ => Ask QInflightRecv (fun _ =>
    releaseRequestPending r ;! Ask (QGet r) (fun a => (if rq_heldBody a then cask QBodyRecv else Ret tt) ;!
      if retires req resp dec then close_and_fail cfg fuel ;! Ret false else Ret true)))).
Proof.
  apply (quiet_bind (cask (QClose r))); [by apply quiet_ask|intros _].
  apply (quiet_bind (cask QInflightRecv)); [by apply quiet_ask|intros _].
  apply quiet_bind; [apply quiet_release|intros _]. apply (quiet_bind (cask (QGet r))); [by apply quiet_ask|intros a].
  apply quiet_bind; [quiet|intros _]. destruct (retires _ _ _); [|quiet]. apply quiet_bind; [apply quiet_close|intros; quiet].
Qed.

(** What is known of the readings in a trace: requests of [tryGroup] are no POSTs; what
    was read was read by the loop, which left the mark of a committed request; and the
    errors of contexts are none of [ErrArticleNotFound]. *)
Context (decodeFn : bytes -> YState -> yenc_result).
Hypothesis decoder : foreign_decoder decodeFn.
Record read_by_loop (r : rid) (t : list (Prog.event cans)) : Prop := {
  rl_request : forall req, Ev (QGet r) req ∈ t -> rq_PostMode req = false;
  rl_feed : forall d f, Ev (QFeed r d) f ∈ t -> exists committed, loop_read decodeFn f committed /\
    forall req, Ev (QGet r) req ∈ t -> rq_decodedCommitted req = true -> committed = true;
  rl_context : forall e : error, Ev (QReqErr r) e ∈ t -> foreign e
}.

Lemma read_response_says fuel r t x : c_exec (read_response cfg fuel r) t x -> read_by_loop r t ->
  (length (said t) <= 1)%nat /\ forall resp, resp ∈ said t -> read_reply resp.
Proof.
  intros H Hr. unfold read_response, c_exec in H. cbn [exec bind cask ask] in H.
  destruct H as (headAt & t1 & -> & [] & t2 & -> & done_ & t3 & -> & req & t4 & -> & start & t5 & -> & f & t6 & -> & H).
  assert (Hpost : rq_PostMode req = false).
  { apply (rl_request _ _ Hr req). apply elem_of_cons. right. do 2 (apply elem_of_cons; right). by left. }
  rewrite Hpost in H. apply exec_bind in H as [(u1 & u2 & [err dec] & -> & He & H)|[He ->]];
    [|apply quiet_response_error in He; simpl; rewrite He; split; [simpl; lia|by intros resp Hin%elem_of_nil]].
  destruct (rl_feed _ _ Hr (is_nil done_) f) as (committed & Hl & Hcom).
  { do 5 (apply elem_of_cons; right). by left. }
  apply (loop_read_ok decodeFn decoder) in Hl as [Hferr Hart].
  apply response_error_status in He as Hdec. apply response_error_proper in He as Herr; [|done|].
  2:{ intros e Hin. apply (rl_context _ _ Hr). do 6 (apply elem_of_cons; right). apply elem_of_app. by left. }
  apply quiet_response_error in He. cbn [bind] in H. simpl in Hdec.
  apply exec_bind in H as [(u3 & u4 & [] & -> & Ha & H)|[Ha ->]];
    [|apply quiet_account in Ha; simpl; rewrite said_app, He, Ha; split; [simpl; lia|by intros resp Hin%elem_of_nil]].
  apply quiet_account in Ha. cbn [exec] in H. destruct H as (req2 & u5 & -> & now & u6 & -> & H).
  apply exec_bind in H as [(u7 & u8 & [] & -> & Hd & H)|[Hd ->]]; [|exfalso; destruct (fd_deliver f); simpl in Hd; naive_solver].
  apply quiet_rest in H. simpl. rewrite !said_app. simpl. rewrite !said_app, He, Ha, H, app_nil_r. simpl.
  destruct (fd_deliver f); simpl in Hd;
    [|destruct Hd as [-> _]; simpl; split; [lia|by intros resp Hin%elem_of_nil]].
  destruct Hd as (a & w & -> & -> & _). simpl. split; [lia|]. intros resp Hin. apply list_elem_of_singleton in Hin as ->.
  split; [exact Herr|]. split; [|by eexists _, _, _, _]. intros Hc. simpl in *.
  destruct Hart as [E|E]; [|by rewrite Hdec, E..]. apply (Hcom req2); [|done].
  do 6 (apply elem_of_cons; right). rewrite !elem_of_app. right. right. by left.
Qed.
End Reader.

(** ** Attempts *)

(** What [tryGroup] can return in its surroundings. *)
Definition attempted (t : providerGroup * try_args * presult) : Prop :=
  let '(g, a, x) := t in exists policy u, t_exec (tryGroup policy g a) u (Some x) /\ surroundings u.

Lemma attempted_ok t : attempted t -> attempt_ok t.
Proof.
  destruct t as [[g a] x]. intros (policy & u & Hu & Hs). destruct (tryGroup_ended policy g a u x (proj1 Hs) Hu) as [He _].
  by eapply ended_attempt_ok.
Qed.

Lemma attempted_all ts : Forall attempted ts -> Forall attempt_ok ts.
Proof. intros H. eapply list.Forall_impl; [exact H|exact attempted_ok]. Qed.

(** Any reply of a connection can be the result. *)
Lemma attempted_reply g a resp : read_reply resp -> attempted (g, a, (resp, true, false)).
Proof.
  intros Hr. assert (Ha : rs_Attempts resp <> []) by (by destruct Hr as (_ & _ & ? & ? & ? & ? & -> & _)). exists Response451Temporary, [Ev TNow 0; Ev TTimeout 0; Ev (THot (ta_priority a)) true; Ev TReply (RepMsg (Some resp))].
  split; [|split; [constructor|intros r ->%list_elem_of_singleton; by left]].
  unfold t_exec, tryGroup, await_reply. cbn [exec bind task ask].
  exists 0, [Ev TTimeout 0; Ev (THot (ta_priority a)) true; Ev TReply (RepMsg (Some resp))]. split; [done|].
  exists 0, [Ev (THot (ta_priority a)) true; Ev TReply (RepMsg (Some resp))]. split; [done|].
  exists true, [Ev TReply (RepMsg (Some resp))]. split; [done|]. cbn [exec bind task ask].
  exists (RepMsg (Some resp)), []. split; [done|]. by destruct (rs_Attempts resp).
Qed.

(** The provider was shut down after the reader had made the request [req]. *)
Definition gone (g : providerGroup) (req : Request) : presult :=
  let resp := (errResponse (Some (ESentinel ErrConnectionDied))) <| rs_Request := Some req |> <| rs_ProviderID := g_id g |> in
  (resp <| rs_Attempts := [buildAttemptEvidence req (g_id g) resp 0] |>, false, false).

Lemma attempted_gone g a req : attempted (g, a, gone g req).
Proof.
  set (fixed := attempt_request Response451Temporary a 0 0).
  exists Response451Temporary, [Ev TNow 0; Ev TTimeout 0; Ev (THot (ta_priority a)) true; Ev TReply RepGroup; Ev (TRequest fixed) req; Ev TNow 0].
  split; [|split; [constructor|by intros r Hin%elem_of_nil]].
  unfold t_exec, tryGroup, await_reply, group_gone, failAttempt. cbn [exec bind task ask].
  do 3 (eexists _, _; split; [reflexivity|]). cbn [exec bind task ask]. do 3 (eexists _, _; split; [reflexivity|]). by split.
Qed.

(** ** Properties *)

(** C4: The contract of an attempt: the request goes to the lane of its priority, at
    most once, and no reply comes without it; what the attempt returns is the
    reply, completed with evidence if the connection gave none, or one failure it
    recorded, or nothing when the channel was closed without a reply; and it keeps
    the contract that the router relies on: its evidence is coherent, and is without
    a fault only for a success or an answer that the article is absent. *)
Theorem tryGroup_contract policy g a t x :
  t_exec (tryGroup policy g a) t (Some x) -> surroundings t ->
  attempt_ok (g, a, x) /\ ended g t x /\
  (submissions t = [ta_priority a] \/ submissions t = [] /\ replies t = []).
Proof.
  intros H Hs. destruct (tryGroup_ended policy g a t x (proj1 Hs) H) as [He Hsub]. split; [|done].
  by eapply ended_attempt_ok.
Qed.


(** ** Witnesses *)

Definition first_provider : providerGroup := mkGroup "p" "p" 0.
Definition body_args : try_args := mkTry (bs "BODY <a>" ++ crlf) true true true false.
Definition streamed_request : Request :=
  (attempt_request Response451Temporary body_args 1 9) <| rq_decodedCommitted := true |> <| rq_writtenAt := 2 |>.

(** The answers to a reader that finds the article [f]. *)
Definition served (f : feed_result) (q : cquery) (n : nat) : cans q * nat :=
  (match q return cans q with
   | QGet _ => streamed_request
   | QReqErr _ | Pipeline.QCtxErr => None
   | QFeed _ _ => f
   | Pipeline.QNow => Z.of_nat n
   | QHasReady _ | QCancelled | QHasBody _ | QInflight | QInflightDrain | QBgTry | QBgFull | QBuffered => false
   | QWrite _ | QFlush | QCopyBody _ | QDeadline _ | QPop | QPopWait | QPoll _ | QKeepaliveResp _ => None
   | QBody _ => BodyGot
   | QSelect _ => SCtx
   | QNewKeepalive _ => 0%nat
   | QReady _ => ReadyCtx
   | QFeedPost _ _ => f
   | _ => tt
   end, S n).

Definition never_forked {E} (p : Empty_set) (n : nat) : list E * option Empty_set * nat := match p with end.

Definition small_article : bytes :=
  bs "222 b" ++ crlf ++ bs "=ybegin line=128 size=1 name=a" ++ crlf ++ bs "k" ++ crlf ++ bs "=yend size=1" ++ crlf ++ bs "." ++ crlf.

Definition article_state : Prelude.outcome (error * loop_state NNTPResponse sink reader_ctl) :=
  @feedUntilDoneControlled _ _ _ (article_feeder plain_decode)
    (reader_control drain_cfg) small_buffer (mkConn [(small_article, None)] []) (newNNTPResponse false true)
    (new_sink [] true true) (new_reader_ctl [mkSample 7 false] true).

Definition article_read : feed_result :=
  match article_state with
  | Done (e, s) => mkFeed e (l_feeder s) true [] (Some 3)
  | _ => mkFeed None (newNNTPResponse false true) false [] None
  end.

Strategy expand [article_state].

Lemma article_committed :
  match article_state with Done (_, s) => sk_committed (l_out s) | _ => false end = true.
Proof. by vm_compute. Qed.

Lemma plain_foreign : foreign_decoder plain_decode.
Proof. intros buf st. unfold plain_decode. by destruct (plain_scan buf 0) as [[? ?] ?]. Qed.

Lemma loop_read_intro decodeFn rcfg rb conn m st b d samples e s buf fb : foreign_conn conn ->
  @feedUntilDoneControlled _ _ _ (article_feeder decodeFn) (reader_control rcfg) rb conn
    (newNNTPResponse m st) (new_sink [] b d) (new_reader_ctl samples d) = Done (e, s) ->
  loop_read decodeFn (mkFeed e (l_feeder s) true buf fb) (sk_committed (l_out s)).
Proof. intros Hc H. exists rcfg, rb, conn, m, st, [], b, d, samples, s. split_and!; try done. constructor. Qed.

Lemma article_read_by_loop : loop_read plain_decode article_read true.
Proof.
  pose proof article_committed as Hc. unfold article_read.
  assert (Hi : forall x, article_state = x -> match x with Done (e, s) => loop_read plain_decode (mkFeed e (l_feeder s) true [] (Some 3)) (sk_committed (l_out s)) | _ => True end).
  { intros [[e s]| | |] Hx; [|done..]. refine (loop_read_intro _ _ _ _ _ _ _ _ _ _ _ _ _ _ Hx). by repeat constructor. }
  specialize (Hi _ eq_refl). destruct article_state as [[e s]| | |]; [|done..]. by rewrite Hc in Hi.
Qed.

Definition pooled_cfg : conn_cfg := mkConnCfg 2 1 1 false false false [] "p" "p" 0.
Definition reader_run : list (Prog.event cans) * option bool * nat :=
  run (served article_read) never_forked (read_response pooled_cfg 1 5%nat) 0%nat.

Strategy expand [reader_run].

Lemma reader_run_exec : c_exec (read_response pooled_cfg 1 5%nat) (fst (fst reader_run)) (snd (fst reader_run)).
Proof.
  eapply (run_exec (served article_read) none_forked never_forked) with (s := 0%nat) (s' := snd reader_run); [intros []|].
  unfold reader_run. by destruct (run _ _ _ _) as [[? ?] ?].
Qed.

(** Every look at the request found [streamed_request]; the article read was [f]. *)
Definition run_readings (f : feed_result) (e : Prog.event cans) : Prop :=
  match e with
  | Ev q x => match q return cans q -> Prop with
              | QGet _ => fun x => x = streamed_request
              | QFeed _ _ => fun x => x = f
              | QReqErr _ => fun x => x = None
              | _ => fun _ => True
              end x
  end.

Lemma served_readings f {A} (p : cprog A) n : Forall (run_readings f) (fst (fst (run (served f) never_forked p n))).
Proof. apply run_events; [by intros [] k|intros []]. Qed.

Lemma run_read_by_loop f r {A} (p : cprog A) n : loop_read plain_decode f true ->
  read_by_loop plain_decode r (fst (fst (run (served f) never_forked p n))).
Proof.
  intros Hf. pose proof (served_readings f p n) as Hall. rewrite list.Forall_forall in Hall.
  split.
  - intros req H%Hall. simpl in H. by subst req.
  - intros d f' H%Hall. simpl in H. subst f'. by exists true.
  - intros e H%Hall. simpl in H. by subst e.
Qed.

Lemma reader_run_readings : read_by_loop plain_decode 5%nat (fst (fst reader_run)).
Proof. exact (run_read_by_loop article_read 5%nat _ 0%nat article_read_by_loop). Qed.

Lemma reader_run_says :
  match said (fst (fst reader_run)) with [resp] => attemptCommittedResp resp | _ => false end = true.
Proof. by vm_compute. Qed.


(** An attempt whose connection answered with that article. *)
Definition article_reply : Response :=
  mkResponse 222 (bs "222 b") "p"
    [buildAttemptEvidence streamed_request "p" ((errResponse None) <| rs_StatusCode := 222 |>) 9] [] [] (newNNTPResponse false true)
    None (Some streamed_request).

Definition answered (q : tquery) (n : nat) : tans q * nat :=
  (match q return tans q with
   | TNow | TTimeout => Z.of_nat n
   | THot _ => false
   | TCold _ => SubSent
   | TReply => RepMsg (Some article_reply)
   | TPoolErr | TReqErr | TCallerErr => Some (ESentinel ctxCanceled)
   | TRequest r => r
   end, S n).

Definition attempt_run : list tevent * option presult * nat :=
  run answered never_forked (tryGroup Response451Temporary first_provider body_args) 0%nat.

Lemma tryGroup_contract_witness :
  snd (fst attempt_run) = Some (article_reply, true, false) /\ attempt_ok (first_provider, body_args, (article_reply, true, false)).
Proof.
  split; [vm_compute; reflexivity|].
  apply (tryGroup_contract Response451Temporary first_provider body_args (fst (fst attempt_run))).
  - eapply (run_exec answered none_forked never_forked) with (s := 0%nat) (s' := snd attempt_run); [intros []|].
    vm_compute. reflexivity.
  - split; [vm_compute; constructor|]. intros resp Hin. apply list_elem_of_singleton in Hin as ->. left.
    split; [reflexivity|]. split; [intros _; reflexivity|]. by exists streamed_request, "p"%string, ((errResponse None) <| rs_StatusCode := 222 |>), 9.
Defined.

(** Departure: the error of the caller's writer is taken for the provider's answer.  A
    writer that fails with [ErrArticleNotFound] turns the article it was given into an
    absence in the evidence. *)
Example writer_error_is_absence :
  match @feedUntilDoneControlled _ _ _ (article_feeder plain_decode)
    (reader_control drain_cfg) small_buffer (mkConn [(small_article, None)] []) (newNNTPResponse false true)
    (new_sink [Some (0%nat, ErrArticleNotFound)] true true) (new_reader_ctl [mkSample 7 false] true) with
  | Done (e, s) => e = Some ErrArticleNotFound /\ StatusCode (l_feeder s) = 222 /\
      ae_Outcome (buildAttemptEvidence streamed_request "p" ((errResponse e) <| rs_StatusCode := 222 |>) 9) = OutcomeHardArticleAbsence
  | _ => False
  end.
Proof. vm_compute. auto. Qed.
