(* ===== verification/Article.v ===== *)
(** The article API ([client.go], with [findGroup] and [sendToGroup] of
    [speedtest.go]): [Body] and its variants, [Head], [Stat], and the parsers of
    their answers.

    A call is a program over the client's operations: a request that the router
    answers ([doSendWithRetry], Pool.v), or one provider's resilient send
    ([tryGroupResilient]).  [BodyAsync] and [StatAsync] (Sweep.v) send their result on a
    channel of their own; here they return it. *)
From S2P Require Import Prelude Text Errors CircuitBreaker Reader Evidence Prog Dispatch Pool.
#[local] Open Scope prog_scope.

(** ** Data *)

Inductive ArticleEncoding := EncodingUnknown | EncodingYEnc | EncodingUU.

(** [ab_Bytes] is [None] for a nil slice. *)
Record ArticleBody := mkArticleBody {
  ab_MessageID : bytes;
  ab_ProviderID : string;
  ab_Attempts : list AttemptEvidence;
  ab_Bytes : option bytes;
  ab_BytesDecoded : Z;
  ab_BytesConsumed : Z;
  ab_Encoding : ArticleEncoding;
  ab_YEnc : YEncMeta;
  ab_CRC : Z;
  ab_ExpectedCRC : Z;
  ab_CRCProvided : bool;
  ab_CRCValid : bool;
  ab_byteBuf : option bytes
}.

#[export] Instance eta_ArticleBody : Eta ArticleBody := fun b =>
  mkArticleBody (ab_MessageID b) (ab_ProviderID b) (ab_Attempts b) (ab_Bytes b) (ab_BytesDecoded b)
    (ab_BytesConsumed b) (ab_Encoding b) (ab_YEnc b) (ab_CRC b) (ab_ExpectedCRC b) (ab_CRCProvided b)
    (ab_CRCValid b) (ab_byteBuf b).

(** A map of headers; a key that was seen has at least one value. *)
Abbreviation headers := (gmap bytes (list bytes)).

Record ArticleHead := mkArticleHead {
  ah_MessageID : bytes;
  ah_ProviderID : string;
  ah_Attempts : list AttemptEvidence;
  ah_Headers : headers
}.

Record StatResult := mkStatResult {
  sr_MessageID : bytes;
  sr_ProviderID : string;
  sr_Attempts : list AttemptEvidence;
  sr_Number : Z
}.

#[export] Instance eta_StatResult : Eta StatResult := fun r =>
  mkStatResult (sr_MessageID r) (sr_ProviderID r) (sr_Attempts r) (sr_Number r).

Record TargetedBodyOptions := mkTargeted {
  tb_Provider : string;
  tb_FreshTransport : bool;
  tb_Priority : bool
}.

(** ** Requests *)

Definition command (word : bytes) (messageID : bytes) : bytes := word ++ bs " <" ++ messageID ++ bs ">" ++ crlf.
Definition bodyPayload : bytes -> bytes := command (bs "BODY").
Definition headPayload : bytes -> bytes := command (bs "HEAD").
Definition statPayload : bytes -> bytes := command (bs "STAT").

(** ** Answers *)

Definition mapFormat (f : Format) : ArticleEncoding :=
  match f with
  | FormatYenc => EncodingYEnc
  | FormatUU => EncodingUU
  | FormatUnknown => EncodingUnknown
  end.

Definition finishBody (messageID : bytes) (hasWriter : bool) (resp : Response) : ArticleBody + gerror :=
  match responseError resp with
  | Some e => inr e
  | None =>
      let m := rs_Meta resp in
      let body := mkArticleBody messageID (rs_ProviderID resp) (cloneAttempts (rs_Attempts resp)) None
                    (BytesDecoded m) (BytesConsumed m) (mapFormat (Format_ m)) (YEnc m) (CRC m) (ExpectedCRC m)
                    (hasCrc m) false None in
      let body := body <| ab_CRCValid := ab_CRCProvided body && (ab_CRC body =? ab_ExpectedCRC body) |> in
      inl (if negb hasWriter && (0 <? zlen (rs_Body resp)) then body <| ab_byteBuf := Some (rs_Body resp) |> else body)
  end.

(** What [Body] does with the result. *)
Definition take_buffer (r : ArticleBody + gerror) : ArticleBody + gerror :=
  match r with
  | inl body => inl (body <| ab_Bytes := ab_byteBuf body |> <| ab_byteBuf := None |>)
  | inr e => inr e
  end.

(** [strings.SplitN(s, sep, n)] for [n > 0] and a separator that is not empty. *)
Fixpoint split_n (n : nat) (sep s : bytes) : list bytes :=
  match n with
  | O => []
  | S O => [s]
  | S n => match cut_at sep s with
           | Some (a, rest) => a :: split_n n sep rest
           | None => [s]
           end
  end.

(** [strings.Trim(s, cutset)] for an ASCII cutset. *)
Definition trim (cutset s : bytes) : bytes := trim_right cutset (trim_left cutset s).

Definition parseStat (messageID : bytes) (resp : Response) : StatResult + gerror :=
  match responseError resp with
  | Some e => inr e
  | None =>
      let result := mkStatResult messageID (rs_ProviderID resp) (cloneAttempts (rs_Attempts resp)) 0 in
      let parts := split_n 4 (bs " ") (rs_Status resp) in
      let result := match nth_error parts 1 with
                    | Some n => result <| sr_Number := fst (parse_int n) |>
                    | None => result
                    end in
      inl match nth_error parts 2 with
          | Some id => result <| sr_MessageID := trim (bs "<>") id |>
          | None => result
          end
  end.

(** One line of [parseHeaders]; the state is the map and the current key. *)
Definition append_last (more : bytes) (values : list bytes) : list bytes :=
  match rev values with
  | v :: vs => rev vs ++ [v ++ more]
  | [] => []
  end.

Definition header_step (st : headers * bytes) (line : bytes) : headers * bytes :=
  let '(hs, currentKey) := st in
  match line with
  | [] => st
  | c :: _ =>
      if is_blank c then
        match currentKey with
        | [] => st
        | _ => match hs !! currentKey with
               | Some values => (<[currentKey := append_last (x20 :: TrimSpace line) values]> hs, currentKey)
               | None => st
               end
        end
      else match cut_at (bs ":") line with
      | None => st
      | Some (key, value) =>
          let key := TrimSpace key in
          (<[key := default [] (hs !! key) ++ [TrimSpace value]]> hs, key)
      end
  end.

Definition parseHeaders (lines : list bytes) : headers := fst (fold_left header_step lines (∅, [])).

(** ** Calls *)

Inductive aquery :=
| ASend (payload : bytes) (hasWriter priority validateBody : bool)
| AGroup (g : providerGroup) (a : try_args)
| ALoad (backup : bool)
| ACtxErr
| APoolErr.

Definition aans (q : aquery) : Type :=
  match q with
  | ASend _ _ _ _ => Response
  | AGroup _ _ => presult
  | ALoad _ => list providerGroup
  | ACtxErr | APoolErr => error
  end.

Definition aprog : Type -> Type := prog aans Empty_set Empty_set.
Definition aask (q : aquery) : aprog (aans q) := ask q.

(** [Body] and [BodyPriority]. *)
Definition Body (priority : bool) (messageID : bytes) : aprog (ArticleBody + gerror) :=
  let! resp := aask (ASend (bodyPayload messageID) false priority true) in
  Ret (take_buffer (finishBody messageID false resp)).

(** [hasWriter] is whether a writer was given. *)
Definition doBody (hasWriter : bool) (messageID : bytes) : aprog (ArticleBody + gerror) :=
  let! resp := aask (ASend (bodyPayload messageID) hasWriter false true) in
  Ret (finishBody messageID hasWriter resp).

Definition BodyStream (hasWriter : bool) (messageID : bytes) : aprog (ArticleBody + gerror) :=
  if negb hasWriter then Ret (inr (EOpaque "nntp: BodyStream requires a non-nil writer"))
  else doBody true messageID.

Record BodyResult := mkBodyResult { br_Body : option ArticleBody; br_Err : error }.

(** What the channel of [BodyAsync] receives. *)
Definition BodyAsync (hasWriter : bool) (messageID : bytes) : aprog BodyResult :=
  let! r := doBody hasWriter messageID in
  Ret match r with
      | inl body => mkBodyResult (Some body) None
      | inr e => mkBodyResult None (Some e)
      end.

Definition Head (messageID : bytes) : aprog (ArticleHead + gerror) :=
  let! resp := aask (ASend (headPayload messageID) false false false) in
  Ret match responseError resp with
      | Some e => inr e
      | None => inl (mkArticleHead messageID (rs_ProviderID resp) (cloneAttempts (rs_Attempts resp)) (parseHeaders (rs_Lines resp)))
      end.

(** [Stat] and [StatPriority]. *)
Definition Stat (priority : bool) (messageID : bytes) : aprog (StatResult + gerror) :=
  let! resp := aask (ASend (statPayload messageID) false priority false) in
  Ret (parseStat messageID resp).

(** A provider by its name or its identity. *)
Definition named_group (name : string) (gs : list providerGroup) : option providerGroup :=
  List.find (fun g => String.eqb (g_name g) name || String.eqb (g_id g) name) gs.

Definition findGroup (name : string) : aprog (option providerGroup) :=
  let! mains := aask (ALoad false) in
  let! backups := aask (ALoad true) in
  Ret match named_group name mains with
      | Some g => Some g
      | None => named_group name backups
      end.

(** [if err := ctx.Err(); err == nil { err = c.ctx.Err() }] *)
Definition caller_error : aprog error :=
  let! e := aask ACtxErr in
  if is_nil e then aask APoolErr else Ret e.

Definition BodyTargeted (messageID : bytes) (opts : TargetedBodyOptions) : aprog (ArticleBody + gerror) :=
  let! group := findGroup (tb_Provider opts) in
  match group with
  | None => Ret (inr (EOpaque "nntp: provider not found"))
  | Some g =>
      let! (resp, ok, cancelled) :=
        aask (AGroup g (mkTry (bodyPayload messageID) false (tb_Priority opts) true (tb_FreshTransport opts))) in
      if (cancelled : bool) then
        let! err := caller_error in
        Ret (inr (ETransport OutcomeCancellation (g_id g) 0 (cloneAttempts (rs_Attempts resp)) err))
      else if negb ok then Ret (inr (newTransportError (rs_Attempts resp) (Some (ESentinel ErrConnectionDied))))
      else Ret (finishBody messageID false resp)
  end.

(** [statViaGroup] *)
Definition statViaGroup (g : providerGroup) (payload : bytes) (priority : bool) : aprog Response :=
  let! (resp, ok, cancelled) := aask (AGroup g (mkTry payload false priority false false)) in
  if (cancelled : bool) then let! err := caller_error in Ret (errResponse err)
  else Ret (if negb ok then errResponse (Some (ESentinel ErrConnectionDied)) else resp).

(** [sendToGroup]: the response its channel receives. *)
Definition sendToGroup (g : providerGroup) (payload : bytes) (hasWriter : bool) : aprog Response :=
  let! (resp, ok, cancelled) := aask (AGroup g (mkTry payload hasWriter false false false)) in
  if (cancelled : bool) then
    let! cause := caller_error in
    let cause := if is_nil cause then Some (ESentinel ctxCanceled) else cause in
    Ret (cancellationResponse (rs_Attempts resp) cause)
  else Ret (if negb ok && is_nil (rs_Err resp) then resp <| rs_Err := Some (ESentinel ErrConnectionDied) |> else resp).

(** ** Lemmas *)

Definition a_exec {A} (p : aprog A) (t : list (Prog.event aans)) (r : option A) : Prop :=
  exec (fun (_ : Empty_set) _ _ => False) p t r.

(** The responses the router gave. *)
Definition sent_at (e : Prog.event aans) : list Response :=
  match e with
  | Ev q x => match q return aans q -> list Response with ASend _ _ _ _ => fun x => [x] | _ => fun _ => [] end x
  end.
Definition sent (t : list (Prog.event aans)) : list Response := flat_map sent_at t.

(** A response as the reader makes it from a BODY it read to the end: the decoder
    passed validation, and the body is what was decoded. *)
Record validated (decodeFn : bytes -> YState -> yenc_result) (resp : Response) (r : NNTPResponse) (out : bytes) : Prop := {
  va_fed : exists withMeta strict, fed buffer_write decodeFn (newNNTPResponse withMeta strict) [] r out;
  va_status : StatusCode r = nntpBody;
  va_valid : fst (validateBody r) = None;
  va_meta : rs_Meta resp = snd (validateBody r);
  va_body : rs_Body resp = out
}.

Lemma validateBody_keeps r : let r' := snd (validateBody r) in
  CRC r' = CRC r /\ BytesDecoded r' = BytesDecoded r /\ YEnc r' = YEnc r /\ Format_ r' = Format_ r.
Proof. unfold validateBody. repeat (case_match; try done). Qed.

(** *** Payloads *)

Lemma index_of_first c s : index_of [c] (c :: s) = Some 0%nat.
Proof. rewrite index_of_unfold. simpl. by rewrite bool_decide_true. Qed.

(** A message identity between its angle brackets, on the wire. *)
Definition angled (id : bytes) : bytes := bs "<" ++ id ++ bs ">".

Lemma command_angled word id : command word id = word ++ bs " " ++ angled id ++ crlf.
Proof. unfold command, angled. change (bs " <") with (bs " " ++ bs "<"). by rewrite <- !app_assoc. Qed.

Lemma starts_not s a b c d : lower_is s 0 a = false -> starts_with_word s a b c d = false.
Proof. unfold starts_with_word. intros ->. by rewrite andb_false_r. Qed.

Lemma probe_id word id : (x3c ∉ word) -> (x3e ∉ id) -> starts_with_word (command word id) 115 116 97 116 = false ->
  starts_with_word (command word id) 112 111 115 116 = false -> extractProbeMsgID (command word id) = Some (angled id).
Proof.
  intros Hw Hid H1 H2. unfold extractProbeMsgID. rewrite H1, H2.
  assert (Hz : (zlen (command word id) =? 0) = false).
  { apply Z.eqb_neq. unfold command. zlen_simp. change (zlen (bs " <")) with 2. pose proof (zlen_nonneg word).
    pose proof (zlen_nonneg id). pose proof (zlen_nonneg (bs ">")). lia. }
  rewrite Hz. unfold index_byte.
  assert (Hc : command word id = (word ++ bs " ") ++ x3c :: id ++ x3e :: crlf) by (rewrite command_angled; unfold angled; by rewrite <- !app_assoc).
  rewrite Hc, index_of_skip, index_of_first by set_solver. cbn [fmap option_fmap option_map]. rewrite Nat.add_0_r, drop_app_length.
  assert (Hi : index_of [x3e] (x3c :: id ++ x3e :: crlf) = Some (S (length id))).
  { change (x3c :: id ++ x3e :: crlf) with ((x3c :: id) ++ x3e :: crlf). rewrite index_of_skip, index_of_first by set_solver.
    simpl. by rewrite Nat.add_0_r. }
  rewrite Hi, Nat.add_1_r. unfold angled. simpl. do 2 f_equal. rewrite <- Nat.add_1_r, take_app_add. done.
Qed.

Lemma command_line word id : (x0d ∉ word) -> (x0d ∉ id) ->
  cut_at crlf (command word id) = Some (word ++ bs " " ++ angled id, []).
Proof.
  intros Hw Hid. rewrite command_angled. rewrite (app_assoc (bs " ")), (app_assoc word).
  rewrite <- (app_nil_r crlf) at 2. change crlf with (x0d :: [x0a]). rewrite cut_at_fresh; [done|]. unfold angled. set_solver.
Qed.

(** *** Status lines *)

Lemma split_first n sep c a rest : (c ∉ a) -> split_n (S (S n)) (c :: sep) (a ++ (c :: sep) ++ rest) = a :: split_n (S n) (c :: sep) rest.
Proof. intros Hc. cbn [split_n]. by rewrite cut_at_fresh. Qed.

Lemma digits_no_space ds : Forall is_digit ds -> (x20 ∉ ds).
Proof. intros H. apply digits_not; [done|]. unfold is_digit. vm_compute. by intros []. Qed.

Lemma trim_left_keep cutset c s : (c ∉ cutset) -> trim_left cutset (c :: s) = c :: s.
Proof. intros H. simpl. by rewrite bool_decide_false. Qed.

Lemma trim_left_drop cutset c s : c ∈ cutset -> trim_left cutset (c :: s) = trim_left cutset s.
Proof. intros H. simpl. by rewrite bool_decide_true. Qed.

(** [id] neither starts nor ends with a byte of [cutset]. *)
Definition bare (cutset id : bytes) : Prop := forall c s, id = c :: s \/ id = s ++ [c] -> (c ∉ cutset).

Lemma trim_angled id : bare (bs "<>") id -> trim (bs "<>") (angled id) = id.
Proof.
  intros Hb. unfold trim, angled. change (bs "<" ++ id ++ bs ">") with (x3c :: id ++ [x3e]). rewrite trim_left_drop by (by left).
  destruct id as [|c s].
  - simpl app. by rewrite trim_left_drop by (right; by left).
  - simpl app. rewrite trim_left_keep by (apply (Hb c s); by left). unfold trim_right.
    destruct (@exists_last _ (c :: s)) as (s' & d & Hs); [done|]. rewrite app_comm_cons, Hs, !rev_app_distr. simpl app.
    rewrite trim_left_drop by (right; by left). rewrite trim_left_keep by (apply (Hb d s'); by right).
    simpl. by rewrite rev_involutive.
Qed.

(** ** Properties *)

(** C6: An intact body: when the response [Body] got is that of a validated read, it
    returns the article; its bytes are exactly the decoded bytes, of the length it
    reports and the size the article declares; its CRC is theirs, and a CRC that
    the article supplied for them is reported as valid. *)
Theorem body_delivered decodeFn priority id t x resp r out :
  a_exec (Body priority id) t (Some x) -> sent t = [resp] ->
  rs_Err resp = None -> rs_StatusCode resp = nntpBody -> validated decodeFn resp r out ->
  exists b, x = inl b /\ default [] (ab_Bytes b) = out /\ ab_BytesDecoded b = zlen out /\ ab_CRC b = crc32_update 0 out /\
    zlen out = (if 0 <? ym_Part (ab_YEnc b) then ym_PartSize (ab_YEnc b) else ym_FileSize (ab_YEnc b)) /\
    (ab_CRCProvided b = true -> ab_CRCValid b = true) /\ ab_Encoding b = EncodingYEnc.
Proof.
  intros He Ht Hr Hc [(m & st & Hfed) Hs Hv Hm Hb]. unfold Body, a_exec in He. cbn [exec bind aask ask] in He.
  destruct He as (resp' & t' & -> & -> & [= ->]). simpl in Ht. simplify_eq.
  apply fed_counts in Hfed as [H1 H2]; [|done..]. pose proof (validateBody_crc r Hs Hv) as Hcrc.
  destruct (validateBody_keeps r) as (K1 & K2 & K3 & K4).
  apply validateBody_iff in Hv as (Hf & _ & _ & _ & _ & _ & _ & _ & _ & Hsz & _); [|done].
  unfold finishBody, responseError. rewrite Hr, Hc. change (toError nntpBody (rs_Status resp)) with (@None gerror).
  cbv iota beta zeta. rewrite Hm, K1, K2, K3, K4, Hf.
  assert (Hsize : zlen (rs_Body resp) = if 0 <? ym_Part (YEnc r) then ym_PartSize (YEnc r) else ym_FileSize (YEnc r)).
  { rewrite <- H2. destruct (0 <? ym_Part (YEnc r)); [by destruct Hsz as (_ & _ & -> & _)|by destruct Hsz as (_ & ->)]. }
  assert (Hcv : hasCrc (snd (validateBody r)) = true -> (CRC r =? ExpectedCRC (snd (validateBody r))) = true)
    by (intros Hh; apply Z.eqb_eq; by rewrite Hcrc).
  destruct (Z.ltb_spec 0 (zlen (rs_Body resp))) as [Hl|Hl]; simpl; (eexists; split; [reflexivity|]); simpl;
    (split; [|split; [done|split; [done|split; [done|split; [|done]]]]]);
    try (intros Hh; rewrite Hh; by apply Hcv); [done|].
  destruct (rs_Body resp) as [|c l]; [done|]. rewrite zlen_cons in Hl. pose proof (zlen_nonneg l). lia.
Qed.

(** A status line: the number and the message identity of "223 n <id>" are read
    back, whatever follows. *)
Theorem stat_roundtrip id0 resp n id rest :
  rs_Err resp = None -> rs_StatusCode resp = 223 -> 0 <= n < 2 ^ 63 ->
  rs_Status resp = bs "223 " ++ format_nat n ++ bs " " ++ angled id ++ rest ->
  (x20 ∉ id) -> bare (bs "<>") id -> (rest = [] \/ exists more, rest = x20 :: more) ->
  parseStat id0 resp = inl (mkStatResult id (rs_ProviderID resp) (cloneAttempts (rs_Attempts resp)) n).
Proof.
  intros He Hc Hn Hst Hid Hends Hrest. unfold parseStat, responseError. rewrite He, Hc.
  change (toError 223 (rs_Status resp)) with (@None gerror). cbv iota beta.
  destruct (format_nat_digits n Hn) as (Hd & _ & _).
  assert (Ha : x20 ∉ angled id) by (unfold angled; set_solver).
  assert (Hsp : exists more, split_n 4 (bs " ") (rs_Status resp) = bs "223" :: format_nat n :: angled id :: more).
  { rewrite Hst. change (bs "223 ") with (bs "223" ++ bs " "). rewrite <- app_assoc. change (bs " ") with [x20].
    rewrite split_first by set_solver. rewrite split_first by (by apply digits_no_space).
    destruct Hrest as [->|[more ->]].
    - rewrite app_nil_r. cbn [split_n]. destruct (cut_at [x20] (angled id)) as [[u v]|] eqn:E; [|by eexists].
      apply cut_at_Some in E. exfalso. apply Ha. rewrite E. set_solver.
    - change (angled id ++ x20 :: more) with (angled id ++ [x20] ++ more). cbn [split_n]. rewrite cut_at_fresh by done. by eexists. }
  destruct Hsp as [more ->]. cbn [nth_error]. rewrite parse_int_format by done. by rewrite trim_angled.
Qed.

(** The wire form of an article command: it is one line, the request's operation is
    that of its word, and the STAT that the router probes with names the same
    article. *)
Theorem command_names_article id :
  (x0d ∉ id) -> (x3e ∉ id) ->
  forall word op, (word, op) ∈ [(bs "BODY", OperationBody); (bs "HEAD", OperationHead)] ->
  operationFromPayload (command word id) = op /\
  cut_at crlf (command word id) = Some (word ++ bs " " ++ angled id, []) /\
  exists probed, extractProbeMsgID (command word id) = Some probed /\ bs "STAT " ++ probed ++ crlf = statPayload id /\
    operationFromPayload (statPayload id) = OperationStat.
Proof.
  intros Hr Hid word op Hin.
  assert (Hw : (x0d ∉ word) /\ (x3c ∉ word) /\ operationFromPayload (command word id) = op /\
    starts_with_word (command word id) 115 116 97 116 = false /\ starts_with_word (command word id) 112 111 115 116 = false).
  { apply list_elem_of_In in Hin. destruct Hin as [[= <- <-]|[[= <- <-]|[]]]; split_and!;
      first [apply (bool_decide_unpack _); vm_compute; exact I|reflexivity|by apply starts_not]. }
  destruct Hw as (H1 & H2 & H3 & H4 & H5). split; [done|]. split; [by apply command_line|].
  exists (angled id). split; [by apply probe_id|]. split; [|done]. unfold statPayload. by rewrite command_angled.
Qed.

(** ** Departures *)

(** [BodyTargeted] never hands the decoded bytes out: unlike [Body] it leaves them in
    the unexported buffer. *)
Theorem targeted_has_no_bytes id opts t b : a_exec (BodyTargeted id opts) t (Some (inl b)) -> ab_Bytes b = None.
Proof.
  unfold BodyTargeted, findGroup, caller_error, a_exec. intros H. cbn [exec bind aask ask] in H.
  destruct H as (mains & t1 & -> & backups & t2 & -> & H).
  destruct (match named_group (tb_Provider opts) mains with Some g => Some g | None => named_group (tb_Provider opts) backups end) as [g|];
    [|by destruct H as [_ [= ]]].
  destruct H as ([[resp ok] c] & t3 & -> & H). destruct c; cbn [exec bind aask ask] in H.
  - destruct H as (e & t4 & -> & H). destruct (is_nil e); cbn [exec bind aask ask] in H;
      [destruct H as (e2 & t5 & -> & [_ [= ]])|by destruct H as [_ [= ]]].
  - destruct ok; simpl in H; [|by destruct H as [_ [= ]]]. destruct H as [_ [= H]]. unfold finishBody in H.
    destruct (responseError resp); [done|]. cbv zeta in H. by destruct (negb false && _) in H; simplify_eq.
Qed.

(** Nor does [BodyAsync] without a writer, though it buffers the body then. *)
Theorem async_without_writer id t b : a_exec (BodyAsync false id) t (Some b) ->
  match br_Body b with Some body => ab_Bytes body = None | None => True end.
Proof.
  unfold BodyAsync, doBody, a_exec. intros H. cbn [exec bind aask ask] in H. destruct H as (resp & t1 & -> & [-> [= ->]]).
  unfold finishBody. destruct (responseError resp); [done|]. cbv zeta. by destruct (negb false && _).
Qed.

(** Any 2xx or 3xx reply to BODY is a body: [validateBody] looks at 222 only. *)
Example any_success_is_a_body : exists b,
  finishBody (bs "a") false ((errResponse None) <| rs_StatusCode := 281 |>) = inl b /\
  fst (validateBody ((newNNTPResponse false true) <| StatusCode := 281 |>)) = None /\ ab_Bytes b = None.
Proof. eexists. by vm_compute. Qed.

(** A message identity is sent as it is: one with a line end is two commands. *)
Example identity_can_be_a_command :
  cut_at crlf (bodyPayload (bs "a>" ++ crlf ++ bs "POST")) = Some (bs "BODY <a>", bs "POST>" ++ crlf).
Proof. by vm_compute. Qed.

(** ** Witnesses *)

Definition abc_reads : list bytes :=
  [bs "222 body" ++ crlf ++ bs "=ybegin line=128 size=3 name=a" ++ crlf ++ bs "abc";
   crlf ++ bs "=yend size=3 crc32=352441c2" ++ crlf ++ bs "." ++ crlf].
Definition abc_decoder : NNTPResponse :=
  match feed_all buffer_write plain_decode abc_reads (newNNTPResponse false true) [] with
  | Done (r, _) => r
  | _ => newNNTPResponse false true
  end.
Definition abc_response : Response :=
  mkResponse 222 (bs "222 body") "p" [] [] (bs "abc") (snd (validateBody abc_decoder)) None None.

Lemma abc_validated : validated plain_decode abc_response abc_decoder (bs "abc").
Proof.
  constructor; try (vm_compute; reflexivity). exists false, true. apply (feed_all_fed buffer_write plain_decode abc_reads).
  vm_compute. reflexivity.
Qed.

Lemma body_delivered_witness : exists b,
  a_exec (Body false (bs "m")) [Ev (ASend (bodyPayload (bs "m")) false false true) abc_response] (Some (inl b)) /\
  default [] (ab_Bytes b) = bs "abc" /\ ab_CRCProvided b = true /\ ab_CRCValid b = true.
Proof.
  set (x := take_buffer (finishBody (bs "m") false abc_response)).
  assert (He : a_exec (Body false (bs "m")) [Ev (ASend (bodyPayload (bs "m")) false false true) abc_response] (Some x)).
  { eexists _, []. split; [reflexivity|]. by split. }
  destruct (body_delivered plain_decode false (bs "m") _ x abc_response abc_decoder (bs "abc") He)
    as (b & Hb & H1 & _ & _ & _ & H2 & _); try reflexivity; [exact abc_validated|].
  exists b. rewrite <- Hb. split; [exact He|]. split; [exact H1|]. assert (Hp : ab_CRCProvided b = true); [|by split; [|apply H2]].
  assert (Hx : match x with inl b => ab_CRCProvided b | inr _ => false end = true) by (vm_compute; reflexivity).
  by rewrite Hb in Hx.
Defined.

Lemma stat_roundtrip_witness :
  parseStat (bs "q") ((errResponse None) <| rs_StatusCode := 223 |> <| rs_Status := bs "223 12 <a@b> retrieved" |>) =
  inl (mkStatResult (bs "a@b") "" [] 12).
Proof.
  set (resp := (errResponse None) <| rs_StatusCode := 223 |> <| rs_Status := bs "223 12 <a@b> retrieved" |>).
  change (inl (mkStatResult (bs "a@b") "" [] 12)) with
    (inl (mkStatResult (bs "a@b") (rs_ProviderID resp) (cloneAttempts (rs_Attempts resp)) 12) : StatResult + gerror).
  apply (stat_roundtrip (bs "q") resp 12 (bs "a@b") (bs " retrieved")); try reflexivity; [lia| | |].
  - apply (bool_decide_unpack _). vm_compute. exact I.
  - intros c s [H|H]; apply (bool_decide_unpack _).
    + injection H as <- _. vm_compute. exact I.
    + change (bs "a@b") with (bs "a@" ++ [x62]) in H. apply app_inj_tail in H as [_ <-]. vm_compute. exact I.
  - right. by exists (bs "retrieved").
Defined.

Lemma command_names_article_witness :
  extractProbeMsgID (bodyPayload (bs "a@b")) = Some (bs "<a@b>") /\
  operationFromPayload (bodyPayload (bs "a@b")) = OperationBody.
Proof.
  split; [vm_compute; reflexivity|].
  apply (command_names_article (bs "a@b")) with (word := bs "BODY"); [| |by left];
    apply (bool_decide_unpack _); vm_compute; exact I.
Defined.
