(* ===== verification/Sweep.v ===== *)
(** Bulk STAT ([stat.go]): [StatMany]'s dispatcher, its checks and their consumer as a
    step relation, every interleaving of their steps with the caller's cancellation.

    A check is one goroutine with one [statOne]; the channels [sem] and [out] are
    counted and buffered with the same capacity, as the code makes them. *)
From S2P Require Import Prelude Text Errors CircuitBreaker Reader Evidence Prog Dispatch Pool Article.
#[local] Open Scope prog_scope.

(** ** One check *)

Record StatManyResult := mkStatMany {
  sm_MessageID : bytes;
  sm_Result : option StatResult;
  sm_Err : error
}.

(** What the channel of [StatAsync] receives. *)
Definition StatAsync (messageID : bytes) : aprog StatManyResult :=
  let! r := Stat false messageID in
  Ret match r with
      | inl result => mkStatMany messageID (Some result) None
      | inr e => mkStatMany messageID None (Some e)
      end.

Record StatManyOptions := mkStatOptions {
  so_Concurrency : Z;
  so_Priority : bool;
  so_Provider : string
}.

Definition defaultStatConcurrency : Z := 64.

Definition statOne (messageID : bytes) (target : option providerGroup) (targetErr : error) (priority : bool) : aprog StatManyResult :=
  if negb (is_nil targetErr) then Ret (mkStatMany messageID None targetErr)
  else
    let payload := statPayload messageID in
    let! resp := match target with
                 | Some g => statViaGroup g payload priority
                 | None => aask (ASend payload false priority false)
                 end in
    Ret match parseStat messageID resp with
        | inl result => mkStatMany messageID (Some result) None
        | inr err => mkStatMany messageID None (Some err)
        end.

(** The capacity of [sem] and [out]. *)
Definition sweep_width (opts : StatManyOptions) (ids : list bytes) : Z :=
  let conc := if so_Concurrency opts <=? 0 then defaultStatConcurrency else so_Concurrency opts in
  if (zlen ids <? conc) && (0 <? zlen ids) then zlen ids else conc.

(** The provider a sweep is confined to, or why there is none. *)
Definition sweep_target (opts : StatManyOptions) : aprog (option providerGroup * error) :=
  if String.eqb (so_Provider opts) "" then Ret (None, None)
  else
    let! target := findGroup (so_Provider opts) in
    Ret (target, match target with
                 | Some _ => None
                 | None => Some (EOpaque "nntp: provider not found")
                 end).

(** ** The sweep *)

(** Where a check is: in [statOne], at the select that sends its result, at the two
    deferred calls, or over. *)
Inductive check_phase := Asking | Sending (res : StatManyResult) | Releasing | Finishing | Finished.
(** Where the goroutine that starts the checks is: in its loop, in [wg.Wait], or past
    [close(out)]. *)
Inductive sweep_phase := Dispatching | Draining | Closed.

(** [sw_got] is what the consumer has received; [sw_over] that it has seen the end. *)
Record sweep := mkSweep {
  sw_ids : list bytes;
  sw_phase : sweep_phase;
  sw_checks : list (bytes * check_phase);
  sw_sem : Z;
  sw_wg : Z;
  sw_out : list StatManyResult;
  sw_got : list StatManyResult;
  sw_cancelled : bool;
  sw_over : bool
}.

Inductive actor := Caller | Dispatcher | Checker | Consumer.

Section Sweep.
Context (conc : Z) (target : option providerGroup) (targetErr : error) (priority : bool).

(** What a check of [id] may find. *)
Definition finds (id : bytes) (res : StatManyResult) : Prop :=
  exists t, a_exec (statOne id target targetErr priority) t (Some res).

Definition start_sweep (ids : list bytes) : sweep := mkSweep ids Dispatching [] 0 0 [] [] false false.

Inductive sweep_step : actor -> sweep -> sweep -> Prop :=
| step_cancel ids ph cs sem wg out got over :
    sweep_step Caller (mkSweep ids ph cs sem wg out got false over) (mkSweep ids ph cs sem wg out got true over)
| step_dispatch id ids cs sem wg out got c over :
    sem < conc ->
    sweep_step Dispatcher (mkSweep (id :: ids) Dispatching cs sem wg out got c over)
      (mkSweep ids Dispatching (cs ++ [(id, Asking)]) (sem + 1) (wg + 1) out got c over)
| step_break id ids cs sem wg out got over :
    sweep_step Dispatcher (mkSweep (id :: ids) Dispatching cs sem wg out got true over)
      (mkSweep (id :: ids) Draining cs sem wg out got true over)
| step_all cs sem wg out got c over :
    sweep_step Dispatcher (mkSweep [] Dispatching cs sem wg out got c over) (mkSweep [] Draining cs sem wg out got c over)
| step_close ids cs sem out got c over :
    sweep_step Dispatcher (mkSweep ids Draining cs sem 0 out got c over) (mkSweep ids Closed cs sem 0 out got c over)
| step_answer i id res ids ph cs sem wg out got c over :
    cs !! i = Some (id, Asking) -> finds id res ->
    sweep_step Checker (mkSweep ids ph cs sem wg out got c over)
      (mkSweep ids ph (<[i := (id, Sending res)]> cs) sem wg out got c over)
| step_send i id res ids ph cs sem wg out got c over :
    cs !! i = Some (id, Sending res) -> zlen out < conc ->
    sweep_step Checker (mkSweep ids ph cs sem wg out got c over)
      (mkSweep ids ph (<[i := (id, Releasing)]> cs) sem wg (out ++ [res]) got c over)
| step_drop i id res ids ph cs sem wg out got over :
    cs !! i = Some (id, Sending res) ->
    sweep_step Checker (mkSweep ids ph cs sem wg out got true over)
      (mkSweep ids ph (<[i := (id, Releasing)]> cs) sem wg out got true over)
| step_release i id ids ph cs sem wg out got c over :
    cs !! i = Some (id, Releasing) -> 0 < sem ->
    sweep_step Checker (mkSweep ids ph cs sem wg out got c over)
      (mkSweep ids ph (<[i := (id, Finishing)]> cs) (sem - 1) wg out got c over)
| step_finish i id ids ph cs sem wg out got c over :
    cs !! i = Some (id, Finishing) ->
    sweep_step Checker (mkSweep ids ph cs sem wg out got c over)
      (mkSweep ids ph (<[i := (id, Finished)]> cs) sem (wg - 1) out got c over)
| step_receive ids ph cs sem wg res out got c over :
    sweep_step Consumer (mkSweep ids ph cs sem wg (res :: out) got c over) (mkSweep ids ph cs sem wg out (got ++ [res]) c over)
| step_end ids cs sem wg got c :
    sweep_step Consumer (mkSweep ids Closed cs sem wg [] got c false) (mkSweep ids Closed cs sem wg [] got c true).

Inductive sweep_reach (ids : list bytes) : sweep -> Prop :=
| reach_start : sweep_reach ids (start_sweep ids)
| reach_step a s s' : sweep_reach ids s -> sweep_step a s s' -> sweep_reach ids s'.

(** ** Lemmas *)

Lemma statOne_names id res : finds id res -> sm_MessageID res = id.
Proof.
  intros [t H]. unfold statOne, a_exec in H. destruct (negb (is_nil targetErr)); [by destruct H as [_ [= ->]]|].
  apply exec_bind in H as [(t1 & t2 & resp & _ & _ & [_ [= ->]])|[_ [= ]]]. by destruct (parseStat id resp).
Qed.

(** Every check finds something: each of its questions has an answer. *)
Lemma statOne_finds id : exists res, finds id res.
Proof.
  assert (Hr : forall resp, exists res,
    match parseStat id resp with inl result => mkStatMany id (Some result) None | inr err => mkStatMany id None (Some err) end = res)
    by (intros; by eexists).
  unfold finds, statOne, a_exec, statViaGroup. destruct (negb (is_nil targetErr)); [by eexists _, []|].
  destruct target as [g|]; cbn [exec bind aask ask].
  - destruct (Hr (errResponse None)) as [res Hres]. exists res, [Ev (AGroup g (mkTry (statPayload id) false priority false false)) (errResponse None, true, false)].
    eexists _, []. split; [reflexivity|]. cbn [bind negb exec]. by rewrite <- Hres.
  - destruct (Hr (errResponse None)) as [res Hres]. exists res, [Ev (ASend (statPayload id) false priority false) (errResponse None)].
    eexists _, []. split; [reflexivity|]. by rewrite <- Hres.
Qed.

Definition holds (c : bytes * check_phase) : bool := match snd c with Asking | Sending _ | Releasing => true | _ => false end.
Definition unfinished (c : bytes * check_phase) : bool := match snd c with Finished => false | _ => true end.
Definition asking (c : bytes * check_phase) : bool := match snd c with Asking => true | _ => false end.
(** The checks whose result was sent, or given up. *)
Definition settled (c : bytes * check_phase) : bool := match snd c with Asking | Sending _ => false | _ => true end.
Definition settled_ids (cs : list (bytes * check_phase)) : list bytes := map fst (List.filter settled cs).

Lemma settled_same cs i id p q : cs !! i = Some (id, p) -> settled (id, p) = settled (id, q) ->
  settled_ids (<[i := (id, q)]> cs) = settled_ids cs.
Proof.
  unfold settled_ids. revert i. induction cs as [|c cs IH]; intros i Hi Hs; [done|]. destruct i as [|i]; simpl in Hi |- *.
  - simplify_eq. rewrite Hs. by destruct (settled (id, q)).
  - specialize (IH i Hi Hs). destruct (settled c); simpl; by rewrite IH.
Qed.

Lemma settled_new cs i id p q : cs !! i = Some (id, p) -> settled (id, p) = false -> settled (id, q) = true ->
  settled_ids (<[i := (id, q)]> cs) ≡ₚ settled_ids cs ++ [id].
Proof.
  unfold settled_ids. revert i. induction cs as [|c cs IH]; intros i Hi Hp Hq; [done|]. destruct i as [|i]; simpl in Hi |- *.
  - simplify_eq. rewrite Hp, Hq. simpl. by rewrite Permutation_app_comm.
  - specialize (IH i Hi Hp Hq). destruct (settled c); simpl; by rewrite IH.
Qed.

Lemma settled_snoc cs id : settled_ids (cs ++ [(id, Asking)]) = settled_ids cs.
Proof. unfold settled_ids. rewrite List.filter_app. simpl. by rewrite app_nil_r. Qed.

Lemma names_update (cs : list (bytes * check_phase)) i id p q : cs !! i = Some (id, p) -> map fst (<[i := (id, q)]> cs) = map fst cs.
Proof. revert i. induction cs as [|c cs IH]; intros i Hi; [done|]. destruct i as [|i]; simpl in Hi |- *; simplify_eq; [done|by rewrite (IH i)]. Qed.

Lemma settled_sub cs : settled_ids cs ⊆+ map fst cs.
Proof.
  unfold settled_ids. apply sublist_submseteq. induction cs as [|c cs IH]; [constructor|]. simpl. destruct (settled c); by constructor.
Qed.

Definition reported (s : sweep) : list StatManyResult := sw_got s ++ sw_out s.

Record sweep_inv (ids : list bytes) (s : sweep) : Prop := {
  si_sem : sw_sem s = count holds (sw_checks s);
  si_wg : sw_wg s = count unfinished (sw_checks s);
  si_width : sw_sem s <= conc;
  si_buffer : zlen (sw_out s) <= conc;
  si_ids : map fst (sw_checks s) ++ sw_ids s = ids;
  si_stop : sw_phase s <> Dispatching -> sw_cancelled s = true \/ sw_ids s = [];
  si_closed : sw_phase s = Closed -> sw_wg s = 0;
  si_over : sw_over s = true -> sw_phase s = Closed /\ sw_out s = [];
  si_some : map sm_MessageID (reported s) ⊆+ settled_ids (sw_checks s);
  si_all : sw_cancelled s = false -> map sm_MessageID (reported s) ≡ₚ settled_ids (sw_checks s);
  si_found : Forall (fun r => finds (sm_MessageID r) r) (reported s);
  si_sending : forall i id r, sw_checks s !! i = Some (id, Sending r) -> finds id r
}.

(** A check moves between two phases that neither hold a result nor settle one. *)
Lemma sending_update (cs : list (bytes * check_phase)) i id q : (forall j id' r, cs !! j = Some (id', Sending r) -> finds id' r) ->
  match q with Sending r => finds id r | _ => True end ->
  forall j id' r, <[i := (id, q)]> cs !! j = Some (id', Sending r) -> finds id' r.
Proof.
  intros H Hq j id' r Hj. destruct (decide (i = j)) as [<-|Hne].
  - apply list_lookup_insert_Some in Hj as [(_ & [= -> ->] & _)|[Hj _]]; done.
  - rewrite list_lookup_insert_ne in Hj by done. by eapply H.
Qed.

(** As long as a check is not over, the channel is open. *)
Lemma busy_open ids s : sweep_inv ids s -> forall i id p, sw_checks s !! i = Some (id, p) -> unfinished (id, p) = true -> sw_phase s <> Closed.
Proof.
  intros Hs i id p Hi Hu Hc. pose proof (count_some unfinished _ i _ Hi Hu) as Hp. rewrite <- (si_wg _ _ Hs), (si_closed _ _ Hs Hc) in Hp. lia.
Qed.

Lemma sweep_inv_step ids a s s' : sweep_inv ids s -> sweep_step a s s' -> sweep_inv ids s'.
Proof.
  intros Hs0. pose proof (busy_open ids s Hs0) as Hbusy. revert Hs0. intros [H1 H2 H3 H4 H5 H6 H7 H8 H9 H10 H11 H12] Hs. unfold reported in *.
  destruct Hs as [js ph cs sem wg out got over|id js cs sem wg out got c over Hlt|id js cs sem wg out got over|cs sem wg out got c over
    |js cs sem out got c over|i id res js ph cs sem wg out got c over Hi Hf|i id res js ph cs sem wg out got c over Hi Hlt
    |i id res js ph cs sem wg out got over Hi|i id js ph cs sem wg out got c over Hi Hpos|i id js ph cs sem wg out got c over Hi
    |js ph cs sem wg res out got c over|js cs sem wg got c]; simpl in *.
  - by constructor; unfold reported; simpl; auto.
  - constructor; unfold reported; simpl; rewrite ?count_snoc, ?settled_snoc; simpl; try done; try lia; auto.
    + by rewrite map_app, <- app_assoc.
    + intros j id' r Hj. apply lookup_app_Some in Hj as [Hj|[_ Hj]]; [by eapply H12|].
      apply list_lookup_singleton_Some in Hj as [_ [= ]].
  - constructor; unfold reported; simpl; auto; first [done|by intros [? _]%H8].
  - constructor; unfold reported; simpl; auto; first [done|by intros [? _]%H8].
  - constructor; unfold reported; simpl; auto; first [by intros [? _]%H8|intros _; by apply H6].
  - constructor; unfold reported; simpl; rewrite ?(count_update _ _ _ _ _ Hi), ?(names_update _ _ _ _ _ Hi), ?(settled_same _ _ _ _ (Sending res) Hi eq_refl);
      simpl; try done; try lia; auto. by apply sending_update.
  - pose proof (settled_new _ _ _ _ Releasing Hi eq_refl eq_refl) as Hp.
    assert (Hres : map sm_MessageID (got ++ out ++ [res]) = map sm_MessageID (got ++ out) ++ [id]).
    { rewrite app_assoc, map_app. simpl. by rewrite (statOne_names id res (H12 _ _ _ Hi)). }
    constructor; unfold reported; simpl; rewrite ?(count_update _ _ _ _ _ Hi), ?(names_update _ _ _ _ _ Hi), ?Hres; simpl; try done; try lia; auto.
    + rewrite zlen_app. change (zlen [res]) with 1. lia.
    + intros [Hcl _]%H8. by destruct (Hbusy _ _ _ Hi eq_refl Hcl).
    + rewrite Hp. by apply submseteq_app.
    + intros Hc. by rewrite Hp, (H10 Hc).
    + rewrite app_assoc. apply Forall_app. split; [done|]. constructor; [|done]. specialize (H12 _ _ _ Hi).
      by rewrite (statOne_names id res H12).
    + by apply sending_update.
  - pose proof (settled_new _ _ _ _ Releasing Hi eq_refl eq_refl) as Hp.
    constructor; unfold reported; simpl; rewrite ?(count_update _ _ _ _ _ Hi), ?(names_update _ _ _ _ _ Hi); simpl; try done; try lia; auto.
    + rewrite Hp, H9. apply submseteq_inserts_r; reflexivity.
    + by apply sending_update.
  - constructor; unfold reported; simpl; rewrite ?(count_update _ _ _ _ _ Hi), ?(names_update _ _ _ _ _ Hi), ?(settled_same _ _ _ _ Finishing Hi eq_refl);
      simpl; try done; try lia; auto. by apply sending_update.
  - constructor; unfold reported; simpl; rewrite ?(count_update _ _ _ _ _ Hi), ?(names_update _ _ _ _ _ Hi), ?(settled_same _ _ _ _ Finished Hi eq_refl);
      simpl; try done; try lia; auto; [|by apply sending_update].
    intros Hcl. by destruct (Hbusy _ _ _ Hi eq_refl Hcl).
  - constructor; unfold reported; simpl; rewrite <- ?app_assoc; try done; auto.
    + rewrite zlen_cons in H4. lia.
    + intros [_ [= ]]%H8.
  - by constructor.
Qed.

Lemma sweep_inv_start ids : 0 < conc -> sweep_inv ids (start_sweep ids).
Proof.
  intros Hc. unfold start_sweep. constructor; unfold reported; simpl; try done; try lia. by rewrite zlen_nil; lia.
Qed.

Lemma sweep_inv_reach ids s : 0 < conc -> sweep_reach ids s -> sweep_inv ids s.
Proof. intros Hc. induction 1 as [|a s s' _ IH Hs]; [by apply sweep_inv_start|by eapply sweep_inv_step]. Qed.

(** *** How long it takes *)

Definition check_work (c : bytes * check_phase) : nat :=
  match snd c with Asking => 6 | Sending _ => 5 | Releasing => 3 | Finishing => 2 | Finished => 1 end.
Definition phase_work (p : sweep_phase) : nat := match p with Dispatching => 2 | Draining => 1 | Closed => 0 end.

Definition work (s : sweep) : nat :=
  7 * length (sw_ids s) + list_sum (map check_work (sw_checks s)) + length (sw_out s) + phase_work (sw_phase s) +
  (if sw_over s then 0 else 1) + (if sw_cancelled s then 0 else 1).

Lemma work_update (cs : list (bytes * check_phase)) i c c' : cs !! i = Some c ->
  (list_sum (map check_work (<[i := c']> cs)) + check_work c = list_sum (map check_work cs) + check_work c')%nat.
Proof.
  revert i. induction cs as [|x cs IH]; intros i Hi; [done|]. destruct i as [|i]; simpl in Hi |- *; [simplify_eq; lia|].
  specialize (IH i Hi). lia.
Qed.

Lemma step_works a s s' : sweep_step a s s' -> (work s' < work s)%nat.
Proof.
  destruct 1; unfold work; simpl; rewrite ?map_app, ?list_sum_app, ?length_app; simpl; try (simpl; lia);
    match goal with Hi : @lookup _ _ _ _ _ _ = Some ?y |- context [@insert _ _ _ _ _ ?x _] => pose proof (work_update _ _ y x Hi) as Hw; unfold check_work at 2 4 in Hw; simpl in *; lia end.
Qed.

(** *** Progress *)

Lemma all_finished cs : count unfinished cs = 0 -> count holds cs = 0.
Proof.
  intros H. pose proof (count_le holds unfinished cs) as Hl. lapply Hl; [lia|]. intros [id []]; done.
Qed.

Lemma sweep_progress ids s : 0 < conc -> sweep_reach ids s ->
  (exists a s', a <> Caller /\ a <> Consumer /\ sweep_step a s s') \/
  ((sw_cancelled s = true -> sw_phase s = Closed) /\ (sw_over s = false -> exists s', sweep_step Consumer s s')).
Proof.
  intros Hc Hr. destruct (sweep_inv_reach ids s Hc Hr) as [H1 H2 H3 H4 _ _ _ H8 _ _ _ _]. destruct s as [js ph cs sem wg out got c over]. simpl in *.
  destruct (Z.eq_dec (count unfinished cs) 0) as [Hz|Hz].
  - rewrite Hz in H2. rewrite (all_finished cs Hz) in H1. subst sem wg. destruct ph.
    + left. exists Dispatcher. destruct js as [|id js]; eexists; (split; [done|split; [done|by constructor]]).
    + left. exists Dispatcher. eexists. split; [done|split; [done|by constructor]].
    + right. split; [done|]. intros ->. destruct out as [|r out]; eexists; constructor.
  - pose proof (count_le unfinished unfinished cs ltac:(done)) as Hn. destruct (count_pos unfinished cs ltac:(lia)) as (i & [id p] & Hi & Hu).
    destruct p as [|res| | |]; [left|..|left|done].
    + destruct (statOne_finds id) as [res Hf]. exists Checker. eexists. split; [done|split; [done|by eapply step_answer]].
    + destruct (Z.ltb_spec (zlen out) conc) as [Hl|Hl]; [left|].
      * exists Checker. eexists. split; [done|split; [done|by eapply step_send]].
      * destruct c.
        -- left. exists Checker. eexists. split; [done|split; [done|by eapply step_drop]].
        -- right. split; [done|]. intros ->. destruct out as [|r out]; [rewrite zlen_nil in Hl; lia|]. eexists. constructor.
    + left. pose proof (count_some holds cs i _ Hi eq_refl). exists Checker. eexists. split; [done|split; [done|eapply step_release; [done|lia]]].
    + exists Checker. eexists. split; [done|split; [done|by eapply step_finish]].
Qed.
End Sweep.

(** ** Properties *)

(** C14: The concurrency bound: at most [conc] STATs are outstanding and at most [conc]
    results wait, releasing the semaphore never blocks, and once the channel is closed
    every check is over: nothing is sent on it. *)
Theorem sweep_bounded conc target targetErr priority ids s :
  0 < conc -> sweep_reach conc target targetErr priority ids s ->
  count asking (sw_checks s) <= conc /\ zlen (sw_out s) <= conc /\
  (forall i id, sw_checks s !! i = Some (id, Releasing) -> 0 < sw_sem s) /\
  (sw_phase s = Closed -> forall i id p, sw_checks s !! i = Some (id, p) -> p = Finished).
Proof.
  intros Hc Hr. pose proof (sweep_inv_reach _ _ _ _ _ _ Hc Hr) as Hi. split_and!.
  - pose proof (count_le asking holds (sw_checks s)) as Hl. lapply Hl; [|by intros [id []]].
    rewrite <- (si_sem _ _ _ _ _ _ Hi). pose proof (si_width _ _ _ _ _ _ Hi). lia.
  - apply (si_buffer _ _ _ _ _ _ Hi).
  - intros i id Hj. rewrite (si_sem _ _ _ _ _ _ Hi). by apply (count_some holds _ i (id, Releasing)).
  - intros Hcl i id p Hj. destruct p; try done; by destruct (busy_open _ _ _ _ _ _ Hi _ _ _ Hj eq_refl).
Qed.

(** C13: The results: what a consumer has received is at most one result for each
    identity that was given, each what a STAT of that identity found; and when it has
    seen the end of a sweep that was not cancelled, exactly one for each. *)
Theorem sweep_results conc target targetErr priority ids s :
  0 < conc -> sweep_reach conc target targetErr priority ids s ->
  map sm_MessageID (sw_got s) ⊆+ ids /\
  Forall (fun r => finds target targetErr priority (sm_MessageID r) r) (sw_got s) /\
  (sw_over s = true -> sw_cancelled s = false -> map sm_MessageID (sw_got s) ≡ₚ ids).
Proof.
  intros Hc Hr. pose proof (sweep_inv_reach _ _ _ _ _ _ Hc Hr) as Hi. pose proof (busy_open _ _ _ _ _ _ Hi) as Hbusy.
  destruct Hi as [H1 H2 H3 H4 H5 H6 H7 H8 H9 H10 H11 H12]. unfold reported in *.
  pose proof (settled_sub (sw_checks s)) as Hset.
  rewrite map_app in *. apply Forall_app in H11 as [H11 _]. split_and!; [|done|].
  - rewrite <- H5. transitivity (map sm_MessageID (sw_got s) ++ map sm_MessageID (sw_out s)); [apply submseteq_inserts_r; reflexivity|].
    rewrite H9, Hset. apply submseteq_inserts_r; reflexivity.
  - intros Ho Hcn. destruct (H8 Ho) as [Hcl Hout]. rewrite Hout, app_nil_r in H10. rewrite (H10 Hcn), <- H5.
    destruct (H6 ltac:(by rewrite Hcl)) as [Hx| ->]; [congruence|]. rewrite app_nil_r. unfold settled_ids.
    assert (Hall : List.filter settled (sw_checks s) = sw_checks s); [|by rewrite Hall].
    assert (Hs : forall i c, sw_checks s !! i = Some c -> settled c = true).
    { intros i [id p] Hj. destruct p; try done; by destruct (Hbusy _ _ _ Hj eq_refl). }
    clear -Hs. induction (sw_checks s) as [|c cs IH]; [done|]. simpl. rewrite (Hs 0%nat c eq_refl). f_equal. apply IH.
    intros i c' Hi. by apply (Hs (S i)).
Qed.

(** C15: A sweep ends: every step, of whichever goroutine, leaves less to do, so a sweep of
    n articles takes at most 7 n + 4 steps; there is a next step until the consumer has
    seen the end, and after a cancellation one that needs no consumer until the
    channel is closed. *)
Theorem sweep_ends conc target targetErr priority ids s :
  0 < conc -> sweep_reach conc target targetErr priority ids s ->
  (forall a s', sweep_step conc target targetErr priority a s s' -> (work s' < work s)%nat) /\
  (work s <= 7 * length ids + 4)%nat /\
  (sw_over s = false -> exists a s', a <> Caller /\ sweep_step conc target targetErr priority a s s') /\
  (sw_cancelled s = true -> sw_phase s <> Closed ->
   exists a s', a <> Caller /\ a <> Consumer /\ sweep_step conc target targetErr priority a s s').
Proof.
  intros Hc Hr. pose proof (sweep_progress _ _ _ _ _ _ Hc Hr) as Hp. split_and!.
  - intros a s'. apply step_works.
  - clear Hp. induction Hr as [|a s s' _ IH Hs]; [unfold work; simpl; lia|]. apply step_works in Hs. lia.
  - intros Ho. destruct Hp as [(a & s' & H1 & _ & H3)|[_ Hp]]; [by exists a, s'|]. destruct (Hp Ho) as [s' Hs]. by exists Consumer, s'.
  - intros Hcn Hcl. by destruct Hp as [Hp|[Hp _]]; [|destruct (Hcl (Hp Hcn))].
Qed.

(** The width of a sweep: positive, and no more than the articles when there are any. *)
Lemma sweep_width_pos opts ids : 0 < sweep_width opts ids /\ (ids <> [] -> sweep_width opts ids <= zlen ids).
Proof.
  unfold sweep_width, defaultStatConcurrency. destruct (Z.leb_spec (so_Concurrency opts) 0); cbv zeta;
    match goal with |- context [if ?b then _ else _] => destruct b eqn:E end; split; try lia; intros Hn;
    (assert (0 < zlen ids) by (destruct ids; [done|rewrite zlen_cons; pose proof (zlen_nonneg ids); lia])); lia.
Qed.

(** ** Witnesses *)

Definition miss : StatManyResult := mkStatMany (bs "a") None (Some (EOpaque "miss")).
Definition one_reach : sweep -> Prop := sweep_reach 1 None (Some (EOpaque "miss")) false [bs "a"].

Lemma miss_found : finds None (Some (EOpaque "miss")) false (bs "a") miss.
Proof. by exists []. Qed.

Lemma one_asking : one_reach (mkSweep [] Dispatching [(bs "a", Asking)] 1 1 [] [] false false).
Proof. eapply reach_step; [constructor|]. by apply (step_dispatch 1 _ _ _ (bs "a") [] [] 0 0 [] [] false false). Qed.

Lemma one_sent : one_reach (mkSweep [] Dispatching [(bs "a", Releasing)] 1 1 [miss] [] false false).
Proof.
  eapply reach_step; [eapply reach_step; [exact one_asking|]|].
  - apply (step_answer 1 _ _ _ 0 (bs "a") miss [] Dispatching [(bs "a", Asking)]); [done|exact miss_found].
  - by apply (step_send 1 _ _ _ 0 (bs "a") miss [] Dispatching [(bs "a", Sending miss)]).
Qed.

Lemma one_over : one_reach (mkSweep [] Closed [(bs "a", Finished)] 0 0 [] [miss] false true).
Proof.
  eapply reach_step; [eapply reach_step; [eapply reach_step; [eapply reach_step; [eapply reach_step; [eapply reach_step; [exact one_sent|]|]|]|]|]|].
  - by apply (step_release 1 _ _ _ 0 (bs "a") [] Dispatching [(bs "a", Releasing)] 1).
  - by apply (step_finish 1 _ _ _ 0 (bs "a") [] Dispatching [(bs "a", Finishing)]).
  - apply step_all.
  - apply step_close.
  - apply step_receive.
  - apply step_end.
Qed.

Lemma sweep_bounded_witness : count asking [(bs "a", Asking)] <= 1 /\ 0 < sw_sem (mkSweep [] Dispatching [(bs "a", Releasing)] 1 1 [miss] [] false false).
Proof.
  split; [apply (sweep_bounded 1 _ _ _ _ _ ltac:(done) one_asking)|].
  by apply (sweep_bounded 1 _ _ _ _ _ ltac:(done) one_sent) with (i := 0%nat) (id := bs "a").
Defined.

Lemma sweep_results_witness : one_reach (mkSweep [] Closed [(bs "a", Finished)] 0 0 [] [miss] false true) /\ map sm_MessageID [miss] ≡ₚ [bs "a"].
Proof. split; [exact one_over|]. by apply (sweep_results 1 _ _ _ _ _ ltac:(done) one_over). Defined.

Lemma sweep_ends_witness : exists a s', a <> Caller /\ sweep_step 1 None (Some (EOpaque "miss")) false a (mkSweep [] Dispatching [(bs "a", Releasing)] 1 1 [miss] [] false false) s'.
Proof. by apply (sweep_ends 1 _ _ _ _ _ ltac:(done) one_sent). Defined.

(** A request that was dispatched before the cancellation may leave no result, though its
    check was answered: the result is given up when both arms of its select are open. *)
Example cancelled_result_dropped : sweep_reach 1 None (Some (EOpaque "miss")) false [bs "a"] (mkSweep [] Dispatching [(bs "a", Releasing)] 1 1 [] [] true false).
Proof.
  eapply reach_step; [eapply reach_step; [eapply reach_step; [exact one_asking|]|]|].
  - apply (step_answer 1 _ _ _ 0 (bs "a") miss [] Dispatching [(bs "a", Asking)]); [done|exact miss_found].
  - apply step_cancel.
  - by apply (step_drop 1 _ _ _ 0 (bs "a") miss [] Dispatching [(bs "a", Sending miss)]).
Qed.
