(* ===== verification/Post.v ===== *)
(** Posting ([post.go] and the posting part of [client.go]): the checks and the text
    of an article's headers, and the stream that [PostYenc] sends.

    The time's text is computed from seconds since 1970; the yEnc encoder is a
    parameter. *)
From S2P Require Import Prelude Text Errors CircuitBreaker Reader Evidence Prog Dispatch Pool Article.
#[local] Open Scope prog_scope.

(** ** Headers *)

(** [ph_Date] is [None] for the zero time.  [ph_Extra] lists the map's entries in the
    order in which a [range] meets them. *)
Record PostHeaders := mkPostHeaders {
  ph_From : bytes;
  ph_Subject : bytes;
  ph_Newsgroups : list bytes;
  ph_MessageID : bytes;
  ph_Date : option Z;
  ph_Extra : list (bytes * list bytes)
}.

#[export] Instance eta_PostHeaders : Eta PostHeaders := fun h =>
  mkPostHeaders (ph_From h) (ph_Subject h) (ph_Newsgroups h) (ph_MessageID h) (ph_Date h) (ph_Extra h).

Definition maxHeaderLineLen : Z := 900.

Definition is_alnum (b : byte) : bool := in_range 97 122 b || in_range 65 90 b || in_range 48 57 b.
Definition is_group_mark (b : byte) : bool := bool_decide (b ∈ bs ".+_-").

(** A rune that is not ASCII fails the test as its bytes do. *)
Definition isValidNewsgroupName (s : bytes) : bool :=
  match s with
  | [] => false
  | c :: s => is_alnum c && forallb (fun b => is_alnum b || is_group_mark b) s
  end.

Definition containsCRLF (s : bytes) : bool := existsb is_crlf s.

Definition isValidHeaderName (s : bytes) : bool :=
  match s with
  | [] => false
  | _ => forallb (fun b => in_range 33 126 b && negb (bool_decide (b = x3a))) s
  end.

Definition isASCII (s : bytes) : bool := forallb is_ascii s.

(** A text that is not ASCII always needs encoding. *)
Definition encodeHeaderValue (s : bytes) : bytes := if isASCII s then s else encode_words s.

(** [strings.LastIndexAny(s, " \t")] *)
Fixpoint last_blank (s : bytes) : option nat :=
  match s with
  | [] => None
  | b :: s => match last_blank s with
              | Some i => Some (S i)
              | None => if is_blank b then Some 0%nat else None
              end
  end.

Definition blanks : bytes := [x20; x09].
Definition fold_mark : bytes := crlf ++ [x09].

(** The loop of [foldHeaderLine], which takes at least one byte each time. *)
Fixpoint fold_loop (fuel : nat) (remaining : bytes) : bytes :=
  match fuel with
  | O => remaining
  | S fuel =>
      if zlen remaining <=? maxHeaderLineLen then remaining
      else match last_blank (take (Z.to_nat maxHeaderLineLen) remaining) with
      | None | Some O => remaining
      | Some cut => take cut remaining ++ fold_mark ++ fold_loop fuel (trim_left blanks (drop cut remaining))
      end
  end.

Definition foldHeaderLine (line : bytes) : bytes := fold_loop (length line) line.

Definition checkExtra (kv : bytes * list bytes) : error :=
  let '(k, vs) := kv in
  if negb (isValidHeaderName k) then Some (EOpaque "nntp post: invalid Extra header name")
  else if existsb containsCRLF vs then Some (EOpaque "nntp post: Extra header value contains CR/LF")
  else None.

Fixpoint first_error {A} (check : A -> error) (l : list A) : error :=
  match l with
  | [] => None
  | a :: l => match check a with Some e => Some e | None => first_error check l end
  end.

Definition validate (h : PostHeaders) : error :=
  if bool_decide (TrimSpace (ph_From h) = []) then Some (EOpaque "nntp post: From header is required")
  else if containsCRLF (ph_From h) then Some (EOpaque "nntp post: From contains CR/LF")
  else if bool_decide (TrimSpace (ph_Subject h) = []) then Some (EOpaque "nntp post: Subject header is required")
  else if containsCRLF (ph_Subject h) then Some (EOpaque "nntp post: Subject contains CR/LF")
  else if bool_decide (ph_Newsgroups h = []) then Some (EOpaque "nntp post: at least one newsgroup is required")
  else if existsb (fun g => negb (isValidNewsgroupName (TrimSpace g))) (ph_Newsgroups h)
  then Some (EOpaque "nntp post: invalid newsgroup name")
  else if negb (bool_decide (ph_MessageID h = [])) && containsCRLF (ph_MessageID h)
  then Some (EOpaque "nntp post: Message-ID contains CR/LF")
  else if negb (bool_decide (ph_MessageID h = [])) &&
          (negb (has_prefix (bs "<") (ph_MessageID h)) || negb (has_suffix (bs ">") (ph_MessageID h)) ||
           existsb is_blank (ph_MessageID h))
  then Some (EOpaque "nntp post: malformed Message-ID")
  else first_error checkExtra (ph_Extra h).

(** ** The date: [t.UTC().Format(time.RFC1123)] *)

(** Year, month and day of a day number, the days of 400 years at a time. *)
Definition civil (days : Z) : Z * Z * Z :=
  let z := days + 719468 in
  let era := z / 146097 in
  let doe := z mod 146097 in
  let yoe := (doe - doe / 1460 + doe / 36524 - doe / 146096) / 365 in
  let doy := doe - (365 * yoe + yoe / 4 - yoe / 100) in
  let mp := (5 * doy + 2) / 153 in
  let d := doy - (153 * mp + 2) / 5 + 1 in
  let m := if mp <? 10 then mp + 3 else mp - 9 in
  (yoe + era * 400 + (if m <=? 2 then 1 else 0), m, d).

Definition day_names : list bytes := bs <$> ["Sun"; "Mon"; "Tue"; "Wed"; "Thu"; "Fri"; "Sat"]%string.
Definition month_names : list bytes :=
  bs <$> ["Jan"; "Feb"; "Mar"; "Apr"; "May"; "Jun"; "Jul"; "Aug"; "Sep"; "Oct"; "Nov"; "Dec"]%string.

Definition date_text (t : Z) : bytes :=
  let days := t / 86400 in
  let s := t mod 86400 in
  let '(y, m, d) := civil days in
  nth (Z.to_nat ((days + 4) mod 7)) day_names [] ++ bs ", " ++ padded 2 d ++ bs " " ++
  nth (Z.to_nat (m - 1)) month_names [] ++ bs " " ++ padded 4 y ++ bs " " ++
  padded 2 (s / 3600) ++ bs ":" ++ padded 2 (s / 60 mod 60) ++ bs ":" ++ padded 2 (s mod 60) ++ bs " UTC".

Example date_epoch : date_text 0 = bs "Thu, 01 Jan 1970 00:00:00 UTC".
Proof. by vm_compute. Qed.
Example date_leap : date_text 1709251199 = bs "Thu, 29 Feb 2024 23:59:59 UTC".
Proof. by vm_compute. Qed.
Example date_century : date_text (-2203891200) = bs "Thu, 01 Mar 1900 00:00:00 UTC".
Proof. by vm_compute. Qed.

(** ** Writing *)

(** [sort.Strings]: insertion by the order of the bytes. *)
Fixpoint bytes_leb (s t : bytes) : bool :=
  match s, t with
  | [], _ => true
  | _ :: _, [] => false
  | a :: s, b :: t => if bval a =? bval b then bytes_leb s t else bval a <? bval b
  end.

Fixpoint insert_key (kv : bytes * list bytes) (l : list (bytes * list bytes)) : list (bytes * list bytes) :=
  match l with
  | [] => [kv]
  | x :: l => if bytes_leb (fst kv) (fst x) then kv :: x :: l else x :: insert_key kv l
  end.
Definition sort_keys (l : list (bytes * list bytes)) : list (bytes * list bytes) := foldr insert_key [] l.

(** The headers in the order they are written; [now] is the clock. *)
Definition header_fields (h : PostHeaders) (now : Z) : list (bytes * bytes) :=
  [(bs "From", encodeHeaderValue (ph_From h));
   (bs "Newsgroups", join (bs ", ") (TrimSpace <$> ph_Newsgroups h));
   (bs "Subject", encodeHeaderValue (ph_Subject h))] ++
  (if bool_decide (ph_MessageID h = []) then [] else [(bs "Message-ID", ph_MessageID h)]) ++
  (if existsb (fun kv => bool_decide (fst kv = bs "Date")) (ph_Extra h) then []
   else [(bs "Date", date_text (match ph_Date h with Some t => t | None => now end))]) ++
  flat_map (fun kv => map (pair (fst kv)) (snd kv)) (sort_keys (ph_Extra h)).

Definition header_line (field : bytes * bytes) : bytes := foldHeaderLine (fst field ++ bs ": " ++ snd field).

Section Write.
(** [io.WriteString]: the bytes written, the error and the writer. *)
Context {W : Type} (write : W -> bytes -> Z * error * W).

(** Writes until one fails; [total] counts the bytes. *)
Fixpoint write_all (chunks : list bytes) (total : Z) (w : W) : Z * error * W :=
  match chunks with
  | [] => (total, None, w)
  | c :: chunks =>
      let '(n, err, w) := write w c in
      if is_nil err then write_all chunks (total + n) w else (total + n, err, w)
  end.

Definition WriteTo (h : PostHeaders) (now : Z) (w : W) : Z * error * W :=
  match validate h with
  | Some e => (0, Some e, w)
  | None => write_all (map (fun f => header_line f ++ crlf) (header_fields h now) ++ [crlf]) 0 w
  end.

(** The goroutine of [PostYenc]: what it writes into the pipe, and the error it closes
    the pipe with.  [encode] is the encoder over the whole body: the pieces it writes
    and the error with which it, or the body's reader, ends. *)
Context (encode : list bytes * error).

Definition postStream (h : PostHeaders) (now : Z) (w : W) : error * W :=
  let '(_, err, w) := WriteTo h now w in
  match err with
  | Some e => (Some e, w)
  | None =>
      let '(_, err, w) := write_all (fst encode) 0 w in
      match err with
      | Some e => (Some e, w)
      | None =>
          match snd encode with
          | Some e => (Some e, w)
          | None => let '(_, err, w) := write w (bs "." ++ crlf) in (err, w)
          end
      end
  end.
End Write.

(** ** Sending *)

Record PostResult := mkPostResult { pr_StatusCode : Z; pr_Status : bytes }.

Inductive post_sel := PostPool | PostCtx | PostGroup | PostSent.

Inductive pquery :=
| PLoad
| PAvailable (g : providerGroup)
| PNextIdx
| PHot (g : providerGroup)
| PCold (g : providerGroup)
| PReply (g : providerGroup)
| PPoolErr
| PCtxErr
| PDeliver (resp : Response).

(** [PReply]: [None] when the channel was closed without a response. *)
Definition pans (q : pquery) : Type :=
  match q with
  | PLoad => list providerGroup
  | PAvailable _ | PNextIdx => Z
  | PHot _ => bool
  | PCold _ => post_sel
  | PReply _ => option Response
  | PPoolErr | PCtxErr => error
  | PDeliver _ => unit
  end.

Definition pprog : Type -> Type := prog pans Empty_set Empty_set.
Definition pask (q : pquery) : pprog (pans q) := ask q.

(** The first provider with a free slot, or the first one. *)
Fixpoint post_fifo (gs : list providerGroup) (i : nat) : pprog nat :=
  match gs with
  | [] => Ret 0%nat
  | g :: gs =>
      let! a := pask (PAvailable g) in
      if 0 <? a then Ret i else post_fifo gs (S i)
  end.

Fixpoint post_weights (gs : list providerGroup) : pprog (list Z) :=
  match gs with
  | [] => Ret []
  | g :: gs =>
      let! a := pask (PAvailable g) in
      let! ws := post_weights gs in
      Ret (Z.max 1 a :: ws)
  end.

(** [None]: the ninth provider overruns the array of cumulative weights. *)
Definition post_start (s : DispatchStrategy) (mains : list providerGroup) : pprog (option nat) :=
  match s with
  | DispatchFIFO => let! i := post_fifo mains 0 in Ret (Some i)
  | DispatchRoundRobin =>
      if (8 <? length mains)%nat then post_weights (take 9 mains) ;! Ret None
      else
        let! ws := post_weights mains in
        let! v := pask PNextIdx in
        Ret (Some (pick ws (v mod total_weight ws)))
  end.

(** The providers from the first choice on. *)
Fixpoint post_try (gs : list providerGroup) (lastErr : error) : pprog unit :=
  match gs with
  | [] => pask (PDeliver (errResponse (match lastErr with
                                       | Some e => Some (EWrap "nntp: post failed" e)
                                       | None => Some (EOpaque "nntp: post failed: all providers exhausted")
                                       end)))
  | g :: gs =>
      let wait :=
        let! r := pask (PReply g) in
        match r with
        | None => post_try gs lastErr
        | Some resp => match rs_Err resp with
                       | Some e => post_try gs (Some e)
                       | None => pask (PDeliver resp)
                       end
        end in
      let! hot := pask (PHot g) in
      if (hot : bool) then wait
      else
        let! s := pask (PCold g) in
        match s with
        | PostPool => let! e := pask PPoolErr in pask (PDeliver (errResponse e))
        | PostCtx => let! e := pask PCtxErr in pask (PDeliver (errResponse e))
        | PostGroup => post_try gs lastErr
        | PostSent => wait
        end
  end.

(** [doSendPost]: false when it panics. *)
Definition doSendPost (s : DispatchStrategy) : pprog bool :=
  let! mains := pask PLoad in
  match mains with
  | [] => pask (PDeliver (errResponse (Some (EOpaque "nntp: no main providers")))) ;! Ret true
  | _ =>
      let! start := post_start s mains in
      match start with
      | None => Ret false
      | Some i => post_try (rotate i mains) None ;! Ret true
      end
  end.

Definition finishPost (resp : Response) : PostResult + gerror :=
  match rs_Err resp with
  | Some e => inr e
  | None =>
      match toError (rs_StatusCode resp) (rs_Status resp) with
      | Some e => inr e
      | None => inl (mkPostResult (rs_StatusCode resp) (rs_Status resp))
      end
  end.

(** ** Lemmas: folding *)

(** The physical lines of a header line, without the marks between them. *)
Fixpoint fold_pieces (fuel : nat) (remaining : bytes) : list bytes :=
  match fuel with
  | O => [remaining]
  | S fuel =>
      if zlen remaining <=? maxHeaderLineLen then [remaining]
      else match last_blank (take (Z.to_nat maxHeaderLineLen) remaining) with
      | None | Some O => [remaining]
      | Some cut => take cut remaining :: fold_pieces fuel (trim_left blanks (drop cut remaining))
      end
  end.

(** [line] is the pieces with blanks between them. *)
Inductive refolded : list bytes -> bytes -> Prop :=
| refolded_one p : refolded [p] p
| refolded_more p ps w rest :
    w <> [] -> Forall (fun b => is_blank b = true) w -> refolded ps rest -> refolded (p :: ps) (p ++ w ++ rest).

(** Short enough, or without a place to cut it. *)
Definition unfoldable (p : bytes) : Prop :=
  zlen p <= maxHeaderLineLen \/
  match last_blank (take (Z.to_nat maxHeaderLineLen) p) with None | Some O => True | _ => False end.

Lemma join_cons sep (x : bytes) l : l <> [] -> join sep (x :: l) = x ++ sep ++ join sep l.
Proof. by destruct l. Qed.

Lemma fold_pieces_not_nil fuel line : fold_pieces fuel line <> [].
Proof. destruct fuel; cbn [fold_pieces]; [done|]. destruct (_ <=? _); [done|]. by destruct (last_blank _) as [[|]|]. Qed.

Lemma fold_loop_pieces fuel : forall line, fold_loop fuel line = join fold_mark (fold_pieces fuel line).
Proof.
  induction fuel as [|fuel IH]; intros line; cbn [fold_loop fold_pieces]; [done|]. destruct (_ <=? _); [done|].
  destruct (last_blank _) as [[|cut]|]; [done| |done]. rewrite join_cons by apply fold_pieces_not_nil. by rewrite IH.
Qed.

Lemma last_blank_Some s i : last_blank s = Some i -> exists b t, s = take i s ++ b :: t /\ is_blank b = true /\ (i < length s)%nat.
Proof.
  revert i; induction s as [|c s IH]; intros i; simpl; [done|]. destruct (last_blank s) as [j|] eqn:E.
  - intros [= <-]. destruct (IH j eq_refl) as (b & t & Hs & Hb & Hl). exists b, t. simpl. split; [by rewrite <- Hs|]. split; [done|lia].
  - destruct (is_blank c) eqn:Ec; [|done]. intros [= <-]. exists c, s. split; [done|]. split; [done|lia].
Qed.

Lemma trim_blanks s : exists w, s = w ++ trim_left blanks s /\ Forall (fun b => is_blank b = true) w.
Proof.
  induction s as [|b s IH]; [by exists []|]. simpl. case_bool_decide as H.
  - destruct IH as (w & Hs & Hw). exists (b :: w). split; [simpl; by rewrite <- Hs|]. constructor; [|done].
    unfold is_blank. apply list_elem_of_In in H as [<-|[<-|[]]]; done.
  - by exists [].
Qed.

Lemma trim_blanks_cons b s : is_blank b = true -> trim_left blanks (b :: s) = trim_left blanks s.
Proof.
  intros Hb. apply trim_left_drop. unfold is_blank in Hb. apply orb_true_iff in Hb as [->%bool_decide_eq_true | ->%bool_decide_eq_true];
    [by left|by right; left].
Qed.

(** What a cut leaves: the piece, the blanks and the rest, which is shorter. *)
Lemma cut_shape line cut : last_blank (take (Z.to_nat maxHeaderLineLen) line) = Some cut ->
  exists w, w <> [] /\ Forall (fun b => is_blank b = true) w /\
    line = take cut line ++ w ++ trim_left blanks (drop cut line) /\ (cut < 900)%nat /\ (cut < length line)%nat.
Proof.
  intros H. apply last_blank_Some in H as (b & t & Ht & Hb & Hl). rewrite length_take in Hl. change (Z.to_nat maxHeaderLineLen) with 900%nat in *.
  assert (Hd : exists u, drop cut line = b :: u).
  { rewrite <- (take_drop 900 line), Ht, take_take, Nat.min_l by lia. rewrite <- app_assoc.
    exists (t ++ drop 900 line). rewrite drop_app_length'; [done|]. rewrite length_take. lia. }
  destruct Hd as [u Hu]. destruct (trim_blanks u) as (w & Hw & Hbw). exists (b :: w). split; [done|]. split; [by constructor|].
  rewrite Hu, trim_blanks_cons by done. split; [|lia]. rewrite <- (take_drop cut line) at 1. rewrite Hu. f_equal. simpl. by rewrite <- Hw.
Qed.

Lemma fold_pieces_spec fuel : forall line, (length line <= fuel)%nat ->
  refolded (fold_pieces fuel line) line /\ Forall unfoldable (fold_pieces fuel line).
Proof.
  induction fuel as [|fuel IH]; intros line Hf; cbn [fold_pieces].
  - destruct line; [|simpl in Hf; lia]. split; [constructor|]. constructor; [|done]. left. done.
  - destruct (Z.leb_spec (zlen line) maxHeaderLineLen) as [Hz|Hz]; [split; [constructor|]; constructor; [by left|done]|].
    destruct (last_blank _) as [[|cut]|] eqn:E; [split; [constructor|]; constructor; [right; by rewrite E|done]| |
      split; [constructor|]; constructor; [right; by rewrite E|done]].
    destruct (cut_shape line (S cut) E) as (w & Hw & Hb & Hl & H1 & H2).
    assert (Hlen : (length (trim_left blanks (drop (S cut) line)) <= fuel)%nat).
    { apply (f_equal length) in Hl. rewrite !length_app, length_take in Hl. destruct w; [done|]. simpl in Hl. lia. }
    destruct (IH _ Hlen) as [H3 H4]. split.
    + pose proof (refolded_more (take (S cut) line) _ w _ Hw Hb H3) as Hgoal. by rewrite <- Hl in Hgoal.
    + constructor; [|done]. left. unfold zlen. rewrite length_take. unfold maxHeaderLineLen. lia.
Qed.

Definition pieces_of (line : bytes) : list bytes := fold_pieces (length line) line.

Lemma foldHeaderLine_join line : foldHeaderLine line = join fold_mark (pieces_of line).
Proof. apply fold_loop_pieces. Qed.

Lemma pieces_spec line : refolded (pieces_of line) line /\ Forall unfoldable (pieces_of line).
Proof. by apply fold_pieces_spec. Qed.

Lemma refolded_Forall (P : byte -> Prop) ps line : refolded ps line -> Forall P line -> Forall (Forall P) ps.
Proof.
  induction 1 as [p|p ps w rest _ _ _ IH]; intros Hl; [by constructor|]. rewrite !Forall_app in Hl.
  destruct Hl as (H1 & _ & H2). constructor; auto.
Qed.

Lemma refolded_words ps line : refolded ps line -> flat_map words ps = words line.
Proof.
  induction 1 as [p|p ps w rest Hw Hb _ IH]; [apply app_nil_r|]. simpl. by rewrite words_app, IH.
Qed.

(** ** Lemmas: the block of headers *)

(** The physical lines of a header. *)
Definition field_lines (f : bytes * bytes) : list bytes :=
  match pieces_of (fst f ++ bs ": " ++ snd f) with
  | p :: ps => p :: map (cons x09) ps
  | [] => []
  end.
Definition block_lines (h : PostHeaders) (now : Z) : list bytes := flat_map field_lines (header_fields h now).

Lemma wire_lines_app a b : wire_lines (a ++ b) = wire_lines a ++ wire_lines b.
Proof. unfold wire_lines. by rewrite fmap_app, concat_app. Qed.

Lemma header_line_wire f : header_line f ++ crlf = wire_lines (field_lines f).
Proof.
  unfold header_line, field_lines. rewrite foldHeaderLine_join.
  pose proof (fold_pieces_not_nil (length (fst f ++ bs ": " ++ snd f)) (fst f ++ bs ": " ++ snd f)) as Hn.
  fold (pieces_of (fst f ++ bs ": " ++ snd f)) in Hn. destruct (pieces_of _) as [|p ps]; [done|]. clear Hn. revert p.
  induction ps as [|q ps IH]; intros p; [by unfold wire_lines; simpl; rewrite app_nil_r|].
  rewrite join_cons by done. rewrite wire_lines_cons, <- !app_assoc, (IH q).
  simpl map. rewrite !wire_lines_cons. unfold fold_mark. by rewrite <- !app_assoc.
Qed.

(** A writer that takes everything. *)
Definition sink_all (w c : bytes) : Z * error * bytes := (zlen c, None, w ++ c).

Lemma write_all_sink chunks : forall n w, write_all sink_all chunks n w = (n + zlen (concat chunks), None, w ++ concat chunks).
Proof.
  induction chunks as [|c cs IH]; intros n w; simpl; [by rewrite app_nil_r, zlen_nil, Z.add_0_r|].
  by rewrite IH, <- app_assoc, zlen_app, Z.add_assoc.
Qed.

Lemma block_text h now : concat (map (fun f => header_line f ++ crlf) (header_fields h now) ++ [crlf]) =
  wire_lines (block_lines h now ++ [[]]).
Proof.
  unfold block_lines. rewrite concat_app, wire_lines_app. f_equal. induction (header_fields h now) as [|f fs IH]; [done|].
  simpl. by rewrite header_line_wire, wire_lines_app, IH.
Qed.

(** *** Names and values *)

Definition name_ok (n : bytes) : Prop := isValidHeaderName n = true.

Lemma name_bytes n : name_ok n -> n <> [] /\ Forall (fun b => in_range 33 126 b = true /\ b <> x3a) n.
Proof.
  unfold name_ok, isValidHeaderName. destruct n as [|c n]; [done|]. intros H. split; [done|]. rewrite forallb_forall in H.
  apply list.Forall_forall. intros b Hb%list_elem_of_In. specialize (H b Hb). apply andb_true_iff in H as [H1 H2].
  split; [done|]. apply negb_true_iff, bool_decide_eq_false in H2. done.
Qed.

Lemma graphic_not_blank b : in_range 33 126 b = true -> is_printable b = true /\ is_blank b = false /\ is_crlf b = false.
Proof.
  intros H. pose proof (byte_check (fun b => implb (in_range 33 126 b) (is_printable b && negb (is_blank b) && negb (is_crlf b))) eq_refl b) as Hc.
  cbv beta in Hc. rewrite H in Hc. simpl in Hc. by destruct (is_printable b), (is_blank b), (is_crlf b).
Qed.

Lemma name_solid n : name_ok n -> printable n /\ Forall (fun b => is_blank b = false) n /\ plain n /\ (x3a ∉ n).
Proof.
  intros H. apply name_bytes in H as [_ H]. unfold printable, plain. split_and!.
  1-3: eapply list.Forall_impl; [exact H|]; intros b [Hb _]; by apply graphic_not_blank.
  intros Hin. rewrite list.Forall_forall in H. by destruct (H _ Hin).
Qed.

Lemma contains_plain s : containsCRLF s = false -> plain s.
Proof.
  intros H. apply list.Forall_forall. intros b Hb%list_elem_of_In. destruct (is_crlf b) eqn:E; [|done].
  exfalso. assert (Hx : containsCRLF s = true) by (apply existsb_exists; eauto). congruence.
Qed.

Lemma digit_plain b : is_digit b -> is_crlf b = false.
Proof.
  intros [H1 H2]. pose proof (byte_check (fun b => implb (in_range 48 57 b) (negb (is_crlf b))) eq_refl b) as Hc. cbv beta in Hc.
  unfold in_range in Hc. rewrite (proj2 (Z.leb_le _ _) H1), (proj2 (Z.leb_le _ _) H2) in Hc. simpl in Hc. by apply negb_true_iff in Hc.
Qed.

Lemma padded_plain k n : plain (padded k n).
Proof.
  eapply list.Forall_impl; [apply padded_digits|]. intros b. apply digit_plain.
Qed.

Lemma nth_plain l i : Forall plain l -> plain (nth i l []).
Proof.
  intros H. destruct (nth_in_or_default i l []) as [Hin| ->]; [|by constructor].
  rewrite list.Forall_forall in H. apply H. by apply list_elem_of_In.
Qed.

Lemma date_plain t : plain (date_text t).
Proof.
  unfold date_text. destruct (civil (t / 86400)) as [[y m] d]. rewrite !plain_app.
  split_and!; try apply padded_plain; try (apply nth_plain; by repeat constructor); by repeat constructor.
Qed.

(** *** A valid set of headers *)

Lemma first_error_None {A} (check : A -> error) l : first_error check l = None -> Forall (fun a => check a = None) l.
Proof. induction l as [|a l IH]; intros H; [done|]. simpl in H. destruct (check a) eqn:E; [done|]. constructor; auto. Qed.

Lemma insert_key_perm kv l : Permutation (insert_key kv l) (kv :: l).
Proof.
  induction l as [|x l IH]; [done|]. simpl. destruct (bytes_leb _ _); [done|]. etransitivity; [by constructor|]. constructor.
Qed.
Lemma sort_keys_perm l : Permutation (sort_keys l) l.
Proof. induction l as [|x l IH]; [done|]. simpl. rewrite insert_key_perm. by constructor. Qed.

Lemma alnum_plain b : is_alnum b || is_group_mark b = true -> is_crlf b = false /\ is_printable b = true.
Proof.
  intros H. pose proof (byte_check (fun b => implb (is_alnum b || is_group_mark b) (negb (is_crlf b) && is_printable b)) eq_refl b) as Hc.
  cbv beta in Hc. rewrite H in Hc. simpl in Hc. by destruct (is_crlf b), (is_printable b).
Qed.

Lemma group_plain g : isValidNewsgroupName g = true -> plain g.
Proof.
  destruct g as [|c g]; [done|]. simpl. intros [Hc Hg]%andb_true_iff. constructor.
  - apply alnum_plain. by rewrite Hc.
  - apply list.Forall_forall. intros b Hb%list_elem_of_In. rewrite forallb_forall in Hg. by apply alnum_plain, Hg.
Qed.

Lemma encoded_value_plain s : containsCRLF s = false -> plain (encodeHeaderValue s).
Proof. intros H. unfold encodeHeaderValue. destruct (isASCII s); [by apply contains_plain|apply encode_words_plain]. Qed.

(** Every header has a proper name and a value without line ends. *)
Lemma valid_fields h now : validate h = None -> Forall (fun f => name_ok (fst f) /\ plain (snd f)) (header_fields h now).
Proof.
  intros H. unfold validate in H. case_bool_decide; [done|]. destruct (containsCRLF (ph_From h)) eqn:Ef; [done|].
  case_bool_decide; [done|]. destruct (containsCRLF (ph_Subject h)) eqn:Es; [done|]. case_bool_decide; [done|].
  destruct (existsb _ (ph_Newsgroups h)) eqn:Eg; [done|].
  destruct (negb (bool_decide (ph_MessageID h = [])) && containsCRLF (ph_MessageID h)) eqn:Em; [done|].
  match type of H with (if ?b then _ else _) = _ => destruct b; [done|] end. apply first_error_None in H. unfold header_fields. rewrite !Forall_app. split_and!.
  - repeat constructor; simpl; try apply encoded_value_plain; try done. apply join_Forall; [by repeat constructor|]. apply Forall_fmap.
    apply list.Forall_forall. intros g Hg%list_elem_of_In. apply group_plain. destruct (isValidNewsgroupName (TrimSpace g)) eqn:Ev; [done|].
    assert (Hx : existsb (fun g => negb (isValidNewsgroupName (TrimSpace g))) (ph_Newsgroups h) = true); [|congruence].
    apply existsb_exists. exists g. by rewrite Ev.
  - case_bool_decide; [done|]. simpl in Em. repeat constructor. by apply contains_plain.
  - destruct (existsb _ (ph_Extra h)); [done|]. repeat constructor. apply date_plain.
  - apply list.Forall_forall. intros [k v] Hin. apply list_elem_of_In, in_flat_map in Hin as ([k' vs] & Hkv & Hv).
    simpl in Hv. apply in_map_iff in Hv as (v' & [= -> ->] & Hv). apply list_elem_of_In in Hkv. rewrite sort_keys_perm in Hkv.
    rewrite list.Forall_forall in H. specialize (H _ Hkv). unfold checkExtra in H. destruct (isValidHeaderName k) eqn:Ek; [|done].
    simpl in H. destruct (existsb containsCRLF vs) eqn:Ev; [done|]. split; [done|]. apply contains_plain.
    destruct (containsCRLF v) eqn:Ec; [|done]. simpl. assert (Hx : existsb containsCRLF vs = true) by (apply existsb_exists; eauto). congruence.
Qed.

(** *** The lines of a header *)

Lemma solid_prefix a b p c d : Forall (fun b => is_blank b = false) a -> a ++ b = p ++ c :: d -> is_blank c = true ->
  exists p', p = a ++ p' /\ b = p' ++ c :: d.
Proof.
  intros Ha. revert p. induction Ha as [|x a Hx _ IH]; intros p He Hc; [by exists p|]. destruct p as [|y p]; injection He as -> He; [congruence|].
  destruct (IH p He Hc) as (p' & -> & Hb). by exists p'.
Qed.

(** The first line has the name; the pieces after it are those of the value. *)
Lemma field_pieces f : name_ok (fst f) ->
  exists p ps, field_lines f = (fst f ++ bs ":" ++ p) :: map (cons x09) ps /\ refolded (p :: ps) (x20 :: snd f).
Proof.
  intros Hn. apply name_solid in Hn as (_ & Hs & _ & _). unfold field_lines.
  destruct (pieces_spec (fst f ++ bs ": " ++ snd f)) as [Hr _].
  assert (Hl : fst f ++ bs ": " ++ snd f = (fst f ++ bs ":") ++ x20 :: snd f) by (by rewrite <- app_assoc).
  rewrite Hl in Hr |- *. assert (Ha : Forall (fun b => is_blank b = false) (fst f ++ bs ":")).
  { apply Forall_app. split; [done|]. by repeat constructor. }
  inversion Hr as [p Hp|p ps w rest Hw Hb Hrest Hp Hline].
  - exists (x20 :: snd f), []. split; [by rewrite <- app_assoc|]. constructor.
  - destruct w as [|c w]; [done|]. destruct (solid_prefix _ _ p c (w ++ rest) Ha (eq_sym Hline)) as (p' & -> & Hv).
    { by apply Forall_cons_iff in Hb as [? _]. }
    exists p', ps. split; [by rewrite <- app_assoc|]. rewrite Hv. by apply (refolded_more p' ps (c :: w) rest).
Qed.

(** What [parseHeaders] makes of the pieces of a value. *)
Definition parsed_value (p : bytes) (ps : list bytes) : bytes :=
  fold_left (fun acc q => acc ++ x20 :: TrimSpace (x09 :: q)) ps (TrimSpace p).

Lemma append_last_snoc more vs v : append_last more (vs ++ [v]) = vs ++ [v ++ more].
Proof. unfold append_last. rewrite rev_app_distr. simpl. by rewrite rev_involutive. Qed.

Lemma parse_field name p ps hs k : name_ok name ->
  fold_left header_step ((name ++ bs ":" ++ p) :: map (cons x09) ps) (hs, k) =
  (<[name := default [] (hs !! name) ++ [parsed_value p ps]]> hs, name).
Proof.
  intros Hn. destruct (name_bytes name Hn) as [Hne Hb]. destruct (name_solid name Hn) as (Hpr & Hs & _ & Hcol).
  assert (H1 : header_step (hs, k) (name ++ bs ":" ++ p) = (<[name := default [] (hs !! name) ++ [TrimSpace p]]> hs, name)).
  { destruct name as [|c n]; [done|]. unfold header_step. rewrite <- app_comm_cons. apply Forall_cons_iff in Hs as [-> _].
    rewrite app_comm_cons. change (bs ":") with [x3a]. rewrite cut_at_fresh by done. by rewrite TrimSpace_solid by (done || by apply name_solid). }
  cbn [fold_left]. rewrite H1. clear H1. unfold parsed_value. generalize (TrimSpace p) as v.
  induction ps as [|q ps IH]; intros v; [done|]. cbn [map fold_left]. destruct name as [|c n]; [done|].
  unfold header_step at 2. change (is_blank x09) with true. cbv iota. rewrite lookup_insert, decide_True by done.
  rewrite append_last_snoc, insert_insert, decide_True by done. apply (IH (v ++ x20 :: TrimSpace (x09 :: q))).
Qed.

Lemma parsed_words p ps v : refolded (p :: ps) (x20 :: v) -> printable v -> words (parsed_value p ps) = words v.
Proof.
  intros Hr Hv. assert (Hp : Forall printable (p :: ps)) by (apply (refolded_Forall _ _ _ Hr); by constructor).
  apply refolded_words in Hr. change (x20 :: v) with ([x20] ++ v) in Hr. rewrite words_blank_left in Hr by (by repeat constructor).
  rewrite <- Hr. apply Forall_cons_iff in Hp as [Hp Hps]. simpl. rewrite <- (words_TrimSpace p) by done. unfold parsed_value.
  generalize (TrimSpace p) as acc. clear Hr. induction Hps as [|q ps Hq Hps IH]; intros acc; simpl; [by rewrite app_nil_r|].
  rewrite IH. change (acc ++ x20 :: TrimSpace (x09 :: q)) with (acc ++ [x20] ++ TrimSpace (x09 :: q)).
  rewrite words_app by (done || by repeat constructor). rewrite <- app_assoc. f_equal. f_equal.
  rewrite words_TrimSpace by (by constructor). change (x09 :: q) with ([x09] ++ q). apply words_blank_left. by repeat constructor.
Qed.

(** *** The lines on the wire *)

(** A header's lines: its name on the first, a tab on the others; each piece is short,
    or has no place to cut it. *)
Definition lines_of (f : bytes * bytes) (ls : list bytes) : Prop :=
  exists p ps, ls = p :: map (cons x09) ps /\ has_prefix (fst f ++ bs ":") p = true /\ Forall unfoldable (p :: ps).

Lemma field_lines_of f : name_ok (fst f) -> lines_of f (field_lines f).
Proof.
  intros Hn. destruct (field_pieces f Hn) as (p & ps & Hf & _). exists (fst f ++ bs ":" ++ p), ps. split; [done|]. split.
  - rewrite (app_assoc (fst f) (bs ":") p). apply has_prefix_app.
  - pose proof (proj2 (pieces_spec (fst f ++ bs ": " ++ snd f))) as Hu. unfold field_lines in Hf.
    destruct (pieces_of _) as [|q qs]; [done|]. injection Hf as -> Hf.
    assert (Hq : qs = ps); [|by subst qs]. clear -Hf. revert ps Hf. induction qs as [|q qs IH]; intros [|p ps] [=]; [done|].
    subst. f_equal. auto.
Qed.

Lemma field_lines_plain f : name_ok (fst f) -> plain (snd f) -> Forall plain (field_lines f).
Proof.
  intros Hn Hv. unfold field_lines. pose proof (proj1 (pieces_spec (fst f ++ bs ": " ++ snd f))) as Hr.
  apply (refolded_Forall (fun b => is_crlf b = false)) in Hr.
  - destruct (pieces_of _) as [|p ps]; [done|]. apply Forall_cons_iff in Hr as [Hp Hps]. constructor; [done|]. apply Forall_map.
    eapply list.Forall_impl; [exact Hps|]. intros q Hq. by constructor.
  - apply name_solid in Hn as (_ & _ & Hn & _). rewrite !Forall_app. split_and!; [done|by repeat constructor|done].
Qed.

Lemma block_plain h now : validate h = None -> Forall plain (block_lines h now).
Proof.
  intros H. apply (valid_fields h now) in H. unfold block_lines. induction H as [|f fs [Hn Hv] _ IH]; [constructor|].
  simpl. apply Forall_app. split; [by apply field_lines_plain|done].
Qed.

(** The first byte of a line that belongs to a header. *)
Lemma field_lines_heads f : name_ok (fst f) -> Forall (fun l => head l = Some x09 \/ (head l = head (fst f) /\ l <> [])) (field_lines f).
Proof.
  intros Hn. destruct (field_pieces f Hn) as (p & ps & -> & _). apply name_bytes in Hn as [Hne _].
  constructor; [right; by destruct (fst f)|]. apply Forall_map, Forall_true. by left.
Qed.

Lemma block_not_empty h now : validate h = None -> Forall (fun l => l <> []) (block_lines h now).
Proof.
  intros H. apply (valid_fields h now) in H. unfold block_lines. induction H as [|f fs [Hn _] _ IH]; [constructor|].
  simpl. apply Forall_app. split; [|done]. eapply list.Forall_impl; [by apply field_lines_heads|].
  intros l [Hl|[_ Hl]]; [by destruct l|done].
Qed.

Lemma WriteTo_valid h now w : validate h = None ->
  WriteTo sink_all h now w = (zlen (wire_lines (block_lines h now ++ [[]])), None, w ++ wire_lines (block_lines h now ++ [[]])).
Proof. intros H. unfold WriteTo. rewrite H, write_all_sink, block_text. by rewrite Z.add_0_l. Qed.

(** *** A receiver *)

Definition dot_stuff (l : bytes) : bytes := match l with x2e :: _ => x2e :: l | _ => l end.
Definition unstuff (l : bytes) : bytes := match l with x2e :: l => l | _ => l end.

(** RFC 3977: the lines up to the one that is a dot, and what follows it. *)
Fixpoint receive (fuel : nat) (s : bytes) : option (list bytes * bytes) :=
  match fuel with
  | O => None
  | S fuel =>
      match cut_at crlf s with
      | None => None
      | Some (l, rest) =>
          if bool_decide (l = bs ".") then Some ([], rest)
          else match receive fuel rest with
          | Some (ls, more) => Some (unstuff l :: ls, more)
          | None => None
          end
      end
  end.

Lemma cut_plain l rest : plain l -> cut_at crlf (l ++ crlf ++ rest) = Some (l, rest).
Proof.
  intros H. apply (cut_at_fresh x0d [x0a]). intros Hin. unfold plain in H. rewrite list.Forall_forall in H. by specialize (H _ Hin).
Qed.

Lemma stuff_facts l : plain l -> plain (dot_stuff l) /\ dot_stuff l <> bs "." /\ unstuff (dot_stuff l) = l.
Proof. intros H. destruct l as [|[] l]; (split; [try done; by constructor|split; [done|done]]). Qed.

Lemma receive_lines ls rest : Forall plain ls -> forall fuel, (length ls < fuel)%nat ->
  receive fuel (wire_lines (dot_stuff <$> ls) ++ bs "." ++ crlf ++ rest) = Some (ls, rest).
Proof.
  induction 1 as [|l ls Hl _ IH]; intros fuel Hf; (destruct fuel as [|fuel]; [simpl in Hf; lia|]); cbn [receive].
  - unfold wire_lines. simpl fmap. simpl concat. rewrite app_nil_l, cut_plain by (by repeat constructor).
    by rewrite bool_decide_eq_true_2.
  - destruct (stuff_facts l Hl) as (H1 & H2 & H3). rewrite fmap_cons, wire_lines_cons, <- !app_assoc, cut_plain by done.
    rewrite bool_decide_eq_false_2 by done. rewrite IH by (simpl in Hf; lia). by rewrite H3.
Qed.

Definition not_dotted (l : bytes) : Prop := dot_stuff l = l.

Lemma not_dotted_all ls : Forall not_dotted ls -> map unstuff ls = ls.
Proof. unfold not_dotted. induction 1 as [|l ls H _ IH]; [done|]. simpl. rewrite IH. f_equal. destruct l as [|[] l]; simplify_eq/=; try done. Qed.

Lemma block_not_dotted h now : validate h = None -> Forall (fun kv => head (fst kv) <> Some x2e) (ph_Extra h) ->
  Forall not_dotted (block_lines h now).
Proof.
  intros Hv He. apply (valid_fields h now) in Hv.
  assert (Hd : Forall (fun f => head (fst f) <> Some x2e) (header_fields h now)).
  { unfold header_fields. rewrite !Forall_app. split_and!; [by repeat constructor| | |].
    - case_bool_decide; [done|]. by repeat constructor.
    - destruct (existsb _ (ph_Extra h)); [done|]. by repeat constructor.
    - apply list.Forall_forall. intros [k v] Hin. apply list_elem_of_In, in_flat_map in Hin as ([k' vs] & Hkv & Hin).
      apply in_map_iff in Hin as (v' & [= -> ->] & _). apply list_elem_of_In in Hkv. rewrite sort_keys_perm in Hkv.
      rewrite list.Forall_forall in He. by apply (He _ Hkv). }
  unfold block_lines. induction Hv as [|f fs [Hn _] _ IH]; [constructor|]. apply Forall_cons_iff in Hd as [Hf Hd]. simpl.
  apply Forall_app. split; [|by apply IH]. eapply list.Forall_impl; [by apply field_lines_heads|].
  intros l [Hl|[Hl _]]; destruct l as [|b l]; try done; simpl in Hl; [by injection Hl as ->|].
  by destruct b.
Qed.

(** *** Reading the headers back *)

(** No line of a header is the dot that ends the text. *)
Lemma block_not_dot h now : validate h = None -> Forall (fun l => plain l /\ l <> bs ".") (block_lines h now).
Proof.
  intros Hv. apply list.Forall_and. split; [by apply block_plain|]. apply (valid_fields h now) in Hv.
  unfold block_lines. induction Hv as [|f fs [Hn _] _ IH]; [constructor|]. simpl. apply Forall_app. split; [|done].
  destruct (field_pieces f Hn) as (p & ps & -> & _). apply name_bytes in Hn as [Hne _]. constructor.
  - intros H. apply (f_equal length) in H. rewrite !length_app in H. destruct (fst f); [done|]. simpl in H. lia.
  - by apply Forall_map, Forall_true.
Qed.

(** The receiver takes the leading dot off any line but the last. *)
Lemma receive_unstuffs ls s fuel : Forall (fun l => plain l /\ l <> bs ".") ls ->
  receive (length ls + fuel) (wire_lines ls ++ s) =
  option_map (fun r => (map unstuff ls ++ fst r, snd r)) (receive fuel s).
Proof.
  induction 1 as [|l ls [Hl Hd] _ IH]; [cbn; by destruct (receive fuel s) as [[? ?]|]|]. cbn [length Nat.add receive].
  rewrite wire_lines_cons, <- !app_assoc, cut_plain by done. rewrite bool_decide_eq_false_2 by done. rewrite IH.
  by destruct (receive fuel s) as [[? ?]|].
Qed.

Definition values_of (k : bytes) (fs : list (bytes * bytes)) : list bytes :=
  map snd (List.filter (fun f => bool_decide (fst f = k)) fs).

Lemma parse_fields fs : Forall (fun f => name_ok (fst f) /\ printable (snd f)) fs -> forall hs k0 k,
  words <$> default [] (fst (fold_left header_step (flat_map field_lines fs) (hs, k0)) !! k) =
  (words <$> default [] (hs !! k)) ++ (words <$> values_of k fs).
Proof.
  induction 1 as [|f fs [Hn Hv] _ IH]; intros hs k0 k; [simpl; by rewrite app_nil_r|].
  cbn [flat_map]. rewrite fold_left_app. destruct (field_pieces f Hn) as (p & ps & -> & Hr).
  rewrite parse_field by done. rewrite IH. unfold values_of. cbn [List.filter]. case_bool_decide as Hk.
  - rewrite <- Hk, lookup_insert, decide_True by done. cbn [map]. change (from_option id [] (Some ?a)) with a. rewrite fmap_app, <- app_assoc. f_equal. simpl.
    f_equal. by apply parsed_words.
  - by rewrite lookup_insert_ne.
Qed.

(** *** Delivery *)

Definition p_exec {A} (p : pprog A) (t : list (Prog.event pans)) (r : option A) : Prop :=
  exec (fun (_ : Empty_set) _ _ => False) p t r.

Definition delivered_at (e : Prog.event pans) : list Response := match e with Ev (PDeliver resp) _ => [resp] | _ => [] end.
Definition delivered (t : list (Prog.event pans)) : list Response := flat_map delivered_at t.
(** The providers that were offered the request. *)
Definition offered_at (e : Prog.event pans) : list providerGroup := match e with Ev (PHot g) _ => [g] | _ => [] end.
Definition offered (t : list (Prog.event pans)) : list providerGroup := flat_map offered_at t.

(** What may be delivered: a provider's answer, a context's error, or a failure after
    every provider was offered the request and none answered. *)
Inductive post_verdict (gs : list providerGroup) : list (Prog.event pans) -> Response -> Prop :=
| verdict_reply t g resp : rs_Err resp = None -> post_verdict gs (t ++ [Ev (PReply g) (Some resp)]) resp
| verdict_pool t e : post_verdict gs (t ++ [Ev PPoolErr e]) (errResponse e)
| verdict_ctx t e : post_verdict gs (t ++ [Ev PCtxErr e]) (errResponse e)
| verdict_failed t e : offered t = gs -> (forall g r, Ev (ans := pans) (PReply g) (Some r) ∈ t -> rs_Err r <> None) ->
    post_verdict gs t (errResponse (Some e)).

Lemma verdict_more gs t resp g0 x : (forall g r, Ev (ans := pans) (PReply g) (Some r) ∈ x -> rs_Err r <> None) -> offered x = [g0] ->
  post_verdict gs t resp -> post_verdict (g0 :: gs) (x ++ t) resp.
Proof.
  intros Hx Ho [t' g r Hr|t' e|t' e|t' e H1 H2]; rewrite ?app_assoc; try by constructor. constructor.
  - unfold offered in *. by rewrite flat_map_app, Ho, H1.
  - intros g r [Hin|Hin]%elem_of_app; eauto.
Qed.

(** [post_try] is over with one delivery, its last event. *)
Definition post_done (gs : list providerGroup) (t : list (Prog.event pans)) (r : option unit) : Prop :=
  r = Some tt /\ exists t' resp, t = t' ++ [Ev (PDeliver resp) tt] /\ delivered t' = [] /\ offered t' `prefix_of` gs /\
    post_verdict gs t' resp.

Lemma post_done_more gs t r g0 x : (forall g r, Ev (ans := pans) (PReply g) (Some r) ∈ x -> rs_Err r <> None) -> delivered x = [] -> offered x = [g0] ->
  post_done gs t r -> post_done (g0 :: gs) (x ++ t) r.
Proof.
  intros Hx Hd Ho (-> & t' & resp & -> & Hdt & Hp & Hv). split; [done|]. exists (x ++ t'), resp.
  split; [by rewrite <- app_assoc|]. unfold delivered, offered in *. rewrite !flat_map_app, Hd, Ho. split; [done|].
  split; [by apply prefix_cons|]. by apply verdict_more.
Qed.

Lemma post_done_last gs t resp : delivered t = [] -> offered t `prefix_of` gs -> post_verdict gs t resp ->
  post_done gs (t ++ [Ev (PDeliver resp) tt]) (Some tt).
Proof. intros. split; [done|]. by exists t, resp. Qed.

Lemma no_replies (x : list (Prog.event pans)) :
  Forall (fun e => match e with Ev (PReply _) (Some r) => rs_Err r <> None | _ => True end) x ->
  forall g r, Ev (ans := pans) (PReply g) (Some r) ∈ x -> rs_Err r <> None.
Proof. intros H g r Hin. rewrite list.Forall_forall in H. exact (H _ Hin). Qed.

Lemma post_done_skip gs t r g0 x : Forall (fun e => match e with Ev (PReply _) (Some r) => rs_Err r <> None | _ => True end) x ->
  delivered x = [] -> offered x = [g0] -> post_done gs t r -> post_done (g0 :: gs) (x ++ t) r.
Proof. intros Hx. apply post_done_more. by apply no_replies. Qed.

(** Waiting for the answer of [g0], with what was asked before. *)
Lemma post_wait_done gs g0 x t r lastErr :
  Forall (fun e => match e with Ev (PReply _) (Some r) => rs_Err r <> None | _ => True end) x ->
  delivered x = [] -> offered x = [g0] ->
  (forall lastErr t r, p_exec (post_try gs lastErr) t r -> post_done gs t r) ->
  p_exec (let! o := pask (PReply g0) in
          match o with
          | None => post_try gs lastErr
          | Some resp => match rs_Err resp with Some e => post_try gs (Some e) | None => pask (PDeliver resp) end
          end) t r ->
  post_done (g0 :: gs) (x ++ t) r.
Proof.
  intros Hx Hd Ho IH H. unfold p_exec in H. cbn [exec bind pask ask] in H. destruct H as (o & t1 & -> & H).
  assert (Hskip : match o with Some resp => rs_Err resp <> None | None => True end -> post_done gs t1 r ->
    post_done (g0 :: gs) (x ++ Ev (PReply g0) o :: t1) r).
  { intros Hr Ht. rewrite cons_middle, app_assoc. apply post_done_skip; [apply Forall_app; split; [done|by repeat constructor]| | |done].
    - unfold delivered in *. by rewrite flat_map_app, Hd.
    - unfold offered in *. by rewrite flat_map_app, Ho. }
  destruct o as [resp|]; [|by apply Hskip; [|eapply IH]]. destruct (rs_Err resp) as [e|] eqn:Ee; [apply Hskip; [done|by eapply IH]|].
  cbn [exec pask ask] in H. destruct H as ([] & t2 & -> & -> & ->).
  rewrite cons_middle, app_assoc. apply post_done_last; [| |by constructor].
  - unfold delivered in *. by rewrite flat_map_app, Hd.
  - unfold offered in *. rewrite flat_map_app, Ho. apply prefix_cons, prefix_nil.
Qed.

Lemma post_try_done gs : forall lastErr t r, p_exec (post_try gs lastErr) t r -> post_done gs t r.
Proof.
  induction gs as [|g gs IH]; intros lastErr t r H; unfold p_exec in H; cbn [post_try] in H; cbn [exec bind pask ask] in H.
  - destruct H as ([] & t1 & -> & -> & ->). apply (post_done_last [] []); [done|done|]. 
    destruct lastErr as [e|]; constructor; try done; intros g r Hin; by apply elem_of_nil in Hin.
  - destruct H as (hot & t1 & -> & H). destruct hot.
    { by apply (post_wait_done gs g [_] t1 r lastErr); [repeat constructor|..]. }
    cbn [exec bind pask ask] in H. destruct H as (s & t2 & -> & H). destruct s; cbn [exec bind pask ask] in H.
    + destruct H as (e & t3 & -> & [] & t4 & -> & -> & ->).
      apply (post_done_last (g :: gs) ([Ev (PHot g) false; Ev (PCold g) PostPool] ++ [Ev PPoolErr e])); [done| |apply verdict_pool].
      apply prefix_cons, prefix_nil.
    + destruct H as (e & t3 & -> & [] & t4 & -> & -> & ->).
      apply (post_done_last (g :: gs) ([Ev (PHot g) false; Ev (PCold g) PostCtx] ++ [Ev PCtxErr e])); [done| |apply verdict_ctx].
      apply prefix_cons, prefix_nil.
    + apply (post_done_skip gs t2 r g [Ev (PHot g) false; Ev (PCold g) PostGroup]); [by repeat constructor|done|done|by eapply IH].
    + by apply (post_wait_done gs g [Ev (PHot g) false; Ev (PCold g) PostSent] t2 r lastErr); [repeat constructor|..].
Qed.

(** Choosing the first provider asks for free slots only. *)
Definition quiet (t : list (Prog.event pans)) : Prop :=
  Forall (fun e => match e with Ev (PAvailable _) _ | Ev PNextIdx _ => True | _ => False end) t.

Lemma quiet_facts t : quiet t -> delivered t = [] /\ offered t = [] /\ (forall g x, (Ev (ans := pans) (PReply g) x ∉ t)).
Proof.
  induction 1 as [|[q x] t Hq _ (H1 & H2 & H3)]; [split_and!; [done|done|intros ?? Hin; by apply elem_of_nil in Hin]|].
  destruct q; try done; (split_and!; [done|done|]); intros g' x'; apply not_elem_of_cons; (split; [done|apply H3]).
Qed.

Lemma post_fifo_spec gs : forall i t r, p_exec (post_fifo gs i) t r ->
  quiet t /\ exists k, r = Some k /\ (k = 0%nat \/ (i <= k < i + length gs)%nat).
Proof.
  induction gs as [|g gs IH]; intros i t r H; unfold p_exec in H; cbn [post_fifo exec bind pask ask] in H.
  - destruct H as [-> ->]. split; [constructor|]. exists 0%nat. auto.
  - destruct H as (a & t1 & -> & H). destruct (0 <? a); cbn [exec] in H.
    + destruct H as [-> ->]. split; [by repeat constructor|]. exists i. simpl. split; [done|]. right. lia.
    + apply IH in H as [Hq (k & -> & Hk)]. split; [by constructor|]. exists k. split; [done|]. simpl. lia.
Qed.

Lemma post_weights_spec gs : forall t r, p_exec (post_weights gs) t r ->
  quiet t /\ exists ws, r = Some ws /\ length ws = length gs /\ Forall (Z.le 1) ws.
Proof.
  induction gs as [|g gs IH]; intros t r H; unfold p_exec in H; cbn [post_weights] in H; cbn [exec bind pask ask] in H.
  - destruct H as [-> ->]. split; [constructor|]. by exists [].
  - destruct H as (a & t1 & -> & H). apply exec_bind in H as [(t2 & t3 & ws & -> & H1 & H2)|[H1 ->]].
    + apply IH in H1 as [Hq (ws' & [= <-] & Hl & Hw)]. destruct H2 as [-> ->]. split; [constructor; [done|by rewrite app_nil_r]|].
      eexists. split; [done|]. simpl. split; [by rewrite Hl|]. constructor; [lia|done].
    + apply IH in H1 as [_ (ws & [= ] & _)].
Qed.

Lemma post_start_spec s mains t r : mains <> [] -> p_exec (post_start s mains) t r ->
  quiet t /\ ((r = Some None /\ s = DispatchRoundRobin /\ (8 < length mains)%nat) \/
              (exists i, r = Some (Some i) /\ (i < length mains)%nat /\ (s = DispatchRoundRobin -> (length mains <= 8)%nat))).
Proof.
  intros Hne H. assert (Hl : (0 < length mains)%nat) by (destruct mains; [done|simpl; lia]). destruct s; cbn [post_start] in H.
  all: cycle 1.
  - apply exec_bind in H as [(t1 & t2 & k & -> & H1 & [-> ->])|[H1 ->]].
    + apply post_fifo_spec in H1 as [Hq (k' & [= <-] & Hk)]. rewrite app_nil_r. split; [done|]. right. exists k. split; [done|]. split; [lia|done].
    + apply post_fifo_spec in H1 as [_ (k & [= ] & _)].
  - destruct (Nat.ltb_spec 8 (length mains)) as [H8|H8].
    + apply exec_bind in H as [(t1 & t2 & k & -> & H1 & [-> ->])|[H1 ->]].
      * apply post_weights_spec in H1 as [Hq _]. rewrite app_nil_r. split; [done|]. by left.
      * apply post_weights_spec in H1 as [_ (k & [= ] & _)].
    + apply exec_bind in H as [(t1 & t2 & ws & -> & H1 & H2)|[H1 ->]]; [|by apply post_weights_spec in H1 as [_ (k & [= ] & _)]].
      apply post_weights_spec in H1 as [Hq (ws' & [= <-] & Hlw & Hw)]. cbn [exec bind pask ask] in H2.
      destruct H2 as (v & t3 & -> & -> & ->). split; [apply Forall_app; split; [done|by constructor]|]. right. eexists. split; [done|]. split; [|done].
      rewrite <- Hlw. assert (Hp : 0 < total_weight ws).
      { destruct ws as [|w ws]; [simpl in Hlw; lia|]. apply Forall_cons_iff in Hw as [Hw Hws]. simpl.
        assert (0 <= total_weight ws); [|lia]. apply total_weight_nonneg. eapply list.Forall_impl; [exact Hws|]. simpl. lia. }
      apply pick_in_range; [eapply list.Forall_impl; [exact Hw|simpl; lia]|]. by apply Z.mod_pos_bound.
Qed.

(** ** Properties *)

(** C18: Writing headers: refused headers write nothing; accepted ones write their lines
    and then an empty line.  Every header starts a line with its name and a colon and
    continues on lines that start with a tab, each line is within the limit unless it
    has no place to cut it, and no line is empty or has a line end in it: a header's
    value cannot make a header or end the block. *)
Theorem headers_written h now w :
  match validate h with
  | Some e => WriteTo sink_all h now w = (0, Some e, w)
  | None =>
      let text := wire_lines (block_lines h now ++ [[]]) in
      WriteTo sink_all h now w = (zlen text, None, w ++ text) /\
      Forall (fun f => lines_of f (field_lines f)) (header_fields h now) /\
      Forall (fun l => l <> [] /\ plain l) (block_lines h now)
  end.
Proof.
  destruct (validate h) as [e|] eqn:E; [unfold WriteTo; by rewrite E|]. cbv zeta. split; [by apply WriteTo_valid|]. split.
  - eapply list.Forall_impl; [by apply valid_fields|]. intros f [Hn _]. by apply field_lines_of.
  - apply list.Forall_and. split; [by apply block_not_empty|by apply block_plain].
Qed.

(** C19: Headers are read back: when the values of the header fields are printable text
    (ASCII without control characters but for blanks; a From or Subject that is not
    ASCII counts by its encoding), what [parseHeaders] makes of the written lines has,
    for every name, the values that were written under it, in order and word for
    word; the first Subject decodes to the subject that was given. *)
Theorem headers_roundtrip h now :
  validate h = None -> Forall (fun f => printable (snd f)) (header_fields h now) ->
  (forall k, words <$> default [] (parseHeaders (block_lines h now) !! k) = words <$> values_of k (header_fields h now)) /\
  exists v vs, parseHeaders (block_lines h now) !! bs "Subject" = Some (v :: vs) /\
    (if isASCII (ph_Subject h) then words v = words (ph_Subject h) else decode_text v = Some (ph_Subject h)).
Proof.
  intros Hv Hp. assert (Hk : forall k, words <$> default [] (parseHeaders (block_lines h now) !! k) = words <$> values_of k (header_fields h now)).
  { intros k. unfold parseHeaders, block_lines. rewrite parse_fields; [by rewrite lookup_empty|]. apply list.Forall_and. split; [|done].
    eapply list.Forall_impl; [by apply valid_fields|]. by intros f [? _]. }
  split; [exact Hk|]. specialize (Hk (bs "Subject")).
  assert (Hs : exists vs, values_of (bs "Subject") (header_fields h now) = encodeHeaderValue (ph_Subject h) :: vs)
    by (eexists; reflexivity).
  destruct Hs as [vs Hs]. rewrite Hs in Hk. destruct (parseHeaders _ !! _) as [[|v vs']|]; try done. simpl in Hk.
  injection Hk as Hw _. exists v, vs'. split; [done|]. unfold encodeHeaderValue in Hw. destruct (isASCII (ph_Subject h)); [done|].
  unfold decode_text. rewrite Hw. apply encode_words_roundtrip.
Qed.

(** C17: What [PostYenc] streams: when the headers are accepted and the encoder produces
    the dot-stuffed lines of a body that has no line ends within its lines, a server
    that receives the text (RFC 3977) gets the headers' lines, an empty line and the
    body's lines, and what follows the text is left over.  The headers are not
    stuffed: a header line that begins with a dot is received without it, which
    happens only when the name of an extra header begins with one. *)
Theorem post_received h now body pieces w more :
  validate h = None -> Forall plain body -> concat pieces = wire_lines (dot_stuff <$> body) ->
  (exists text, postStream sink_all (pieces, None) h now w = (None, w ++ text) /\
    receive (S (length (block_lines h now) + S (length body))) (text ++ more) =
      Some (map unstuff (block_lines h now) ++ [] :: body, more)) /\
  (Forall (fun kv => head (fst kv) <> Some x2e) (ph_Extra h) -> map unstuff (block_lines h now) = block_lines h now).
Proof.
  intros Hv Hb Hp. split; [|intros He; by apply not_dotted_all, block_not_dotted].
  exists (wire_lines (block_lines h now) ++ wire_lines (dot_stuff <$> ([] :: body)) ++ bs "." ++ crlf). split.
  - unfold postStream. rewrite WriteTo_valid by done. cbn [fst snd]. rewrite write_all_sink, Hp. unfold sink_all.
    rewrite wire_lines_app, fmap_cons, (wire_lines_cons (dot_stuff [])), <- !app_assoc. done.
  - replace (S (length (block_lines h now) + S (length body))) with (length (block_lines h now) + S (S (length body)))%nat by lia.
    rewrite <- !app_assoc, receive_unstuffs by (by apply block_not_dot).
    rewrite receive_lines; [done|constructor; [constructor|done]|simpl; lia].
Qed.

(** C16: A POST is answered once: [doSendPost] ends with exactly one delivery, after
    offering the request to each provider at most once, in rotated order; it reports
    success only for a provider's own answer, and that every provider failed only
    when each was offered the request and none answered.  The one exception is a
    panic, with round robin and more than eight main providers. *)
Theorem post_once s t0 r : p_exec (doSendPost s) t0 r -> exists mains t, t0 = Ev PLoad mains :: t /\ (
  (r = Some false /\ s = DispatchRoundRobin /\ (8 < length mains)%nat /\ delivered t = []) \/
  (r = Some true /\ (s = DispatchRoundRobin -> (length mains <= 8)%nat) /\
   exists i t' resp, t = t' ++ [Ev (PDeliver resp) tt] /\ delivered t' = [] /\ offered t' `prefix_of` rotate i mains /\
     post_verdict (rotate i mains) t' resp /\
     (forall res, finishPost resp = inl res -> exists g, Ev (PReply g) (Some resp) ∈ t' /\ 200 <= rs_StatusCode resp < 400))).
Proof.
  intros H. unfold p_exec, doSendPost in H. cbn [exec bind pask ask] in H. destruct H as (mains & t & -> & H).
  exists mains, t. split; [done|].
  assert (Hfin : forall gs t' resp, post_verdict gs t' resp -> forall res, finishPost resp = inl res ->
    exists g, Ev (ans := pans) (PReply g) (Some resp) ∈ t' /\ 200 <= rs_StatusCode resp < 400).
  { intros gs t' resp [t1 g resp' Hr|t1 e|t1 e|t1 e _ _] res; unfold finishPost; simpl; try (by destruct e); try done.
    rewrite Hr. destruct (toError _ _) eqn:E; [done|]. intros _. exists g. split; [set_solver|]. apply toError_nil in E. unfold code_ok in E. lia. }
  destruct mains as [|g mains].
  - cbn [exec bind pask ask] in H. destruct H as ([] & t1 & -> & -> & ->). right. split; [done|]. split; [simpl; lia|].
    exists 0%nat, [], (errResponse (Some (EOpaque "nntp: no main providers"))).
    assert (Hpv : post_verdict (rotate 0 []) [] (errResponse (Some (EOpaque "nntp: no main providers")))).
    { constructor; [done|]. intros ?? Hin. by apply elem_of_nil in Hin. }
    split_and!; try done.
  - apply exec_bind in H as [(t1 & t2 & start & -> & H1 & H2)|[H1 ->]]; [|by apply post_start_spec in H1 as [_ [([= ] & _)|(? & [= ] & _)]]].
    apply post_start_spec in H1 as [Hq Hst]; [|done]. apply quiet_facts in Hq as (Hd & Ho & Hnr). destruct Hst as [([= ->] & -> & H8)|(i & [= ->] & Hi & H8)].
    + destruct H2 as [-> ->]. left. rewrite app_nil_r. by split_and!.
    + right. apply exec_bind in H2 as [(t3 & t4 & [] & -> & H3 & [-> ->])|[H3 ->]]; [|by apply post_try_done in H3 as [[= ] _]].
      apply post_try_done in H3 as (_ & t' & resp & -> & Hdt & Hp & Hv). split; [done|]. split; [done|].
      exists i, (t1 ++ t'), resp. rewrite app_nil_r. split; [by rewrite app_assoc|]. unfold delivered, offered in *.
      rewrite !flat_map_app, Hd, Ho. split; [done|]. split; [done|]. split.
      * destruct Hv as [? ? ? ?|? ?|? ?|? ? H5 H6]; rewrite ?app_assoc; try by constructor. constructor.
        -- unfold offered. by rewrite flat_map_app, Ho.
        -- intros g' r' [Hin|Hin]%elem_of_app; [by apply Hnr in Hin|by eapply H6].
      * intros res Hres. destruct (Hfin _ _ _ Hv res Hres) as (g' & Hin & Hc). exists g'. split; [|done]. apply elem_of_app. by right.
Qed.

(** ** Departures *)

(** The limit is for the pieces: a continuation line has one more byte, its tab. *)
Example continuation_above_limit :
  map zlen (field_lines (bs "X-Long", repeat x61 3 ++ x20 :: repeat x62 900)) = [11; 901].
Proof. by vm_compute. Qed.

(** Blanks at the end of a long line make a line that is a tab and nothing else. *)
Example blank_continuation : map zlen (field_lines (bs "X", x61 :: repeat x20 900)) = [899; 1].
Proof. by vm_compute. Qed.

Definition sample : PostHeaders :=
  mkPostHeaders (bs "p <p@q>") (bs "caf" ++ [xc3; xa9]) [bs " alt.b "] (bs "<1@q>") (Some 0) [(bs "X-B", [bs "3"]); (bs "X-A", [bs "1"; bs "2"])].

(** The name of an extra header is compared with "Date" only, and by its case: a second
    Subject, or a second Date, is written. *)
Example repeated_headers :
  let h := sample <| ph_Extra := [(bs "date", [bs "now"]); (bs "Subject", [bs "other"])] |> in
  validate h = None /\ map fst (header_fields h 0) = bs <$> ["From"; "Newsgroups"; "Subject"; "Message-ID"; "Date"; "Subject"; "date"]%string.
Proof. by vm_compute. Qed.

(** A sender with a name that is not ASCII is encoded with the address, which can then
    not be found. *)
Example address_encoded : (x40 ∉ encodeHeaderValue ([xc3; xa9] ++ bs " <p@q>")).
Proof. apply (bool_decide_unpack _). by vm_compute. Qed.

(** The value of an extra header may have control characters other than line ends: a
    blank one at its beginning or end is taken off when the header is read back.  So a
    value that is written is not always the one that is read. *)
Example control_character_lost :
  let h := sample <| ph_Extra := [(bs "X", [x0b :: bs "A"])] |> in
  validate h = None /\ values_of (bs "X") (header_fields h 0) = [x0b :: bs "A"] /\
  parseHeaders (block_lines h 0) !! bs "X" = Some [bs "A"] /\ words (x0b :: bs "A") <> words (bs "A").
Proof. cbv zeta. split_and!; try (by vm_compute). Qed.

(** A header's name may start with a dot; its line is not stuffed and loses the dot. *)
Example dotted_name :
  let h := sample <| ph_Extra := [(bs ".X", [bs "1"])] |> in
  validate h = None /\
  fst <$> receive 99 (snd (postStream sink_all ([], None) h 0 [])) = Some (map unstuff (block_lines h 0 ++ [[]])) /\
  head (rev (block_lines h 0)) = Some (bs ".X: 1").
Proof. by vm_compute. Qed.

(** ** Witnesses *)

Lemma sample_ok : validate sample = None.
Proof. by vm_compute. Defined.

Example sample_lines : block_lines sample 0 = bs <$> ["From: p <p@q>"; "Newsgroups: alt.b"; "Subject: =?utf-8?b?Y2Fmw6k=?="; "Message-ID: <1@q>";
  "Date: Thu, 01 Jan 1970 00:00:00 UTC"; "X-A: 1"; "X-A: 2"; "X-B: 3"]%string.
Proof. by vm_compute. Qed.

Lemma headers_roundtrip_witness :
  Forall (fun f => printable (snd f)) (header_fields sample 0) /\
  words <$> default [] (parseHeaders (block_lines sample 0) !! bs "X-A") = [[bs "1"]; [bs "2"]] /\
  exists v vs, parseHeaders (block_lines sample 0) !! bs "Subject" = Some (v :: vs) /\ decode_text v = Some (ph_Subject sample).
Proof.
  assert (Hp : Forall (fun f => printable (snd f)) (header_fields sample 0)).
  { apply (bool_decide_unpack _). vm_compute. exact I. }
  destruct (headers_roundtrip sample 0 sample_ok Hp) as [Hk Hs]. split; [exact Hp|]. split; [|exact Hs].
  rewrite (Hk (bs "X-A")). vm_compute. reflexivity.
Defined.

Lemma post_received_witness : exists text,
  postStream sink_all ([bs "..a" ++ crlf; bs "b" ++ crlf], None) sample 0 [] = (None, text) /\
  receive 12 (text ++ bs "NEXT") = Some (block_lines sample 0 ++ [] :: [bs ".a"; bs "b"], bs "NEXT").
Proof.
  destruct (post_received sample 0 [bs ".a"; bs "b"] [bs "..a" ++ crlf; bs "b" ++ crlf] [] (bs "NEXT") sample_ok) as [(text & H1 & H2) Hn].
  - apply (bool_decide_unpack _). vm_compute. exact I.
  - vm_compute. reflexivity.
  - exists text. split; [exact H1|]. replace 12%nat with (S (length (block_lines sample 0) + S (length [bs ".a"; bs "b"]))); [exact H2|].
    vm_compute. reflexivity.
Defined.

Definition pg1 : providerGroup := mkGroup "one" "1" 0.
Definition pg2 : providerGroup := mkGroup "two" "2" 0.
Definition accepted : Response := (errResponse None) <| rs_StatusCode := 240 |>.
Definition post_trace : list (Prog.event pans) :=
  [Ev PLoad [pg1; pg2]; Ev (PAvailable pg1) 0; Ev (PAvailable pg2) 3; Ev (PHot pg2) true; Ev (PReply pg2) None;
   Ev (PHot pg1) false; Ev (PCold pg1) PostSent; Ev (PReply pg1) (Some accepted); Ev (PDeliver accepted) tt].

Lemma post_once_witness :
  p_exec (doSendPost DispatchFIFO) post_trace (Some true) /\
  exists mains i t' resp, post_trace = Ev PLoad mains :: t' ++ [Ev (PDeliver resp) tt] /\ offered t' `prefix_of` rotate i mains /\
    post_verdict (rotate i mains) t' resp.
Proof.
  assert (H : p_exec (doSendPost DispatchFIFO) post_trace (Some true)).
  { do 9 (eexists _, _; split; [reflexivity|]). split; reflexivity. }
  split; [exact H|]. destruct (post_once DispatchFIFO post_trace (Some true) H) as (mains & t & Ht & [[[= ] _]|(_ & _ & i & t' & resp & -> & _ & H1 & H2 & _)]).
  exists mains, i, t', resp. by split_and!.
Defined.
