(* ===== verification/Routing.v ===== *)
(** What a caller of [doSendWithRetry] can rely on: the theorems of the routing
    contract, read off Router.v, and executions of the router on concrete pools
    that show their hypotheses hold and their bounds are met. *)
From S2P Require Import Prelude Errors CircuitBreaker Reader ReadBuffer Evidence ReaderControl Prog Dispatch Stats Pipeline Pool Visit Contract Router Attempt.
#[local] Open Scope prog_scope.

(** ** Executions on a concrete pool *)

Section Scenario.
Context (mains backups : list providerGroup) (exceeded : providerGroup -> bool).
(** The answer of attempt number [n]. *)
Context (answer : nat -> providerGroup -> try_args -> presult).

Definition oracle (q : query) (n : nat) : ans q * nat :=
  match q return ans q * nat with
  | QQuota g => (exceeded g, n)
  | QAvailable _ => (1, n)
  | QSpeed _ => (f0, n)
  | QAcquire _ => (zero_lease, None, n)
  | QComplete _ _ _ => (tt, n)
  | QTry g a => (answer n g a, S n)
  | QCtxErr => (None, n)
  | QPoolCtxErr => (None, n)
  | QNow => (0, n)
  | QBackoff => (true, n)
  | QLoad b => (if b then backups else mains, n)
  | QNextIdx => (0, n)
  | QRemove _ => (tt, n)
  | QReconnect _ => (tt, n)
  | QDeliver _ => (tt, n)
  end.

Definition probe_run (p : probe) (n : nat) : list event * option presult * nat :=
  run oracle (fun (e : Empty_set) => match e with end) p n.

Definition router_run {A} (p : router A) : list event * option A :=
  let '(tr, r, _) := run oracle probe_run p 0%nat in (tr, r).

Lemma router_run_exec {A} (p : router A) tr r : router_run p = (tr, r) -> router_exec p tr r.
Proof.
  unfold router_run. destruct (run oracle probe_run p 0%nat) as [[tr' r'] s] eqn:E. intros [= <- <-].
  eapply run_exec; [|exact E]. intros q s1 tr1 r1 s2 H. by eapply run_exec; [|exact H].
Qed.
End Scenario.

(** A reply with a code, with its evidence; [committed] when its body reached the
    caller's writer. *)
Definition reply (g : providerGroup) (a : try_args) (code : Z) (committed : bool) : Response :=
  single_attempt ((newRequest (ta_payload a) (ta_validateBody a)) <| rq_decodedCommitted := committed |>)
    (g_id g) ((errResponse None) <| rs_StatusCode := code |>) 0.

Definition is_stat (a : try_args) : bool := negb (ta_hasWriter a).

Definition p1 : providerGroup := mkGroup "p1" "1" 0.
Definition p2 : providerGroup := mkGroup "p2" "2" 5.
Definition p3 : providerGroup := mkGroup "p3" "3" 0.

Definition body_payload : bytes := bs "BODY <a@b>" ++ crlf.
Definition fifo_cfg : client_cfg := mkClientCfg DispatchFIFO true false.

(** A 451 of a provider that means absence by it. *)
Definition mapped_451 (g : providerGroup) (a : try_args) : Response :=
  single_attempt ((newRequest (ta_payload a) (ta_validateBody a)) <| rq_response451Policy := Response451AbsentAfterRetry |>)
    (g_id g) ((errResponse None) <| rs_StatusCode := 451 |>) 0.

(** Nobody has the article; [p1] says so with a 451. *)
Definition missing (_ : nat) (g : providerGroup) (a : try_args) : presult :=
  (if decide (g = p1) then mapped_451 g a else reply g a 430 false, true, false).
(** [p1] is unavailable, [p2] has the article. *)
Definition failover (_ : nat) (g : providerGroup) (a : try_args) : presult :=
  if decide (g = p1) then (reply g a 502 false, true, false) else (reply g a 222 true, true, false).

Definition send_on (mains backups : list providerGroup) (exceeded : providerGroup -> bool)
    (answer : nat -> providerGroup -> try_args -> presult) : list event * option unit :=
  router_run mains backups exceeded answer (doSendWithRetry 6 fifo_cfg body_payload true false true).

Definition missing_run := send_on [p1; p2] [p3] (fun _ => false) missing.
Definition failover_run := send_on [p1; p2] [p3] (fun _ => false) failover.

(** Attempts that returned the reply of a connection. *)
Definition repliedb (t : providerGroup * try_args * presult) : bool :=
  let '(_, _, (resp, ok, cancelled)) := t in
  ok && negb cancelled && is_nil (rs_Err resp) &&
  (negb (attemptCommittedResp resp) || code_ok (rs_StatusCode resp)).

(** Evidence of what is returned. *)
Definition evidenced (t : providerGroup * try_args * presult) : Prop :=
  let '(_, _, (resp, _, _)) := t in
  exists req id r now, rs_Attempts resp = [buildAttemptEvidence req id r now] /\
    rs_Err r = rs_Err resp /\ rs_StatusCode r = rs_StatusCode resp.

Section Runs.
Context (mains backups : list providerGroup) (exceeded : providerGroup -> bool).
Context (answer : nat -> providerGroup -> try_args -> presult).

Lemma router_run_events (I : event -> Prop) {A} (p : router A) :
  (forall q n, I (Ev q (fst (oracle mains backups exceeded answer q n)))) ->
  Forall I (fst (router_run mains backups exceeded answer p)).
Proof.
  intros HI. unfold router_run. pose proof (run_events (oracle mains backups exceeded answer)
    (probe_run mains backups exceeded answer) I HI) as H.
  specialize (H ltac:(intros q n; unfold probe_run; apply run_events; [exact HI|intros []]) A p 0%nat).
  by destruct (run _ _ p 0%nat) as [[tr r] s].
Qed.

Lemma router_run_told {A} (p : router A) : told (fst (router_run mains backups exceeded answer p)).
Proof. apply router_run_events. by intros [] n. Qed.

Lemma router_run_evidenced {A} (p : router A) : (forall n g a, evidenced (g, a, answer n g a)) ->
  Forall evidenced (tries (fst (router_run mains backups exceeded answer p))).
Proof.
  intros Ha. assert (Hall := router_run_events (fun e => forall t, ev_try e = Some t -> evidenced t) p).
  rewrite list.Forall_forall in Hall. apply list.Forall_forall. intros t Ht.
  apply list_elem_of_omap in Ht as (e & He & Het). apply (Hall ltac:(intros [] n t' Ht'; simplify_eq/=; apply Ha) e He t Het).
Qed.
End Runs.

Lemma repliedb_attempted ts : forallb repliedb ts = true -> Forall evidenced ts -> Forall attempted ts.
Proof.
  intros H He. apply list.Forall_forall. intros t Hin. rewrite list.Forall_forall in He. specialize (He t Hin).
  apply list_elem_of_In in Hin. rewrite forallb_forall in H. specialize (H t Hin).
  destruct t as [[g a] [[resp ok] c]]. unfold repliedb in H.
  apply andb_true_iff in H as [[[-> ->%negb_true_iff]%andb_true_iff Hn%is_nil_None]%andb_true_iff Hr].
  apply attempted_reply. split; [by rewrite Hn|]. split; [|exact He]. intros Hc. by rewrite Hc in Hr.
Qed.

(** ** The contract *)

Section Contract.
Context (fuel : nat) (cfg : client_cfg) (payload : bytes) (hasWriter priority validateBody : bool).
Context (tr : list event) (r : option unit).
(** [tr] is an execution, and its attempts are executions of [tryGroup]. *)
Hypothesis Hexec : router_exec (doSendWithRetry fuel cfg payload hasWriter priority validateBody) tr r.
Hypothesis Hok : Forall attempted (tries tr).

Lemma contract_end : match r with Some _ => finished tr | None => starved fuel tr end.
Proof. pose proof (spec_send fuel cfg payload hasWriter priority validateBody tr r Hexec (attempted_all _ Hok)) as H. by destruct r. Qed.

Lemma contract_good : good tr.
Proof. pose proof contract_end as H. destruct r; by destruct H. Qed.

Lemma contract_at t1 e t2 : tr = t1 ++ e :: t2 -> ok_at t1 e.
Proof. apply contract_good. Qed.

(** C1: Every request is answered exactly once: the router returns, exactly one
    response was sent on the caller's channel, and it was the last thing the
    router did.  The model's fuel suffices unless providers keep handing out
    connections older than a retry asks for. *)
Theorem deliver_once :
  (4 + length (stale_tries tr) < fuel)%nat ->
  r = Some tt /\ exists tr' resp, tr = tr' ++ [Ev (QDeliver resp) tt] /\ delivers tr' = [].
Proof.
  intros Hf. pose proof contract_end as He. pose proof contract_at as Hat. destruct r as [[]|]; [|destruct He as [_ He]; lia].
  destruct He as [_ (t0 & resp & Ht)]. split; [done|]. exists t0, resp. split; [done|].
  by destruct (Hat t0 _ [] Ht).
Qed.

(** C2: A response is "no such article", by the error the client makes of it or by its
    code, only when it is conclusive: every main and every backup provider of the
    lists the router read answered 423 or 430, or answered 451 again on a retry over
    a fresh transport, or was shut down while it was asked.  The one exception is a
    provider whose answer to the STAT of a race was a success other than 223, when
    the response is an error.  The errors of contexts and of circuit breakers are
    taken not to be [ErrArticleNotFound]. *)
Theorem absence_conclusive tr' resp :
  tr = tr' ++ [Ev (QDeliver resp) tt] -> told tr' -> not_found resp ->
  exists mains backups, loads tr' = [(false, mains); (true, backups)] /\
    forall g, g ∈ mains ++ backups -> ruled_out (rs_Err resp) g tr'.
Proof.
  intros Ht Htold Hn. destruct (contract_at tr' _ [] Ht) as [_ _ _ _ _ _ Hf]. exact (fa_absent _ _ (Hf resp eq_refl) Htold Hn).
Qed.

(** C3: An article body is never streamed twice: once an attempt has written bytes
    to the caller's writer and reported its end, no later attempt is given that
    writer. *)
Theorem single_writer t1 g a x t2 :
  tr = t1 ++ Ev (QTry g a) x :: t2 -> ta_hasWriter a = true -> unstreamed t1.
Proof. intros Ht Hw. destruct (contract_at t1 _ t2 Ht) as [_ _ _ H _ _ _]. by apply (H g a x). Qed.

(** The response carries the evidence of every attempt made for it, except the
    fallback when no attempt gave a response or an error. *)
Theorem evidence_delivered tr' resp :
  tr = tr' ++ [Ev (QDeliver resp) tt] -> evidence tr' ⊆+ rs_Attempts resp \/ resp = exhausted.
Proof. intros Ht. destruct (contract_at tr' _ [] Ht) as [_ _ _ _ _ _ Hf]. exact (fa_evidence _ _ (Hf resp eq_refl)). Qed.

(** A provider is asked for a lease or for the article only after its quota was
    found not to be exceeded. *)
Theorem quota_respected t1 e t2 g :
  tr = t1 ++ e :: t2 -> ev_acquire e = Some g \/ (exists a x, ev_try e = Some (g, a, x)) ->
  (g, false) ∈ quotas t1.
Proof. intros Ht [He|(a & x & He)]; destruct (contract_at t1 e t2 Ht) as [_ Hq Htry _ _ _ _]; eauto. Qed.

(** Backups come last: the backup list is read only when every main provider
    was considered. *)
Theorem backups_last t1 backups t2 mains g :
  tr = t1 ++ Ev (QLoad true) backups :: t2 -> (false, mains) ∈ loads t1 -> g ∈ mains ->
  exists exceeded, (g, exceeded) ∈ quotas t1.
Proof. intros Ht Hl Hg. destruct (contract_at t1 _ t2 Ht) as [_ _ _ _ Hb _ _]. by eapply Hb. Qed.

(** C35: When the response is delivered, every lease taken from a breaker has been
    returned, and exactly the providers that answered 502 were taken out of the
    pool. *)
Theorem pool_settled tr' resp :
  tr = tr' ++ [Ev (QDeliver resp) tt] ->
  Permutation (completes tr') (grants tr') /\ removed tr' /\
  forall n, n ∈ removes tr' -> exists g, g_name g = n /\ replied g [502] tr'.
Proof.
  intros Ht. destruct (contract_at tr' _ [] Ht) as [_ _ _ _ _ _ Hf]. destruct (Hf resp eq_refl) as [Hr Hb _ _].
  split_and!; [done|done|]. intros n Hn. apply list_elem_of_omap in Hn as (e & He & Hn).
  apply list_elem_of_split in He as (l1 & l2 & He). rewrite He in Ht. rewrite <- app_assoc in Ht. simpl in Ht.
  destruct (contract_at _ _ _ Ht) as [_ _ _ _ _ Hrm _]. destruct (Hrm n Hn) as (g & Hg & Hrep).
  exists g. split; [done|]. rewrite He. by apply replied_mono.
Qed.
End Contract.

(** ** The theorems on concrete executions *)

Lemma missing_exec :
  router_exec (doSendWithRetry 6 fifo_cfg body_payload true false true) (fst missing_run) (Some tt) /\
  Forall attempted (tries (fst missing_run)).
Proof.
  split; [|apply repliedb_attempted; [by vm_compute|]].
  - apply (router_run_exec [p1; p2] [p3] (fun _ => false) missing). by vm_compute.
  - apply router_run_evidenced. intros n g a. unfold missing. destruct (decide _); by eexists _, _, _, _.
Qed.

Lemma failover_exec :
  router_exec (doSendWithRetry 6 fifo_cfg body_payload true false true) (fst failover_run) (Some tt) /\
  Forall attempted (tries (fst failover_run)).
Proof.
  split; [|apply repliedb_attempted; [by vm_compute|]].
  - apply (router_run_exec [p1; p2] [p3] (fun _ => false) failover). by vm_compute.
  - apply router_run_evidenced. intros n g a. unfold failover. destruct (decide _); by eexists _, _, _, _.
Qed.

(** The trace before its last event, and the response that event delivers. *)
Definition before_last (tr : list event) : list event := take (length tr - 1) tr.
Definition delivered (tr : list event) : Response :=
  match delivers tr with [resp] => resp | _ => exhausted end.

Lemma deliver_once_witness :
  exists tr' resp, fst missing_run = tr' ++ [Ev (QDeliver resp) tt] /\ delivers tr' = [].
Proof.
  destruct missing_exec as [He Hok].
  apply (deliver_once 6 fifo_cfg body_payload true false true (fst missing_run) (Some tt) He Hok). vm_compute. lia.
Defined.

Lemma absence_conclusive_witness :
  Is (responseError (delivered (fst missing_run))) IsArticleNotFound = true /\
  exists mains backups, loads (before_last (fst missing_run)) = [(false, mains); (true, backups)] /\
    forall g, g ∈ mains ++ backups -> ruled_out None g (before_last (fst missing_run)).
Proof.
  destruct missing_exec as [He Hok]. assert (Hn : rs_Err (delivered (fst missing_run)) = None) by (vm_compute; reflexivity).
  split; [vm_compute; reflexivity|]. rewrite <- Hn.
  apply (absence_conclusive 6 fifo_cfg body_payload true false true (fst missing_run) (Some tt) He Hok
    (before_last (fst missing_run)) (delivered (fst missing_run))).
  - vm_compute. reflexivity.
  - apply Forall_take, router_run_told.
  - left. vm_compute. reflexivity.
Defined.

(** After the 502 the body goes to the caller's writer, from the second provider. *)
Lemma single_writer_witness : unstreamed (take 10 (fst failover_run)).
Proof.
  destruct failover_exec as [He Hok].
  apply (single_writer 6 fifo_cfg body_payload true false true (fst failover_run) (Some tt) He Hok _ p2
    (send_args body_payload true true false) (failover 1 p2 (send_args body_payload true true false))
    (drop 11 (fst failover_run))); vm_compute; reflexivity.
Defined.

Lemma evidence_delivered_witness :
  evidence (before_last (fst failover_run)) ⊆+ rs_Attempts (delivered (fst failover_run)) \/
  delivered (fst failover_run) = exhausted.
Proof.
  destruct failover_exec as [He Hok].
  apply (evidence_delivered 6 fifo_cfg body_payload true false true (fst failover_run) (Some tt) He Hok).
  vm_compute. reflexivity.
Defined.

Lemma quota_respected_witness : (p2, false) ∈ quotas (take 9 (fst failover_run)).
Proof.
  destruct failover_exec as [He Hok].
  apply (quota_respected 6 fifo_cfg body_payload true false true (fst failover_run) (Some tt) He Hok _
    (Ev (QAcquire p2) (zero_lease, None)) (drop 10 (fst failover_run))); [vm_compute; reflexivity|by left].
Defined.

Lemma backups_last_witness : exists exceeded, (p2, exceeded) ∈ quotas (take 15 (fst missing_run)).
Proof.
  destruct missing_exec as [He Hok].
  apply (backups_last 6 fifo_cfg body_payload true false true (fst missing_run) (Some tt) He Hok _ [p3]
    (drop 16 (fst missing_run)) [p1; p2]); [vm_compute; reflexivity| |by right; left].
  apply list_elem_of_In. vm_compute. auto.
Defined.

Lemma pool_settled_witness :
  Permutation (completes (before_last (fst failover_run))) (grants (before_last (fst failover_run))) /\
  removed (before_last (fst failover_run)) /\
  forall n, n ∈ removes (before_last (fst failover_run)) ->
    exists g, g_name g = n /\ replied g [502] (before_last (fst failover_run)).
Proof.
  destruct failover_exec as [He Hok].
  apply (pool_settled 6 fifo_cfg body_payload true false true (fst failover_run) (Some tt) He Hok _
    (delivered (fst failover_run))). vm_compute. reflexivity.
Defined.

(** The writer's protection ends where a provider's group is shut down: [tryGroup]
    then reports no response, and the router goes on to the next provider with the
    same writer although the body of the first had already begun.  The comments in
    [doSendWithRetry] say a committed attempt is never re-streamed. *)
Definition shut_down (_ : nat) (g : providerGroup) (a : try_args) : presult :=
  if decide (g = p1)
  then gone g ((newRequest (ta_payload a) (ta_validateBody a)) <| rq_decodedCommitted := true |>)
  else (reply g a 222 true, true, false).

Theorem shut_down_restarts :
  let tr := fst (send_on [p1; p2] [] (fun _ => false) shut_down) in
  Forall attempted (tries tr) /\
  exists t1 t2, tries tr = [t1; t2] /\
    let '(g1, a1, (resp1, _, _)) := t1 in
    let '(g2, a2, (resp2, _, _)) := t2 in
    (g1, g2) = (p1, p2) /\ ta_hasWriter a1 = true /\ ta_hasWriter a2 = true /\
    attemptCommittedResp resp1 = true /\ attemptCommittedResp resp2 = true.
Proof.
  split; [|eexists _, _; by vm_compute]. assert (Ht : tries (fst (send_on [p1; p2] [] (fun _ => false) shut_down)) =
    [(p1, send_args body_payload true true false, shut_down 0 p1 (send_args body_payload true true false));
     (p2, send_args body_payload true true false, shut_down 1 p2 (send_args body_payload true true false))]) by by vm_compute.
  rewrite Ht. constructor; [apply attempted_gone|]. apply repliedb_attempted; [by vm_compute|].
  constructor; [by eexists _, _, _, _|constructor].
Qed.

(** A race with one provider left delivers whatever that provider replies: its 451
    ends the request, and the backups are never asked. *)
Definition lone_451 (_ : nat) (g : providerGroup) (a : try_args) : presult :=
  if decide (g = p1) then (reply g a 430 false, true, false) else (reply g a 451 false, true, false).

Theorem lone_candidate_skips_backups :
  let tr := fst (send_on [p1; p2] [p3] (fun _ => false) lone_451) in
  loads tr = [(false, [p1; p2])] /\ rs_StatusCode (delivered tr) = 451 /\ rs_Err (delivered tr) = None.
Proof. by vm_compute. Qed.

(** A response without a provider's reply keeps no evidence when every provider's
    group was shut down. *)
Theorem fallback_drops_evidence :
  let tr := fst (send_on [p1] [] (fun _ => false) shut_down) in
  delivered tr = exhausted /\ evidence tr <> [] /\ rs_Attempts (delivered tr) = [].
Proof. by vm_compute. Qed.

(** The exception of [absence_conclusive] is real: a provider that answers the STAT of
    a race with a success other than 223 is put down as an error but counts as a
    success in the evidence, and the client reports that the article is missing. *)
Definition odd_stat (_ : nat) (g : providerGroup) (a : try_args) : presult :=
  (if decide (g = p2) then reply g a 200 false else reply g a 430 false, true, false).

Theorem odd_success_reads_absent :
  let tr := fst (send_on [p1; p2; p3] [] (fun _ => false) odd_stat) in
  Forall attempted (tries tr) /\ told tr /\
  Is (responseError (delivered tr)) IsArticleNotFound = true /\
  Forall (fun t => fst (fst t) = p2 -> snd (fst (snd t)) = true /\ rs_StatusCode (fst (fst (snd t))) = 200) (tries tr).
Proof.
  cbv zeta. split_and!.
  - apply repliedb_attempted; [by vm_compute|]. apply router_run_evidenced. intros n g a. unfold odd_stat.
    destruct (decide _); by eexists _, _, _, _.
  - apply router_run_told.
  - by vm_compute.
  - assert (Ht : (fun t => (fst (fst t), (snd (fst (snd t)), rs_StatusCode (fst (fst (snd t)))))) <$>
      tries (fst (send_on [p1; p2; p3] [] (fun _ => false) odd_stat)) = [(p1, (true, 430)); (p2, (true, 200)); (p3, (true, 430))])
      by by vm_compute.
    apply list.Forall_forall. intros t Hin Hg. apply (list_elem_of_fmap_2 (fun t => (fst (fst t), (snd (fst (snd t)), rs_StatusCode (fst (fst (snd t))))))) in Hin.
    rewrite Ht, Hg in Hin. apply elem_of_cons in Hin as [?|[Hin|Hin%list_elem_of_singleton]%elem_of_cons]; [done| |done].
    by injection Hin.
Qed.
