(* ===== verification/Snapshot.v ===== *)
(** The public statistics ([nntp.go]: [Stats]; [metrics.go]: [ProviderStats],
    [ClientStats], [speedEWMABytesPerSec]): one snapshot of every provider, and that
    what it reports is what the dispatcher acts on. *)
From S2P Require Import Prelude Text Errors CircuitBreaker Reader Evidence Handshake Prog Dispatch Stats Gate Pool Registry.

(** ** Data *)

Record ProviderStats := mkProviderStats {
  ps_Name : string;
  ps_ProviderID : string;
  ps_AvgSpeed : float64;
  ps_SpeedEWMA : float64;
  ps_BytesConsumed : Z;
  ps_Missing : Z;
  ps_Errors : Z;
  ps_ActiveConnections : Z;
  ps_MaxConnections : Z;
  ps_AvailableSlots : Z;
  ps_TTFB : Z;
  ps_PipelineInUse : Z;
  ps_PipelineLimit : Z;
  ps_BackgroundStatInUse : Z;
  ps_BackgroundStatLimit : Z;
  ps_PriorityHeadroom : Z;
  ps_CircuitBreaker : CircuitBreakerStats;
  ps_Ping : PingResult;
  ps_QuotaBytes : Z;
  ps_QuotaUsed : Z;
  ps_QuotaResetAt : option Z;
  ps_QuotaExceeded : bool
}.

#[export] Instance eta_ProviderStats : Eta ProviderStats := fun p =>
  mkProviderStats (ps_Name p) (ps_ProviderID p) (ps_AvgSpeed p) (ps_SpeedEWMA p) (ps_BytesConsumed p) (ps_Missing p)
    (ps_Errors p) (ps_ActiveConnections p) (ps_MaxConnections p) (ps_AvailableSlots p) (ps_TTFB p)
    (ps_PipelineInUse p) (ps_PipelineLimit p) (ps_BackgroundStatInUse p) (ps_BackgroundStatLimit p)
    (ps_PriorityHeadroom p) (ps_CircuitBreaker p) (ps_Ping p) (ps_QuotaBytes p) (ps_QuotaUsed p)
    (ps_QuotaResetAt p) (ps_QuotaExceeded p).

(** The zero value; the state of the breaker is the empty string there, written as
    disabled here. *)
Definition zero_ProviderStats : ProviderStats :=
  mkProviderStats "" "" f0 f0 0 0 0 0 0 0 0 0 0 0 0 0 (mkBreakerStats CircuitBreakerDisabled 0 0 0 false) no_ping
    0 0 None false.

Record ClientStats := mkClientStats {
  cs_Providers : list ProviderStats;
  cs_AvgSpeed : float64;
  cs_BytesConsumed : Z;
  cs_Elapsed : Z
}.

(** ** Operations *)

(** The EWMA is kept as its bits; a fresh counter is the float zero. *)
Definition speedEWMABytesPerSec (s : providerStats) : float64 := st_speedEWMA s.

(** [float64(consumed) / secs], when [secs > 0]. *)
Definition bytes_per (secs : float64) (consumed : Z) : float64 :=
  if flt f0 secs then fdiv (f_of_Z consumed) secs else f0.

(** One turn of the loop of [Stats]: the breaker's snapshot at [now] drops its
    expired failures. *)
Definition provider_snapshot (secs : float64) (now : Z) (g : group) : ProviderStats * group :=
  let s := q_stats (gr_quota g) in
  let consumed := st_BytesConsumed s in
  let '(maxSlots, running) := snapshot (gr_gate g) in
  let quotaUsed := st_quotaUsed s in
  let '(breaker, circuit) := breaker_snapshot (gr_breaker g) now in
  let resetAt := q_resetAt (gr_quota g) in
  (mkProviderStats (gr_name g) (gr_id g) (bytes_per secs consumed) (speedEWMABytesPerSec s) consumed
     (st_Missing s) (st_Errors s) running maxSlots (gt_available (gr_gate g)) (st_ttfbEWMA s)
     (st_PipelineInUse s) (gr_pipelineLimit g) (st_BackgroundStatInUse s) (gr_backgroundStatLimit g)
     (gr_headroomLimit g) circuit (gr_Ping g) (st_quotaBytes s) quotaUsed
     (if (0 <? st_quotaBytes s) && (0 <? q_period (gr_quota g)) && (0 <? resetAt) then Some resetAt else None)
     ((0 <? st_quotaBytes s) && (st_quotaBytes s <=? quotaUsed)),
   g <| gr_breaker := breaker |>).

Fixpoint snapshot_groups (secs : float64) (now : providerGroup -> Z) (total : Z) (gs : list group)
  : Z * list ProviderStats * list group :=
  match gs with
  | [] => (total, [], [])
  | g :: gs =>
      let '(ps, g') := provider_snapshot secs (now (gr_group g)) g in
      let '(total, pss, gs') := snapshot_groups secs now (wrap64 (total + ps_BytesConsumed ps)) gs in
      (total, ps :: pss, g' :: gs')
  end.

(** [Stats]; [elapsed] is the time since the client was made, [now] the breakers'
    clocks. *)
Definition Stats (elapsed : Z) (now : providerGroup -> Z) (r : registry) : ClientStats * registry :=
  let secs := seconds elapsed in
  let '(total, mains, ms) := snapshot_groups secs now 0 (rg_mains r) in
  let '(total, backups, bks) := snapshot_groups secs now total (rg_backups r) in
  (mkClientStats (mains ++ backups) (bytes_per secs total) total elapsed,
   r <| rg_mains := ms |> <| rg_backups := bks |>).

(** ** Lemmas *)

Definition zsum : list Z -> Z := foldr Z.add 0.

Lemma zsum_cons x l : zsum (x :: l) = x + zsum l.
Proof. done. Qed.

Lemma zsum_app l k : zsum (l ++ k) = zsum l + zsum k.
Proof. induction l; simpl; lia. Qed.

Lemma wrap64_add_l a b : wrap64 (wrap64 a + b) = wrap64 (a + b).
Proof.
  unfold wrap64. f_equal. replace ((a + 2 ^ 63) mod 2 ^ 64 - 2 ^ 63 + b + 2 ^ 63) with ((a + 2 ^ 63) mod 2 ^ 64 + b) by lia.
  rewrite Zplus_mod_idemp_l. f_equal. lia.
Qed.

Lemma wrap64_add_r a b : wrap64 (a + wrap64 b) = wrap64 (a + b).
Proof. by rewrite Z.add_comm, wrap64_add_l, Z.add_comm. Qed.

Lemma wrap64_sub_l a b : wrap64 (wrap64 a - b) = wrap64 (a - b).
Proof. apply (wrap64_add_l a (- b)). Qed.

Lemma wrap64_sub_r a b : wrap64 (a - wrap64 b) = wrap64 (a - b).
Proof.
  unfold wrap64. f_equal. replace (a - ((b + 2 ^ 63) mod 2 ^ 64 - 2 ^ 63) + 2 ^ 63) with (a + 2 * 2 ^ 63 - (b + 2 ^ 63) mod 2 ^ 64) by lia.
  rewrite Zminus_mod_idemp_r. f_equal. lia.
Qed.

Lemma wrap64_range z : in_int64 (wrap64 z).
Proof. unfold in_int64, wrap64. pose proof (Z.mod_pos_bound (z + 2 ^ 63) (2 ^ 64) ltac:(lia)). lia. Qed.

Lemma snapshot_groups_spec secs now gs : forall total, in_int64 total ->
  let '(total', pss, gs') := snapshot_groups secs now total gs in
  total' = wrap64 (total + zsum (ps_BytesConsumed <$> pss)) /\
  Forall2 (fun g p => fst (provider_snapshot secs (now (gr_group g)) g) = p) gs pss /\ Forall2 same_group gs gs'.
Proof.
  induction gs as [|g gs IH]; intros total Ht; cbn [snapshot_groups].
  { split_and!; [|done|done]. by rewrite Z.add_0_r, wrap64_id. }
  destruct (provider_snapshot secs (now (gr_group g)) g) as [p g'] eqn:Eg.
  specialize (IH (wrap64 (total + ps_BytesConsumed p)) (wrap64_range _)).
  destruct (snapshot_groups secs now _ gs) as [[t pss] gs']. destruct IH as (Hs & Hp & Hg). split_and!.
  - rewrite Hs, wrap64_add_l. apply (f_equal wrap64). rewrite fmap_cons, zsum_cons. lia.
  - constructor; [by rewrite Eg|done].
  - constructor; [|done]. unfold provider_snapshot in Eg. destruct (snapshot (gr_gate g)), (breaker_snapshot (gr_breaker g) _).
    by simplify_eq.
Qed.

(** The states of a provider its slots and requests can bring about, as long as no
    reset of the quota overlaps with its accounting ([reset_races_usage]). *)
Record live (g : group) : Prop := {
  lv_slots : exists n phases, Z.of_nat n < 2 ^ 31 /\ gate_inv n (mkSlots (gr_gate g) phases);
  lv_quota : exists a, quota_repr (gr_quota g) a;
  lv_breaker : breaker_inv (gr_breaker g)
}.

(** Whether a provider in that state is offered a request: by its circuit, by its
    quota at [t]. *)
Definition circuit_admits (c : CircuitBreakerStats) : bool :=
  match st_State c with
  | CircuitBreakerDisabled | CircuitBreakerClosed => true
  | CircuitBreakerHalfOpen => negb (st_ProbeInFlight c)
  | CircuitBreakerOpen => false
  end.
Definition quota_blocks (p : ProviderStats) (t : Z) : bool :=
  ps_QuotaExceeded p && negb (match ps_QuotaResetAt p with Some due => due <=? t | None => false end).

(** What a snapshot taken at [now] says, against what the operations do. *)
Record agrees (now : Z) (g : group) (p : ProviderStats) : Prop := {
  ag_connections : 0 <= ps_ActiveConnections p <= ps_MaxConnections p /\
                   ps_AvailableSlots p <= ps_MaxConnections p - ps_ActiveConnections p;
  ag_slots : 0 < ps_AvailableSlots p <-> exists gate, enter false (gr_gate g) = Some (true, gate);
  ag_quota t t' : fst (isQuotaExceeded (gr_quota g) t t') = quota_blocks p t;
  ag_circuit id : is_nil (snd (acquire (gr_breaker g) id now)) = circuit_admits (ps_CircuitBreaker p)
}.

Lemma circuit_agrees b id now : breaker_inv b ->
  is_nil (snd (acquire b id now)) = circuit_admits (snd (breaker_snapshot b now)).
Proof.
  unfold breaker_inv, acquire, breaker_snapshot, circuit_admits. intros Hi.
  destruct (b_enabled b); [|done]. destruct (b_state b) eqn:Es; simpl; try done;
    destruct (now <? b_openUntil b) eqn:Et; simpl; rewrite ?Et; try done; destruct (b_probeInFlight b); by simpl.
Qed.

Lemma provider_agrees secs now g : live g -> agrees now g (fst (provider_snapshot secs now g)).
Proof.
  intros [(n & phases & Hn & Hg) [a Hq] Hb]. pose proof (circuit_agrees (gr_breaker g)) as Hc.
  unfold provider_snapshot, snapshot. destruct (breaker_snapshot (gr_breaker g) now) as [b circuit] eqn:Eb.
  pose proof (gi_max _ _ Hg) as Hm. destruct (gate_inv_counts n _ Hn Hg) as (_ & _ & H3 & H4 & H5 & H6). simpl in *.
  split; simpl.
  - lia.
  - rewrite H6. unfold enter. destruct (Z.leb_spec (gt_allowed (gr_gate g)) (gt_held (gr_gate g))); split; try lia; try (by eexists).
    by intros [? [=]].
  - intros t t'. unfold quota_blocks, isQuotaExceeded. simpl. destruct Hq as [Ql Qp Qu Qf Qd]. rewrite Ql in *.
    destruct (Z.leb_spec (qa_limit a) 0) as [Hl|Hl]; [by rewrite (proj2 (Z.ltb_ge _ _) Hl)|].
    rewrite (proj2 (Z.ltb_lt _ _) Hl), Qf, Qu by lia. simpl. destruct (qa_limit a <=? qa_used a); [|done]. simpl.
    destruct (0 <? q_period (gr_quota g)), (0 <? q_resetAt (gr_quota g)); try done. simpl. by destruct (_ <=? t).
  - intros id. specialize (Hc id now Hb). by rewrite Eb in Hc.
Qed.

(** A provider that was just started is in such a state. *)
Lemma started_live breakerOn p index e :
  0 < pv_Connections p < 2 ^ 31 -> 0 <= pv_QuotaUsed p -> live (startProviderGroup breakerOn p index e).
Proof.
  intros Hc Hu. unfold startProviderGroup. split; simpl.
  - exists (Z.to_nat (pv_Connections p)), (replicate (Z.to_nat (pv_Connections p)) Outside). split; [lia|].
    assert (H : gate_inv (Z.to_nat (pv_Connections p)) (open_slots (Z.to_nat (pv_Connections p)) (pv_ThrottleRestore p))).
    { eapply gate_inv_reach; [lia|constructor]. }
    unfold open_slots in H. by rewrite Z2Nat.id in H by lia.
  - eexists. destruct (negb (pv_SkipPing p) && _ && _).
    + by destruct (startQuota_repr (pv_QuotaBytes p) (pv_QuotaUsed p) (pv_QuotaPeriod p) (pv_QuotaResetAt p) (se_now e) (se_now' e) Hu).
    + by apply startQuota_repr.
  - apply breaker_inv_new.
Qed.

(** ** Properties *)


