(* ===== verification/Speedtest.v ===== *)
(** The speed test ([speedtest.go], [nzb/nzb.go]): where the segments come from, the
    requests of [SpeedTest] and its accounting by differences of two snapshots.

    [SpeedTest] is a program: it dispatches every segment before it receives the
    first response, so its other goroutines are the environment that answers
    [TReceive].  The XML decoder and the HTTP client answer [TDecode], [TNewRequest]
    and [TDo]. *)
From S2P Require Import Prelude Text Errors CircuitBreaker Reader Evidence Handshake Prog Dispatch Stats Gate Pool Registry Article Snapshot.
#[local] Open Scope prog_scope.

(** ** Data *)

(** [nzb.Segment], [nzb.File] and [nzb.NZB]. *)
Record Segment := mkSegment { sg_Bytes : Z; sg_Number : Z; sg_MessageID : bytes }.
Record File := mkFile {
  fl_Poster : bytes;
  fl_Date : bytes;
  fl_Subject : bytes;
  fl_Groups : list bytes;
  fl_Segments : list Segment
}.
Record NZB := mkNZB { nz_Files : list File }.

(** [AllSegments]: the loop's appends. *)
Definition AllSegments (n : NZB) : list Segment := fold_left (fun segs f => segs ++ fl_Segments f) (nz_Files n) [].

Record SpeedTestOptions := mkSpeedOptions {
  to_NZBURL : string;
  to_NZBReader : bool;
  to_MaxSegments : Z;
  to_OnProgress : bool;
  to_NZBFetchTimeout : Z;
  to_ProviderName : string
}.

Record SpeedTestProgress := mkProgress {
  pp_Elapsed : Z;
  pp_SegmentsDone : Z;
  pp_SegmentsTotal : Z;
  pp_WireSpeedBps : float64;
  pp_AvgSpeedBps : float64;
  pp_ETASeconds : float64
}.

Record SpeedTestResult := mkSpeedResult {
  tr_Elapsed : Z;
  tr_SegmentsDone : Z;
  tr_SegmentsTotal : Z;
  tr_Missing : Z;
  tr_Errors : Z;
  tr_WireBytes : Z;
  tr_WireSpeedBps : float64;
  tr_DecodedBytes : Z;
  tr_DecodedSpeedBps : float64;
  tr_Providers : list ProviderStats
}.

(** ** Questions *)

(** What the NZB is read from. *)
Inductive nzb_source := CallersReader | HTTPBody.

(** [TDispatch] starts the request of a segment, on the target group when there is
    one; [TReceive] is what its channel gives: nothing when it is closed.  [TDone]
    is the shared counter of segments. *)
Inductive tquery :=
| TNewRequest (url : string)
| TDo (url : string) (timeout : Z)
| TDecode (src : nzb_source)
| TLoad (backup : bool)
| TStats
| TNow
| TDispatch (i : nat) (target : option providerGroup) (payload : bytes)
| TReceive (i : nat)
| TAddDone
| TTick
| TDone
| TOnProgress (p : SpeedTestProgress).

Definition tans (q : tquery) : Type :=
  match q with
  | TNewRequest _ => error
  | TDo _ _ => Z + gerror
  | TDecode _ => NZB + gerror
  | TLoad _ => list providerGroup
  | TStats => ClientStats
  | TNow | TDone => Z
  | TReceive _ => option Response
  | TTick => bool
  | TDispatch _ _ _ | TAddDone | TOnProgress _ => unit
  end.

Definition tprog : Type -> Type := prog tans Empty_set Empty_set.
Definition task (q : tquery) : tprog (tans q) := ask q.

(** ** The segments *)

Definition DefaultSpeedTestNZBURL : string := "https://sabnzbd.org/tests/test_download_1GB.nzb".

(** [nzb.Parse] *)
Definition Parse (src : nzb_source) : tprog (NZB + gerror) :=
  let! n := task (TDecode src) in
  Ret match n with inl n => inl n | inr e => inr (EWrap "nzb parse" e) end.

Definition fetchNZB (opts : SpeedTestOptions) : tprog (nzb_source + gerror) :=
  let url := if String.eqb (to_NZBURL opts) "" then DefaultSpeedTestNZBURL else to_NZBURL opts in
  let timeout := if to_NZBFetchTimeout opts =? 0 then 30 * GoSecond else to_NZBFetchTimeout opts in
  let! err := task (TNewRequest url) in
  match err with
  | Some e => Ret (inr (EWrap "speedtest: create NZB request" e))
  | None =>
      let! resp := task (TDo url timeout) in
      Ret match resp with
          | inr e => inr (EWrap "speedtest: fetch NZB" e)
          | inl code => if negb (code =? 200) then inr (EOpaque "speedtest: NZB HTTP status") else inl HTTPBody
          end
  end.

Definition loadSpeedTestSegments (opts : SpeedTestOptions) : tprog (list Segment + gerror) :=
  let! src := if to_NZBReader opts then Ret (inl CallersReader) else fetchNZB opts in
  match src with
  | inr e => Ret (inr e)
  | inl src =>
      let! n := Parse src in
      Ret match n with
          | inr e => inr (EWrap "speedtest" e)
          | inl n => inl (AllSegments n)
          end
  end.

(** [segments[:opts.MaxSegments]] *)
Definition limited (maxSegments : Z) (segments : list Segment) : list Segment :=
  if (0 <? maxSegments) && (maxSegments <? zlen segments) then take (Z.to_nat maxSegments) segments else segments.

(** ** The counters *)

Definition totalWireBytes (s : ClientStats) : Z := cs_BytesConsumed s.

Definition providerWireBytes (s : ClientStats) (name : string) : Z :=
  match List.find (fun p => String.eqb (ps_Name p) name) (cs_Providers s) with
  | Some p => ps_BytesConsumed p
  | None => 0
  end.

(** A response that counts as decoded. *)
Definition counted (resp : option Response) : Z :=
  match resp with
  | Some r => if is_nil (rs_Err r) && negb (rs_StatusCode r =? 430) && negb (rs_StatusCode r =? 423)
              then BytesDecoded (rs_Meta r) else 0
  | None => 0
  end.

(** The loop over the providers of the last snapshot. *)
Definition provider_delta (target : bool) (name : string) (secs : float64) (startStats endStats : ClientStats)
    (startProvMap : gmap string ProviderStats) (st : Z * Z * list ProviderStats) (ps : ProviderStats)
  : Z * Z * list ProviderStats :=
  let '(totalMissing, totalErrors, resultProviders) := st in
  if target && negb (String.eqb (ps_Name ps) name) then st
  else
    let sp := default zero_ProviderStats (startProvMap !! ps_Name ps) in
    let provWire := wrap64 (providerWireBytes endStats (ps_Name ps) - providerWireBytes startStats (ps_Name ps)) in
    let delta := zero_ProviderStats <| ps_Name := ps_Name ps |>
                   <| ps_Missing := wrap64 (ps_Missing ps - ps_Missing sp) |>
                   <| ps_Errors := wrap64 (ps_Errors ps - ps_Errors sp) |>
                   <| ps_ActiveConnections := ps_ActiveConnections ps |>
                   <| ps_MaxConnections := ps_MaxConnections ps |>
                   <| ps_Ping := ps_Ping ps |>
                   <| ps_AvgSpeed := bytes_per secs provWire |> in
    (wrap64 (totalMissing + ps_Missing delta), wrap64 (totalErrors + ps_Errors delta), resultProviders ++ [delta]).

(** [startProvMap] *)
Definition name_table (pss : list ProviderStats) : gmap string ProviderStats :=
  fold_left (fun m ps => <[ps_Name ps := ps]> m) pss ∅.

Definition deltas (target : bool) (name : string) (secs : float64) (startStats endStats : ClientStats)
  : Z * Z * list ProviderStats :=
  let startProvMap := name_table (cs_Providers startStats) in
  fold_left (provider_delta target name secs startStats endStats startProvMap) (cs_Providers endStats) (0, 0, []).

(** ** The test *)

Definition is_Some_b {A} (o : option A) : bool := match o with Some _ => true | None => false end.

(** The two loops; [i] is the index of the first segment left. *)
Fixpoint dispatch_all (target : option providerGroup) (i : nat) (segments : list Segment) : tprog unit :=
  match segments with
  | [] => Ret tt
  | seg :: segments =>
      task (TDispatch i target (bodyPayload (sg_MessageID seg))) ;! dispatch_all target (S i) segments
  end.

Fixpoint collect_all (i n : nat) (bytesDecoded segsDone : Z) : tprog (Z * Z) :=
  match n with
  | O => Ret (bytesDecoded, segsDone)
  | S n =>
      let! resp := task (TReceive i) in
      task TAddDone ;! collect_all (S i) n (wrap64 (bytesDecoded + counted resp)) (segsDone + 1)
  end.

(** The provider a test is confined to: [findGroup] over the client's lists. *)
Definition speed_target (name : string) : tprog (option providerGroup) :=
  let! mains := task (TLoad false) in
  let! backups := task (TLoad true) in
  Ret match named_group name mains with
      | Some g => Some g
      | None => named_group name backups
      end.

Definition measure (opts : SpeedTestOptions) (target : option providerGroup) (segments : list Segment)
  : tprog SpeedTestResult :=
  let! startStats := task TStats in
  let! testStart := task TNow in
  dispatch_all target 0 segments ;!
  (let! (decoded, segsDone) := collect_all 0 (length segments) 0 0 in
   let! now := task TNow in
   let elapsed := now - testStart in
   let! endStats := task TStats in
   let secs := seconds elapsed in
   let wireBytes := wrap64 (totalWireBytes endStats - totalWireBytes startStats) in
   let '(missing, errors, providers) :=
     deltas (is_Some_b target) (to_ProviderName opts) secs startStats endStats in
   Ret (mkSpeedResult elapsed segsDone (zlen segments) missing errors wireBytes (bytes_per secs wireBytes)
          decoded (bytes_per secs decoded) providers)).

Definition SpeedTest (opts : SpeedTestOptions) : tprog (SpeedTestResult + gerror) :=
  let! segments := loadSpeedTestSegments opts in
  match segments with
  | inr e => Ret (inr e)
  | inl [] => Ret (inr (EOpaque "speedtest: no segments found in NZB"))
  | inl segments =>
      let segments := limited (to_MaxSegments opts) segments in
      if String.eqb (to_ProviderName opts) "" then let! r := measure opts None segments in Ret (inl r)
      else
        let! target := speed_target (to_ProviderName opts) in
        match target with
        | None => Ret (inr (EOpaque "speedtest: provider not found"))
        | Some g => let! r := measure opts (Some g) segments in Ret (inl r)
        end
  end.

(** *** Progress *)

(** One report: the bytes on the wire since the start, since the last report, and
    the time left at the present rate. *)
Definition progress_report (startStats snap : ClientStats) (lastWireBytes elapsed totalSegs done : Z)
  : SpeedTestProgress * Z :=
  let wireNow := wrap64 (totalWireBytes snap - totalWireBytes startStats) in
  let secs := seconds elapsed in
  let eta := if 0 <? done then fmul (fdiv (f_of_Z (totalSegs - done)) (f_of_Z done)) secs else f0 in
  (mkProgress elapsed done totalSegs (f_of_Z (wrap64 (wireNow - lastWireBytes))) (bytes_per secs wireNow) eta, wireNow).

(** The progress goroutine from its [n]th last tick on; [TTick] is false when the
    test is over. *)
Fixpoint progress_loop (fuel : nat) (startStats : ClientStats) (start lastWireBytes totalSegs : Z) : tprog unit :=
  match fuel with
  | O => NoFuel
  | S fuel =>
      let! tick := task TTick in
      if negb tick then Ret tt
      else
        let! snap := task TStats in
        let! now := task TNow in
        let! done := task TDone in
        let '(p, wireNow) := progress_report startStats snap lastWireBytes (now - start) totalSegs done in
        task (TOnProgress p) ;! progress_loop fuel startStats start wireNow totalSegs
  end.

Definition progress (fuel : nat) (opts : SpeedTestOptions) (startStats : ClientStats) (totalSegs : Z) : tprog unit :=
  if negb (to_OnProgress opts) then Ret tt
  else let! start := task TNow in progress_loop fuel startStats start 0 totalSegs.

(** ** Executions *)

Definition t_exec {A} (p : tprog A) (t : list (Prog.event tans)) (r : option A) : Prop :=
  exec (fun (_ : Empty_set) _ _ => False) p t r.

(** The requests an execution starts, with the segment's index; the responses it
    takes. *)
Definition dispatched_at (e : Prog.event tans) : list (nat * option providerGroup * bytes) :=
  match e with Ev q _ => match q with TDispatch i g payload => [(i, g, payload)] | _ => [] end end.
Definition received_at (e : Prog.event tans) : list (nat * option Response) :=
  match e with
  | Ev q x => match q return tans q -> list (nat * option Response) with
              | TReceive i => fun x => [(i, x)]
              | _ => fun _ => []
              end x
  end.
Definition dispatched (t : list (Prog.event tans)) : list (nat * option providerGroup * bytes) := flat_map dispatched_at t.
Definition received (t : list (Prog.event tans)) : list (nat * option Response) := flat_map received_at t.

(** The requests of a test. *)
Definition requests (target : option providerGroup) (i : nat) (segments : list Segment)
  : list (nat * option providerGroup * bytes) :=
  imap (fun j seg => ((i + j)%nat, target, bodyPayload (sg_MessageID seg))) segments.

(** ** Lemmas *)

Lemma AllSegments_concat n : AllSegments n = concat (fl_Segments <$> nz_Files n).
Proof.
  unfold AllSegments. enough (H : forall acc, fold_left (fun segs f => segs ++ fl_Segments f) (nz_Files n) acc =
    acc ++ concat (fl_Segments <$> nz_Files n)) by apply H.
  induction (nz_Files n) as [|f fs IH]; intros acc; simpl; [by rewrite app_nil_r|]. by rewrite IH, <- app_assoc.
Qed.

Lemma dispatch_all_exec target segments : forall i t r, t_exec (dispatch_all target i segments) t r ->
  r = Some tt /\ dispatched t = requests target i segments /\ received t = [].
Proof.
  induction segments as [|seg segs IH]; intros i t r H; unfold t_exec in *; cbn [dispatch_all exec bind task ask] in H.
  - by destruct H as [-> ->].
  - destruct H as (x & t' & -> & H). apply IH in H as (-> & Hd & Hr). split; [done|]. unfold dispatched, received in *.
    cbn [flat_map dispatched_at received_at app]. rewrite Hd, Hr. split; [|done]. unfold requests. rewrite imap_cons.
    f_equal; [by rewrite Nat.add_0_r|]. apply imap_ext. intros j y _. simpl. by rewrite Nat.add_succ_r.
Qed.

Lemma collect_all_exec n : forall i bytesDecoded segsDone t r, in_int64 bytesDecoded ->
  t_exec (collect_all i n bytesDecoded segsDone) t r ->
  exists resps, length resps = n /\ received t = imap (fun j x => ((i + j)%nat, x)) resps /\ dispatched t = [] /\
    r = Some (wrap64 (bytesDecoded + zsum (counted <$> resps)), segsDone + Z.of_nat n).
Proof.
  induction n as [|n IH]; intros i b d t r Hb H; unfold t_exec in *; cbn [collect_all exec bind task ask] in H.
  - destruct H as [-> ->]. exists []. split_and!; try done. do 2 f_equal; [|lia]. by rewrite Z.add_0_r, wrap64_id.
  - destruct H as (x & t1 & -> & u & t2 & -> & H). apply IH in H as (resps & Hl & Hr & Hd & ->); [|apply wrap64_range].
    exists (x :: resps). unfold dispatched, received in *. cbn [flat_map dispatched_at received_at app]. rewrite Hd, Hr.
    split_and!; [by simpl; f_equal| |done|].
    + rewrite imap_cons. f_equal; [by rewrite Nat.add_0_r|]. apply imap_ext. intros j y _. simpl. by rewrite Nat.add_succ_r.
    + rewrite wrap64_add_l, fmap_cons, zsum_cons. do 2 f_equal; [f_equal; lia|lia].
Qed.

(** A provider of the last snapshot and what the result says of it: the growth of its
    counters since the first snapshot, in which the last one of that name counts
    ([startProvMap]), and nothing when there is none. *)
Definition at_start (st : ClientStats) (p : ProviderStats) : ProviderStats :=
  default zero_ProviderStats (name_table (cs_Providers st) !! ps_Name p).

Record grown (secs : float64) (st en : ClientStats) (p d : ProviderStats) : Prop := {
  gn_name : ps_Name d = ps_Name p;
  gn_missing : ps_Missing d = wrap64 (ps_Missing p - ps_Missing (at_start st p));
  gn_errors : ps_Errors d = wrap64 (ps_Errors p - ps_Errors (at_start st p));
  gn_speed : ps_AvgSpeed d = bytes_per secs (wrap64 (providerWireBytes en (ps_Name p) - providerWireBytes st (ps_Name p)))
}.

(** The providers a test reports. *)
Definition reported (target : bool) (name : string) (en : ClientStats) : list ProviderStats :=
  List.filter (fun p => negb target || String.eqb (ps_Name p) name) (cs_Providers en).

(** What a test of the requests [segments] reports: over the snapshot taken before the
    first request and the one taken after the last response. *)
Record measured (opts : SpeedTestOptions) (target : option providerGroup) (segments : list Segment)
    (startStats endStats : ClientStats) (elapsed : Z) (resps : list (option Response)) (res : SpeedTestResult) : Prop := {
  me_elapsed : tr_Elapsed res = elapsed;
  me_done : tr_SegmentsDone res = zlen segments;
  me_total : tr_SegmentsTotal res = zlen segments;
  me_decoded : tr_DecodedBytes res = wrap64 (zsum (counted <$> resps));
  me_decodedSpeed : tr_DecodedSpeedBps res = bytes_per (seconds elapsed) (tr_DecodedBytes res);
  me_wire : tr_WireBytes res = wrap64 (totalWireBytes endStats - totalWireBytes startStats);
  me_wireSpeed : tr_WireSpeedBps res = bytes_per (seconds elapsed) (tr_WireBytes res);
  me_missing : tr_Missing res = wrap64 (zsum (ps_Missing <$> tr_Providers res));
  me_errors : tr_Errors res = wrap64 (zsum (ps_Errors <$> tr_Providers res));
  me_providers : Forall2 (grown (seconds elapsed) startStats endStats)
                   (reported (is_Some_b target) (to_ProviderName opts) endStats) (tr_Providers res)
}.

(** *** Differences *)

(** The totals are those of the providers kept, each with its difference. *)
Lemma deltas_spec target name secs st en :
  let '(missing, errors, providers) := deltas target name secs st en in
  missing = wrap64 (zsum (ps_Missing <$> providers)) /\ errors = wrap64 (zsum (ps_Errors <$> providers)) /\
  Forall2 (grown secs st en) (reported target name en) providers.
Proof.
  unfold deltas, reported. cbv zeta.
  enough (H : forall pss a b l, in_int64 a -> in_int64 b ->
    let '(missing, errors, providers) := fold_left (provider_delta target name secs st en (name_table (cs_Providers st))) pss (a, b, l) in
    exists ds, providers = l ++ ds /\
    missing = wrap64 (a + zsum (ps_Missing <$> ds)) /\ errors = wrap64 (b + zsum (ps_Errors <$> ds)) /\
    Forall2 (grown secs st en) (List.filter (fun p => negb target || String.eqb (ps_Name p) name) pss) ds).
  { specialize (H (cs_Providers en) 0 0 [] ltac:(done) ltac:(done)).
    destruct (fold_left _ (cs_Providers en) (0, 0, [])) as [[a b] l]. by destruct H as (ds & -> & H). }
  induction pss as [|p pss IH]; intros a b l Ha Hb; cbn [fold_left List.filter].
  { exists []. rewrite app_nil_r. split_and!; try done; simpl; by rewrite Z.add_0_r, wrap64_id. }
  unfold provider_delta at 2. replace (negb target || String.eqb (ps_Name p) name)
    with (negb (target && negb (String.eqb (ps_Name p) name))) by (by destruct target, (String.eqb (ps_Name p) name)).
  destruct (target && negb (String.eqb (ps_Name p) name)); cbn [negb]; [by apply IH|].
  set (d := _ <| ps_AvgSpeed := _ |>).
  specialize (IH (wrap64 (a + ps_Missing d)) (wrap64 (b + ps_Errors d)) (l ++ [d]) (wrap64_range _) (wrap64_range _)).
  destruct (fold_left _ pss _) as [[a' b'] l']. destruct IH as (ds & -> & -> & -> & H). exists (d :: ds).
  rewrite <- app_assoc, !wrap64_add_l, !fmap_cons, !zsum_cons. split_and!; [done|f_equal; lia|f_equal; lia|by constructor].
Qed.

(** The whole measurement: two snapshots around the requests and their responses. *)
Lemma measure_exec opts target segments t r : t_exec (measure opts target segments) t r ->
  exists startStats endStats start stop work resps res,
    t = Ev TStats startStats :: Ev TNow start :: work ++ [Ev TNow stop; Ev TStats endStats] /\
    dispatched work = requests target 0 segments /\ length resps = length segments /\
    received work = imap (fun j x => (j, x)) resps /\
    measured opts target segments startStats endStats (stop - start) resps res /\ r = Some res.
Proof.
  unfold measure, t_exec. intros H. cbn [exec bind task ask] in H. destruct H as (s0 & t0 & -> & n0 & t1 & -> & H).
  apply exec_bind in H as [(t2 & t3 & x & -> & H2 & H)|[H2 ->]].
  2:{ by apply dispatch_all_exec in H2 as (? & _). }
  apply dispatch_all_exec in H2 as (_ & Hd2 & Hr2).
  apply exec_bind in H as [(t4 & t5 & [b d] & -> & H3 & H)|[H3 ->]].
  2:{ by apply collect_all_exec in H3 as (? & _ & _ & _ & ?). }
  apply collect_all_exec in H3 as (resps & Hl & Hr & Hd & [= -> ->]); [|done].
  cbn [exec bind task ask] in H. destruct H as (n1 & t6 & -> & s1 & t7 & -> & H). cbv zeta in H.
  pose proof (deltas_spec (is_Some_b target) (to_ProviderName opts) (seconds (n1 - n0)) s0 s1) as Hs.
  destruct (deltas _ _ _ s0 s1) as [[missing errors] providers] eqn:Ed. destruct H as [-> ->]. destruct Hs as (Hm & He & Hp).
  exists s0, s1, n0, n1, (t2 ++ t4), resps. eexists. split; [by rewrite <- app_assoc|].
  unfold dispatched, received in *. rewrite !flat_map_app, Hd2, Hr2, Hd, Hr, app_nil_r. split_and!; try done. by split.
Qed.

(** Names are looked up uniquely. *)
Lemma find_name pss p : NoDup (ps_Name <$> pss) -> p ∈ pss -> List.find (fun q => String.eqb (ps_Name q) (ps_Name p)) pss = Some p.
Proof.
  induction pss as [|q pss IH]; [by intros _ ?%elem_of_nil|]. intros [Hq Hn]%list.NoDup_cons [->|Hp]%elem_of_cons; cbn [List.find].
  - by rewrite String.eqb_refl.
  - destruct (String.eqb_spec (ps_Name q) (ps_Name p)) as [E|_]; [|by apply IH]. exfalso. apply Hq. rewrite E. apply list_elem_of_fmap. by exists p.
Qed.

Lemma name_table_lookup pss p : NoDup (ps_Name <$> pss) -> p ∈ pss -> name_table pss !! ps_Name p = Some p.
Proof.
  unfold name_table. generalize (∅ : gmap string ProviderStats).
  assert (Hk : forall pss (m : gmap string ProviderStats) n, (n ∉ ps_Name <$> pss) ->
    fold_left (fun m q => <[ps_Name q := q]> m) pss m !! n = m !! n).
  { clear. induction pss as [|q pss IH]; [done|]. intros m n [Hn Hns]%not_elem_of_cons. simpl. rewrite IH by done.
    by rewrite lookup_insert_ne. }
  induction pss as [|q pss IH]; intros m; [by intros _ ?%elem_of_nil|].
  intros [Hq Hn]%list.NoDup_cons [->|Hp]%elem_of_cons; simpl; [|by apply IH]. rewrite Hk by done. by rewrite lookup_insert_eq.
Qed.

Lemma zsum_differences (f : ProviderStats -> Z) ps qs : Forall2 (fun _ _ => True) ps qs ->
  wrap64 (zsum (zip_with (fun p q => wrap64 (f q - f p)) ps qs)) = wrap64 (zsum (f <$> qs) - zsum (f <$> ps)).
Proof.
  induction 1 as [|p q ps qs _ _ IH]; [done|]. cbn [zip_with]. rewrite zsum_cons, wrap64_add_l, !fmap_cons, !zsum_cons.
  rewrite <- wrap64_add_r, IH, wrap64_add_r. f_equal. lia.
Qed.

Lemma load_exec opts t r : t_exec (loadSpeedTestSegments opts) t r ->
  dispatched t = [] /\ received t = [] /\
  match r with
  | Some (inl segs) => exists src n, Ev (TDecode src) (inl n) ∈ t /\ segs = concat (fl_Segments <$> nz_Files n)
  | _ => True
  end.
Proof.
  assert (Hf : forall t r, t_exec (fetchNZB opts) t r -> dispatched t = [] /\ received t = []).
  { clear. unfold fetchNZB, t_exec. intros t r H. cbn [exec bind task ask] in H. destruct H as (e & t1 & -> & H).
    destruct e as [e|]; [by destruct H as [-> _]|]. cbn [exec bind task ask] in H. by destruct H as (x & t2 & -> & -> & _). }
  unfold loadSpeedTestSegments. intros H. unfold t_exec in H. apply exec_bind in H as [(t1 & t2 & src & -> & H1 & H)|[H1 ->]].
  2:{ destruct (to_NZBReader opts); [by destruct H1|]. apply Hf in H1 as [-> ->]. done. }
  assert (Hs : dispatched t1 = [] /\ received t1 = []).
  { destruct (to_NZBReader opts); [by destruct H1 as [-> _]|by apply Hf in H1]. }
  unfold dispatched, received in *. rewrite !flat_map_app. destruct Hs as [-> ->].
  destruct src as [src|e]; [|by destruct H as [-> ->]]. unfold Parse in H. cbn [exec bind task ask] in H.
  destruct H as (n & t3 & -> & -> & ->). split; [done|]. split; [done|]. destruct n as [n|e]; [|done].
  exists src, n. split; [set_solver|]. apply AllSegments_concat.
Qed.

(** What a test is confined to. *)
Definition target_named (name : string) (target : option providerGroup) : Prop :=
  match target with
  | None => name = ""%string
  | Some g => name <> ""%string /\ (g_name g = name \/ g_id g = name)
  end.

Lemma named_group_spec name gs g : named_group name gs = Some g -> g_name g = name \/ g_id g = name.
Proof. intros [_ H]%List.find_some. apply orb_true_iff in H as [H|H]; apply String.eqb_eq in H; auto. Qed.

Lemma limited_spec max segs : segs <> [] ->
  limited max segs <> [] /\ (0 < max -> zlen (limited max segs) <= max).
Proof.
  intros Hs. unfold limited. destruct (Z.ltb_spec 0 max) as [Hm|Hm]; [|by split; [|lia]].
  destruct (Z.ltb_spec max (zlen segs)); simpl andb; cbv iota; [|by split; [|lia]].
  split; [|intros _; unfold zlen; rewrite length_take; lia]. destruct segs; [done|].
  by destruct (Z.to_nat max) eqn:En; [lia|].
Qed.

(** An error ends a test before its first request; otherwise it measures. *)
Lemma speedtest_exec opts t r : t_exec (SpeedTest opts) t r ->
  match r with
  | Some (inl res) => exists src n target t1 t2,
      t = t1 ++ t2 /\ dispatched t1 = [] /\ received t1 = [] /\ Ev (TDecode src) (inl n) ∈ t1 /\
      concat (fl_Segments <$> nz_Files n) <> [] /\ target_named (to_ProviderName opts) target /\
      t_exec (measure opts target (limited (to_MaxSegments opts) (concat (fl_Segments <$> nz_Files n)))) t2 (Some res)
  | Some (inr e) => dispatched t = [] /\ received t = []
  | None => True
  end.
Proof.
  unfold SpeedTest. intros H. unfold t_exec in H. apply exec_bind in H as [(t1 & t2 & segs & -> & H1 & H)|[_ ->]]; [|done].
  apply load_exec in H1 as (Hd1 & Hr1 & Hs). unfold dispatched, received in *. rewrite !flat_map_app, Hd1, Hr1.
  destruct segs as [segs|e]; [|by destruct H as [-> ->]]. destruct Hs as (src & n & Hin & ->).
  destruct (concat _) as [|seg rest] eqn:Eall; [by destruct H as [-> ->]|]. rewrite <- Eall in H. cbv zeta in H.
  destruct (String.eqb_spec (to_ProviderName opts) "") as [En|En].
  - apply exec_bind in H as [(t3 & t4 & res & -> & H & [-> ->])|[_ ->]]; [|done].
    exists src, n, None, t1, t3. rewrite app_nil_r, Eall. split_and!; try done. by rewrite <- Eall.
  - unfold speed_target in H. cbn [exec bind task ask] in H. destruct H as (mains & t3 & -> & backups & t4 & -> & H).
    remember (match named_group (to_ProviderName opts) mains with
              | Some g => Some g
              | None => named_group (to_ProviderName opts) backups
              end) as target eqn:Et. destruct target as [g|]; [|by destruct H as [-> ->]].
    apply exec_bind in H as [(t5 & t6 & res & -> & H & [-> ->])|[_ ->]]; [|done].
    exists src, n, (Some g), (t1 ++ [Ev (TLoad false) mains; Ev (TLoad true) backups]), t5.
    rewrite !flat_map_app, Hd1, Hr1, app_nil_r, <- app_assoc. split_and!; try done; [set_solver|by rewrite Eall|].
    split; [done|]. destruct (named_group _ mains) eqn:Em; [simplify_eq; by eapply named_group_spec|by eapply named_group_spec].
Qed.

(** ** Properties *)

(** C38: Speed test: a test that ends with a result has asked for the body of every
    segment of the NZB, up to the limit, once each and in their order, all on the
    same target, and has taken the response of each, all between two snapshots of
    the statistics: the first before the clock and the requests, the second after the
    last response and the clock.  The segments reported done are all of them, the
    decoded bytes those of the responses without error and without absence, the bytes
    on the wire the growth of the total counter from the first snapshot to the
    second, the time that between the clock readings; the missing and failed articles
    are the sums over the reported providers of the growth of their counters.  The
    reported providers are all, and with a target those whose name is the one that
    was asked for (none when that was an identity).  A test that ends with an error
    has asked for nothing. *)
Theorem speedtest_measures opts t r : t_exec (SpeedTest opts) t (Some r) ->
  match r with
  | inl res => exists src n target before startStats start work stop endStats resps,
      let segments := limited (to_MaxSegments opts) (concat (fl_Segments <$> nz_Files n)) in
      t = before ++ Ev TStats startStats :: Ev TNow start :: work ++ [Ev TNow stop; Ev TStats endStats] /\
      Ev (TDecode src) (inl n) ∈ before /\ dispatched before = [] /\ received before = [] /\
      segments <> [] /\ (0 < to_MaxSegments opts -> zlen segments <= to_MaxSegments opts) /\
      target_named (to_ProviderName opts) target /\ dispatched work = requests target 0 segments /\
      received work = imap (fun i r => (i, r)) resps /\ length resps = length segments /\
      measured opts target segments startStats endStats (stop - start) resps res
  | inr e => dispatched t = [] /\ received t = []
  end.
Proof.
  intros H%speedtest_exec. destruct r as [res|e]; [|done].
  destruct H as (src & n & target & t1 & t2 & -> & Hd1 & Hr1 & Hin & Hne & Ht & Hm).
  apply measure_exec in Hm as (s0 & s1 & n0 & n1 & work & resps & res' & -> & Hd & Hl & Hr & Hme & [= <-]).
  exists src, n, target, t1, s0, n0, work, n1, s1, resps. cbv zeta.
  destruct (limited_spec (to_MaxSegments opts) _ Hne). by split_and!.
Qed.

(** Accounting: over two snapshots of the same providers, each listed once, the
    result lists them in their order with the growth of their counters, and its
    totals are the sums of theirs. *)
Theorem speedtest_accounts name secs startStats endStats :
  let '(missing, errors, providers) := deltas false name secs startStats endStats in
  ps_Name <$> cs_Providers startStats = ps_Name <$> cs_Providers endStats ->
  NoDup (ps_Name <$> cs_Providers startStats) ->
  ps_Name <$> providers = ps_Name <$> cs_Providers endStats /\
  ps_Missing <$> providers =
    zip_with (fun p q => wrap64 (ps_Missing q - ps_Missing p)) (cs_Providers startStats) (cs_Providers endStats) /\
  ps_AvgSpeed <$> providers =
    zip_with (fun p q => bytes_per secs (wrap64 (ps_BytesConsumed q - ps_BytesConsumed p))) (cs_Providers startStats) (cs_Providers endStats) /\
  missing = wrap64 (zsum (ps_Missing <$> cs_Providers endStats) - zsum (ps_Missing <$> cs_Providers startStats)) /\
  errors = wrap64 (zsum (ps_Errors <$> cs_Providers endStats) - zsum (ps_Errors <$> cs_Providers startStats)).
Proof.
  pose proof (deltas_spec false name secs startStats endStats) as H.
  destruct (deltas false name secs startStats endStats) as [[missing errors] providers]. destruct H as (Hm & He & H).
  intros Hn Hd. assert (Hd' : NoDup (ps_Name <$> cs_Providers endStats)) by (by rewrite <- Hn).
  assert (Hf : forall l : list ProviderStats, List.filter (fun p => negb false || String.eqb (ps_Name p) name) l = l).
  { clear. induction l as [|p l IH]; [done|]. cbn [List.filter]. simpl. by f_equal. }
  unfold reported in H. rewrite Hf in H. clear Hf.
  pose proof (zsum_differences ps_Missing (cs_Providers startStats) (cs_Providers endStats)) as Sm.
  pose proof (zsum_differences ps_Errors (cs_Providers startStats) (cs_Providers endStats)) as Se.
  assert (Hl : Forall2 (fun _ _ => True) (cs_Providers startStats) (cs_Providers endStats)).
  { apply Forall2_same_length_lookup_2; [|done]. apply (f_equal length) in Hn. by rewrite !length_fmap in Hn. }
  rewrite <- Sm, <- Se by done. clear Sm Se Hl. subst missing errors.
  assert (H' : ps_Name <$> providers = ps_Name <$> cs_Providers endStats /\
    ps_Missing <$> providers = zip_with (fun p q => wrap64 (ps_Missing q - ps_Missing p)) (cs_Providers startStats) (cs_Providers endStats) /\
    ps_Errors <$> providers = zip_with (fun p q => wrap64 (ps_Errors q - ps_Errors p)) (cs_Providers startStats) (cs_Providers endStats) /\
    ps_AvgSpeed <$> providers = zip_with (fun p q => bytes_per secs (wrap64 (ps_BytesConsumed q - ps_BytesConsumed p))) (cs_Providers startStats) (cs_Providers endStats)).
  2:{ destruct H' as (-> & -> & -> & ->). by split_and!. }
  assert (Hst : forall p q, p ∈ cs_Providers startStats -> ps_Name p = ps_Name q ->
    at_start startStats q = p /\ providerWireBytes startStats (ps_Name q) = ps_BytesConsumed p).
  { intros p q Hp Hq. unfold at_start, providerWireBytes. rewrite <- Hq. split; [by rewrite name_table_lookup by done|by rewrite find_name]. }
  assert (Hen : forall p, p ∈ cs_Providers endStats -> providerWireBytes endStats (ps_Name p) = ps_BytesConsumed p).
  { intros p Hp. unfold providerWireBytes. by rewrite find_name. }
  clear Hd Hd'.
  revert Hn Hst Hen. generalize (cs_Providers startStats) as ps.
  induction H as [|q d qs ds [N M E S] _ IH]; intros ps Hn Hst Hen; [by destruct ps|].
  destruct ps as [|p ps]; [done|]. rewrite !fmap_cons in *. injection Hn as Hpq Hn. cbn [zip_with].
  destruct (IH ps Hn) as (-> & -> & -> & ->); try (intros; by apply Hst || apply Hen; set_solver).
  destruct (Hst p q) as [Hm Hw]; [set_solver|done|]. rewrite Hen, Hw in S by set_solver. rewrite Hm in M, E.
  by rewrite <- N, <- M, <- E, <- S.
Qed.

(** ** Departures *)

(** A provider may be named by its identity; the differences are kept by name, so
    the result then has no provider, nothing missing and no errors, whatever
    happened. *)
Theorem target_by_identity opts t res : t_exec (SpeedTest opts) t (Some (inl res)) ->
  to_ProviderName opts <> ""%string ->
  (forall cs, Ev TStats cs ∈ t -> (to_ProviderName opts ∉ ps_Name <$> cs_Providers cs)) ->
  tr_Providers res = [] /\ tr_Missing res = 0 /\ tr_Errors res = 0.
Proof.
  intros H%speedtest_exec Hname Hids. destruct H as (src & n & target & t1 & t2 & -> & _ & _ & _ & _ & Ht & Hm).
  destruct target as [g|]; [|done].
  apply measure_exec in Hm as (s0 & s1 & n0 & n1 & work & resps & res' & -> & _ & _ & _ & [] & [= <-]).
  specialize (Hids s1). cbn [is_Some_b] in me_providers0. rewrite me_missing0, me_errors0. unfold reported in me_providers0.
  assert (Hk : List.filter (fun p => negb true || String.eqb (ps_Name p) (to_ProviderName opts)) (cs_Providers s1) = []).
  { specialize (Hids ltac:(set_solver)). clear -Hids. induction (cs_Providers s1) as [|p l IH]; [done|]. rewrite fmap_cons in Hids.
    apply not_elem_of_cons in Hids as [Hp Hl]. cbn [List.filter]. destruct (String.eqb_spec (ps_Name p) (to_ProviderName opts)); [congruence|].
    by apply IH. }
  rewrite Hk in me_providers0. by inversion me_providers0.
Qed.

(** ** Witnesses *)

Definition demo_group : providerGroup := mkGroup "news.example" "id-1" 0.
Definition demo_nzb : NZB :=
  mkNZB [mkFile [] [] [] [] [mkSegment 3 1 (bs "a"); mkSegment 3 2 (bs "b")]; mkFile [] [] [] [] [mkSegment 3 1 (bs "c")]].
Definition demo_stats (consumed missing : Z) : ClientStats :=
  mkClientStats [zero_ProviderStats <| ps_Name := "news.example" |> <| ps_ProviderID := "id-1" |>
                   <| ps_BytesConsumed := consumed |> <| ps_Missing := missing |>] f0 consumed 0.
Definition demo_response : Response := errResponse None.

(** An environment: the second article is missing. *)
Definition demo_env (q : tquery) (calls : nat) : tans q * nat :=
  match q return tans q * nat with
  | TNewRequest _ => (None, calls)
  | TDo _ _ => (inl 200, calls)
  | TDecode _ => (inl demo_nzb, calls)
  | TLoad backup => (if backup then [] else [demo_group], calls)
  | TStats => (if Nat.eqb calls 0 then demo_stats 10 0 else demo_stats 500 1, S calls)
  | TNow => (0, calls)
  | TDone => (0, calls)
  | TReceive i => (Some (demo_response <| rs_StatusCode := if Nat.eqb i 1 then 430 else 222 |>), calls)
  | TTick => (false, calls)
  | TDispatch _ _ _ => (tt, calls)
  | TAddDone => (tt, calls)
  | TOnProgress _ => (tt, calls)
  end.

Definition demo_run (opts : SpeedTestOptions) : list (Prog.event tans) * option (SpeedTestResult + gerror) * nat :=
  run demo_env (fun (_ : Empty_set) s => ([], None, s)) (SpeedTest opts) 0%nat.

Lemma demo_run_exec opts t r s : demo_run opts = (t, r, s) -> t_exec (SpeedTest opts) t r.
Proof. intros H. eapply run_exec; [|exact H]. intros []. Qed.

Definition demo_opts (name : string) : SpeedTestOptions := mkSpeedOptions "" false 2 false 0 name.
Definition demo_trace (name : string) : list (Prog.event tans) := fst (fst (demo_run (demo_opts name))).

Lemma speedtest_measures_witness : exists t res,
  t_exec (SpeedTest (demo_opts "")) t (Some (inl res)) /\
  dispatched t = [(0%nat, None, bodyPayload (bs "a")); (1%nat, None, bodyPayload (bs "b"))] /\
  tr_SegmentsDone res = 2 /\ tr_WireBytes res = 490 /\ tr_Missing res = 1.
Proof.
  destruct (demo_run (demo_opts "")) as [[t [[res|e]|]] s] eqn:E; [|vm_compute in E; discriminate E..].
  pose proof (demo_run_exec _ _ _ _ E) as H. exists t, res. split; [exact H|].
  destruct (speedtest_measures (demo_opts "") t (inl res) H) as (src & n & target & before & s0 & start & work & stop & s1 & resps & _ & _ & _ & _ & _ & _ & _ & _ & _ & _ & Hm).
  pose proof (me_missing _ _ _ _ _ _ _ _ Hm) as Hmiss. clear H Hm. vm_compute in E. injection E as <- <- _.
  split; [vm_compute; reflexivity|]. split; [reflexivity|]. split; [reflexivity|]. exact Hmiss.
Defined.

Lemma speedtest_accounts_witness : 
  ps_Missing <$> snd (deltas false "" f0 (demo_stats 10 0) (demo_stats 500 1)) = [1].
Proof.
  pose proof (speedtest_accounts "" f0 (demo_stats 10 0) (demo_stats 500 1)) as H.
  destruct (deltas false "" f0 (demo_stats 10 0) (demo_stats 500 1)) as [[missing errors] providers].
  destruct H as (_ & H & _); [reflexivity| |exact H]. apply (bool_decide_unpack _). vm_compute. exact I.
Defined.

(** A snapshot without a provider of that name. *)
Definition unnamed_at (name : string) (e : Prog.event tans) : bool :=
  match e with
  | Ev q x => match q return tans q -> bool with
              | TStats => fun cs => bool_decide (name ∉ ps_Name <$> cs_Providers cs)
              | _ => fun _ => true
              end x
  end.

(** The provider is found by its identity, an article is missing, and the result says
    nothing of either. *)
Lemma target_by_identity_witness : exists t res,
  t_exec (SpeedTest (demo_opts "id-1")) t (Some (inl res)) /\
  dispatched t = [(0%nat, Some demo_group, bodyPayload (bs "a")); (1%nat, Some demo_group, bodyPayload (bs "b"))] /\
  tr_WireBytes res = 490 /\ tr_Providers res = [] /\ tr_Missing res = 0.
Proof.
  destruct (demo_run (demo_opts "id-1")) as [[t [[res|e]|]] s] eqn:E; [|vm_compute in E; discriminate E..].
  pose proof (demo_run_exec _ _ _ _ E) as H. exists t, res. split; [exact H|].
  destruct (target_by_identity (demo_opts "id-1") t res H) as (H1 & H2 & _).
  - discriminate.
  - clear H. intros cs Hin.
    assert (Hb : forallb (unnamed_at "id-1") t = true) by (vm_compute in E; injection E as <- _ _; vm_compute; reflexivity).
    rewrite forallb_forall in Hb. apply list_elem_of_In, Hb in Hin. by apply bool_decide_eq_true in Hin.
  - split_and!; [..|exact H1|exact H2]; clear H H1 H2; vm_compute in E; injection E as <- <- _; vm_compute; reflexivity.
Defined.
