(* ===== verification/Command.v ===== *)
(** The speed test tool ([cmd/speedtest/main.go]): the [--provider] option
    ([providerFlag.Set]), the providers and options [main] makes of its flags, and
    the count it prints.  [strconv.Atoi], [strings] and [time.ParseDuration] are
    written out. *)
From stdpp Require Import pretty.
From S2P Require Import Prelude Text Errors CircuitBreaker Reader Evidence Handshake Prog Dispatch Stats Gate Pool Registry Article Snapshot Speedtest.

(** ** Text *)

(** [strings.Split(s, sep)] for a separator of one byte. *)
Fixpoint split_from (sep : byte) (cur s : bytes) : list bytes :=
  match s with
  | [] => [cur]
  | b :: s => if bool_decide (b = sep) then cur :: split_from sep [] s else split_from sep (cur ++ [b]) s
  end.
Definition split (sep : byte) (s : bytes) : list bytes := split_from sep [] s.

(** [strings.ToLower]: ASCII letters and the two other runes whose lower case is an
    ASCII letter, the Kelvin sign and the dotted capital I.  What else it changes is
    and stays outside ASCII, so that it makes no difference to the comparisons. *)
Definition lower_byte (b : byte) : byte := if in_range 65 90 b then byte_of (bval b + 32) else b.

Fixpoint ToLower (s : bytes) : bytes :=
  match s with
  | xe2 :: x84 :: xaa :: s => x6b :: ToLower s
  | xc4 :: xb0 :: s => x69 :: ToLower s
  | b :: s => lower_byte b :: ToLower s
  | [] => []
  end.

(** [hostname[:strings.LastIndex(hostname, ":")]], or all of it. *)
Definition hostname (host : bytes) : bytes :=
  match cut_at (bs ":") (rev host) with
  | Some (_, r) => rev r
  | None => host
  end.

(** ** [time.ParseDuration] *)

(** [leadingInt]; nothing when it overflows. *)
Fixpoint leadingInt (x : Z) (s : bytes) : option (Z * bytes) :=
  match s with
  | c :: s' =>
      match digit_val c with
      | Some d =>
          if 2 ^ 63 / 10 <? x then None
          else let x := x * 10 + d in if 2 ^ 63 <? x then None else leadingInt x s'
      | None => Some (x, s)
      end
  | [] => Some (x, [])
  end.

(** [leadingFraction]: digits after an overflow are read and dropped. *)
Fixpoint leadingFraction (x : Z) (scale : float64) (overflow : bool) (s : bytes) : Z * float64 * bytes :=
  match s with
  | c :: s' =>
      match digit_val c with
      | Some d =>
          if overflow || ((2 ^ 63 - 1) / 10 <? x) then leadingFraction x scale true s'
          else
            let y := x * 10 + d in
            if 2 ^ 63 <? y then leadingFraction x scale true s'
            else leadingFraction y (fmul scale (f_of_Z 10)) false s'
      | None => (x, scale, s)
      end
  | [] => (x, scale, [])
  end.

Definition unit_of (u : bytes) : option Z :=
  if decide (u = bs "ns") then Some 1
  else if decide (u = bs "us" \/ u = [xc2; xb5; x73] \/ u = [xce; xbc; x73]) then Some 1000
  else if decide (u = bs "ms") then Some GoMillisecond
  else if decide (u = bs "s") then Some GoSecond
  else if decide (u = bs "m") then Some (60 * GoSecond)
  else if decide (u = bs "h") then Some (3600 * GoSecond)
  else None.

(** The letters of a unit: up to a point or a digit. *)
Fixpoint unit_name (s : bytes) : bytes * bytes :=
  match s with
  | c :: s' => if bool_decide (c = x2e) || bool_decide (is_Some (digit_val c)) then ([], s)
               else let '(u, r) := unit_name s' in (c :: u, r)
  | [] => ([], [])
  end.

Definition bad_duration : gerror := EOpaque "time: invalid duration".

(** The loop; [d] is what was read. *)
Fixpoint duration_loop (fuel : nat) (d : Z) (s : bytes) : option Z :=
  match s, fuel with
  | [], _ => Some d
  | _, O => None
  | c :: _, S fuel =>
      if negb (bool_decide (c = x2e) || bool_decide (is_Some (digit_val c))) then None
      else match leadingInt 0 s with
      | None => None
      | Some (v, s1) =>
          let pre := negb (Nat.eqb (length s1) (length s)) in
          let '(f, scale, s2, post) :=
            match s1 with
            | x2e :: s1 => let '(f, scale, s2) := leadingFraction 0 (f_of_Z 1) false s1 in
                           (f, scale, s2, negb (Nat.eqb (length s2) (length s1)))
            | _ => (0, f_of_Z 1, s1, false)
            end in
          if negb pre && negb post then None
          else
            let '(u, s3) := unit_name s2 in
            match unit_of u with
            | None => None
            | Some unit =>
                if 2 ^ 63 / unit <? v then None
                else
                  let v := v * unit in
                  let v := if 0 <? f then v + f_to_int (fmul (f_of_Z f) (fdiv (f_of_Z unit) scale)) else v in
                  if (0 <? f) && (2 ^ 63 <? v) then None
                  else let d := wrapU64 (d + v) in if 2 ^ 63 <? d then None else duration_loop fuel d s3
            end
      end
  end.

Definition ParseDuration (s : bytes) : Z + gerror :=
  let '(neg, s) := match s with
                   | x2d :: s => (true, s)
                   | x2b :: s => (false, s)
                   | _ => (false, s)
                   end in
  if decide (s = bs "0") then inl 0
  else if decide (s = []) then inr bad_duration
  else match duration_loop (length s) 0 s with
  | None => inr bad_duration
  | Some d => if neg : bool then inl (wrap64 (- d))
              else if 2 ^ 63 - 1 <? d then inr bad_duration else inl d
  end.

(** ** The option [--provider] *)

(** [nntppool.Provider] with the fields only this tool sets; [fp_TLS] is the server
    name of the TLS configuration. *)
Record flagProvider := mkFlag {
  fp_p : Provider;
  fp_Password : bytes;
  fp_TLS : option bytes;
  fp_KeepAlive : Z;
  fp_IdleTimeout : Z
}.

#[export] Instance eta_flagProvider : Eta flagProvider := fun p =>
  mkFlag (fp_p p) (fp_Password p) (fp_TLS p) (fp_KeepAlive p) (fp_IdleTimeout p).

Definition str : bytes -> string := String.string_of_list_byte.

Definition zero_Provider : Provider :=
  mkProvider "" "" "" 0 0 0 0 0 false false false 0 0 0 0 0 0 0 0 "" 0 0 0 None.

(** What a specification starts from. *)
Definition flag_default : flagProvider :=
  mkFlag (zero_Provider <| pv_Connections := 10 |> <| pv_Inflight := 1 |>) [] None (60 * GoSecond) 0.

Definition fp_Host (p : flagProvider) : bytes := bs (pv_Host (fp_p p)).

(** A positive integer; a duration with the prefix of its error. *)
Definition positive (what : string) (v : bytes) : Z + gerror :=
  let '(n, err) := atoi v in
  if bool_decide (is_Some err) || (n <=? 0) then inr (EOpaque (what +:+ " must be a positive integer")%string) else inl n.

Definition duration (what : string) (v : bytes) (hasEq : bool) : Z + gerror :=
  if negb hasEq || bool_decide (v = []) then inr (EOpaque (what +:+ " requires a duration value")%string)
  else match ParseDuration v with
  | inl d => inl d
  | inr e => inr (EWrap what e)
  end.

Definition set_all {A} (x : A + gerror) (f : A -> flagProvider) : flagProvider + gerror :=
  match x with inl a => inl (f a) | inr e => inr e end.

(** The cases of the switch over [k]. *)
Inductive option_key := KHost | KTLS | KUser | KPass | KConns | KInflight | KBackup | KIdle | KThrottle | KKeepalive.

Definition option_names : list (bytes * option_key) :=
  [(bs "host", KHost); (bs "tls", KTLS); (bs "user", KUser); (bs "pass", KPass); (bs "conns", KConns);
   (bs "inflight", KInflight); (bs "backup", KBackup); (bs "idle", KIdle); (bs "throttle", KThrottle);
   (bs "keepalive", KKeepalive)].

Definition key_of (k : bytes) : option option_key :=
  option_map snd (List.find (fun e => bool_decide (fst e = k)) option_names).

Definition set_option (p : flagProvider) (k v : bytes) (hasEq : bool) : flagProvider + gerror :=
  match key_of k with
  | Some KHost =>
      if negb hasEq || bool_decide (v = []) then inr (EOpaque "host requires a value")
      else inl (p <| fp_p ::= fun q => q <| pv_Host := str v |> |>)
  | Some KTLS =>
      if negb hasEq || bool_decide (v = []) || bool_decide (v = bs "true")
      then inl (p <| fp_TLS := Some (hostname (fp_Host p)) |>) else inl p
  | Some KUser =>
      if negb hasEq then inr (EOpaque "user requires a value")
      else inl (p <| fp_p ::= fun q => q <| pv_Username := str v |> |>)
  | Some KPass => if negb hasEq then inr (EOpaque "pass requires a value") else inl (p <| fp_Password := v |>)
  | Some KConns => set_all (positive "conns" v) (fun n => p <| fp_p ::= fun q => q <| pv_Connections := n |> |>)
  | Some KInflight => set_all (positive "inflight" v) (fun n => p <| fp_p ::= fun q => q <| pv_Inflight := n |> |>)
  | Some KBackup => inl (p <| fp_p ::= fun q => q <| pv_Backup := true |> |>)
  | Some KIdle => set_all (duration "idle" v hasEq) (fun d => p <| fp_IdleTimeout := d |>)
  | Some KThrottle =>
      set_all (duration "throttle" v hasEq) (fun d => p <| fp_p ::= fun q => q <| pv_ThrottleRestore := d |> |>)
  | Some KKeepalive => set_all (duration "keepalive" v hasEq) (fun d => p <| fp_KeepAlive := d |>)
  | None => inr (EOpaque "unknown provider option")
  end.

(** [strings.Cut(part, "=")] *)
Definition Cut (part : bytes) : bytes * bytes * bool :=
  match cut_at (bs "=") part with
  | Some (k, v) => (k, v, true)
  | None => (part, [], false)
  end.

Fixpoint set_parts (p : flagProvider) (parts : list bytes) : flagProvider + gerror :=
  match parts with
  | [] => inl p
  | part :: parts =>
      let part := TrimSpace part in
      if decide (part = []) then set_parts p parts
      else
        let '(k, v, hasEq) := Cut part in
        match set_option p (ToLower k) v hasEq with
        | inl p => set_parts p parts
        | inr e => inr e
        end
  end.

(** The server name is filled in again when [tls] came before [host]. *)
Definition late_host (p : flagProvider) : flagProvider :=
  match fp_TLS p with
  | Some [] => if negb (bool_decide (fp_Host p = [])) then p <| fp_TLS := Some (hostname (fp_Host p)) |> else p
  | _ => p
  end.

(** [providerFlag.Set] *)
Definition Set_ (pf : list flagProvider) (val : bytes) : list flagProvider + gerror :=
  match set_parts flag_default (split x2c val) with
  | inr e => inr e
  | inl p =>
      let p := late_host p in
      if decide (fp_Host p = []) then inr (EOpaque "provider must include host") else inl (pf ++ [p])
  end.

(** ** [main] *)

(** The flags; [None] stands for the exit with a message. *)
Record flags := mkFlags {
  fg_host : bytes;
  fg_tls : bool;
  fg_user : bytes;
  fg_pass : bytes;
  fg_conns : Z;
  fg_inflight : Z;
  fg_providers : list flagProvider;
  fg_nzb : string;
  fg_maxSegs : Z;
  fg_providerName : string
}.

Definition flag_providers (f : flags) : option (list flagProvider) :=
  match fg_providers f with
  | [] =>
      if decide (fg_host f = []) then None
      else
        let q := zero_Provider <| pv_Host := str (fg_host f) |> <| pv_Username := str (fg_user f) |>
                   <| pv_Connections := fg_conns f |> <| pv_Inflight := fg_inflight f |> in
        Some [mkFlag q (fg_pass f) (if fg_tls f then Some (hostname (fg_host f)) else None) 0 0]
  | ps => Some ps
  end.

Definition totalConns (ps : list flagProvider) : Z := fold_left (fun n p => wrap64 (n + pv_Connections (fp_p p))) ps 0.

Definition defaultNZBURL : string := "https://sabnzbd.org/tests/test_download_10GB.nzb".

(** The options of the test; a path that is no URL is opened and read. *)
Definition speed_options (f : flags) : SpeedTestOptions :=
  let url := if String.eqb (fg_nzb f) "" then defaultNZBURL else fg_nzb f in
  if negb (String.eqb url "") && negb (String.prefix "http://" url) && negb (String.prefix "https://" url)
  then mkSpeedOptions "" true (fg_maxSegs f) true 0 (fg_providerName f)
  else mkSpeedOptions url false (fg_maxSegs f) true 0 (fg_providerName f).

(** The numbers of the line "Segments: %d done, %d missing, %d errors". *)
Definition segments_line (r : SpeedTestResult) : Z * Z * Z :=
  (wrap64 (wrap64 (tr_SegmentsDone r - tr_Missing r) - tr_Errors r), tr_Missing r, tr_Errors r).

(** ** Lemmas *)

Lemma bs_str v : bs (str v) = v.
Proof. apply String.list_byte_of_string_of_list_byte. Qed.

Lemma split_fresh sep a : sep ∉ a -> forall cur s, split_from sep cur (a ++ sep :: s) = (cur ++ a) :: split_from sep [] s.
Proof.
  induction a as [|b a IH]; intros Ha cur s; simpl.
  - by rewrite bool_decide_true, app_nil_r.
  - apply not_elem_of_cons in Ha as [Hb Ha]. rewrite bool_decide_false by done. rewrite IH by done. by rewrite <- app_assoc.
Qed.

Lemma split_last sep a : sep ∉ a -> forall cur, split_from sep cur a = [cur ++ a].
Proof.
  induction a as [|b a IH]; intros Ha cur; simpl; [by rewrite app_nil_r|].
  apply not_elem_of_cons in Ha as [Hb Ha]. rewrite bool_decide_false by done. rewrite IH by done. by rewrite <- app_assoc.
Qed.

Lemma split_join sep parts : parts <> [] -> Forall (fun p => sep ∉ p) parts -> split sep (join [sep] parts) = parts.
Proof.
  intros Hne H. induction H as [|p parts Hp H IH]; [done|]. unfold split in *. destruct parts as [|q parts].
  - by rewrite split_last.
  - cbn [join app] in *. rewrite split_fresh by done. by rewrite IH.
Qed.

Lemma digit_val_digit c : is_digit c -> digit_val c = Some (bval c - 48).
Proof. intros [H1 H2]. unfold digit_val. by rewrite !(proj2 (Z.leb_le _ _)) by lia. Qed.

Lemma leadingInt_digits ds rest : Forall is_digit ds ->
  match rest with [] => True | c :: _ => digit_val c = None end ->
  forall x, 0 <= x -> digits_value ds x < 2 ^ 63 -> leadingInt x (ds ++ rest) = Some (digits_value ds x, rest).
Proof.
  intros Hd Hr. induction Hd as [|c ds Hc Hd IH]; intros x Hx Hv.
  - simpl in *. destruct rest as [|c rest]; [done|]. cbn [leadingInt]. by rewrite Hr.
  - cbn [leadingInt app]. rewrite digit_val_digit by done. change (digits_value (c :: ds) x) with (digits_value ds (x * 10 + (bval c - 48))) in *.
    destruct Hc as [Hc1 Hc2]. pose proof (digits_value_ge ds (x * 10 + (bval c - 48)) Hd ltac:(lia)).
    change (2 ^ 63 / 10) with 922337203685477580. rewrite (proj2 (Z.ltb_ge _ _)) by lia. cbv zeta.
    rewrite (proj2 (Z.ltb_ge _ _)) by lia. apply IH; lia.
Qed.

(** A number of nanoseconds is read back. *)
Definition nanoseconds (n : Z) : bytes := format_nat n ++ bs "ns".

Lemma ParseDuration_nanoseconds n : 0 <= n < 2 ^ 63 -> ParseDuration (nanoseconds n) = inl n.
Proof.
  intros Hn. destruct (format_nat_digits n Hn) as (Hd & Hne & Hv). unfold nanoseconds, ParseDuration.
  destruct (format_nat n) as [|c ds]; [done|]. clear Hne. pose proof Hd as Hd'. apply Forall_cons_iff in Hd' as [Hc _].
  assert (Hc' : c <> x2d /\ c <> x2b) by (by split; intros ->; destruct Hc). destruct Hc' as [Hm Hp].
  replace (match (c :: ds) ++ bs "ns" with
           | x2d :: s => (true, s)
           | x2b :: s => (false, s)
           | _ => (false, (c :: ds) ++ bs "ns")
           end) with (false, (c :: ds) ++ bs "ns") by (simpl; by destruct c).
  rewrite decide_False by (intros E; apply (f_equal length) in E; rewrite length_app in E; simpl in E; lia).
  rewrite decide_False by done. set (s := (c :: ds) ++ bs "ns") in *.
  assert (Hloop : duration_loop (length s) 0 s = Some n); [|rewrite Hloop; cbv iota beta zeta; by rewrite (proj2 (Z.ltb_ge _ _)) by lia].
  unfold s at 1. cbn [length app duration_loop]. unfold s. cbn [app]. rewrite digit_val_digit by done.
  rewrite (bool_decide_true (is_Some (Some _))) by done. rewrite orb_true_r. cbn [negb].
  change (c :: ds ++ bs "ns") with ((c :: ds) ++ bs "ns"). rewrite leadingInt_digits by (done || lia). rewrite Hv.
  rewrite (proj2 (Nat.eqb_neq (length (bs "ns")) _)) by (rewrite length_app; simpl; lia).
  change (bs "ns") with [x6e; x73]. cbn [negb andb app]. change (unit_name [x6e; x73]) with ([x6e; x73], @nil byte). cbv iota beta zeta.
  change (unit_of [x6e; x73]) with (Some 1). cbv iota beta zeta. change (2 ^ 63 / 1) with (2 ^ 63).
  rewrite (proj2 (Z.ltb_ge _ n)) by lia. rewrite Z.mul_1_r. change (0 <? 0) with false. cbn [andb]. cbv iota.
  unfold wrapU64. rewrite Z.add_0_l, Z.mod_small by lia. rewrite (proj2 (Z.ltb_ge _ _)) by lia. by destruct (length (ds ++ _)).
Qed.

(** *** Options *)

Definition option_of (k v : bytes) : bytes := k ++ bs "=" ++ v.

(** A text that can be the value of an option: without commas, and not ending in a
    blank. *)
Record value_ok (v : bytes) : Prop := { vo_comma : x2c ∉ v; vo_end : solid_start (rev v) }.

Lemma option_fresh k v : (x2c ∉ k) -> value_ok v -> x2c ∉ option_of k v.
Proof. intros Hk [Hv _]. unfold option_of. set_solver. Qed.

(** One turn of the loop, for an option with and without a value. *)
Lemma set_parts_option p k v parts : solid_start k -> k <> [] -> (x3d ∉ k) -> value_ok v ->
  set_parts p (option_of k v :: parts) =
  match set_option p (ToLower k) v true with inl p => set_parts p parts | inr e => inr e end.
Proof.
  intros Hk Hne He [_ Hv]. cbn [set_parts]. rewrite TrimSpace_ends.
  - rewrite decide_False by (by destruct k). unfold Cut, option_of. change (bs "=") with [x3d]. by rewrite cut_at_fresh.
  - unfold option_of. by destruct k.
  - unfold option_of. rewrite !rev_app_distr. destruct (rev v); [done|]. exact Hv.
Qed.

Lemma set_parts_tls p parts :
  set_parts p (bs "tls" :: parts) = set_parts (p <| fp_TLS := Some (hostname (fp_Host p)) |>) parts.
Proof. reflexivity. Qed.

Lemma set_parts_backup p parts :
  set_parts p (bs "backup" :: parts) = set_parts (p <| fp_p ::= fun q => q <| pv_Backup := true |> |>) parts.
Proof. reflexivity. Qed.

Lemma format_nat_value n : 0 <= n < 2 ^ 63 -> value_ok (format_nat n).
Proof.
  intros Hn. destruct (format_nat_digits n Hn) as (Hd & _). split; [apply digits_not; [done|]; intros []; done|].
  apply Forall_rev in Hd. destruct (rev (format_nat n)) as [|c s]; [done|]. apply Forall_cons_iff in Hd as [[H1 H2] _].
  unfold solid_start, is_printable, in_range. rewrite !(proj2 (Z.leb_le _ _)) by lia. split; [done|].
  unfold is_blank. by destruct c.
Qed.

Lemma nanoseconds_value n : 0 <= n < 2 ^ 63 -> value_ok (nanoseconds n).
Proof.
  intros Hn. destruct (format_nat_value n Hn) as [Hc _]. unfold nanoseconds. split; [change (bs "ns") with [x6e; x73]; set_solver|].
  by rewrite rev_app_distr.
Qed.

Lemma positive_format what n : 0 < n < 2 ^ 63 -> positive what (format_nat n) = inl n.
Proof. intros Hn. unfold positive, atoi. rewrite parse_int_format by lia. simpl. by rewrite (proj2 (Z.leb_gt _ _)) by lia. Qed.

Lemma duration_nanoseconds what n : 0 <= n < 2 ^ 63 -> duration what (nanoseconds n) true = inl n.
Proof.
  intros Hn. unfold duration. rewrite ParseDuration_nanoseconds by done. rewrite bool_decide_false; [done|].
  unfold nanoseconds. destruct (format_nat n); done.
Qed.

(** *** Specifications *)

(** What a specification can say, and one that says it. *)
Record settings := mkSettings {
  ss_host : bytes;
  ss_user : bytes;
  ss_pass : bytes;
  ss_conns : Z;
  ss_inflight : Z;
  ss_idle : Z;
  ss_throttle : Z;
  ss_keepalive : Z;
  ss_tls : bool;
  ss_backup : bool
}.

Definition spec_parts (s : settings) : list bytes :=
  (if ss_tls s then [bs "tls"] else []) ++ (if ss_backup s then [bs "backup"] else []) ++
  [option_of (bs "host") (ss_host s); option_of (bs "user") (ss_user s); option_of (bs "pass") (ss_pass s);
   option_of (bs "conns") (format_nat (ss_conns s)); option_of (bs "inflight") (format_nat (ss_inflight s));
   option_of (bs "idle") (nanoseconds (ss_idle s)); option_of (bs "throttle") (nanoseconds (ss_throttle s));
   option_of (bs "keepalive") (nanoseconds (ss_keepalive s))].

Definition spec (s : settings) : bytes := join [x2c] (spec_parts s).

Definition settings_ok (s : settings) : Prop :=
  ss_host s <> [] /\ value_ok (ss_host s) /\ value_ok (ss_user s) /\ value_ok (ss_pass s) /\
  0 < ss_conns s < 2 ^ 63 /\ 0 < ss_inflight s < 2 ^ 63 /\
  0 <= ss_idle s < 2 ^ 63 /\ 0 <= ss_throttle s < 2 ^ 63 /\ 0 <= ss_keepalive s < 2 ^ 63.

Definition described (s : settings) : flagProvider :=
  mkFlag (zero_Provider <| pv_Host := str (ss_host s) |> <| pv_Username := str (ss_user s) |>
            <| pv_Connections := ss_conns s |> <| pv_Inflight := ss_inflight s |> <| pv_Backup := ss_backup s |>
            <| pv_ThrottleRestore := ss_throttle s |>)
    (ss_pass s) (if ss_tls s then Some (hostname (ss_host s)) else None) (ss_keepalive s) (ss_idle s).

(** The options of a specification that have a value. *)
Lemma settings_values s : settings_ok s ->
  Forall value_ok [ss_host s; ss_user s; ss_pass s; format_nat (ss_conns s); format_nat (ss_inflight s);
    nanoseconds (ss_idle s); nanoseconds (ss_throttle s); nanoseconds (ss_keepalive s)].
Proof.
  intros (Hh & Vh & Vu & Vp & Hc & Hi & Hd & Ht & Hk).
  repeat apply Forall_cons_2; first [done|apply format_nat_value; lia|apply nanoseconds_value; lia|apply Forall_nil_2].
Qed.

#[local] Opaque digits_aux.

Ltac fresh_key := apply (bool_decide_unpack _); vm_compute; exact I.

Lemma spec_parts_fresh s : settings_ok s -> spec_parts s <> [] /\ Forall (fun p => x2c ∉ p) (spec_parts s).
Proof.
  intros H%settings_values. split; [unfold spec_parts; destruct (ss_tls s), (ss_backup s); discriminate|].
  repeat (apply Forall_cons_iff in H as [? H]). unfold spec_parts. apply Forall_app. split; [destruct (ss_tls s); repeat constructor; fresh_key|].
  apply Forall_app. split; [destruct (ss_backup s); repeat constructor; fresh_key|].
  repeat (apply Forall_cons_2; [apply option_fresh; [fresh_key|assumption]|]). apply Forall_nil_2.
Qed.

(** The names of the options, and the case each is. *)
Lemma option_names_ok : Forall (fun e => key_of (ToLower (fst e)) = Some (snd e) /\ solid_start (fst e) /\ fst e <> [] /\
  (x3d ∉ fst e) /\ (x2c ∉ fst e)) option_names.
Proof. repeat constructor; first [vm_compute; reflexivity|discriminate|fresh_key]. Qed.

Lemma set_parts_key name key p v parts q : In (name, key) option_names -> value_ok v ->
  (forall k, key_of k = Some key -> set_option p k v true = inl q) ->
  set_parts p (option_of name v :: parts) = set_parts q parts.
Proof.
  intros Hin Hv Hq. pose proof option_names_ok as H. rewrite list.Forall_forall in H.
  destruct (H (name, key)) as (H1 & H2 & H3 & H4 & _); [by apply list_elem_of_In|]. cbn [fst snd] in *.
  rewrite set_parts_option by done. by rewrite (Hq _ H1).
Qed.

(** The next option is [key]: what is left is its case of the switch. *)
Ltac next_option key :=
  erewrite (set_parts_key _ key); [|simpl; tauto|assumption|intros k Hk'; unfold set_option; rewrite Hk'; cbv iota].

(** The options with a value, whatever came before. *)
Lemma set_parts_values s p : settings_ok s ->
  set_parts p [option_of (bs "host") (ss_host s); option_of (bs "user") (ss_user s); option_of (bs "pass") (ss_pass s);
    option_of (bs "conns") (format_nat (ss_conns s)); option_of (bs "inflight") (format_nat (ss_inflight s));
    option_of (bs "idle") (nanoseconds (ss_idle s)); option_of (bs "throttle") (nanoseconds (ss_throttle s));
    option_of (bs "keepalive") (nanoseconds (ss_keepalive s))] =
  inl (mkFlag ((fp_p p) <| pv_Host := str (ss_host s) |> <| pv_Username := str (ss_user s) |>
         <| pv_Connections := ss_conns s |> <| pv_Inflight := ss_inflight s |> <| pv_ThrottleRestore := ss_throttle s |>)
       (ss_pass s) (fp_TLS p) (ss_keepalive s) (ss_idle s)).
Proof.
  intros Hs. pose proof (settings_values s Hs) as H. repeat (apply Forall_cons_iff in H as [? H]).
  destruct Hs as (Hh & _ & _ & _ & Hc & Hi & Hd & Ht & Hk). destruct p as [q pass tls keep idle].
  next_option KHost. 2:{ simpl negb. rewrite bool_decide_false by done. reflexivity. }
  next_option KUser. 2: reflexivity.
  next_option KPass. 2: reflexivity.
  next_option KConns. 2: rewrite positive_format by done; reflexivity.
  next_option KInflight. 2: rewrite positive_format by done; reflexivity.
  next_option KIdle. 2: rewrite duration_nanoseconds by done; reflexivity.
  next_option KThrottle. 2: rewrite duration_nanoseconds by done; reflexivity.
  next_option KKeepalive. 2: rewrite duration_nanoseconds by done; reflexivity.
  reflexivity.
Qed.

(** ** Properties *)

(** Every provider that can be described is: from a specification with its options,
    [tls] and [backup] even before the host, [Set] makes the provider described, with
    the server name taken from the host. *)
Lemma Set_described s pf : settings_ok s -> Set_ pf (spec s) = inl (pf ++ [described s]).
Proof.
  intros Hs. destruct (spec_parts_fresh s Hs) as [Hne Hf]. unfold Set_, spec. rewrite split_join by done.
  assert (Hp : set_parts flag_default (spec_parts s) = inl ((described s) <| fp_TLS := if ss_tls s then Some [] else None |>)).
  { unfold spec_parts, described. destruct (ss_tls s), (ss_backup s); cbn [app];
      rewrite ?set_parts_tls, ?set_parts_backup, set_parts_values by done; reflexivity. }
  rewrite Hp. clear Hp. destruct Hs as [Hh _]. unfold late_host. cbn [fp_TLS].
  assert (Hhost : forall x, fp_Host ((described s) <| fp_TLS := x |>) = ss_host s) by (intros x; apply bs_str).
  replace (match fp_TLS ((described s) <| fp_TLS := if ss_tls s then Some [] else None |>) with
           | Some [] => _ | _ => _ end) with (described s).
  - rewrite decide_False; [done|]. specialize (Hhost (fp_TLS (described s))). unfold fp_Host in *. by simpl in *; rewrite Hhost.
  - simpl. unfold described. destruct (ss_tls s); [|done]. unfold fp_Host. simpl. rewrite bs_str.
    by rewrite bool_decide_false by done.
Qed.

(** What every option keeps. *)
Definition acceptable (p : flagProvider) : Prop :=
  0 < pv_Connections (fp_p p) /\ 0 < pv_Inflight (fp_p p) /\ pv_Response451Policy (fp_p p) = 0.

Lemma positive_spec what v n : positive what v = inl n -> 0 < n.
Proof.
  unfold positive. destruct (atoi v) as [m err]. destruct (bool_decide (is_Some err)); [done|]. simpl.
  destruct (Z.leb_spec m 0); [done|]. by intros [= <-].
Qed.

Lemma set_option_acceptable p k v hasEq q : acceptable p -> set_option p k v hasEq = inl q -> acceptable q.
Proof.
  intros (Hc & Hi & Hr). unfold set_option, set_all. destruct (key_of k) as [[]|]; [..|done]; repeat case_match; intros; simplify_eq;
    try done; repeat match goal with H : positive _ _ = inl _ |- _ => apply positive_spec in H end; by split_and!.
Qed.

Lemma set_parts_acceptable parts : forall p q, acceptable p -> set_parts p parts = inl q -> acceptable q.
Proof.
  induction parts as [|part parts IH]; intros p q Hp H; cbn [set_parts] in H; [by simplify_eq|].
  destruct (decide (TrimSpace part = [])); [by eapply IH|]. destruct (Cut (TrimSpace part)) as [[k v] hasEq].
  destruct (set_option p (ToLower k) v hasEq) as [p'|e] eqn:E; [|done]. eapply IH; [|exact H]. by eapply set_option_acceptable.
Qed.

(** Accepted specifications: a provider that [Set] accepts has a host, positive
    connections and inflight and, with TLS, a server name unless its host has none;
    it passes the checks of [NewClient], which takes it as the only provider when it
    is no backup. *)
Theorem Set_checked pf val pf' : Set_ pf val = inl pf' -> exists p,
  pf' = pf ++ [p] /\ checkProvider (fp_p p) = None /\ 0 < pv_Connections (fp_p p) /\ 0 < pv_Inflight (fp_p p) /\
  fp_Host p <> [] /\ (fp_TLS p = Some [] -> hostname (fp_Host p) = []) /\
  (pv_Backup (fp_p p) = false -> forall opts env, exists r, NewClient [fp_p p] opts env = inl r).
Proof.
  unfold Set_. destruct (set_parts flag_default (split x2c val)) as [q|e] eqn:E; [|done].
  apply set_parts_acceptable in E; [|done]. assert (Hl : acceptable (late_host q) /\ fp_Host (late_host q) = fp_Host q /\
    (fp_TLS (late_host q) = Some [] -> fp_Host q <> [] -> hostname (fp_Host q) = [])).
  { unfold late_host. destruct (fp_TLS q) as [[|b n]|] eqn:Et; [|by rewrite Et..]. case_bool_decide as Hb; simpl; [by rewrite Hb|].
    split_and!; [exact E|done|]. by intros [= ?] _. }
  destruct Hl as ((Hc & Hi & Hr) & Hh & Ht). rewrite Hh. destruct (decide (fp_Host q = [])) as [|Hne]; [done|]. intros [= <-].
  exists (late_host q). set (p := late_host q) in *. clearbody p.
  assert (Hck : checkProvider (fp_p p) = None).
  { unfold checkProvider, validateResponse451Policy. rewrite Hr, decide_True by tauto. rewrite (proj2 (Z.leb_gt _ _)) by done.
    destruct (String.eqb_spec (pv_Host (fp_p p)) "") as [Hs|_]; [|by rewrite andb_false_r]. exfalso. apply Hne. rewrite <- Hh. unfold fp_Host. by rewrite Hs. }
  rewrite Hh. split_and!; try done; [by intros H; apply Ht|]. intros Hb opts env. unfold NewClient. cbn [existsb validate_from].
  rewrite Hb, Hck. cbn [negb orb]. rewrite !decide_False by set_solver. by eexists.
Qed.

(** ** Witnesses and departures *)

Definition demo_settings : settings :=
  mkSettings (bs "news.example:563") (bs "me") (bs "a=b c") 8 2 (30 * GoSecond) 0 60 true true.

Lemma demo_settings_ok : settings_ok demo_settings.
Proof.
  unfold settings_ok, demo_settings. cbn [ss_host ss_user ss_pass ss_conns ss_inflight ss_idle ss_throttle ss_keepalive].
  unfold GoSecond. split_and!; try lia; [discriminate|..]; split; first [fresh_key|by vm_compute].
Qed.

Lemma Set_checked_witness : exists p,
  Set_ [] (bs "host=news.example:563, TLS ,conns=3") = inl [p] /\ fp_TLS p = Some (bs "news.example") /\ checkProvider (fp_p p) = None.
Proof.
  destruct (Set_ [] (bs "host=news.example:563, TLS ,conns=3")) as [ps|e] eqn:E; [|vm_compute in E; discriminate E].
  destruct (Set_checked [] _ ps E) as (p & -> & H & _). exists p. split; [reflexivity|]. split; [|exact H].
  clear H. vm_compute in E. injection E as <-. vm_compute. reflexivity.
Defined.

Example parse_durations :
  ParseDuration (bs "1h30m") = inl (5400 * GoSecond) /\ ParseDuration (bs "-1.5s") = inl (-1500 * GoMillisecond) /\
  ParseDuration (bs "0") = inl 0 /\ ParseDuration (bs ".s") = inr bad_duration /\ ParseDuration (bs "3") = inr bad_duration /\
  ParseDuration (bs "2562047h47m16.854775807s") = inl (2 ^ 63 - 1) /\ ParseDuration (bs "2562048h") = inr bad_duration.
Proof. by vm_compute. Qed.

(** [backup=false] makes a backup. *)
Theorem backup_false :
  match Set_ [] (bs "host=h,backup=false") with inl [p] => pv_Backup (fp_p p) = true | _ => False end.
Proof. by vm_compute. Qed.

(** A host given again after [tls] does not change the server name. *)
Theorem server_name_kept :
  match Set_ [] (bs "host=a:563,tls,host=b:563") with
  | inl [p] => fp_TLS p = Some (bs "a") /\ hostname (fp_Host p) = bs "b"
  | _ => False
  end.
Proof. by vm_compute. Qed.

(** The line of the summary: an article that two providers do not have is missing
    twice, and the segments done come out negative. *)
Definition two_stats (missing : Z) : ClientStats :=
  let one name := zero_ProviderStats <| ps_Name := name |> <| ps_Missing := missing |> in
  mkClientStats [one "a"%string; one "b"%string] f0 0 0.

Definition missing_env (q : tquery) (calls : nat) : tans q * nat :=
  match q return tans q * nat with
  | TNewRequest _ => (None, calls)
  | TDo _ _ => (inl 200, calls)
  | TDecode _ => (inl (mkNZB [mkFile [] [] [] [] [mkSegment 3 1 (bs "a")]]), calls)
  | TLoad _ => ([], calls)
  | TStats => (two_stats (if Nat.eqb calls 0 then 0 else 1), S calls)
  | TNow | TDone => (0, calls)
  | TReceive _ => (Some (demo_response <| rs_StatusCode := 430 |>), calls)
  | TTick => (false, calls)
  | TDispatch _ _ _ | TAddDone | TOnProgress _ => (tt, calls)
  end.

Theorem summary_negative : exists t res,
  t_exec (SpeedTest (demo_opts "")) t (Some (inl res)) /\ tr_SegmentsTotal res = 1 /\ segments_line res = (-1, 2, 0).
Proof.
  destruct (run missing_env (fun (_ : Empty_set) s => ([], None, s)) (SpeedTest (demo_opts "")) 0%nat) as [[t [[res|e]|]] s] eqn:E;
    [|vm_compute in E; discriminate E..].
  exists t, res. split; [eapply run_exec; [intros []|exact E]|]. vm_compute in E. injection E as _ <- _. by vm_compute.
Qed.
