(* ===== verification/Main.v ===== *)
(** The speed test tool from its command line to its exit code
    ([cmd/speedtest/main.go]: [main]).

    [flag_Parse] is [flag.Parse] on the flags of the tool, with the parsers of the
    flag package's values.  [main] is a program whose questions are its effects: the
    lines it prints, each with the arguments of its format, the file it opens, what
    the network gives [NewClient], and the questions of [SpeedTest].  [os.Exit] ends
    it where it stands; a return runs the deferred calls.  Its executions are those
    of the main goroutine; the progress goroutine, which calls [OnProgress], is
    [reporter]. *)
From stdpp Require Import pretty.
From S2P Require Import Prelude Text Errors CircuitBreaker Reader Evidence Handshake Prog Dispatch Stats Gate Pool Registry Article Snapshot Speedtest Command.
#[local] Open Scope prog_scope.

(** ** Numbers and booleans of the flag package *)

(** [strconv.ParseInt(s, 0, 64)]: the base is told by a prefix. *)
Definition letter_val (c : byte) : option Z :=
  let v := bval (lower_byte c) in
  match digit_val c with
  | Some d => Some d
  | None => if in_range 97 122 (lower_byte c) then Some (v - 97 + 10) else None
  end.

Definition based (s : bytes) : Z * bytes :=
  match s with
  | x30 :: c :: d :: s' =>
      let l := lower_byte c in
      if bool_decide (l = x62) then (2, d :: s')
      else if bool_decide (l = x6f) then (8, d :: s')
      else if bool_decide (l = x78) then (16, d :: s')
      else (8, c :: d :: s')
  | x30 :: s' => (8, s')
  | _ => (10, s)
  end.

Fixpoint based_digits (base n : Z) (s : bytes) : option Z :=
  match s with
  | [] => Some n
  | x5f :: s => based_digits base n s
  | c :: s =>
      match letter_val c with
      | Some d => if (base <=? d) || (2 ^ 64 - 1 <? n * base + d) then None else based_digits base (n * base + d) s
      | None => None
      end
  end.

(** [underscoreOK] without its sign: [seen] is what came last, the beginning of the
    number (both false), a digit or an underscore. *)
Fixpoint underscores (digit under : bool) (s : bytes) : bool :=
  match s with
  | [] => negb under
  | x5f :: s => digit && underscores false true s
  | _ :: s => underscores true false s
  end.

Definition underscoreOK (s : bytes) : bool :=
  match s with
  | x30 :: c :: s' =>
      if bool_decide (lower_byte c ∈ [x62; x6f; x78]) then underscores true false s' else underscores false false s
  | _ => underscores false false s
  end.

Definition parse_unsigned (s : bytes) : option Z :=
  match s with
  | [] => None
  | _ =>
      let '(base, ds) := based s in
      match based_digits base 0 ds with
      | Some n => if bool_decide (x5f ∈ ds) && negb (underscoreOK s) then None else Some n
      | None => None
      end
  end.

(** [intValue.Set] *)
Definition int_value (s : bytes) : option Z :=
  let '(neg, body) := match s with x2d :: s' => (true, s') | x2b :: s' => (false, s') | _ => (false, s) end in
  match parse_unsigned body with
  | Some n =>
      if negb neg && (2 ^ 63 <=? n) then None
      else if neg && (2 ^ 63 <? n) then None
      else Some (if neg : bool then - n else n)
  | None => None
  end.

(** [boolValue.Set] *)
Definition bool_value (s : bytes) : option bool :=
  if bool_decide (s ∈ map bs ["1"; "t"; "T"; "true"; "TRUE"; "True"]) then Some true
  else if bool_decide (s ∈ map bs ["0"; "f"; "F"; "false"; "FALSE"; "False"]) then Some false
  else None.

(** ** [flag.Parse] *)

(** The flags [main] declares. *)
Inductive flag_key :=
  FHost | FTls | FUser | FPass | FConns | FInflight | FProvider | FNzb | FMaxSegments | FProviderName.
#[export] Instance flag_key_eq_dec : EqDecision flag_key.
Proof. solve_decision. Defined.

Definition flag_names : list (bytes * flag_key) :=
  [(bs "host", FHost); (bs "tls", FTls); (bs "user", FUser); (bs "pass", FPass); (bs "conns", FConns);
   (bs "inflight", FInflight); (bs "provider", FProvider); (bs "nzb", FNzb); (bs "max-segments", FMaxSegments);
   (bs "provider-name", FProviderName)].

Definition formal (name : bytes) : option flag_key :=
  option_map snd (List.find (fun e => bool_decide (fst e = name)) flag_names).

(** Their values before the command line is read. *)
Definition no_flags : flags := mkFlags [] true [] [] 10 1 [] "" 0 "".

#[export] Instance eta_flags : Eta flags := fun f =>
  mkFlags (fg_host f) (fg_tls f) (fg_user f) (fg_pass f) (fg_conns f) (fg_inflight f) (fg_providers f) (fg_nzb f)
    (fg_maxSegs f) (fg_providerName f).

(** [Value.Set]; nothing when it fails. *)
Definition set_flag (f : flags) (k : flag_key) (v : bytes) : option flags :=
  match k with
  | FHost => Some (f <| fg_host := v |>)
  | FTls => option_map (fun b => f <| fg_tls := b |>) (bool_value v)
  | FUser => Some (f <| fg_user := v |>)
  | FPass => Some (f <| fg_pass := v |>)
  | FConns => option_map (fun n => f <| fg_conns := n |>) (int_value v)
  | FInflight => option_map (fun n => f <| fg_inflight := n |>) (int_value v)
  | FProvider => match Set_ (fg_providers f) v with inl ps => Some (f <| fg_providers := ps |>) | inr _ => None end
  | FNzb => Some (f <| fg_nzb := str v |>)
  | FMaxSegments => option_map (fun n => f <| fg_maxSegs := n |>) (int_value v)
  | FProviderName => Some (f <| fg_providerName := str v |>)
  end.

(** What an argument is: the end of the flags, a mistake, or a flag with the value
    after its equals sign. *)
Inductive argument := ArgEnd | ArgBad | ArgFlag (name : bytes) (value : option bytes).

Definition flag_word (s : bytes) : argument :=
  let named name :=
    match name with
    | [] | x2d :: _ | x3d :: _ => ArgBad
    | _ => match cut_at (bs "=") name with
           | Some (name, value) => ArgFlag name (Some value)
           | None => ArgFlag name None
           end
    end in
  match s with
  | [x2d; x2d] => ArgEnd
  | x2d :: x2d :: name => named name
  | x2d :: ((_ :: _) as name) => named name
  | _ => ArgEnd
  end.

(** The flags, or the code the process exits with: zero when help was asked for. *)
Fixpoint flag_Parse (f : flags) (args : list bytes) : flags + Z :=
  match args with
  | [] => inl f
  | s :: args =>
      match flag_word s with
      | ArgEnd => inl f
      | ArgBad => inr 2
      | ArgFlag name value =>
          match formal name with
          | None => inr (if bool_decide (name ∈ [bs "help"; bs "h"]) then 0 else 2)
          | Some k =>
              if bool_decide (k = FTls) then
                match set_flag f k (default (bs "true") value) with Some f => flag_Parse f args | None => inr 2 end
              else
                match value, args with
                | Some v, _ => match set_flag f k v with Some f => flag_Parse f args | None => inr 2 end
                | None, v :: args => match set_flag f k v with Some f => flag_Parse f args | None => inr 2 end
                | None, [] => inr 2
                end
          end
      end
  end.

(** ** The process *)

(** The lines on the standard output, with the arguments of their formats; a
    duration that is not printed is replaced by a word. *)
Inductive line :=
| LProvider (i : Z) (host : bytes) (tls : string) (conns inflight : Z) (idle keepalive : Z + string) (role : string)
| LTotal (totalConns : Z)
| LBlank
| LCreating (totalConns : Z) (providers : nat)
| LReady
| LDownloading (url : string)
| LProgress (elapsed : float64) (done total : Z) (speedMBps avgMBps eta : float64)
| LClear
| LTitle
| LTime (elapsed : Z)
| LSegments (done missing errors : Z)
| LWire (megabytes speed : float64)
| LDecoded (megabytes speed : float64)
| LPerProvider
| LStats (name : string) (speed : float64) (active maximum missing errors : Z).

(** The messages on the standard error; the usage text follows the first two. *)
Inductive message := ENoProvider | EFlags | ECreate (e : gerror) | EOpen (e : gerror) | ETest (e : gerror).

(** [MStart] gives the clock and the ping of each provider to [NewClient]; [MTest]
    is a question of [SpeedTest] or of its progress goroutine. *)
Inductive mquery :=
| MPrint (l : line)
| MError (e : message)
| MStart
| MOpen (path : string)
| MTest (q : tquery)
| MCloseFile
| MCloseClient
| MCancel.

Definition mans (q : mquery) : Type :=
  match q with
  | MPrint _ | MError _ | MCloseFile | MCloseClient | MCancel => unit
  | MStart => Z -> start_env
  | MOpen _ => error
  | MTest q => tans q
  end.

Definition mprog : Type -> Type := prog mans Empty_set Empty_set.
Definition act (q : mquery) : mprog (mans q) := ask q.
Definition print (l : line) : mprog unit := act (MPrint l).

Definition MBps (x : float64) : float64 := fdiv (fdiv x (f_of_Z 1024)) (f_of_Z 1024).

(** [OnProgress] *)
Definition OnProgress (p : SpeedTestProgress) : mprog unit :=
  print (LProgress (seconds (pp_Elapsed p)) (pp_SegmentsDone p) (pp_SegmentsTotal p) (MBps (pp_WireSpeedBps p))
           (MBps (pp_AvgSpeedBps p)) (pp_ETASeconds p)).

(** A program of the speed test within [main], whose callback it calls. *)
Fixpoint client_call {A} (p : tprog A) : mprog A :=
  match p with
  | Ret a => Ret a
  | NoFuel => NoFuel
  | Ask q k =>
      match q return (tans q -> mprog A) -> mprog A with
      | TOnProgress p => fun k => bind (OnProgress p) k
      | q => fun k => Ask (MTest q) k
      end (fun a => client_call (k a))
  | Fork ps k => Fork ps (fun rs => client_call (k rs))
  end.

(** [Duration.Round] to a positive unit. *)
Definition Round (d m : Z) : Z :=
  let r := Z.rem d m in
  if d <? 0 then
    let r := - r in
    if r + r <? m then d + r
    else let d1 := wrap64 (d - m + r) in if d1 <? d then d1 else - 2 ^ 63
  else if r + r <? m then d - r
  else let d1 := wrap64 (d + m - r) in if d <? d1 then d1 else 2 ^ 63 - 1.

(** The configuration *)
Definition provider_line (i : Z) (p : flagProvider) : line :=
  LProvider i (fp_Host p) (if fp_TLS p is Some _ then "yes" else "no") (pv_Connections (fp_p p)) (pv_Inflight (fp_p p))
    (if 0 <? fp_IdleTimeout p then inl (fp_IdleTimeout p) else inr "none"%string)
    (if 0 <? fp_KeepAlive p then inl (fp_KeepAlive p) else inr (if fp_KeepAlive p <? 0 then "off"%string else "default"%string))
    (if pv_Backup (fp_p p) then "backup" else "main").

Fixpoint print_all (ls : list line) : mprog unit :=
  match ls with
  | [] => Ret tt
  | l :: ls => print l ;! print_all ls
  end.

Definition configuration (ps : list flagProvider) : list line :=
  imap (fun i p => provider_line (Z.of_nat i + 1) p) ps ++
  (if (1 <? length ps)%nat then [LTotal (totalConns ps)] else []) ++ [LBlank].

(** The summary *)
Definition stats_line (s : ProviderStats) : line :=
  LStats (ps_Name s) (MBps (ps_AvgSpeed s)) (ps_ActiveConnections s) (ps_MaxConnections s) (ps_Missing s) (ps_Errors s).

Definition summary (r : SpeedTestResult) : list line :=
  [LClear; LTitle; LTime (Round (tr_Elapsed r) GoMillisecond);
   (let '(d, m, e) := segments_line r in LSegments d m e);
   LWire (MBps (f_of_Z (tr_WireBytes r))) (MBps (tr_WireSpeedBps r));
   LDecoded (MBps (f_of_Z (tr_DecodedBytes r))) (MBps (tr_DecodedSpeedBps r))] ++
  (if (1 <? length (tr_Providers r))%nat then [LBlank; LPerProvider] ++ map stats_line (tr_Providers r) else []).

(** [os.Exit(1)] after a message. *)
Definition fatal (e : message) : mprog Z := act (MError e) ;! Ret 1.

(** What was deferred, last first. *)
Definition deferred (file : bool) : mprog unit :=
  (if file then act MCloseFile else Ret tt) ;! (act MCloseClient ;! act MCancel).

(** The test and its summary. *)
Definition run_test (opts : SpeedTestOptions) : mprog Z :=
  let! result := client_call (SpeedTest opts) in
  match result with
  | inr e => fatal (ETest e)
  | inl r => print_all (summary r) ;! (deferred (to_NZBReader opts) ;! Ret 0)
  end.

(** The path of the list that is opened: the one given, or the default. *)
Definition nzb_path (f : flags) : string := if String.eqb (fg_nzb f) "" then defaultNZBURL else fg_nzb f.

Definition with_nzb (f : flags) : mprog Z :=
  let opts := speed_options f in
  if to_NZBReader opts then
    let! err := act (MOpen (nzb_path f)) in
    match err with
    | Some e => fatal (EOpen e)
    | None => run_test opts
    end
  else print (LDownloading (to_NZBURL opts)) ;! run_test opts.

Definition run_main (f : flags) : mprog Z :=
  match flag_providers f with
  | None => fatal ENoProvider
  | Some ps =>
      print_all (configuration ps) ;!
      (print (LCreating (totalConns ps) (length ps)) ;!
       (let! env := act MStart in
        match NewClient (map fp_p ps) [] env with
        | inr e => fatal (ECreate e)
        | inl _ => print_all [LReady; LBlank] ;! with_nzb f
        end))
  end.

Definition main (args : list bytes) : mprog Z :=
  match flag_Parse no_flags args with
  | inr code => act (MError EFlags) ;! Ret code
  | inl f => run_main f
  end.

(** ** Executions *)

Abbreviation mevent := (Prog.event mans).
Abbreviation tevent := (Prog.event tans).

Definition m_exec {A} (p : mprog A) (t : list mevent) (r : option A) : Prop :=
  exec (fun (_ : Empty_set) _ _ => False) p t r.

Definition shown (l : line) : mevent := Ev (MPrint l) tt.
Definition failed (e : message) : mevent := Ev (MError e) tt.

(** An event of the speed test as the process has it. *)
Definition embed (e : tevent) : mevent :=
  match e with
  | Ev q a =>
      match q return tans q -> mevent with
      | TOnProgress p => fun _ => shown (LProgress (seconds (pp_Elapsed p)) (pp_SegmentsDone p) (pp_SegmentsTotal p)
                           (MBps (pp_WireSpeedBps p)) (MBps (pp_AvgSpeedBps p)) (pp_ETASeconds p))
      | q => fun a => Ev (MTest q) a
      end a
  end.

Lemma exec_client_call {A} (p : tprog A) : forall t r,
  m_exec (client_call p) t r -> exists u, t = embed <$> u /\ t_exec p u r.
Proof.
  induction p as [a| |q k IH|ps k IH]; intros t r H; unfold m_exec, t_exec in *.
  - destruct H as [-> ->]. by exists [].
  - destruct H as [-> ->]. by exists [].
  - assert (H' : exists a t', t = embed (Ev q a) :: t' /\ m_exec (client_call (k a)) t' r).
    { destruct q; cbn [client_call] in H; destruct H as (a & t' & -> & H); try (exists a, t'; by split).
      destruct a. exists tt, t'. by split. }
    destruct H' as (a & t' & -> & H'). apply IH in H' as (u & -> & H'). exists (Ev q a :: u). split; [done|].
    simpl. eauto.
  - destruct ps as [|[] ps]. cbn [client_call exec] in H. destruct H as (trs & rs & t1 & t2 & Hf & Hi & -> & H).
    inversion Hf; subst. apply interleave_Permutation in Hi. apply Permutation_nil_r in Hi as ->.
    apply IH in H as (u & -> & H). exists u. split; [done|]. simpl. exists [], [], [], u.
    split_and!; try constructor; done.
Qed.

(** Programs that do not run out of fuel. *)
Fixpoint total {A} (p : tprog A) : Prop :=
  match p with
  | Ret _ => True
  | NoFuel => False
  | Ask _ k => forall a, total (k a)
  | Fork _ k => forall rs, total (k rs)
  end.

Lemma total_bind {A B} (p : tprog A) (f : A -> tprog B) : total p -> (forall a, total (f a)) -> total (bind p f).
Proof. intros Hp Hf. induction p; simpl in *; auto. Qed.

Lemma exec_total {A} (p : tprog A) : total p -> forall t r, t_exec p t r -> is_Some r.
Proof.
  induction p as [a| |q k IH|ps k IH]; intros Hp t r H; unfold t_exec in *; simpl in *; [|done|..].
  - destruct H as [_ ->]. eauto.
  - destruct H as (a & t' & _ & H). by eapply IH.
  - destruct ps as [|[] ps]. destruct H as (trs & rs & t1 & t2 & Hf & _ & _ & H). inversion Hf; subst. exact (IH [] (Hp []) _ _ H).
Qed.

Lemma SpeedTest_total opts : total (SpeedTest opts).
Proof.
  assert (Hd : forall g segs i, total (dispatch_all g i segs)).
  { intros g segs. induction segs; intros i; [exact I|]. simpl. intros _. apply IHsegs. }
  assert (Hc : forall n i b s, total (collect_all i n b s)).
  { induction n; intros i b s; [exact I|]. simpl. intros r _. apply IHn. }
  assert (Hm : forall g segs, total (measure opts g segs)).
  { intros g segs. unfold measure. simpl. intros startStats start. apply total_bind; [apply Hd|intros _].
    apply total_bind; [apply Hc|intros [b s]]. simpl. intros now endStats. by destruct (deltas _ _ _ _ _) as [[? ?] ?]. }
  unfold SpeedTest. apply total_bind.
  - unfold loadSpeedTestSegments, fetchNZB, Parse. apply total_bind.
    + destruct (to_NZBReader opts); [exact I|]. simpl. intros [e|]; simpl; [exact I|]. by intros ?.
    + intros [src|e]; [|exact I]. simpl. by intros ?.
  - intros [[|s segs]|e]; [exact I| |exact I]. cbv zeta. destruct (String.eqb _ _).
    + apply total_bind; [apply Hm|by intros ?].
    + apply total_bind; [by intros mains backups|]. intros [g|]; [|exact I]. apply total_bind; [apply Hm|by intros ?].
Qed.

(** ** Executions of [main] *)

Lemma exec_print_all ls {A} (p : mprog A) t r :
  m_exec (print_all ls ;! p) t r -> exists t', t = (shown <$> ls) ++ t' /\ m_exec p t' r.
Proof.
  revert t. induction ls as [|l ls IH]; intros t H; [by exists t|]. unfold m_exec in *. simpl in H.
  destruct H as ([] & t' & -> & H). apply IH in H as (t2 & -> & H). by exists t2.
Qed.

Lemma exec_fatal e t r : m_exec (fatal e) t r -> t = [failed e] /\ r = Some 1.
Proof. unfold m_exec. simpl. by intros ([] & t' & -> & -> & ->). Qed.

(** The events from the configuration to the question for the network, and those
    around the test. *)
Definition prologue (ps : list flagProvider) (env : Z -> start_env) : list mevent :=
  (shown <$> configuration ps) ++ [shown (LCreating (totalConns ps) (length ps)); Ev MStart env].

Definition source (f : flags) : list mevent :=
  if to_NZBReader (speed_options f) then [Ev (MOpen (nzb_path f)) None]
  else [shown (LDownloading (to_NZBURL (speed_options f)))].

Definition epilogue (file : bool) : list mevent :=
  (if file then [Ev MCloseFile tt] else []) ++ [Ev MCloseClient tt; Ev MCancel tt].

(** How an execution of the tool on its flags ends. *)
Inductive run_ends (f : flags) : list mevent -> Z -> Prop :=
| ends_no_provider : flag_providers f = None -> run_ends f [failed ENoProvider] 1
| ends_refused ps env e : flag_providers f = Some ps -> NewClient (map fp_p ps) [] env = inr e ->
    run_ends f (prologue ps env ++ [failed (ECreate e)]) 1
| ends_no_file ps env reg e : flag_providers f = Some ps -> NewClient (map fp_p ps) [] env = inl reg ->
    to_NZBReader (speed_options f) = true ->
    run_ends f (prologue ps env ++ (shown <$> [LReady; LBlank]) ++ [Ev (MOpen (nzb_path f)) (Some e); failed (EOpen e)]) 1
| ends_test ps env reg u e : flag_providers f = Some ps -> NewClient (map fp_p ps) [] env = inl reg ->
    t_exec (SpeedTest (speed_options f)) u (Some (inr e)) ->
    run_ends f (prologue ps env ++ (shown <$> [LReady; LBlank]) ++ source f ++ (embed <$> u) ++ [failed (ETest e)]) 1
| ends_ok ps env reg u res : flag_providers f = Some ps -> NewClient (map fp_p ps) [] env = inl reg ->
    t_exec (SpeedTest (speed_options f)) u (Some (inl res)) ->
    run_ends f (prologue ps env ++ (shown <$> [LReady; LBlank]) ++ source f ++ (embed <$> u) ++
                (shown <$> summary res) ++ epilogue (to_NZBReader (speed_options f))) 0.

Lemma exec_run_test opts t r : m_exec (run_test opts) t r -> exists u result,
  t_exec (SpeedTest opts) u (Some result) /\
  match result with
  | inl res => t = (embed <$> u) ++ (shown <$> summary res) ++ epilogue (to_NZBReader opts) /\ r = Some 0
  | inr e => t = (embed <$> u) ++ [failed (ETest e)] /\ r = Some 1
  end.
Proof.
  unfold run_test. intros H. unfold m_exec in H.
  apply exec_bind in H as [(t1 & t2 & result & -> & H1 & H)|[H ->]].
  2:{ apply exec_client_call in H as (u & -> & H). by destruct (exec_total _ (SpeedTest_total opts) _ _ H). }
  apply exec_client_call in H1 as (u & -> & H1). exists u, result. split; [done|]. destruct result as [res|e].
  - apply exec_print_all in H as (t' & -> & H). unfold m_exec, deferred, epilogue in *.
    destruct (to_NZBReader opts); simpl in H.
    + destruct H as ([] & ? & -> & [] & ? & -> & [] & ? & -> & -> & ->). done.
    + destruct H as ([] & ? & -> & [] & ? & -> & -> & ->). done.
  - by apply exec_fatal in H as [-> ->].
Qed.

Lemma exec_run_main f t r : m_exec (run_main f) t r -> exists code, r = Some code /\ run_ends f t code.
Proof.
  unfold run_main. intros H. destruct (flag_providers f) as [ps|] eqn:Ef.
  2:{ apply exec_fatal in H as [-> ->]. exists 1. split; [done|by constructor]. }
  apply exec_print_all in H as (t1 & -> & H). unfold m_exec in H. simpl in H. destruct H as ([] & t2 & -> & env & t3 & -> & H).
  assert (Hp : forall t, (shown <$> configuration ps) ++ Ev (MPrint (LCreating (totalConns ps) (length ps))) tt :: Ev MStart env :: t =
    prologue ps env ++ t) by (intros t; unfold prologue; by rewrite <- app_assoc). rewrite Hp. clear Hp.
  destruct (NewClient (map fp_p ps) [] env) as [reg|e] eqn:En.
  2:{ apply exec_fatal in H as [-> ->]. exists 1. split; [done|by constructor]. }
  apply (exec_print_all [LReady; LBlank]) in H as (t4 & -> & H). unfold with_nzb in H.
  assert (Hs : forall t, m_exec (run_test (speed_options f)) t r -> exists code, r = Some code /\
    run_ends f (prologue ps env ++ (shown <$> [LReady; LBlank]) ++ source f ++ t) code).
  { intros t Ht. apply exec_run_test in Ht as (u & [res|e] & Hu & -> & ->); eexists; (split; [reflexivity|]);
      by econstructor. }
  unfold source in Hs. destruct (to_NZBReader (speed_options f)) eqn:Er; unfold m_exec in H; simpl in H.
  - destruct H as ([e|] & t5 & -> & H); [|by apply (Hs t5)].
    apply exec_fatal in H as [-> ->]. exists 1. split; [done|]. by apply (ends_no_file f ps env reg).
  - destruct H as ([] & t5 & -> & H). by apply (Hs t5).
Qed.

(** The progress goroutine in the process: what it prints are reports. *)
Definition reporter (fuel : nat) (opts : SpeedTestOptions) (startStats : ClientStats) (totalSegs : Z) : mprog unit :=
  client_call (progress fuel opts startStats totalSegs).

Lemma reporter_prints fuel opts startStats totalSegs t r : m_exec (reporter fuel opts startStats totalSegs) t r ->
  Forall (fun e => match e with
    | Ev (MTest _) _ => True
    | Ev (MPrint (LProgress _ _ _ _ _ _)) _ => True
    | _ => False
    end) t.
Proof.
  intros (u & -> & _)%exec_client_call. apply Forall_fmap, Forall_true. intros [q a]. by destruct q.
Qed.

(** ** Command lines *)

(** A number without a leading zero. *)
Lemma digits_aux_head f : forall n acc, 0 < n < 10 ^ Z.of_nat f -> hd x30 (digits_aux f n acc) <> x30.
Proof.
  induction f as [|f IH]; intros n acc Hn; [simpl in Hn; lia|]. cbn [digits_aux]. fold (digit_byte (n mod 10)).
  destruct (Z.ltb_spec n 10) as [Hs|Hs].
  - rewrite Z.mod_small by lia. cbn [hd]. intros E. apply (f_equal bval) in E. rewrite digit_byte_val in E by lia.
    change (bval x30) with 48 in E. lia.
  - apply IH. rewrite Nat2Z.inj_succ, Z.pow_succ_r in Hn by lia.
    split; [apply Z.div_str_pos; lia|apply Z.div_lt_upper_bound; lia].
Qed.

Lemma based_digits_decimal ds : forall m, Forall is_digit ds -> 0 <= m -> digits_value ds m < 2 ^ 63 ->
  based_digits 10 m ds = Some (digits_value ds m).
Proof.
  induction ds as [|c ds IH]; intros m Hd Hm Hv; [done|]. apply Forall_cons_iff in Hd as [Hc Hd].
  change (digits_value (c :: ds) m) with (digits_value ds (m * 10 + (bval c - 48))) in *. pose proof Hc as [H1 H2].
  pose proof (digits_value_ge ds (m * 10 + (bval c - 48)) Hd ltac:(lia)).
  assert (Hl : letter_val c = Some (bval c - 48)) by (unfold letter_val; by rewrite digit_val_digit).
  assert (E : based_digits 10 m (c :: ds) = match letter_val c with
    | Some d => if (10 <=? d) || (2 ^ 64 - 1 <? m * 10 + d) then None else based_digits 10 (m * 10 + d) ds
    | None => None end) by (simpl; destruct c; try reflexivity; by destruct Hc).
  rewrite E, Hl, (proj2 (Z.leb_gt _ _)), (proj2 (Z.ltb_ge _ _)) by lia. apply IH; [done|lia|lia].
Qed.

(** [intValue.Set] inverts [strconv.FormatInt]. *)
Lemma int_value_format n : 0 <= n < 2 ^ 63 -> int_value (format_nat n) = Some n.
Proof.
  intros Hn. destruct (decide (n = 0)) as [->|Hz]; [reflexivity|].
  destruct (format_nat_digits n Hn) as (Hd & Hne & Hv).
  assert (Hh : hd x30 (format_nat n) <> x30).
  { unfold format_nat. apply digits_aux_head. change (10 ^ Z.of_nat 20) with 100000000000000000000. lia. }
  assert (Hu : parse_unsigned (format_nat n) = Some n).
  { assert (Hb : based (format_nat n) = (10, format_nat n)) by (destruct (format_nat n) as [|c s]; [done|]; simpl in Hh; by destruct c).
    unfold parse_unsigned. rewrite Hb, based_digits_decimal by (done || lia). rewrite Hv, bool_decide_false.
    - by destruct (format_nat n).
    - apply digits_not; [done|]. by intros []. }
  unfold int_value.
  replace (match format_nat n with x2d :: s' => (true, s') | x2b :: s' => (false, s') | _ => (false, format_nat n) end)
    with (false, format_nat n).
  - rewrite Hu. cbn [negb andb]. by rewrite (proj2 (Z.leb_gt _ _)) by lia.
  - destruct (format_nat n) as [|c s]; [done|]. apply Forall_cons_iff in Hd as [[H1 H2] _].
    destruct c; try reflexivity; by destruct H1.
Qed.

(** The command line that describes providers and the options of the test. *)
Definition command_line (ss : list settings) (nzb : bytes) (segs : Z) (name : bytes) : list bytes :=
  flat_map (fun s => [bs "--provider"; spec s]) ss ++
  [bs "-nzb"; nzb; bs "--max-segments=" ++ format_nat segs; bs "-provider-name"; name].

Definition command_flags (ss : list settings) (nzb : bytes) (segs : Z) (name : bytes) : flags :=
  mkFlags [] true [] [] 10 1 (map described ss) (str nzb) segs (str name).

(** One turn of the parser, for a value in the next argument and in the same. *)
Lemma flag_Parse_next f s v args name k : flag_word s = ArgFlag name None -> formal name = Some k -> k <> FTls ->
  flag_Parse f (s :: v :: args) = match set_flag f k v with Some f => flag_Parse f args | None => inr 2 end.
Proof. intros Hw Hk Ht. cbn [flag_Parse]. by rewrite Hw, Hk, bool_decide_false. Qed.

Lemma flag_Parse_valued f s v args name k : flag_word s = ArgFlag name (Some v) -> formal name = Some k -> k <> FTls ->
  flag_Parse f (s :: args) = match set_flag f k v with Some f => flag_Parse f args | None => inr 2 end.
Proof. intros Hw Hk Ht. cbn [flag_Parse]. rewrite Hw, Hk, bool_decide_false by done. by destruct args. Qed.

Lemma flag_Parse_providers f ss args : Forall settings_ok ss ->
  flag_Parse f (flat_map (fun s => [bs "--provider"; spec s]) ss ++ args) =
  flag_Parse (f <| fg_providers := fg_providers f ++ map described ss |>) args.
Proof.
  intros H. revert f. induction H as [|s ss Hs _ IH]; intros f; [simpl; rewrite app_nil_r; by destruct f|].
  cbn [flat_map app]. rewrite (flag_Parse_next _ _ _ _ (bs "provider") FProvider) by done. unfold set_flag. rewrite Set_described by done. rewrite IH. simpl. by rewrite <- app_assoc.
Qed.

Lemma flag_word_valued name v : (x3d ∉ name) ->
  match name with [] | x2d :: _ => False | _ => True end ->
  flag_word (bs "--" ++ name ++ bs "=" ++ v) = ArgFlag name (Some v).
Proof.
  intros He Hn. change (bs "--") with [x2d; x2d]. change (bs "=") with [x3d]. destruct name as [|c name]; [done|].
  unfold flag_word. cbn [app]. change (c :: name ++ x3d :: v) with ((c :: name) ++ [x3d] ++ v).
  pose proof (cut_at_fresh x3d [] (c :: name) v He) as Hc. change (bs "=") with [x3d].
  apply not_elem_of_cons in He as [He _]. cbn [app] in *. rewrite Hc. by destruct c.
Qed.

Lemma flag_Parse_command ss nzb segs name : Forall settings_ok ss -> 0 <= segs < 2 ^ 63 ->
  flag_Parse no_flags (command_line ss nzb segs name) = inl (command_flags ss nzb segs name).
Proof.
  intros Hs Hn. unfold command_line. rewrite flag_Parse_providers by done.
  rewrite (flag_Parse_next _ _ _ _ (bs "nzb") FNzb) by done. unfold set_flag.
  change (bs "--max-segments=" ++ format_nat segs) with (bs "--" ++ bs "max-segments" ++ bs "=" ++ format_nat segs).
  rewrite (flag_Parse_valued _ _ (format_nat segs) _ (bs "max-segments") FMaxSegments);
    [|apply flag_word_valued; [apply (bool_decide_unpack _); by vm_compute|done]|done|done].
  unfold set_flag. rewrite int_value_format by done. cbn [option_map].
  by rewrite (flag_Parse_next _ _ _ _ (bs "provider-name") FProviderName).
Qed.

(** ** Properties *)

(** Nothing reported, closed or asked of a server for an article. *)
Definition idle (e : mevent) : Prop :=
  match e with
  | Ev q _ =>
      match q with
      | MError _ | MCloseFile | MCloseClient | MCancel | MTest (TDispatch _ _ _) | MTest (TReceive _) => False
      | _ => True
      end
  end.

Lemma shown_idle ls : Forall idle (shown <$> ls).
Proof. apply Forall_fmap, Forall_true. done. Qed.

Lemma embed_idle u : dispatched u = [] -> received u = [] -> Forall idle (embed <$> u).
Proof.
  intros Hd Hr. apply Forall_fmap. induction u as [|[q a] u IH]; [constructor|].
  unfold dispatched, received in *. cbn [flat_map] in *. apply app_eq_nil in Hd as [Hq Hd]. apply app_eq_nil in Hr as [Hq' Hr].
  constructor; [|auto]. by destruct q.
Qed.

(** A run that fails says so last, and has done nothing else but look. *)
Lemma run_ends_failed f t : run_ends f t 1 -> exists t' e,
  t = t' ++ [failed e] /\ Forall idle t' /\ (e = ENoProvider -> flag_providers f = None).
Proof.
  assert (Hp : forall ps env, Forall idle (prologue ps env)).
  { intros ps env. apply Forall_app. split; [apply shown_idle|by repeat constructor]. }
  assert (Hs : Forall idle (source f)) by (unfold source; destruct (to_NZBReader _); by repeat constructor).
  inversion 1; subst.
  - by exists [], ENoProvider.
  - eexists _, _. split_and!; [reflexivity|apply Hp|done].
  - exists (prologue ps env ++ (shown <$> [LReady; LBlank]) ++ [Ev (MOpen (nzb_path f)) (Some e)]), (EOpen e).
    split_and!; [by rewrite <- !app_assoc|apply Forall_app; split; [apply Hp|simpl; by repeat constructor]|done].
  - exists (prologue ps env ++ (shown <$> [LReady; LBlank]) ++ source f ++ (embed <$> u)), (ETest e).
    match goal with H : t_exec _ _ _ |- _ => apply speedtest_exec in H as [Hd Hr] end.
    split_and!; [by rewrite <- !app_assoc|rewrite !Forall_app|done].
    split_and!; [apply Hp|apply shown_idle|done|by apply embed_idle].
Qed.

(** C39: The tool: a command line that describes providers and a test is read back as
    just those, and the process ends.  With code 0 it has set up the client for these
    providers, run the speed test they are described for to a result, printed the
    summary of that result, and then closed the file, the client and the context, in
    this order.  With code 1, the only other one, its last act is one message; it has
    then closed nothing and has not asked for any article. *)
Theorem command_line_runs ss nzb segs name t r :
  ss <> [] -> Forall settings_ok ss -> 0 <= segs < 2 ^ 63 ->
  m_exec (main (command_line ss nzb segs name)) t r ->
  let f := command_flags ss nzb segs name in
  exists code, r = Some code /\ (code = 0 \/ code = 1) /\
  (code = 0 -> exists env reg u res,
    NewClient (fp_p ∘ described <$> ss) [] env = inl reg /\
    t_exec (SpeedTest (speed_options f)) u (Some (inl res)) /\
    t = prologue (described <$> ss) env ++ (shown <$> [LReady; LBlank]) ++ source f ++ (embed <$> u) ++
        (shown <$> summary res) ++ epilogue (to_NZBReader (speed_options f))) /\
  (code = 1 -> exists t' e, t = t' ++ [failed e] /\ e <> ENoProvider /\ Forall idle t').
Proof.
  intros Hne Hs Hn H f. unfold main in H. rewrite flag_Parse_command in H by done. fold f in H.
  apply exec_run_main in H as (code & -> & H). exists code.
  assert (Hf : flag_providers f = Some (described <$> ss)) by (unfold flag_providers; simpl; by destruct ss).
  split_and!; [done|inversion H; auto|intros ->..].
  - inversion H as [| | | |ps env reg u res Hps Hnew Hu]; subst. rewrite Hf in Hps. simplify_eq.
    exists env, reg, u, res. split_and!; try done. rewrite <- Hnew. f_equal. symmetry. apply List.map_map.
  - apply run_ends_failed in H as (t' & e & -> & Hi & He). exists t', e. split_and!; try done.
    intros ->. rewrite Hf in He. by specialize (He eq_refl).
Qed.

(** ** Witnesses and departures *)

(** An environment in which everything works, and the speed test's own. *)
Definition demo_process (q : mquery) (calls : nat) : mans q * nat :=
  match q return mans q * nat with
  | MPrint _ | MError _ | MCloseFile | MCloseClient | MCancel => (tt, calls)
  | MStart => (no_env, calls)
  | MOpen _ => (None, calls)
  | MTest q => demo_env q calls
  end.

Definition demo_main (args : list bytes) : list mevent * option Z * nat :=
  run demo_process (fun (_ : Empty_set) s => ([], None, s)) (main args) 0%nat.

Lemma demo_main_exec args t r s : demo_main args = (t, r, s) -> m_exec (main args) t r.
Proof. intros H. eapply run_exec; [|exact H]. intros []. Qed.

(** A main provider for the backup of [demo_settings]. *)
Definition main_settings : settings :=
  mkSettings (bs "other.example") [] [] 4 1 0 0 0 false false.

Lemma main_settings_ok : settings_ok main_settings.
Proof.
  unfold settings_ok, main_settings. cbn [ss_host ss_user ss_pass ss_conns ss_inflight ss_idle ss_throttle ss_keepalive].
  split_and!; try lia; [discriminate|..]; split; first [fresh_key|by vm_compute].
Qed.

Definition demo_command : list bytes := command_line [demo_settings; main_settings] (bs "list.nzb") 2 [].

Lemma command_line_runs_witness : exists t env u res,
  m_exec (main demo_command) t (Some 0) /\ t_exec (SpeedTest (mkSpeedOptions "" true 2 true 0 "")) u (Some (inl res)) /\
  t = prologue [described demo_settings; described main_settings] env ++ (shown <$> [LReady; LBlank]) ++ [Ev (MOpen "list.nzb") None] ++
      (embed <$> u) ++ (shown <$> summary res) ++ [Ev MCloseFile tt; Ev MCloseClient tt; Ev MCancel tt].
Proof.
  destruct (demo_main demo_command) as [[t [code|]] s] eqn:E; [|vm_compute in E; discriminate E].
  pose proof (demo_main_exec _ _ _ _ E) as H.
  assert (code = 0) as -> by (clear H; vm_compute in E; injection E as _ <- _; reflexivity). clear E s. exists t.
  destruct (command_line_runs [demo_settings; main_settings] (bs "list.nzb") 2 [] t (Some 0)) as (code & Hc & _ & H0 & _).
  - discriminate.
  - exact (Forall_cons_2 _ _ _ demo_settings_ok (Forall_cons_2 _ _ _ main_settings_ok (Forall_nil_2 _))).
  - lia.
  - exact H.
  - injection Hc as <-. destruct (H0 eq_refl) as (env & reg & u & res & _ & Hu & Ht).
    exists env, u, res. split; [exact H|]. split; [exact Hu|exact Ht].
Defined.

(** What the process ends with, for some command lines. *)
Definition exit_code (args : list string) : option Z := snd (fst (demo_main (map bs args))).

Example exit_codes :
  exit_code [] = Some 1 /\ exit_code ["-h"%string] = Some 0 /\ exit_code ["--max-segments"%string] = Some 2 /\
  exit_code ["--tls=maybe"%string] = Some 2 /\ exit_code ["-tls=F"%string; "-host"%string; "h:119"%string] = Some 0 /\
  exit_code ["--provider"%string; "tls"%string] = Some 2 /\ exit_code ["--host=h"%string; "--conns=0x_0"%string] = Some 1 /\
  exit_code ["--host=h"%string; "--conns=0b1_0"%string] = Some 0 /\ exit_code ["--host=h"%string; "--conns=09"%string] = Some 2 /\
  exit_code ["--host=h"%string; "--"%string; "--conns=x"%string] = Some 0.
Proof. by vm_compute. Qed.

(** The statistics of the providers are printed only when there are several. *)
Theorem one_provider_summary r : (length (tr_Providers r) <= 1)%nat ->
  Forall (fun l => match l with LPerProvider | LStats _ _ _ _ _ _ => False | _ => True end) (summary r).
Proof.
  intros H. unfold summary. destruct (Nat.ltb_spec 1 (length (tr_Providers r))); [lia|]. destruct (segments_line r) as [[d m] e].
  by repeat constructor.
Qed.

(** [os.Exit] does not run deferred calls: when the test fails the client that was
    set up is not closed, nor is the file. *)
Definition test_fails (q : mquery) (calls : nat) : mans q * nat :=
  match q return mans q * nat with
  | MTest (TDecode _) => (inr (EOpaque "EOF"), calls)
  | q => demo_process q calls
  end.

Theorem failure_skips_close : exists t e,
  m_exec (main demo_command) (t ++ [failed (ETest e)]) (Some 1) /\
  Ev (MOpen "list.nzb") None ∈ t /\ shown LReady ∈ t /\ (Ev MCloseFile tt ∉ t) /\ (Ev MCloseClient tt ∉ t).
Proof.
  destruct (run test_fails (fun (_ : Empty_set) s => ([], None, s)) (main demo_command) 0%nat) as [[t r] s] eqn:E.
  pose proof E as H. eapply run_exec in H; [|intros []]. vm_compute in E.
  injection E as <- <- _.
  lazymatch type of H with exec _ _ ?tr _ =>
    let n := eval vm_compute in (pred (length tr)) in
    exists (take n tr); eexists end.
  split; [exact H|]. split_and!; [repeat first [left; reflexivity|right]..|intros Hin|intros Hin];
    cbn in Hin; repeat (apply elem_of_cons in Hin as [Hin|Hin]; [discriminate Hin|]); by apply elem_of_nil in Hin.
Qed.
